(* ===== verification/_CoqProject ===== *)
-Q . S2P
Prelude.v
Alloc.v
BaseTypes.v
AllocHooks.v
Clock.v
Bag.v
HashMap.v
Memory.v
Stack.v
Events.v
ListenerBuffer.v
TaskScheduler.v
Listeners.v
Registry.v
Timeline.v
FileDump.v
TcpServer.v
TcpListener.v
Features.v
Callstack.v
CachedString.v
MappedTracepoint.v
GlobalTimeline.v
Endian.v
Parser.v
TcpClient.v
Reader.v
Decode.v
Ownership.v
RoundTrip.v
Client.v
DebugListener.v
PythonContext.v
CallGraph.v
Callgrind.v
Profile.v
CommandLine.v
ProcUsage.v
EndToEnd.v
Convertible.v
ClientMain.v
