(* ===== verification/Prelude.v ===== *)
(** * HawkTracer: a verification of the tracing library, its parser and its client

    HawkTracer has three parts.  The C library (src/lib) is linked into the
    program that is traced: the program declares event klasses and pushes
    events to timelines; a timeline buffers them and hands batches to its
    listeners, which write them to a file or a socket, preceded by metadata
    that describe the klasses.  The parser (src/parser) reads such a stream
    back, in the byte order of either machine.  The client (src/client,
    src/client_utils) converts what was read for the Chrome trace viewer or
    for Callgrind.

    ** The files and what they model

    - [Prelude]: C integers, the state monad [ST], its weakest
      precondition [wp] with tactics, and lemmas on lists.
    - [Alloc]: lib/alloc.c over an abstract heap.  malloc and custom
      allocators are the parameter [Malloc], which may refuse any request.
    - [BaseTypes], [Memory]: base_types.h, and bounds-checked byte buffers.
    - [Bag], [HashMap], [Stack]: the containers (bag.h, hash_map.c, hash.h,
      stack.c).
    - [Events]: event klasses and the get_size and serialize functions that
      the macros generate for a declaration (event_macros.h, mkcreflect.h,
      events.c, core_events.h); [encode] is the wire format.
    - [ListenerBuffer]: listener_buffer.c, for any flush callback.
    - [TaskScheduler]: task_scheduler.c.
    - [Listeners]: mutexes and the reference-counted listener containers
      (mutex.cpp, timeline_listener.c); the state [sys] of the library.
    - [Registry]: registry.c, system_info.c, init.c.
    - [Timeline]: timeline.c and feature.h.
    - [FileDump]: listeners/file_dump_listener.c over a model of stdio.
    - [TcpServer], [TcpListener]: tcp_server.cpp and
      listeners/tcp_listener.c over the socket calls.
    - [Features]: the objects of the library's two features, thread.c;
      [Callstack]: feature_callstack.c and scoped_tracepoint.c;
      [CachedString]: feature_cached_string.c; [MappedTracepoint]:
      posix_mapped_tracepoint.c and its macro; [GlobalTimeline]:
      global_timeline.cpp and event_id_provider.cpp.
    - [AllocHooks], [ProcUsage]: the features for Linux
      (platform/linux/alloc_hooks.c, memory_usage.c, cpu_usage.c); [Clock]:
      monotonic_clock.cpp for POSIX, and duration_conversion.h.
    - [Endian]: endianness_convert.hpp.
    - [Parser]: klasses, events, the klass register, streams;
      [TcpClient]: tcp_client_stream.cpp, with its threads.
    - [Reader]: protocol_reader.cpp; [Decode] specifies how it reads one
      event, [RoundTrip] how it reads a trace; [EndToEnd] composes library
      and parser, through a file and through a connection; [Ownership] models
      the memory that events own (event.hpp, event.cpp); [DebugListener]:
      debug_event_listener.cpp; [PythonContext]: the queue of the Python
      client (bindings/python3/client_context.cpp).
    - [Client]: tracepoint maps, labels, the Chrome converter;
      [CallGraph] and [Callgrind]: the call graph and its printing;
      [Profile]: the call graph of the calls that the library reported;
      [CommandLine]: the command lines of client and library, and where a
      trace is read from; [Convertible]: which events the converters accept;
      [ClientMain]: client/main.cpp, from the command line to the files.

    ** How the model corresponds to the code

    A w-bit integer is a [Z] with its wrap-around written out.  A function
    that can fail returns the error code of the source; behaviour that C
    leaves undefined (an access out of bounds, a null pointer, a mutex that
    is unlocked by mistake) is [Undef] in [ST], and so are exceptions nobody
    catches; a loop that is given too little fuel is [NoFuel].  [wp m Q s]
    excludes [Undef] and [NoFuel]: a theorem stated with it says that the
    code returns and is defined.  Objects that are shared (containers, tasks,
    graph nodes) live in stores indexed by address; objects with one owner
    (a timeline, a listener, a bag) are threaded as values whose blocks are
    accounted for in the heap.  Callbacks, the clock, the contents of files,
    the order in which a hash table enumerates its entries and the sort of
    the standard library are type classes with the laws the code relies on.
    So are the sockets: [Sockets] says what the calls of the server answer,
    and the state has which descriptors are open; [Desktop] says for the client
    whether a socket can be made, which attempts to connect are answered, what
    arrives on the connection and whether its end is seen, and when Enter is hit.

    ** What the theorems show

    - The way of an event: what is pushed is delivered to every listener, in
      order and completely (Timeline, Listeners, ListenerBuffer), in the wire
      format (Events), after the metadata (Registry), and ends up in the file
      (FileDump) or at every client (TcpServer, TcpListener); the parser reads
      it back with its klass and its values (RoundTrip, Endian), from the file
      or from the connection (EndToEnd), and the client's program writes the
      document or the profiles of what was traced (ClientMain).  Batches may be
      serialised or not; each theorem says which events have to fit the
      buffers, and where it needs the disk, the connection or the memory to be
      reliable.
    - The features: the calls of a thread are reported with their labels and
      durations and nest (Callstack), labels are announced once (CachedString),
      and the client's call graph is the nesting of the calls (Profile).
    - Threads of the TCP stream: what the reader gets does not depend on the
      interleaving, and bytes that have arrived are handed out in every fair
      execution (TcpClient).
    - Life cycles: timelines, listeners, containers, servers, features,
      schedulers, maps, bags and stacks release all they allocate, exactly
      once; events of the parser own their strings and nested events, whatever
      is copied, moved and merged (Ownership); most theorems hold when the
      allocator may refuse any request, and the others say that they assume
      memory ([generous]).
    - Data structures refine their abstract counterparts: a bag a list, a
      hash map a finite map, the stack a list of frames, the call graph the
      nesting of intervals, the labels of the client a finite map.
    - Loops terminate: ticks of the scheduler, the greatest common divisor,
      reading a stream, loading maps, printing a graph, writing to clients,
      allocations with hooks that use the functions meant for hooks
      (AllocHooks).
    - What the system says: the numbers of /proc are found whatever the name
      of the program is and within the bytes that are read (ProcUsage).
    - Where the code goes wrong, the theorems say exactly when: a bag of
      elements larger than a pointer is overrun when it grows, unserialised
      events and metadata can be written past their buffers, a second
      ht_init loses the klasses, a failed schedule leaks, a TCP listener
      cannot be stopped, a client that is added between two flushes of a push
      starts inside a batch, sockets are not closed, the end of a connection and
      that of the reader can be missed, a client whose server does not answer, or
      whose connection stays open and idle, cannot be ended, some errors are not
      checked.

    ** Fuel

    Recursion that is not structural takes fuel: the buffer loops one unit
    per byte or event, a tick one per task, the reader one per event, the
    printing of a graph one per event of the thread, strings one per byte,
    structures and base klasses one per level of nesting.  Each theorem
    states the bound it needs and concludes that it suffices.

    ** What is not modelled

    Interleavings other than those of the threads of the TCP stream
    ([TcpClient.exec]), of the reader with the main thread that stops it and
    waits for it ([ClientMain.wait_step]), and of a client that joins a
    listener while a push flushes ([TcpListener.tcp_listener_greet]): the library
    is modelled for one thread at a time, with its mutexes (the accepting thread
    of the server as iterations between the calls of its owner), the parser's
    thread as one run of its body, which stop() cuts off after any number of
    events ([Reader.start_and_stop]).  The clock is a parameter.  The offsets of
    fields are computed by the usual rules of alignment; no property is
    about a particular one.  The variants for Windows, and
    for compilers without C++11 where there is one with it, because the code is
    modelled as it is built for Linux.  Usage texts and messages on standard
    error.  The functions for Python that pass their arguments on, the
    benchmarks and the examples, which only call the library. *)
From Stdlib Require Export ZArith Lia.
From stdpp Require Export base numbers option strings gmap list.

Open Scope Z_scope.

(** ** C integers

    A w-bit unsigned integer is a [Z] in [0, 2^w); the arithmetic of the
    code is the arithmetic of [Z] followed by one of these wrap-arounds. *)

Definition u8 (x : Z) : Z := x mod 2 ^ 8.
Definition u32 (x : Z) : Z := x mod 2 ^ 32.
Definition u64 (x : Z) : Z := x mod 2 ^ 64.

Lemma u64_small x : 0 <= x < 2 ^ 64 -> u64 x = x.
Proof. apply Z.mod_small. Qed.

Lemma u32_small x : 0 <= x < 2 ^ 32 -> u32 x = x.
Proof. apply Z.mod_small. Qed.

Lemma u64_range x : 0 <= u64 x < 2 ^ 64.
Proof. apply Z.mod_pos_bound; lia. Qed.

Lemma u32_range x : 0 <= u32 x < 2 ^ 32.
Proof. apply Z.mod_pos_bound; lia. Qed.

(** [i--; i++] on a size_t leaves the value unchanged, also at 0. *)
Lemma u64_pred_succ x : 0 <= x < 2 ^ 64 -> u64 (u64 (x - 1) + 1) = x.
Proof.
  intros Hx. unfold u64. rewrite Z.add_mod_idemp_l by lia.
  replace (x - 1 + 1) with x by lia. by apply Z.mod_small.
Qed.

(** ** Outcomes and the state monad of C code

    [Undef] is C's undefined behaviour (an access outside its block, a
    read of an indeterminate value, a failed assertion, a free of a
    pointer that is not live ...); [NoFuel] is a loop cut off by the
    fuel of the model. *)

Inductive outcome (A : Type) : Type :=
| Done (a : A)
| Undef
| NoFuel.
Arguments Done {A} _.
Arguments Undef {A}.
Arguments NoFuel {A}.

Definition ST (S A : Type) : Type := S -> outcome (A * S).

#[export] Instance st_ret {S} : MRet (ST S) := fun A a s => Done (a, s).
#[export] Instance st_bind {S} : MBind (ST S) := fun A B f m s =>
  match m s with
  | Done (a, s') => f a s'
  | Undef => Undef
  | NoFuel => NoFuel
  end.

Definition undef {S A} : ST S A := fun _ => Undef.
Definition nofuel {S A} : ST S A := fun _ => NoFuel.
Definition get {S} : ST S S := fun s => Done (s, s).
Definition put {S} (s : S) : ST S () := fun _ => Done ((), s).
Definition gets {S A} (f : S -> A) : ST S A := fun s => Done (f s, s).
Definition modify {S} (f : S -> S) : ST S () := fun s => Done ((), f s).

(** A value that has to be there: [None] is undefined behaviour. *)
Definition some_or_undef {S A} (o : option A) : ST S A :=
  match o with Some a => mret a | None => undef end.

(** A condition that has to hold: [assert] of the code, or the bounds of
    an access. *)
Definition require {S} (b : bool) : ST S () := if b then mret () else undef.

(** ** A total program logic

    [wp m Q s]: started in [s], [m] returns (no undefined behaviour, no
    exhausted fuel) and its result and final state satisfy [Q]. *)

Definition wp {S A} (m : ST S A) (Q : A -> S -> Prop) (s : S) : Prop :=
  match m s with
  | Done (a, s') => Q a s'
  | Undef | NoFuel => False
  end.

Section wp.
Context {S : Type}.
Implicit Types s : S.

Lemma wp_ret {A} (a : A) Q s : Q a s -> wp (mret a) Q s.
Proof. done. Qed.

Lemma wp_bind {A B} (m : ST S A) (f : A -> ST S B) Q s :
  wp m (fun a s' => wp (f a) Q s') s -> wp (m ≫= f) Q s.
Proof. unfold wp, mbind, st_bind. by destruct (m s) as [[??]| |]. Qed.

Lemma wp_bind_inv {A B} (m : ST S A) (f : A -> ST S B) Q s :
  wp (m ≫= f) Q s -> wp m (fun a s' => wp (f a) Q s') s.
Proof. unfold wp, mbind, st_bind. by destruct (m s) as [[??]| |]. Qed.

Lemma wp_mono {A} (m : ST S A) (P Q : A -> S -> Prop) s :
  wp m P s -> (forall a s', P a s' -> Q a s') -> wp m Q s.
Proof. unfold wp. destruct (m s) as [[??]| |]; eauto. Qed.

(** The cut rule used at every call: the callee's specification, then
    the continuation. *)
Lemma wp_call {A B} (m : ST S A) (f : A -> ST S B) P Q s :
  wp m P s -> (forall a s', P a s' -> wp (f a) Q s') -> wp (m ≫= f) Q s.
Proof. intros Hm Hf. apply wp_bind. by eapply wp_mono. Qed.

Lemma wp_get Q s : Q s s -> wp get Q s.
Proof. done. Qed.

Lemma wp_gets {A} (f : S -> A) Q s : Q (f s) s -> wp (gets f) Q s.
Proof. done. Qed.

Lemma wp_put t Q s : Q tt t -> wp (put t) Q s.
Proof. done. Qed.

Lemma wp_modify (f : S -> S) Q s : Q tt (f s) -> wp (modify f) Q s.
Proof. done. Qed.

Lemma wp_some {A} (o : option A) a Q s :
  o = Some a -> Q a s -> wp (some_or_undef o) Q s.
Proof. by intros ->. Qed.

Lemma wp_require b (Q : () -> S -> Prop) s : b = true -> Q tt s -> wp (require b) Q s.
Proof. by intros ->. Qed.

Lemma wp_done {A} (m : ST S A) Q s a s' : m s = Done (a, s') -> Q a s' -> wp m Q s.
Proof. unfold wp. by intros ->. Qed.

Lemma wp_inv {A} (m : ST S A) Q s :
  wp m Q s -> exists a s', m s = Done (a, s') /\ Q a s'.
Proof. unfold wp. destruct (m s) as [[a s']| |]; [eauto|done|done]. Qed.

Lemma ret_bind {A B} (a : A) (f : A -> ST S B) : (mret a ≫= f) = f a.
Proof. done. Qed.

Lemma some_bind {A B} (a : A) (f : A -> ST S B) : (some_or_undef (Some a) ≫= f) = f a.
Proof. done. Qed.

Lemma bind_done {A B} (m : ST S A) (f : A -> ST S B) s a s' :
  m s = Done (a, s') -> (m ≫= f) s = f a s'.
Proof. unfold mbind, st_bind. by intros ->. Qed.

Lemma bind_undef {A B} (m : ST S A) (f : A -> ST S B) s :
  m s = Undef -> (m ≫= f) s = Undef.
Proof. unfold mbind, st_bind. by intros ->. Qed.
End wp.

(** A part of a bigger state, and the operations of that part run on the
    whole. *)
Class Lens (S T : Type) := {
  view : S -> T;
  update : T -> S -> S;
  view_update t s : view (update t s) = t;
  update_view s : update (view s) s = s;
  update_update t t' s : update t (update t' s) = update t s
}.

Definition zoom {S T A} `{Lens S T} (m : ST T A) : ST S A := fun s =>
  match m (view s) with
  | Done (a, t) => Done (a, update t s)
  | Undef => Undef
  | NoFuel => NoFuel
  end.

Lemma wp_zoom {S T A} `{Lens S T} (m : ST T A) Q (s : S) :
  wp m (fun a t => Q a (update t s)) (view s) -> wp (zoom m) Q s.
Proof. unfold wp, zoom. by destruct (m (view s)) as [[??]| |]. Qed.

(** One step of symbolic execution: simple commands are executed, binds
    are sequenced; calls are left to [wp_call] with the callee's lemma. *)
Ltac wp_step :=
  lazymatch goal with
  | |- wp (mbind _ _) _ _ => apply wp_bind
  | |- wp (mret _) _ _ => apply wp_ret
  | |- wp get _ _ => apply wp_get
  | |- wp (gets _) _ _ => apply wp_gets
  | |- wp (put _) _ _ => apply wp_put
  | |- wp (modify _) _ _ => apply wp_modify
  | |- wp (zoom _) _ _ => apply wp_zoom
  end; cbn beta iota.
Ltac wp_steps := repeat wp_step.

(** Partial correctness: [Q] holds if [m] returns.  What an operation never
    touches is shown without the preconditions that make it return, and
    joined to its specification by [wp_and].  The database [facts] holds what
    is known of callees. *)
Definition wlp {S A} (m : ST S A) (Q : A -> S -> Prop) (s : S) : Prop :=
  match m s with Done (a, s') => Q a s' | Undef | NoFuel => True end.

Create HintDb facts.

Section wlp.
Context {S : Type}.
Implicit Types s : S.

Lemma wp_and {A} (m : ST S A) P Q s : wp m P s -> wlp m Q s -> wp m (fun a s' => P a s' /\ Q a s') s.
Proof. unfold wp, wlp. by destruct (m s) as [[??]| |]. Qed.

Lemma wp_wlp {A} (m : ST S A) Q s : wp m Q s -> wlp m Q s.
Proof. unfold wp, wlp. by destruct (m s) as [[??]| |]. Qed.

Lemma wlp_ret {A} (a : A) Q s : Q a s -> wlp (mret a) Q s.
Proof. done. Qed.

Lemma wlp_bind {A B} (m : ST S A) (f : A -> ST S B) Q s :
  wlp m (fun a s' => wlp (f a) Q s') s -> wlp (m ≫= f) Q s.
Proof. unfold wlp, mbind, st_bind. by destruct (m s) as [[??]| |]. Qed.

Lemma wlp_mono {A} (m : ST S A) (P Q : A -> S -> Prop) s :
  wlp m P s -> (forall a s', P a s' -> Q a s') -> wlp m Q s.
Proof. unfold wlp. destruct (m s) as [[??]| |]; eauto. Qed.

Lemma wlp_any {A} (m : ST S A) (Q : A -> S -> Prop) s : (forall a s', Q a s') -> wlp m Q s.
Proof. unfold wlp. destruct (m s) as [[??]| |]; eauto. Qed.
End wlp.

Ltac wlp_step :=
  lazymatch goal with
  | |- wlp (mbind _ _) _ _ => apply wlp_bind
  | |- wlp (mret _) _ _ => apply wlp_ret
  | |- wlp (if decide _ then _ else _) _ _ => case_decide
  | |- wlp (if ?b then _ else _) _ _ => destruct b
  | |- wlp _ _ _ => first [eapply wlp_mono; [solve [eauto with facts nocore]|] | apply wlp_any]
  | |- forall a : (_ * _)%type, _ => intros [??]
  | |- forall _, _ => intros ?
  end; cbn beta iota zeta in *.
Ltac wlp_steps := repeat wlp_step.

(** ** Lists *)

(** Blocks of a concatenation that are told apart by a function of their
    elements share no element. *)
Lemma NoDup_bind_class {A B} (f : A -> list B) (class : B -> nat) (l : list A) (o : nat) :
  (forall i x, l !! i = Some x -> NoDup (f x) /\ forall y, y ∈ f x -> class y = (o + i)%nat) ->
  NoDup (l ≫= f).
Proof.
  revert o. induction l as [|x l IH]; intros o Hl; simpl; [constructor|].
  apply NoDup_app. split_and!.
  - by apply (Hl 0%nat x).
  - intros y Hy Hin. apply list_elem_of_bind in Hin as (z&Hyz&Hz).
    apply list_elem_of_lookup in Hz as [i Hi].
    destruct (Hl 0%nat x eq_refl) as [_ H0]. destruct (Hl (S i) z Hi) as [_ Hi'].
    specialize (H0 y Hy). specialize (Hi' y Hyz). lia.
  - apply (IH (S o)). intros i y Hi. destruct (Hl (S i) y Hi) as [? Hc].
    split; [done|]. intros z Hz. rewrite (Hc z Hz). lia.
Qed.

Lemma bind_fmap_list {A B C} (f : A -> list B) (g : B -> C) (l : list A) :
  g <$> (l ≫= f) = l ≫= (fun x => g <$> f x).
Proof. induction l as [|x l IH]; [done|]. by rewrite !bind_cons, fmap_app, IH. Qed.
