(* ===== verification/Alloc.v ===== *)
(** The allocator of the library (lib/alloc.c) over an abstract heap.

    The heap records which blocks are live and how many bytes each has;
    the contents of a block are kept by the structure that owns it.  The
    C allocator, and a custom one installed by [ht_allocator_set], are not
    code of the library: they are the parameter [pick] of the class
    [Malloc], which may refuse any request and otherwise returns the
    address of a block that is not live. *)
From S2P Require Import Prelude.

(** Addresses; 0 is the null pointer. *)
Abbreviation ptr := Z (only parsing).
Definition NULL : ptr := 0.

(** An allocation function: the C library's ([None]) or the custom
    function at an address, with its user data. *)
Definition allocator : Type := option (ptr * ptr).

Class Malloc := {
  (** The answer to the [n]-th request, for [size] bytes, with the given
      blocks live: an address, or [None] when the request fails. *)
  pick : allocator -> nat -> gmap ptr Z -> Z -> option ptr;
  pick_fresh who n live size p :
    pick who n live size = Some p -> p <> NULL /\ live !! p = None;
  (** No object is larger than PTRDIFF_MAX. *)
  pick_size who n live size p :
    pick who n live size = Some p -> size < 2 ^ 63
}.

Record heap := Heap {
  blocks : gmap ptr Z;          (* live blocks and their sizes in bytes *)
  requests : nat;               (* allocation requests served so far *)
  realloc_fnc_ : ptr;           (* static realloc_function realloc_fnc_ *)
  user_data_ : ptr              (* static void* user_data_ *)
}.

Definition set_blocks (f : gmap ptr Z -> gmap ptr Z) (h : heap) : heap :=
  {| blocks := f (blocks h); requests := requests h;
     realloc_fnc_ := realloc_fnc_ h; user_data_ := user_data_ h |}.

Definition tick_request (h : heap) : heap :=
  {| blocks := blocks h; requests := S (requests h);
     realloc_fnc_ := realloc_fnc_ h; user_data_ := user_data_ h |}.

(** The heap of a process before the first allocation. *)
Definition empty_heap : heap :=
  {| blocks := ∅; requests := 0; realloc_fnc_ := NULL; user_data_ := NULL |}.

Section alloc.
  Context `{Malloc}.

(** malloc and the three roles of a [realloc_function] (alloc.h): with a
    null pointer it allocates, with size 0 it frees, otherwise it
    reallocates. *)
Definition os_malloc (who : allocator) (size : Z) : ST heap ptr := fun h =>
  match pick who (requests h) (blocks h) size with
  | Some p => Done (p, tick_request (set_blocks <[p := size]> h))
  | None => Done (NULL, tick_request h)
  end.

Definition os_free (p : ptr) : ST heap () := fun h =>
  if decide (p = NULL) then Done ((), h)
  else match blocks h !! p with
       | Some _ => Done ((), set_blocks (delete p) h)
       | None => Undef
       end.

(** A failed reallocation leaves the old block as it was; a successful
    one releases it, and may return its address again. *)
Definition os_realloc (who : allocator) (p : ptr) (size : Z) : ST heap ptr := fun h =>
  if decide (p = NULL) then os_malloc who size h
  else if decide (size = 0) then Undef
  else match blocks h !! p with
       | None => Undef
       | Some _ =>
           match pick who (requests h) (delete p (blocks h)) size with
           | Some q => Done (q, tick_request (set_blocks (fun b => <[q := size]> (delete p b)) h))
           | None => Done (NULL, tick_request h)
           end
       end.

Definition custom_realloc (fnc user_data : ptr) (p : ptr) (size : Z) : ST heap ptr :=
  if decide (p = NULL) then os_malloc (Some (fnc, user_data)) size
  else if decide (size = 0) then (os_free p;; mret NULL)
  else os_realloc (Some (fnc, user_data)) p size.

Definition ht_allocator_set (func user_data : ptr) : ST heap () := modify (fun h =>
  {| blocks := blocks h; requests := requests h;
     realloc_fnc_ := func; user_data_ := user_data |}).

Definition ht_alloc (size : Z) : ST heap ptr :=
  h ← get;
  if decide (realloc_fnc_ h = NULL) then os_malloc None size
  else custom_realloc (realloc_fnc_ h) (user_data_ h) NULL size.

Definition ht_realloc (p : ptr) (size : Z) : ST heap ptr :=
  h ← get;
  if decide (realloc_fnc_ h = NULL) then os_realloc None p size
  else custom_realloc (realloc_fnc_ h) (user_data_ h) p size.

Definition ht_free (p : ptr) : ST heap () :=
  h ← get;
  if decide (realloc_fnc_ h = NULL) then os_free p
  else custom_realloc (realloc_fnc_ h) (user_data_ h) p 0;; mret tt.

(** [h'] is [h] after some allocation requests, with [live] as its live
    blocks; the installed allocator is untouched. *)
Definition heap_with (h : heap) (live : gmap ptr Z) (h' : heap) : Prop :=
  blocks h' = live /\ realloc_fnc_ h' = realloc_fnc_ h /\ user_data_ h' = user_data_ h.

Lemma heap_with_refl h : heap_with h (blocks h) h.
Proof. done. Qed.

Lemma heap_with_trans h1 h2 h3 l2 l3 :
  heap_with h1 l2 h2 -> heap_with h2 l3 h3 -> heap_with h1 l3 h3.
Proof. intros (?&?&?) (?&?&?). unfold heap_with. intuition congruence. Qed.

Lemma ht_alloc_spec size h (Q : ptr -> heap -> Prop) :
  (forall h', heap_with h (blocks h) h' -> Q NULL h') ->
  (forall p h', p <> NULL -> size < 2 ^ 63 -> blocks h !! p = None ->
     heap_with h (<[p := size]> (blocks h)) h' -> Q p h') ->
  wp (ht_alloc size) Q h.
Proof.
  intros Hfail Hok. unfold ht_alloc. wp_steps.
  case_decide; unfold custom_realloc, os_malloc, wp; simpl;
    destruct (pick _ _ _ _) eqn:E.
  1,3: pose proof (pick_size _ _ _ _ _ E); apply pick_fresh in E as [??]; by apply Hok.
  all: by apply Hfail.
Qed.

(** A size the allocator never refuses. *)
Definition granted (size : Z) : Prop := forall who n live, is_Some (pick who n live size).

Lemma ht_alloc_granted size h (Q : ptr -> heap -> Prop) :
  granted size ->
  (forall p h', p <> NULL -> size < 2 ^ 63 -> blocks h !! p = None ->
     heap_with h (<[p := size]> (blocks h)) h' -> Q p h') ->
  wp (ht_alloc size) Q h.
Proof.
  intros Hg Hok. unfold ht_alloc. wp_steps.
  case_decide; unfold custom_realloc, os_malloc, wp; simpl.
  1: destruct (Hg None (requests h) (blocks h)) as [p E].
  2: destruct (Hg (Some (realloc_fnc_ h, user_data_ h)) (requests h) (blocks h)) as [p E].
  all: rewrite E; pose proof (pick_size _ _ _ _ _ E); apply pick_fresh in E as [??]; by apply Hok.
Qed.

(** And a size that it always refuses. *)
Definition refused (size : Z) : Prop := forall who n live, pick who n live size = None.

Lemma ht_alloc_refused size h : refused size -> exists h', ht_alloc size h = Done (NULL, h') /\ heap_with h (blocks h) h'.
Proof.
  intros Hr. unfold ht_alloc, mbind, st_bind, get. case_decide; unfold custom_realloc, os_malloc; simpl; rewrite Hr; by eexists.
Qed.

Lemma ht_realloc_spec p size old h (Q : ptr -> heap -> Prop) :
  p <> NULL -> 0 < size -> blocks h !! p = Some old ->
  (forall h', heap_with h (blocks h) h' -> Q NULL h') ->
  (forall q h', q <> NULL -> size < 2 ^ 63 -> delete p (blocks h) !! q = None ->
     heap_with h (<[q := size]> (delete p (blocks h))) h' -> Q q h') ->
  wp (ht_realloc p size) Q h.
Proof.
  intros Hp Hs Hl Hfail Hok. unfold ht_realloc. wp_steps.
  unfold custom_realloc, os_realloc, wp.
  repeat case_decide; try lia; rewrite Hl; destruct (pick _ _ _ _) eqn:E.
  1,3: pose proof (pick_size _ _ _ _ _ E); apply pick_fresh in E as [??]; by apply Hok.
  all: by apply Hfail.
Qed.

(** An allocator that never runs out of memory. *)
Definition generous : Prop := forall size, size < 2 ^ 63 -> granted size.

Lemma ht_realloc_generous p size h :
  generous -> size < 2 ^ 63 -> wlp (ht_realloc p size) (fun q _ => q = NULL -> size = 0) h.
Proof.
  intros Hg Hs. unfold ht_realloc, custom_realloc, os_realloc, os_malloc, wlp, mbind, st_bind, get.
  repeat case_decide; try done; try (destruct (os_free p h) as [[??]| |]; [|exact I|exact I]; intros _; assumption); try (destruct (blocks h !! p); [|done]).
  all: match goal with |- context [pick ?who ?n ?live ?k] => destruct (Hg k Hs who n live) as [q E] end.
  all: rewrite E; apply pick_fresh in E as [? _]; done.
Qed.

Lemma ht_free_spec p old h (Q : () -> heap -> Prop) :
  p <> NULL -> blocks h !! p = Some old ->
  (forall h', heap_with h (delete p (blocks h)) h' -> Q tt h') ->
  wp (ht_free p) Q h.
Proof.
  intros Hp Hl Hok. unfold ht_free. wp_steps.
  unfold custom_realloc, os_free, wp, mbind, st_bind.
  repeat case_decide; try lia; rewrite Hl; by apply Hok.
Qed.

End alloc.

(** A concrete allocator: the first free address above every live one,
    refusing the requests that [policy] refuses. *)
Definition next_address (live : gmap ptr Z) : ptr :=
  map_fold (fun p _ acc => p `max` acc) 0 live + 16.

Lemma next_address_fresh live : live !! next_address live = None.
Proof.
  destruct (live !! next_address live) eqn:E; [|done].
  enough (next_address live <= map_fold (fun p _ acc => p `max` acc) 0 live)
    by (unfold next_address in *; lia).
  revert E. generalize (next_address live) as a.
  apply (map_fold_weak_ind (fun r (m : gmap ptr Z) => forall a, m !! a = Some z -> a <= r)).
  - intros a. by rewrite lookup_empty.
  - intros i x m r Hi IH a. rewrite lookup_insert. case_decide; intros; [lia|].
    specialize (IH _ H0). lia.
Qed.

Lemma next_address_pos live : 0 < next_address live.
Proof.
  unfold next_address.
  enough (0 <= map_fold (fun p _ acc => p `max` acc) 0 live) by lia.
  apply (map_fold_weak_ind (fun r (_ : gmap ptr Z) => 0 <= r)); intros; lia.
Qed.

#[refine] Definition bump_malloc (policy : nat -> Z -> bool) : Malloc := {|
  pick _ n live size := if policy n size && (size <? 2 ^ 63) then Some (next_address live) else None
|}.
Proof.
  - intros who n live size p. destruct (_ && _); [|done].
    intros [= <-]. split; [|apply next_address_fresh].
    pose proof (next_address_pos live). unfold NULL. lia.
  - intros who n live size p. destruct (policy n size); simpl; [|done].
    destruct (Z.ltb_spec size (2 ^ 63)); done.
Defined.

(** The blocks [l'] are the blocks [l] with the block at [p] replaced by
    one at [q] (which may be the same address). *)
Definition replaced (p q : ptr) (l l' : gmap ptr Z) : Prop :=
  delete q l' = delete p l /\ delete p l !! q = None.

Lemma replaced_same p l : replaced p p l l.
Proof. split; [done|]. apply lookup_delete_eq. Qed.

Lemma replaced_insert p q n l :
  delete p l !! q = None -> replaced p q l (<[q := n]> (delete p l)).
Proof. intros Hq. split; [|done]. by rewrite delete_insert_id. Qed.

Lemma replaced_other p q l l' r :
  replaced p q l l' -> r <> p -> is_Some (l !! r) -> r <> q /\ l' !! r = l !! r.
Proof.
  intros [Hd Hq] Hr Hl. rewrite <- (lookup_delete_ne l p r) in Hl |- * by done.
  assert (r <> q) by (intros ->; rewrite Hq in Hl; by destruct Hl).
  split; [done|]. by rewrite <- Hd, lookup_delete_ne.
Qed.

Lemma replaced_trans p q r l1 l2 l3 :
  replaced p q l1 l2 -> replaced q r l2 l3 -> replaced p r l1 l3.
Proof. intros [H1 H2] [H3 H4]. rewrite H1 in H3, H4. done. Qed.

(** The owner of the blocks [P] in [l] owns the blocks [P'] in [l']; all
    other blocks are as before and none has been lost or leaked. *)
Definition frame (P P' : list ptr) (l l' : gmap ptr Z) : Prop :=
  (forall r, r ∉ P -> is_Some (l !! r) -> (r ∉ P') /\ l' !! r = l !! r) /\
  (forall r, r ∉ P' -> is_Some (l' !! r) -> (r ∉ P) /\ is_Some (l !! r)).

Lemma frame_refl P l : frame P P l l.
Proof. by split. Qed.

Lemma frame_trans P1 P2 P3 l1 l2 l3 :
  frame P1 P2 l1 l2 -> frame P2 P3 l2 l3 -> frame P1 P3 l1 l3.
Proof.
  intros [A1 A2] [B1 B2]. split; intros r Hr Hl.
  - destruct (A1 r Hr Hl) as [? E]. rewrite <- E in Hl |- *. auto.
  - destruct (B2 r Hr Hl). auto.
Qed.

Lemma replaced_frame p q l l' :
  replaced p q l l' -> frame [p] [q] l l'.
Proof.
  intros [E Hq]. split; intros r Hr Hl; rewrite list_elem_of_singleton in *.
  - by apply (replaced_other p q l l').
  - rewrite <- (lookup_delete_ne l' q r), E in Hl by done.
    destruct (decide (r = p)) as [->|Hn]; [rewrite lookup_delete_eq in Hl; by destruct Hl|].
    by rewrite lookup_delete_ne in Hl by done.
Qed.

(** A part of what is owned changes. *)
Lemma frame_app P1 P2 P P' l l' :
  frame P P' l l' -> (forall r, r ∈ P1 ++ P2 -> (r ∉ P) /\ is_Some (l !! r)) ->
  frame (P1 ++ P ++ P2) (P1 ++ P' ++ P2) l l' /\
  (forall r, r ∈ P1 ++ P2 -> (r ∉ P') /\ l' !! r = l !! r).
Proof.
  intros [A1 A2] Hown. split.
  - split; intros r Hr Hl; rewrite !elem_of_app in *.
    + destruct (A1 r) as [??]; [tauto|done|]. split; [tauto|done].
    + destruct (A2 r) as [??]; [tauto|done|]. split; [tauto|done].
  - intros r Hr. destruct (Hown r Hr). by apply A1.
Qed.

Lemma frame_cons r P P' l l' :
  frame P P' l l' -> r ∉ P -> is_Some (l !! r) ->
  frame (r :: P) (r :: P') l l' /\ (r ∉ P') /\ l' !! r = l !! r.
Proof.
  intros Hf Hr Hl. destruct (frame_app [r] [] P P' l l' Hf) as [Hf' Hk].
  { intros q ->%list_elem_of_singleton. done. }
  rewrite !app_nil_r in Hf'. destruct (Hk r) as [??]; [apply list_elem_of_singleton; done|]. by split_and!.
Qed.

(** Blocks that are owned and left alone. *)
Lemma frame_keep K P P' l l' :
  frame P P' l l' -> Forall (fun r => is_Some (l !! r) /\ r ∉ P) K -> frame (K ++ P) (K ++ P') l l'.
Proof.
  intros Hf HK. destruct (frame_app K [] P P' l l' Hf) as [Hf' _].
  { intros r Hr. rewrite app_nil_r in Hr. rewrite Forall_forall in HK. by destruct (HK r Hr). }
  by rewrite !app_nil_r in Hf'.
Qed.

(** Only the set of owned blocks matters. *)
Lemma frame_perm P P' Q Q' l l' :
  P ≡ₚ Q -> P' ≡ₚ Q' -> frame P P' l l' -> frame Q Q' l l'.
Proof. intros HP HP' [A B]. split; intros r; rewrite <- HP, <- HP'; auto. Qed.

#[export] Instance frame_proper : Proper ((≡ₚ) ==> (≡ₚ) ==> (=) ==> (=) ==> iff) frame.
Proof. intros P Q HP P' Q' HP' l _ <- l' _ <-. split; by apply frame_perm. Qed.

Lemma frame_insert P p n l : l !! p = None -> frame P (p :: P) l (<[p := n]> l).
Proof.
  intros Hp. split; intros r; rewrite elem_of_cons; intros Hr Hl.
  - assert (r <> p) by (intros ->; rewrite Hp in Hl; by destruct Hl).
    split; [tauto|]. by rewrite lookup_insert_ne.
  - rewrite lookup_insert_ne in Hl by (intros ->; tauto). tauto.
Qed.

Lemma frame_delete P p l : frame (p :: P) P l (delete p l).
Proof.
  split; intros r; rewrite elem_of_cons; intros Hr Hl.
  - split; [tauto|]. rewrite lookup_delete_ne; [done|]. intros ->; tauto.
  - destruct (decide (r = p)) as [->|Hn]; [rewrite lookup_delete_eq in Hl; by destruct Hl|].
    rewrite lookup_delete_ne in Hl by done. tauto.
Qed.

(** Nothing owned before, nothing owned after: the heap is as it was. *)
Lemma frame_nil l l' : frame [] [] l l' -> l' = l.
Proof.
  intros [A1 A2]. apply map_eq. intros r.
  destruct (l !! r) as [n|] eqn:E.
  - destruct (A1 r) as [_ ->]; [apply not_elem_of_nil|eauto|done].
  - destruct (l' !! r) eqn:E'; [|done]. destruct (A2 r) as [_ [? ?]]; [apply not_elem_of_nil|eauto|congruence].
Qed.

Lemma replaced_frame2 p p' q q' l l1 l2 :
  replaced p p' l l1 -> replaced q q' l1 l2 -> q <> p -> is_Some (l !! q) ->
  p' <> NULL -> is_Some (l1 !! p') -> frame [p; q] [p'; q'] l l2 /\ p' <> q'.
Proof.
  intros H1 H2 Hne Hq Hn Hp'.
  destruct (replaced_other _ _ _ _ q H1 Hne Hq) as [Hqp' Hq1].
  destruct (replaced_other _ _ _ _ p' H2 (not_eq_sym Hqp') Hp') as [? _].
  split; [|done]. apply (frame_trans _ [p'; q] _ _ l1).
  - apply (frame_app [] [q] [p] [p'] l l1); [by apply replaced_frame|].
    intros r Hr. apply list_elem_of_singleton in Hr as ->. by rewrite list_elem_of_singleton.
  - apply (frame_app [p'] [] [q] [q'] l1 l2); [by apply replaced_frame|].
    intros r Hr. apply list_elem_of_singleton in Hr as ->. rewrite list_elem_of_singleton.
    split; [by apply not_eq_sym|done].
Qed.

Definition always_granted : Malloc := bump_malloc (fun _ _ => true).

Lemma always_generous : @generous always_granted.
Proof.
  intros n Hn who k l. unfold pick, always_granted, bump_malloc. simpl. destruct (Z.ltb_spec n (2 ^ 63)); [by eexists|lia].
Qed.
