(* ===== verification/BaseTypes.v ===== *)
(** Types and constants shared by the whole library
    (lib/include/hawktracer/base_types.h and macros.h). *)
From S2P Require Import Prelude.

Inductive HT_ErrorCode :=
| HT_ERR_OK
| HT_ERR_UNKNOWN
| HT_ERR_OUT_OF_MEMORY
| HT_ERR_FEATURE_ALREADY_REGISTERED
| HT_ERR_FEATURE_NOT_REGISTERED
| HT_ERR_MAX_FEATURE_COUNT_REACHED
| HT_ERR_LISTENER_CONTAINER_ALREADY_REGISTERED
| HT_ERR_CANT_OPEN_FILE
| HT_ERR_CANT_START_TCP_SERVER
| HT_ERR_CANT_CREATE_LISTENER_CONTAINER
| HT_ERR_INVALID_FORMAT
| HT_ERR_INVALID_ARGUMENT
| HT_ERR_OUT_OF_RANGE
| HT_ERR_MISSING_ARGUMENT.

#[export] Instance HT_ErrorCode_eq_dec : EqDecision HT_ErrorCode.
Proof. solve_decision. Defined.

(** The identifiers no klass and no feature has. *)
Definition HT_INVALID_KLASS_ID : Z := u32 (-1).
Definition HT_INVALID_FEATURE_ID : Z := u32 (-1).

Definition HT_INT32_MAX : Z := 2147483647.

Inductive HT_Endianness := HT_ENDIANNESS_LITTLE | HT_ENDIANNESS_BIG.

#[export] Instance HT_Endianness_eq_dec : EqDecision HT_Endianness.
Proof. solve_decision. Defined.
