(* ===== verification/AllocHooks.v ===== *)
(** The hooks around the allocation functions of the C library
    (lib/platform/linux/alloc_hooks.c).

    The library replaces malloc, calloc, realloc and free: each calls a hook
    of the program, then the function of the C library, then another hook.
    A hook is code of the program and may allocate itself, through the
    replaced functions or through the ones that skip the hooks. *)
From S2P Require Import Prelude Alloc BaseTypes.

#[local] Open Scope Z_scope.

(** ** The C library *)

(** __libc_malloc, __libc_calloc, __libc_realloc and __libc_free, on the
    state [L] of its heap. *)
Class Libc (L : Type) := {
  libc_malloc : Z -> L -> ptr * L;
  libc_calloc : Z -> Z -> L -> ptr * L;
  libc_realloc : ptr -> Z -> L -> ptr * L;
  libc_free : ptr -> L -> L
}.

(** A call of an allocation function. *)
Inductive alloc_call :=
| Malloc_ (size : Z)
| Calloc_ (num size : Z)
| Realloc_ (p : ptr) (size : Z)
| Free_ (p : ptr).

(** What the code of a hook does: it calls an allocation function, or its
    variant that skips the hooks. *)
Inductive hook_step := Call (c : alloc_call) | SkipHook (c : alloc_call).

(** The code that a hook runs, given the call, its first argument (the pointer
    that is returned, NULL before) and the user data. *)
Definition hook : Type := alloc_call -> ptr -> ptr -> list hook_step.

(** The static variables of the file. *)
Record alloc_hooks := MkHooks {
  _pre_malloc_hook : option hook;
  _post_malloc_hook : option hook;
  _pre_calloc_hook : option hook;
  _post_calloc_hook : option hook;
  _pre_realloc_hook : option hook;
  _post_realloc_hook : option hook;
  _pre_free_hook : option hook;
  _post_free_hook : option hook;
  _hook_user_data : ptr
}.

Definition no_hooks : alloc_hooks := MkHooks None None None None None None None None NULL.

(** A hook that was called: before or after which call, with which pointer and
    user data. *)
Inductive when := Before | After.
Record hook_call := HookCall { hc_when : when; hc_call : alloc_call; hc_ptr : ptr; hc_user_data : ptr }.

Record process (L : Type) := MkProcess { p_libc : L; p_hooks : alloc_hooks; p_log : list hook_call }.
Arguments MkProcess {L} _ _ _.
Arguments p_libc {L} _.
Arguments p_hooks {L} _.
Arguments p_log {L} _.

Section hooks.
  Context {L : Type} `{Libc L}.

Abbreviation PR := (ST (process L)).

Definition ht_alloc_hooks_register_hooks (pre_malloc post_malloc pre_calloc post_calloc pre_realloc post_realloc pre_free post_free : option hook)
    (user_data : ptr) : PR () := modify (fun s =>
  MkProcess (p_libc s) (MkHooks pre_malloc post_malloc pre_calloc post_calloc pre_realloc post_realloc pre_free post_free user_data) (p_log s)).

(** A function of the C library. *)
Definition libc_step {A} (f : L -> A * L) : PR A := fun s =>
  let '(a, l) := f (p_libc s) in Done (a, MkProcess l (p_hooks s) (p_log s)).

Definition ht_alloc_hooks_malloc_skip_hook (size : Z) : PR ptr := libc_step (libc_malloc size).
Definition ht_alloc_hooks_calloc_skip_hook (num size : Z) : PR ptr := libc_step (libc_calloc num size).
Definition ht_alloc_hooks_realloc_skip_hook (p : ptr) (size : Z) : PR ptr := libc_step (libc_realloc p size).
Definition ht_alloc_hooks_free_skip_hook (p : ptr) : PR () := libc_step (fun l => ((), libc_free p l)).

(** Any of the four; free returns nothing. *)
Definition skip_hook (c : alloc_call) : PR ptr :=
  match c with
  | Malloc_ size => ht_alloc_hooks_malloc_skip_hook size
  | Calloc_ num size => ht_alloc_hooks_calloc_skip_hook num size
  | Realloc_ p size => ht_alloc_hooks_realloc_skip_hook p size
  | Free_ p => ht_alloc_hooks_free_skip_hook p;; mret NULL
  end.

Section code.
  Context (run_step : hook_step -> PR ()).

Fixpoint run_code (code : list hook_step) : PR () :=
  match code with [] => mret () | s :: code => run_step s;; run_code code end.

(** if (hook) hook(ret_ptr, ..., user_data). *)
Definition call_hook (h : option hook) (w : when) (c : alloc_call) (p : ptr) : PR () :=
  match h with
  | None => mret ()
  | Some h =>
      u ← gets (fun s => _hook_user_data (p_hooks s));
      modify (fun s => MkProcess (p_libc s) (p_hooks s) (p_log s ++ [HookCall w c p u]));;
      run_code (h c p u)
  end.

Definition malloc (size : Z) : PR ptr :=
  pre ← gets (fun s => _pre_malloc_hook (p_hooks s));
  call_hook pre Before (Malloc_ size) NULL;;
  ret_ptr ← ht_alloc_hooks_malloc_skip_hook size;
  post ← gets (fun s => _post_malloc_hook (p_hooks s));
  call_hook post After (Malloc_ size) ret_ptr;;
  mret ret_ptr.

Definition calloc (num size : Z) : PR ptr :=
  pre ← gets (fun s => _pre_calloc_hook (p_hooks s));
  call_hook pre Before (Calloc_ num size) NULL;;
  ret_ptr ← ht_alloc_hooks_calloc_skip_hook num size;
  post ← gets (fun s => _post_calloc_hook (p_hooks s));
  call_hook post After (Calloc_ num size) ret_ptr;;
  mret ret_ptr.

Definition realloc (p : ptr) (size : Z) : PR ptr :=
  pre ← gets (fun s => _pre_realloc_hook (p_hooks s));
  call_hook pre Before (Realloc_ p size) NULL;;
  ret_ptr ← ht_alloc_hooks_realloc_skip_hook p size;
  post ← gets (fun s => _post_realloc_hook (p_hooks s));
  call_hook post After (Realloc_ p size) ret_ptr;;
  mret ret_ptr.

Definition free (p : ptr) : PR () :=
  pre ← gets (fun s => _pre_free_hook (p_hooks s));
  call_hook pre Before (Free_ p) p;;
  ht_alloc_hooks_free_skip_hook p;;
  post ← gets (fun s => _post_free_hook (p_hooks s));
  call_hook post After (Free_ p) p.

Definition hooked (c : alloc_call) : PR ptr :=
  match c with
  | Malloc_ size => malloc size
  | Calloc_ num size => calloc num size
  | Realloc_ p size => realloc p size
  | Free_ p => free p;; mret NULL
  end.

End code.

(** The code of a hook; [fuel] bounds how deep hooks call hooks. *)
Fixpoint run_step (fuel : nat) (s : hook_step) : PR () :=
  match fuel with
  | O => nofuel
  | S fuel =>
      match s with
      | SkipHook c => skip_hook c;; mret ()
      | Call c => hooked (run_step fuel) c;; mret ()
      end
  end.

(** A call by the program. *)
Definition alloc_function (fuel : nat) (c : alloc_call) : PR ptr := hooked (run_step fuel) c.

Fixpoint alloc_functions (fuel : nat) (cs : list alloc_call) : PR (list ptr) :=
  match cs with
  | [] => mret []
  | c :: cs => p ← alloc_function fuel c; ps ← alloc_functions fuel cs; mret (p :: ps)
  end.

End hooks.

(** ** What the hooks see *)

(** Hooks that allocate only through the functions that skip the hooks, and
    hooks that do not allocate. *)
Definition skips (s : hook_step) : Prop := match s with SkipHook _ => True | Call _ => False end.
Definition polite_hook (h : hook) : Prop := forall c p u, Forall skips (h c p u).
Definition silent_hook (h : hook) : Prop := forall c p u, h c p u = [].

Definition all_hooks (P : hook -> Prop) (h : alloc_hooks) : Prop :=
  Forall (fun o => match o with Some x => P x | None => True end)
    [_pre_malloc_hook h; _post_malloc_hook h; _pre_calloc_hook h; _post_calloc_hook h;
     _pre_realloc_hook h; _post_realloc_hook h; _pre_free_hook h; _post_free_hook h].

Definition hook_for (w : when) (c : alloc_call) (h : alloc_hooks) : option hook :=
  match w, c with
  | Before, Malloc_ _ => _pre_malloc_hook h
  | After, Malloc_ _ => _post_malloc_hook h
  | Before, Calloc_ _ _ => _pre_calloc_hook h
  | After, Calloc_ _ _ => _post_calloc_hook h
  | Before, Realloc_ _ _ => _pre_realloc_hook h
  | After, Realloc_ _ _ => _post_realloc_hook h
  | Before, Free_ _ => _pre_free_hook h
  | After, Free_ _ => _post_free_hook h
  end.

(** The pointer a hook is given: none before the call, the result after it;
    for free its argument. *)
Definition pointer_for (w : when) (c : alloc_call) (result : ptr) : ptr :=
  match c, w with Free_ p, _ => p | _, Before => NULL | _, After => result end.

Definition seen (h : alloc_hooks) (w : when) (c : alloc_call) (result : ptr) : list hook_call :=
  match hook_for w c h with Some _ => [HookCall w c (pointer_for w c result) (_hook_user_data h)] | None => [] end.

Fixpoint all_seen (h : alloc_hooks) (cs : list alloc_call) (ps : list ptr) : list hook_call :=
  match cs, ps with
  | c :: cs, p :: ps => seen h Before c p ++ seen h After c p ++ all_seen h cs ps
  | _, _ => []
  end.

Section specification.
  Context {L : Type} `{Libc L}.

(** The functions of the C library themselves. *)
Definition libc_call (c : alloc_call) (l : L) : ptr * L :=
  match c with
  | Malloc_ size => libc_malloc size l
  | Calloc_ num size => libc_calloc num size l
  | Realloc_ p size => libc_realloc p size l
  | Free_ p => (NULL, libc_free p l)
  end.

Fixpoint libc_calls (cs : list alloc_call) (l : L) : list ptr * L :=
  match cs with
  | [] => ([], l)
  | c :: cs => let '(p, l) := libc_call c l in let '(ps, l) := libc_calls cs l in (p :: ps, l)
  end.

Lemma skip_hook_eq c l h log : skip_hook c (MkProcess l h log) = Done ((libc_call c l).1, MkProcess (libc_call c l).2 h log).
Proof.
  destruct c; cbn; unfold ht_alloc_hooks_malloc_skip_hook, ht_alloc_hooks_calloc_skip_hook, ht_alloc_hooks_realloc_skip_hook, ht_alloc_hooks_free_skip_hook,
    libc_step, mbind, st_bind; cbn;
    [by destruct (libc_malloc size l)|by destruct (libc_calloc num size l)|by destruct (libc_realloc p size l)|done].
Qed.

(** The four functions do the same around different functions of the C
    library. *)
Lemma hooked_eq step c s :
  hooked step c s =
    (pre ← gets (fun s => hook_for Before c (p_hooks s));
     call_hook step pre Before c (pointer_for Before c NULL);;
     ret ← skip_hook c;
     post ← gets (fun s => hook_for After c (p_hooks s));
     call_hook step post After c (pointer_for After c ret);;
     mret ret) s.
Proof.
  destruct c as [size|num size|p size|p]; cbn [hooked skip_hook hook_for pointer_for]; [reflexivity..|].
  unfold free, mbind, st_bind, gets. destruct (call_hook step (_pre_free_hook (p_hooks s)) Before (Free_ p) p s) as [[[] s1]| |]; [|done..].
  destruct (ht_alloc_hooks_free_skip_hook p s1) as [[[] s2]| |]; [|done..]. cbn.
  by destruct (call_hook step (_post_free_hook (p_hooks s2)) After (Free_ p) p s2) as [[[] s3]| |].
Qed.

(** The effect of polite code on the heap. *)
Definition skip_effect (code : list hook_step) (l : L) : L :=
  foldl (fun l s => match s with SkipHook c => (libc_call c l).2 | Call _ => l end) l code.

Lemma run_code_polite fuel code l h log : Forall skips code ->
  run_code (run_step (S fuel)) code (MkProcess l h log) = Done (tt, MkProcess (skip_effect code l) h log).
Proof.
  intros HF. revert l. induction HF as [|s code Hs HF IH]; intros l; [done|]. destruct s as [c|c]; [done|]. cbn [run_code run_step].
  unfold mbind, st_bind. rewrite skip_hook_eq. cbn. apply IH.
Qed.

Definition hook_effect (o : option hook) (c : alloc_call) (p u : ptr) (l : L) : L :=
  match o with Some h => skip_effect (h c p u) l | None => l end.

Lemma call_hook_polite fuel o w c p l h log : match o with Some x => polite_hook x | None => True end ->
  call_hook (run_step (S fuel)) o w c p (MkProcess l h log) =
    Done (tt, MkProcess (hook_effect o c p (_hook_user_data h) l) h
      (log ++ match o with Some _ => [HookCall w c p (_hook_user_data h)] | None => [] end)).
Proof.
  intros Ho. destruct o as [x|]; [|by rewrite app_nil_r]. cbn [call_hook]. unfold mbind, st_bind, gets, modify. cbn [p_libc p_hooks p_log].
  by rewrite run_code_polite.
Qed.

Lemma all_hooks_for P w c h : all_hooks P h -> match hook_for w c h with Some x => P x | None => True end.
Proof. unfold all_hooks. rewrite !Forall_cons. destruct w, c; cbn; tauto. Qed.

(** One call with polite hooks. *)
Lemma alloc_function_polite fuel c l h log : all_hooks polite_hook h ->
  exists p l', alloc_function (S fuel) c (MkProcess l h log) = Done (p, MkProcess l' h (log ++ seen h Before c p ++ seen h After c p)) /\
    (all_hooks silent_hook h -> libc_call c l = (p, l')).
Proof.
  intros Hp. unfold alloc_function. rewrite hooked_eq. unfold mbind, st_bind, gets. cbn [p_hooks].
  rewrite call_hook_polite by (by apply all_hooks_for). rewrite skip_hook_eq. cbn [p_hooks].
  set (l1 := hook_effect _ _ _ _ l). set (p := (libc_call c l1).1). rewrite call_hook_polite by (by apply all_hooks_for).
  eexists p, _. split.
  - assert (pointer_for Before c NULL = pointer_for Before c p) as Hb by (by destruct c). cbn -[hook_for]. rewrite <- app_assoc, Hb. reflexivity.
  - intros Hs. assert (forall w p u l, hook_effect (hook_for w c h) c p u l = l) as Hsame.
    { intros w q u l0. pose proof (all_hooks_for silent_hook w c h Hs) as Hw. unfold hook_effect. destruct (hook_for w c h) as [x|]; [|done]. by rewrite Hw. }
    subst p l1. rewrite (Hsame Before), (Hsame After). by destruct (libc_call c l).
Qed.

Lemma alloc_functions_polite fuel cs l h log : all_hooks polite_hook h ->
  exists ps l', alloc_functions (S fuel) cs (MkProcess l h log) = Done (ps, MkProcess l' h (log ++ all_seen h cs ps)) /\
    (all_hooks silent_hook h -> libc_calls cs l = (ps, l')).
Proof.
  intros Hp. revert l log. induction cs as [|c cs IH]; intros l log.
  { exists [], l. cbn. by rewrite app_nil_r. }
  destruct (alloc_function_polite fuel c l h log Hp) as (p&l1&E&Hs). destruct (IH l1 (log ++ seen h Before c p ++ seen h After c p)) as (ps&l2&E2&Hs2).
  exists (p :: ps), l2. cbn [alloc_functions]. unfold mbind, st_bind. rewrite E, E2. split.
  - cbn. by rewrite <- !app_assoc.
  - intros Hsil. cbn [libc_calls]. by rewrite Hs, Hs2.
Qed.

(** A hook of malloc that begins with a malloc. *)
Lemma greedy_hook_diverges fuel h x s size : _pre_malloc_hook (p_hooks s) = Some x -> (forall c p u, exists size code, x c p u = Call (Malloc_ size) :: code) ->
  p_hooks s = h -> alloc_function fuel (Malloc_ size) s = NoFuel.
Proof.
  intros Hx Hc. revert s size Hx. induction fuel as [|fuel IH]; intros s size Hx Eh; unfold alloc_function in *; cbn [hooked]; unfold malloc, mbind, st_bind, gets;
    rewrite Hx; cbn [call_hook]; unfold mbind, st_bind, gets, modify;
    destruct (Hc (Malloc_ size) NULL (_hook_user_data (p_hooks s))) as (size'&code&->); cbn [run_code]; unfold mbind, st_bind; cbn [run_step]; [done|].
  unfold mbind, st_bind. by rewrite IH.
Qed.

End specification.

(** C38: the hooks around allocations.  With hooks that allocate only through
    the functions that skip the hooks, as the documentation asks for, every
    sequence of allocations ends, and the hooks see exactly these calls, in
    order: before each one its arguments and no pointer (for free the
    argument), after it the pointer that the caller gets, with the user data;
    if the hooks do not allocate, the program gets what the C library alone would have
    given it.  A hook of malloc that begins with a malloc never returns. *)
Theorem hooks_see_every_call {L} `{Libc L} fuel cs (l : L) h log :
  (all_hooks polite_hook h -> exists ps l', alloc_functions (S fuel) cs (MkProcess l h log) = Done (ps, MkProcess l' h (log ++ all_seen h cs ps)) /\
    (all_hooks silent_hook h -> libc_calls cs l = (ps, l'))) /\
  (forall x size, _pre_malloc_hook h = Some x -> (forall c p u, exists size code, x c p u = Call (Malloc_ size) :: code) ->
    alloc_function fuel (Malloc_ size) (MkProcess l h log) = NoFuel).
Proof.
  split; [by apply alloc_functions_polite|]. intros x size Hx Hc. by eapply greedy_hook_diverges.
Qed.

(** ** A hook that counts in a block of its own *)

Section samples.

(** A library that gives out addresses one after the other. *)
#[local] Instance bump_libc : Libc Z := {|
  libc_malloc _ l := (l, l + 16);
  libc_calloc _ _ l := (l, l + 16);
  libc_realloc p _ l := (if decide (p = NULL) then (l, l + 16) else (p, l));
  libc_free _ l := l
|}.

Definition record_hook : hook := fun _ _ _ => [SkipHook (Malloc_ 8)].

Definition sample_hooks : alloc_hooks := MkHooks None (Some record_hook) None None None None (Some record_hook) None 7.

Lemma hooks_see_every_call_witness : exists ps l',
  alloc_functions 1 [Malloc_ 24; Free_ 16] (MkProcess 16 sample_hooks []) =
    Done (ps, MkProcess l' sample_hooks ([] ++ all_seen sample_hooks [Malloc_ 24; Free_ 16] ps)) /\
  (all_hooks silent_hook sample_hooks -> libc_calls [Malloc_ 24; Free_ 16] 16 = (ps, l')).
Proof.
  apply (proj1 (hooks_see_every_call 0 [Malloc_ 24; Free_ 16] 16 sample_hooks [])). repeat constructor.
Defined.

Lemma sample_hooks_log :
  match alloc_functions 1 [Malloc_ 24; Free_ 16] (MkProcess 16 sample_hooks []) with
  | Done (ps, s) => ps = [16; NULL] /\ p_log s = [HookCall After (Malloc_ 24) 16 7; HookCall Before (Free_ 16) 16 7]
  | _ => False
  end.
Proof. by vm_compute. Qed.

End samples.
