(* ===== verification/Clock.v ===== *)
(** The clock of the library (lib/monotonic_clock.cpp) in its variant for POSIX,
    and the durations it is computed with
    (lib/include/hawktracer/duration_conversion.h).

    The rest of the development takes the clock as a parameter; this is one.
    What clock_gettime returns is an argument. *)
From S2P Require Import Prelude BaseTypes.

#[local] Open Scope Z_scope.

(** ** Durations *)

(** The type of the argument of a macro decides how 1000u * X is computed: in
    32 or 64 bits without a sign, or in a signed type of 64 bits, whose
    overflow is undefined. *)
Inductive c_type := CInt | CUnsigned | CLong | CUnsignedLong.

Definition times1000u (t : c_type) (x : Z) : outcome Z :=
  match t with
  | CInt | CUnsigned => Done (u32 (1000 * x))
  | CUnsignedLong => Done (u64 (1000 * x))
  | CLong => if decide (- 2 ^ 63 <= 1000 * x < 2 ^ 63) then Done (1000 * x) else Undef
  end.

(** The type of the product. *)
Definition product_type (t : c_type) : c_type := match t with CInt => CUnsigned | _ => t end.

Definition outcome_bind {A B} (o : outcome A) (f : A -> outcome B) : outcome B :=
  match o with Done a => f a | Undef => Undef | NoFuel => NoFuel end.

Definition HT_DUR_NS (t : c_type) (x : Z) : outcome Z := Done x.
Definition HT_DUR_US (t : c_type) (x : Z) : outcome Z := times1000u t x.
Definition HT_DUR_MS (t : c_type) (x : Z) : outcome Z := outcome_bind (HT_DUR_US t x) (times1000u (product_type t)).
Definition HT_DUR_S (t : c_type) (x : Z) : outcome Z := outcome_bind (HT_DUR_MS t x) (times1000u (product_type t)).

(** ** The clock *)

Record timespec := Timespec { tv_sec : Z; tv_nsec : Z }.

Definition ht_monotonic_clock_get_timestamp (time : timespec) : outcome Z :=
  outcome_bind (HT_DUR_S CLong (tv_sec time)) (fun s =>
    if decide (s + tv_nsec time < 2 ^ 63) then Done (u64 (s + tv_nsec time)) else Undef).

(** ** What they are worth *)

(** The time that fits: 292 years. *)
Definition max_seconds : Z := 9223372036.

Definition timespec_ok (time : timespec) : Prop := 0 <= tv_sec time < max_seconds /\ 0 <= tv_nsec time < 10 ^ 9.

Definition before (a b : timespec) : Prop := tv_sec a < tv_sec b \/ tv_sec a = tv_sec b /\ tv_nsec a < tv_nsec b.

Lemma seconds_in_long x : 0 <= x < max_seconds -> HT_DUR_S CLong x = Done (10 ^ 9 * x).
Proof.
  unfold max_seconds. intros Hx. unfold HT_DUR_S, HT_DUR_MS, HT_DUR_US, times1000u, product_type. rewrite decide_True by lia. cbn [outcome_bind].
  rewrite decide_True by lia. cbn [outcome_bind]. rewrite decide_True by lia. f_equal. lia.
Qed.

(** Timestamps are nanoseconds and are ordered as the times are, for 292
    years from the start of the clock. *)
Theorem timestamps_ordered a b : timespec_ok a -> timespec_ok b -> exists x y,
  ht_monotonic_clock_get_timestamp a = Done x /\ ht_monotonic_clock_get_timestamp b = Done y /\
  x = 10 ^ 9 * tv_sec a + tv_nsec a /\ (before a b <-> x < y) /\ (x = y <-> a = b).
Proof.
  intros Ha Hb. destruct a as [s n], b as [s' n']. unfold timespec_ok, before, ht_monotonic_clock_get_timestamp, max_seconds in *. cbn [tv_sec tv_nsec] in *.
  rewrite !seconds_in_long by (unfold max_seconds; lia). cbn [outcome_bind]. rewrite !decide_True by lia. rewrite !u64_small by lia.
  eexists _, _. split_and!; [reflexivity|reflexivity|done|lia|]. split; [intros; f_equal; lia|by intros [= -> ->]].
Qed.

(** A duration of a literal is computed with 32 bits: four seconds are the
    most that fit; in 64 bits all of max_seconds do. *)
Theorem durations_of_literals x : 0 <= x -> (HT_DUR_S CInt x = Done (10 ^ 9 * x) <-> x <= 4) /\ (x < max_seconds -> HT_DUR_S CUnsignedLong x = Done (10 ^ 9 * x)).
Proof.
  intros Hx. unfold HT_DUR_S, HT_DUR_MS, HT_DUR_US, times1000u, product_type, max_seconds. cbn [outcome_bind]. split.
  - unfold u32. rewrite (Z.mul_comm 1000 ((1000 * x) mod 2 ^ 32)), Z.mul_mod_idemp_l by lia.
    rewrite (Z.mul_comm 1000 ((1000 * x * 1000) mod 2 ^ 32)), Z.mul_mod_idemp_l by lia. split.
    + intros [= E]. pose proof (Z.mod_pos_bound (1000 * x * 1000 * 1000) (2 ^ 32)). lia.
    + intros Hle. f_equal. rewrite Z.mod_small by lia. lia.
  - intros Hm. rewrite (u64_small (1000 * x)), (u64_small (1000 * (1000 * x))), u64_small by lia. f_equal. lia.
Qed.

Lemma five_seconds : HT_DUR_S CInt 5 = Done 705032704.
Proof. reflexivity. Qed.
