(* ===== verification/Bag.v ===== *)
(** The growable arrays of the library (lib/include/internal/bag.h,
    instantiated in lib/bag.c and lib/timeline_listener.c).

    A bag owns one heap block; [cells] are the contents of that block seen
    as slots of the element type ([None] for a slot never written).  The
    block has as many slots as its size in bytes holds, which is not
    always [capacity]. *)
From S2P Require Import Prelude Alloc BaseTypes.

Record bag (T : Type) := Bag {
  min_capacity : Z;
  capacity : Z;
  size : Z;
  data : ptr;
  cells : list (option T)
}.
Arguments Bag {T} _ _ _ _ _.
Arguments min_capacity {T} _.
Arguments capacity {T} _.
Arguments size {T} _.
Arguments data {T} _.
Arguments cells {T} _.

(** [data[i]] as a value and as an assignment; outside the block, or for a
    slot never written, there is no value. *)
Definition slot_read {T} (l : list (option T)) (i : Z) : option T :=
  if decide (0 <= i) then l !! Z.to_nat i ≫= id else None.

Definition slot_write {T} (l : list (option T)) (i : Z) (v : T) : option (list (option T)) :=
  if decide (0 <= i < Z.of_nat (length l)) then Some (<[Z.to_nat i := Some v]> l) else None.

Definition set_cells {T} (l : list (option T)) (b : bag T) : bag T :=
  Bag (min_capacity b) (capacity b) (size b) (data b) l.

Definition set_size {T} (n : Z) (b : bag T) : bag T :=
  Bag (min_capacity b) (capacity b) n (data b) (cells b).

Section bag.
  Context `{Malloc} {T : Type} (sizeof_T : Z).
  Implicit Types b : bag T.

(** The block is reallocated for [new_capacity] pointers, whatever the
    size of the element type is. *)
Definition ht_bag_resize_ b (new_capacity : Z) : ST heap (bool * bag T) :=
  let bytes := u64 (new_capacity * 8) in
  p ← ht_realloc (data b) bytes;
  if decide (p = NULL) then mret (false, b)
  else mret (true, Bag (min_capacity b) new_capacity (size b) p
                       (resize (Z.to_nat (bytes / sizeof_T)) None (cells b))).

Definition ht_bag_init (min_capacity : Z) : ST heap (HT_ErrorCode + bag T) :=
  let bytes := u64 (min_capacity * sizeof_T) in
  p ← ht_alloc bytes;
  if decide (p = NULL) then mret (inl HT_ERR_OUT_OF_MEMORY)
  else mret (inr (Bag min_capacity min_capacity 0 p (replicate (Z.to_nat (bytes / sizeof_T)) None))).

Definition ht_bag_remove_nth b (n : Z) : ST heap (bag T) :=
  let b := set_size (u64 (size b - 1)) b in
  b ← (if decide (0 < size b) then
         v ← some_or_undef (slot_read (cells b) (size b));
         l ← some_or_undef (slot_write (cells b) n v);
         mret (set_cells l b)
       else mret b);
  if decide (capacity b > min_capacity b /\ size b < capacity b / 4) then
    '(_, b) ← ht_bag_resize_ b (capacity b / 2);
    mret b
  else mret b.

Definition ht_bag_add b (x : T) : ST heap (HT_ErrorCode * bag T) :=
  '(ok, b) ← (if decide (capacity b = size b) then ht_bag_resize_ b (u64 (capacity b * 2))
              else mret (true, b));
  if ok : bool then
    l ← some_or_undef (slot_write (cells b) (size b) x);
    mret (HT_ERR_OK, set_size (u64 (size b + 1)) (set_cells l b))
  else mret (HT_ERR_OUT_OF_MEMORY, b).

Definition ht_bag_clear b : ST heap (bag T) :=
  '(_, b) ← ht_bag_resize_ b (min_capacity b);
  mret (set_size 0 b).

Definition ht_bag_deinit b : ST heap (bag T) :=
  ht_free (data b);;
  mret (Bag (min_capacity b) 0 0 NULL []).

Definition ht_bag_nth b (n : Z) : option T := slot_read (cells b) n.
Definition ht_bag_last b : option T := slot_read (cells b) (u64 (size b - 1)).

(** ** What a bag promises: the list it holds *)

(** Removal puts the last element in the place of the removed one. *)
Definition swap_remove (n : nat) (l : list T) : list T :=
  match l !! (length l - 1)%nat with
  | Some x => take (length l - 1) (<[n := x]> l)
  | None => []
  end.

Record bag_rep b (l : list T) (live : gmap ptr Z) : Prop := {
  rep_data : data b <> NULL;
  rep_live : exists bytes, live !! data b = Some bytes /\
    length (cells b) = Z.to_nat (bytes / sizeof_T);
  rep_size : size b = Z.of_nat (length l);
  rep_cells : take (length l) (cells b) = Some <$> l;
  rep_cap : size b <= capacity b;
  rep_min : 0 < min_capacity b <= capacity b;
  rep_max : capacity b * 8 < 2 ^ 63;
  rep_pow : exists k, 0 <= k /\ capacity b = min_capacity b * 2 ^ k
}.

(** Every slot up to the capacity is in the block. *)
Definition bag_room b : Prop := capacity b <= Z.of_nat (length (cells b)).

(** Removing the last element, or the slot past it, drops the last
    element. *)
Lemma swap_remove_last (l : list T) x n : (length l <= n)%nat -> swap_remove n (l ++ [x]) = l.
Proof.
  intros Hn. unfold swap_remove. rewrite lookup_app_r; rewrite !length_app; simpl; [|lia].
  replace (length l + 1 - 1)%nat with (length l) by lia. rewrite Nat.sub_diag. simpl.
  rewrite take_insert_ge by lia. by rewrite take_app_length.
Qed.

(** The element is gone and the rest is only reordered behind it. *)
Lemma swap_remove_split (l : list T) x r :
  exists r', r' ≡ₚ r /\ swap_remove (length l) (l ++ x :: r) = l ++ r'.
Proof.
  destruct (decide (r = [])) as [->|Hne].
  - exists []. split; [done|]. by rewrite swap_remove_last, app_nil_r.
  - destruct (exists_last Hne) as (r0&y&->). exists (y :: r0). split; [apply Permutation_cons_append|].
    unfold swap_remove. rewrite !length_app. simpl. rewrite !length_app. simpl.
    replace (length l + S (length r0 + 1) - 1)%nat with (length l + S (length r0))%nat by lia.
    rewrite lookup_app_r by lia. replace (length l + S (length r0) - length l)%nat with (S (length r0)) by lia.
    simpl. rewrite lookup_app_r, Nat.sub_diag by done. simpl.
    rewrite insert_app_r_alt, Nat.sub_diag by done. simpl.
    rewrite take_app_add. simpl. by rewrite take_app_length.
Qed.

(** ** The operations on the slots *)

Lemma rep_length b l live : bag_rep b l live -> (length l <= length (cells b))%nat.
Proof.
  intros R. pose proof (rep_cells _ _ _ R) as E. apply (f_equal length) in E.
  rewrite length_take, length_fmap in E. lia.
Qed.

Lemma rep_read b l live (i : nat) :
  bag_rep b l live -> (i < length l)%nat -> slot_read (cells b) (Z.of_nat i) = l !! i.
Proof.
  intros R Hi. unfold slot_read. rewrite decide_True by lia. rewrite Nat2Z.id.
  rewrite <- (lookup_take_lt (cells b) (length l)) by done.
  rewrite (rep_cells _ _ _ R), list_lookup_fmap.
  destruct (lookup_lt_is_Some_2 l i Hi) as [x ->]. done.
Qed.

Lemma rep_nth b l live (i : Z) :
  bag_rep b l live -> 0 <= i < size b -> ht_bag_nth b i = l !! Z.to_nat i.
Proof.
  intros R Hi. rewrite (rep_size _ _ _ R) in Hi. unfold ht_bag_nth.
  rewrite <- (rep_read b l live) by (try done; lia). f_equal. lia.
Qed.

Lemma rep_last b l live x :
  bag_rep b (l ++ [x]) live -> ht_bag_last b = Some x.
Proof.
  intros R. unfold ht_bag_last.
  pose proof (rep_cap _ _ _ R). pose proof (rep_max _ _ _ R).
  rewrite (rep_size _ _ _ R), length_app in *. simpl in *.
  rewrite u64_small by lia.
  replace (Z.of_nat (length l + 1) - 1) with (Z.of_nat (length l)) by lia.
  rewrite (rep_read b (l ++ [x]) live) by (try done; rewrite length_app; simpl; lia).
  rewrite lookup_app_r by lia. by rewrite Nat.sub_diag.
Qed.

Lemma rep_write b l live (i : nat) x :
  bag_rep b l live -> (i < length l)%nat ->
  exists c, slot_write (cells b) (Z.of_nat i) x = Some c /\ bag_rep (set_cells c b) (<[i := x]> l) live.
Proof.
  intros R Hi. pose proof (rep_length _ _ _ R). unfold slot_write.
  rewrite decide_True by lia. rewrite Nat2Z.id. eexists; split; [done|].
  destruct R as [? (bytes&?&?) ? Hc ????].
  split; simpl; rewrite ?length_insert; eauto.
  rewrite take_insert_lt, Hc by lia. by rewrite list_fmap_insert.
Qed.

(** [replaced] without a reallocation. *)
Lemma rep_live_mono b l live live' :
  live' !! data b = live !! data b -> bag_rep b l live -> bag_rep b l live'.
Proof. intros E [? (?&?&?) ??????]. split; try done. rewrite E. eauto. Qed.

Lemma bag_resize_spec b l n h :
  0 < sizeof_T ->
  bag_rep b l (blocks h) -> (exists k, 0 <= k /\ n = min_capacity b * 2 ^ k) -> size b <= n -> n < 2 ^ 61 ->
  Z.of_nat (length l) <= n * 8 / sizeof_T ->
  wp (ht_bag_resize_ b n) (fun '(ok, b') h' =>
    bag_rep b' l (blocks h') /\ min_capacity b' = min_capacity b /\
    replaced (data b) (data b') (blocks h) (blocks h') /\
    heap_with h (blocks h') h' /\
    if ok : bool then capacity b' = n /\ length (cells b') = Z.to_nat (n * 8 / sizeof_T)
    else b' = b /\ blocks h' = blocks h) h.
Proof.
  intros HT R Hpow Hsz Hn Hfit. destruct R as [Hd (old&Hold&Hlen) Hs Hc Hcap Hm Hx Hp].
  assert (Hmin : min_capacity b <= n).
  { destruct Hpow as (k&?&->). assert (0 < 2 ^ k) by (apply Z.pow_pos_nonneg; lia). nia. }
  unfold ht_bag_resize_. rewrite u64_small by lia. wp_step.
  apply (ht_realloc_spec _ _ old); [done|lia|done| |].
  - intros h' (Hb&?&?). rewrite decide_True by done. wp_steps. rewrite Hb.
    split_and!; try done; [|apply replaced_same]. split; eauto.
  - intros q h' Hq Hlt Hfr (Hb&?&?). rewrite decide_False by done. wp_steps. simpl.
    rewrite Hb, length_resize. split_and!; try done; [|by apply replaced_insert].
    split; simpl; try done; try lia.
    + exists (n * 8). rewrite lookup_insert_eq, length_resize. done.
    + rewrite take_resize_le by lia. rewrite resize_le; [done|].
      apply (f_equal length) in Hc. rewrite length_take, length_fmap in Hc. lia.
Qed.

(** ** The operations refine the list operations *)

Definition bag_post b (l' : list T) (h : heap) b' (h' : heap) : Prop :=
  bag_rep b' l' (blocks h') /\ min_capacity b' = min_capacity b /\
  replaced (data b) (data b') (blocks h) (blocks h') /\ heap_with h (blocks h') h'.

Lemma bag_post_refl b l h : bag_rep b l (blocks h) -> bag_post b l h b h.
Proof. intros R. split_and!; try done. apply replaced_same. Qed.

Lemma rep_extend b l live x :
  bag_rep b l live -> size b < capacity b -> size b < Z.of_nat (length (cells b)) ->
  exists c, slot_write (cells b) (size b) x = Some c /\ length c = length (cells b) /\
    bag_rep (set_size (u64 (size b + 1)) (set_cells c b)) (l ++ [x]) live.
Proof.
  intros R Hlt Hr. unfold slot_write. destruct R as [? (bytes&?&?) Hs Hc ????].
  rewrite decide_True by lia. eexists; split; [done|]. split; [apply length_insert|].
  rewrite u64_small by lia.
  split; simpl; rewrite ?length_insert, ?length_app; simpl; eauto; try lia.
  rewrite Hs, Nat2Z.id, fmap_app, <- Hc. simpl.
  rewrite Nat.add_1_r, (take_S_r _ _ (Some x)).
  - f_equal. by rewrite take_insert_ge.
  - apply list_lookup_insert_eq. lia.
Qed.

(** An element is appended without touching the heap while the block has
    a slot for it. *)
Lemma bag_add_room b l x h :
  bag_rep b l (blocks h) -> size b < capacity b -> size b < Z.of_nat (length (cells b)) ->
  wp (ht_bag_add b x) (fun '(err, b') h' =>
    err = HT_ERR_OK /\ h' = h /\ capacity b' = capacity b /\ min_capacity b' = min_capacity b /\
    data b' = data b /\ length (cells b') = length (cells b) /\ bag_rep b' (l ++ [x]) (blocks h)) h.
Proof.
  intros R Hlt Hr. unfold ht_bag_add. rewrite decide_False by lia. wp_steps.
  destruct (rep_extend b l (blocks h) x R Hlt Hr) as (c&Hc&Hlen&Hrep).
  eapply wp_some; [done|]. wp_steps. split_and!; simpl; done.
Qed.

(** With elements no larger than a pointer, adding appends the element or
    fails without any change. *)
Lemma bag_add_spec b l x h :
  0 < sizeof_T <= 8 -> bag_rep b l (blocks h) -> bag_room b ->
  wp (ht_bag_add b x) (fun '(err, b') h' =>
    bag_room b' /\
    match err with
    | HT_ERR_OK => bag_post b (l ++ [x]) h b' h' /\
        capacity b' = (if decide (capacity b = size b) then capacity b * 2 else capacity b)
    | _ => err = HT_ERR_OUT_OF_MEMORY /\ capacity b = size b /\ b' = b /\
           blocks h' = blocks h /\ heap_with h (blocks h') h'
    end) h.
Proof.
  intros HT R Hroom. pose proof R as [Hd Hl Hs Hc Hcap Hm Hx Hp]. unfold ht_bag_add.
  destruct (decide (capacity b = size b)) as [E|E].
  - rewrite u64_small by lia. unfold bag_room in Hroom.
    eapply wp_call; [apply (bag_resize_spec b l); try done; try lia|].
    { destruct Hp as (k&?&->). exists (k + 1). rewrite Z.pow_add_r by lia. lia. }
    { transitivity (capacity b * 2); [lia|]. apply Z.div_le_lower_bound; nia. }
    intros [[] b'] h'; cbn beta iota.
    + intros (R'&Hmin&Hrep&Hw&Hcap'&Hlen).
      assert (capacity b * 2 <= capacity b * 2 * 8 / sizeof_T)
        by (apply Z.div_le_lower_bound; nia).
      pose proof (rep_size _ _ _ R').
      destruct (rep_extend b' l (blocks h') x R') as (c&Hc'&Hlc&Hrep'); [lia|lia|].
      wp_step. eapply wp_some; [done|]. wp_steps. unfold bag_room, bag_post; simpl.
      rewrite Hlc. split_and!; try done; lia.
    + intros (R'&Hmin&Hrep&Hw&->&Hb). wp_steps. unfold bag_room. split_and!; done.
  - apply wp_bind, wp_ret. unfold bag_room in Hroom.
    destruct (rep_extend b l (blocks h) x R) as (c&Hc'&Hlc&Hrep'); [lia|lia|].
    wp_step. eapply wp_some; [done|]. wp_steps. unfold bag_room, bag_post; simpl.
    rewrite Hlc. split_and!; try done; [apply replaced_same].
Qed.

Lemma rep_shrink b b1 l live (n : Z) x :
  bag_rep b (l ++ [x]) live -> 0 <= n <= size b -> n < Z.of_nat (length (cells b)) ->
  b1 = set_size (u64 (size b - 1)) b ->
  size b1 = Z.of_nat (length l) /\
  exists b2, (if decide (0 < size b1) then
         v ← some_or_undef (slot_read (cells b1) (size b1));
         c ← some_or_undef (slot_write (cells b1) n v);
         mret (M := ST heap) (set_cells c b1)
       else mret b1) = mret b2 /\ bag_rep b2 (swap_remove (Z.to_nat n) (l ++ [x])) live /\
    data b2 = data b /\ capacity b2 = capacity b /\ min_capacity b2 = min_capacity b /\
    length (cells b2) = length (cells b).
Proof.
  intros R Hn Hc Hb1. pose proof R as [? (bytes&?&?) Hs Hcs ????].
  rewrite length_app in *; simpl in *.
  assert (Hs1 : size b1 = Z.of_nat (length l)) by (subst b1; simpl; rewrite Hs, u64_small; lia).
  assert (Hcb : cells b1 = cells b) by (by subst b1).
  split; [done|].
  assert (Hsw : swap_remove (Z.to_nat n) (l ++ [x]) = take (length l) (<[Z.to_nat n := x]> (l ++ [x]))).
  { unfold swap_remove. rewrite length_app; simpl.
    replace (length l + 1 - 1)%nat with (length l) by lia.
    rewrite lookup_app_r, Nat.sub_diag by lia. done. }
  assert (Hlen : length (swap_remove (Z.to_nat n) (l ++ [x])) = length l)
    by (rewrite Hsw, length_take, length_insert, length_app; simpl; lia).
  case_decide as Hpos.
  - rewrite Hs1, Hcb.
    rewrite (rep_read b (l ++ [x]) live) by (try done; rewrite length_app; simpl; lia).
    rewrite lookup_app_r, Nat.sub_diag by lia.
    change ([x] !! 0%nat) with (Some x). rewrite some_bind.
    unfold slot_write. rewrite decide_True by lia. eexists; split; [done|].
    subst b1. simpl in Hs1. split_and!; simpl; try done; [|apply length_insert].
    split; simpl; rewrite ?Hs1; rewrite ?Hlen, ?length_insert; eauto; try lia.
    rewrite Hsw, fmap_take, list_fmap_insert, <- Hcs, take_insert, take_insert.
    case_decide; rewrite take_take, Nat.min_l by lia; done.
  - assert (l = []) as -> by (destruct l; [done|simpl in *; lia]).
    exists b1. subst b1. simpl in *. split_and!; try done. rewrite Hsw.
    split; simpl; rewrite ?Hs1; eauto; lia.
Qed.

(** Removal of the [n]-th element.  [n] may also be the slot just past the
    last element, provided the block has that slot: then the last element
    goes. *)
Lemma bag_remove_spec b l n h :
  0 < sizeof_T <= 8 -> bag_rep b l (blocks h) -> bag_room b -> 0 < size b ->
  0 <= n <= size b -> n < Z.of_nat (length (cells b)) ->
  wp (ht_bag_remove_nth b n) (fun b' h' =>
    bag_room b' /\ bag_post b (swap_remove (Z.to_nat n) l) h b' h' /\
    (capacity b' = capacity b \/
     capacity b' = capacity b / 2 /\ min_capacity b < capacity b /\ size b' < capacity b / 4)) h.
Proof.
  intros HT R Hroom Hpos Hn Hc. pose proof (rep_size _ _ _ R) as Hs.
  destruct (exists_last (l := l)) as (l'&x&->); [destruct l; simpl in *; [lia|done]|].
  destruct (rep_shrink b _ l' (blocks h) n x R Hn Hc eq_refl) as (Hs1&b2&Hrun&R2&Hd&Hcap&Hmin&Hlen).
  unfold ht_bag_remove_nth. rewrite Hrun. clear Hrun. apply wp_bind, wp_ret.
  pose proof R2 as [? ? Hs2 ? ? ? ? Hp]. unfold bag_room in *.
  case_decide as Hsh; [|wp_steps; unfold bag_post; rewrite Hd; split_and!; try done; try lia;
                        apply replaced_same].
  destruct Hp as (k&Hk&Hp). assert (k <> 0) by (intros ->; lia).
  assert (E2 : capacity b2 = min_capacity b2 * 2 ^ (k - 1) * 2).
  { rewrite Hp. replace k with (k - 1 + 1) at 1 by lia. rewrite Z.pow_add_r by lia. lia. }
  assert (E4 : capacity b2 / 2 = min_capacity b2 * 2 ^ (k - 1)) by (rewrite E2; apply Z.div_mul; lia).
  pose proof (Z.mul_div_le (capacity b2) 4 ltac:(lia)).
  assert (capacity b2 / 2 <= capacity b2 / 2 * 8 / sizeof_T)
    by (apply Z.div_le_lower_bound; nia).
  eapply wp_call; [apply (bag_resize_spec b2); try done; try lia|].
  { exists (k - 1). split; [lia|done]. }
  intros [ok b'] h' (R'&?&Hrep&?&Hok). wp_steps.
  destruct ok; [destruct Hok as [??]|destruct Hok as [-> ?]];
    unfold bag_post; rewrite <- ?Hd, <- ?Hcap, <- ?Hmin; split_and!; try done; try lia.
  right. pose proof (rep_size _ _ _ R'). lia.
Qed.

Lemma bag_init_spec n h :
  0 < sizeof_T -> 0 < n -> n * 8 < 2 ^ 63 -> n * sizeof_T < 2 ^ 64 ->
  wp (ht_bag_init n) (fun r h' =>
    match r with
    | inl err => err = HT_ERR_OUT_OF_MEMORY /\ heap_with h (blocks h) h'
    | inr b => bag_rep b [] (blocks h') /\ bag_room b /\ min_capacity b = n /\ capacity b = n /\
        Z.of_nat (length (cells b)) = n /\ blocks h !! data b = None /\
        heap_with h (<[data b := n * sizeof_T]> (blocks h)) h'
    end) h.
Proof.
  intros HT Hn H8 Hb. unfold ht_bag_init. rewrite u64_small by nia.
  rewrite Z.div_mul by lia. wp_step. apply ht_alloc_spec.
  - intros h' Hw. rewrite decide_True by done. wp_steps. done.
  - intros p h' Hp _ Hfr Hw. rewrite decide_False by done. wp_steps. simpl.
    unfold bag_room; simpl. rewrite length_replicate.
    split_and!; try done; try lia. destruct Hw as (->&?&?).
    split; simpl; try done; try lia.
    + exists (n * sizeof_T). rewrite lookup_insert_eq, Z.div_mul, length_replicate by lia. done.
    + exists 0. lia.
Qed.

Lemma bag_deinit_spec b l h :
  bag_rep b l (blocks h) ->
  wp (ht_bag_deinit b) (fun b' h' =>
    size b' = 0 /\ capacity b' = 0 /\ data b' = NULL /\
    heap_with h (delete (data b) (blocks h)) h') h.
Proof.
  intros [Hd (old&Hold&_) _ _ _ _ _ _]. unfold ht_bag_deinit. wp_step.
  by eapply ht_free_spec.
Qed.

(** After a clear the bag is empty, whether or not the block could be
    shrunk; the slots left are what [min_capacity] pointers take. *)
Lemma bag_clear_spec b l h :
  0 < sizeof_T -> bag_rep b l (blocks h) ->
  wp (ht_bag_clear b) (fun b' h' =>
    bag_post b [] h b' h' /\ (sizeof_T <= 8 -> bag_room b -> bag_room b')) h.
Proof.
  intros HT R. pose proof R as [Hd (old&Hold&Hlen) Hs Hc Hcap Hm Hx Hp].
  assert (R0 : bag_rep (set_size 0 b) [] (blocks h)) by (split; simpl; eauto; lia).
  unfold ht_bag_clear, ht_bag_resize_. rewrite u64_small by lia. wp_steps.
  apply (ht_realloc_spec _ _ old); [done|lia|done| |].
  - intros h' (Hb&?&?). rewrite decide_True by done. wp_steps. unfold bag_post. rewrite Hb. simpl.
    split_and!; try done; [apply replaced_same].
  - intros q h' Hq Hlt Hfr (Hb&?&?). rewrite decide_False by done. wp_steps. simpl.
    unfold bag_post, bag_room. simpl. rewrite Hb, length_resize.
    split_and!; try done; [|by apply replaced_insert|].
    + split; simpl; try done; try lia.
      * exists (min_capacity b * 8). rewrite lookup_insert_eq, length_resize. done.
      * exists 0. lia.
    + intros H8 _. assert (min_capacity b <= min_capacity b * 8 / sizeof_T)
        by (apply Z.div_le_lower_bound; nia). lia.
Qed.

(** ** Programs over a bag *)

Inductive bag_op := OpAdd (x : T) | OpRemove (n : Z) | OpClear.

(** A client that removes only elements the bag has; the results are the
    error codes of the operations. *)
Fixpoint bag_run (ops : list bag_op) b : ST heap (list HT_ErrorCode * bag T) :=
  match ops with
  | [] => mret ([], b)
  | op :: ops =>
      '(err, b) ← match op with
                  | OpAdd x => ht_bag_add b x
                  | OpRemove n => if decide (0 <= n < size b)
                                  then b ← ht_bag_remove_nth b n; mret (HT_ERR_OK, b)
                                  else mret (HT_ERR_OK, b)
                  | OpClear => b ← ht_bag_clear b; mret (HT_ERR_OK, b)
                  end;
      '(errs, b) ← bag_run ops b;
      mret (err :: errs, b)
  end.

(** The same program on a list; an addition that failed is left out. *)
Fixpoint list_run (ops : list bag_op) (errs : list HT_ErrorCode) (l : list T) : list T :=
  match ops, errs with
  | op :: ops, err :: errs =>
      list_run ops errs
        (match op with
         | OpAdd x => if decide (err = HT_ERR_OK) then l ++ [x] else l
         | OpRemove n => if decide (0 <= n < Z.of_nat (length l)) then swap_remove (Z.to_nat n) l else l
         | OpClear => []
         end)
  | _, _ => l
  end.

Lemma bag_run_spec ops b l h :
  0 < sizeof_T <= 8 -> bag_rep b l (blocks h) -> bag_room b ->
  wp (bag_run ops b) (fun '(errs, b') h' =>
    bag_room b' /\ bag_post b (list_run ops errs l) h b' h' /\ length errs = length ops /\
    Forall (fun e => e = HT_ERR_OK \/ e = HT_ERR_OUT_OF_MEMORY) errs) h.
Proof.
  intros HT. revert b l h. induction ops as [|op ops IH]; intros b l h R Hroom; simpl.
  { wp_steps. split_and!; try done. by apply bag_post_refl. }
  apply (wp_call _ _ (fun '(err, b') h' => bag_room b' /\
    bag_post b (list_run [op] [err] l) h b' h' /\ (err = HT_ERR_OK \/ err = HT_ERR_OUT_OF_MEMORY))).
  - destruct op as [x|n|]; simpl.
    + eapply wp_mono; [by apply (bag_add_spec b l)|]. intros [e b'] h' [Hr He]. split; [done|].
      destruct (decide (e = HT_ERR_OK)) as [->|Hne]; [by destruct He; auto|].
      assert (e = HT_ERR_OUT_OF_MEMORY /\ b' = b /\ blocks h' = blocks h /\ heap_with h (blocks h') h')
        as (->&->&E&Hw) by (by destruct e; intuition).
      unfold bag_post. rewrite E in *. split; [|by right]. split_and!; try done; apply replaced_same.
    + pose proof (rep_size _ _ _ R). case_decide; [rewrite decide_True by lia|rewrite decide_False by lia].
      * unfold bag_room in *. pose proof (rep_cap _ _ _ R).
        eapply wp_call; [apply (bag_remove_spec b l); (done || lia)|].
        intros b' h' (Hr&Hp&_). wp_steps. auto.
      * wp_steps. split_and!; try done; [by apply bag_post_refl|by left].
    + eapply wp_call; [apply (bag_clear_spec b l); (done || lia)|].
      intros b' h' [Hp Hr]. wp_steps. split_and!; try done; [apply Hr; (done || lia)|by left].
  - intros [e b1] h1 (Hr1&(R1&Hm1&Hrep1&Hw1)&He).
    eapply wp_call; [by apply IH|]. intros [errs b2] h2 (Hr2&(R2&Hm2&Hrep2&Hw2)&Hlen&HF). wp_steps.
    split_and!; try done; [|simpl; lia|by constructor].
    split_and!; [done|congruence|by eapply replaced_trans|by eapply heap_with_trans].
Qed.

(** The elements, read one by one. *)
Fixpoint bag_read_all (n : nat) b : ST heap (list T) :=
  match n with
  | O => mret []
  | S n => l ← bag_read_all n b; x ← some_or_undef (ht_bag_nth b (Z.of_nat n)); mret (l ++ [x])
  end.

Lemma bag_read_all_spec n b l h :
  bag_rep b l (blocks h) -> (n <= length l)%nat ->
  wp (bag_read_all n b) (fun r h' => h' = h /\ r = take n l) h.
Proof.
  intros R. induction n as [|n IH]; intros Hn; simpl; [done|].
  eapply wp_call; [apply IH; lia|]. intros r h' [-> ->].
  destruct (lookup_lt_is_Some_2 l n) as [x Hx]; [lia|].
  rewrite (rep_nth b l (blocks h)), Nat2Z.id, Hx by (done || rewrite ?(rep_size _ _ _ R); lia).
  rewrite some_bind. wp_steps. split; [done|]. by rewrite (take_S_r _ _ x).
Qed.

(** A bag from its initialisation to its release. *)
Definition bag_lifetime (n : Z) (ops : list bag_op) : ST heap (HT_ErrorCode + list HT_ErrorCode * list T) :=
  r ← ht_bag_init n;
  match r with
  | inl err => mret (inl err)
  | inr b =>
      '(errs, b) ← bag_run ops b;
      l ← bag_read_all (Z.to_nat (size b)) b;
      ht_bag_deinit b;;
      mret (inr (errs, l))
  end.

(** C28: for element types no larger than a pointer, every program of
    additions, removals and clears runs without undefined behaviour, with
    every allocator; the bag then holds exactly what the same program on a
    list gives (failed additions left out), and after its release the heap
    is as it was before its initialisation. *)
Theorem bag_refines_list n ops h :
  0 < sizeof_T <= 8 -> 0 < n < 2 ^ 60 ->
  wp (bag_lifetime n ops) (fun r h' => blocks h' = blocks h /\
    match r with
    | inl err => err = HT_ERR_OUT_OF_MEMORY
    | inr (errs, l) => l = list_run ops errs [] /\ length errs = length ops /\
        Forall (fun e => e = HT_ERR_OK \/ e = HT_ERR_OUT_OF_MEMORY) errs
    end) h.
Proof.
  intros HT Hn. unfold bag_lifetime. eapply wp_call; [apply bag_init_spec; nia|].
  intros [e|b] h1; cbn beta iota; [intros (->&E&_); wp_steps; by rewrite E|].
  intros (R&Hroom&_&_&_&Hfr&E1&_). eapply wp_call; [by apply (bag_run_spec ops b [])|].
  intros [errs b2] h2 (_&(R2&_&Hrep&_)&Hlen&HF).
  eapply wp_call; [apply (bag_read_all_spec _ b2 _ h2 R2); rewrite (rep_size _ _ _ R2); lia|].
  intros l h3 [-> ->]. eapply wp_call; [by eapply bag_deinit_spec|].
  intros b4 h4 (_&_&_&E4&_). wp_steps. split_and!; try done.
  - rewrite E4. destruct Hrep as [-> _]. rewrite E1. by apply delete_insert_id.
  - rewrite (rep_size _ _ _ R2), Nat2Z.id. by apply firstn_all.
Qed.

(** ** What the operations leave alone, and when memory suffices *)

Lemma bag_resize_min b n h : wlp (ht_bag_resize_ b n) (fun r _ => min_capacity r.2 = min_capacity b) h.
Proof. unfold ht_bag_resize_. by wlp_steps. Qed.
#[local] Hint Resolve bag_resize_min : facts.

Lemma bag_add_min b x h : wlp (ht_bag_add b x) (fun r _ => min_capacity r.2 = min_capacity b) h.
Proof. unfold ht_bag_add. by wlp_steps. Qed.

Lemma bag_remove_min b n h : wlp (ht_bag_remove_nth b n) (fun b' _ => min_capacity b' = min_capacity b) h.
Proof. unfold ht_bag_remove_nth. wlp_steps; simpl in *; congruence. Qed.

Lemma bag_add_generous b l x h :
  generous -> bag_rep b l (blocks h) -> Z.of_nat (length l) < 2 ^ 58 -> wlp (ht_bag_add b x) (fun r _ => r.1 = HT_ERR_OK) h.
Proof.
  intros Hg [_ _ Hs _ _ Hm _ _] Hl. unfold ht_bag_add, ht_bag_resize_. case_decide as E; [|by wlp_steps].
  rewrite !u64_small by (rewrite ?u64_small; lia).
  do 2 apply wlp_bind. eapply wlp_mono; [apply ht_realloc_generous; [done|lia]|].
  intros p h' Hp. rewrite decide_False by (intros ->; specialize (Hp eq_refl); lia). by wlp_steps.
Qed.

End bag.
#[export] Hint Resolve bag_resize_min bag_add_min bag_remove_min : facts.

Lemma swap_remove_fmap {T U} (f : T -> U) n (l : list T) :
  f <$> swap_remove n l = swap_remove n (f <$> l).
Proof.
  unfold swap_remove. rewrite length_fmap, list_lookup_fmap.
  destruct (l !! _) as [x|]; [|done]. simpl. by rewrite fmap_take, list_fmap_insert.
Qed.

Arguments rep_data {T sizeof_T b l live} _.
Arguments rep_live {T sizeof_T b l live} _.
Arguments rep_size {T sizeof_T b l live} _.
Arguments rep_cells {T sizeof_T b l live} _.
Arguments rep_cap {T sizeof_T b l live} _.
Arguments rep_min {T sizeof_T b l live} _.
Arguments rep_max {T sizeof_T b l live} _.
Arguments rep_pow {T sizeof_T b l live} _.

(** A bag of ints grows past its minimal capacity, loses an element and
    is read back. *)
Lemma bag_refines_list_witness :
  wp (bag_lifetime (H := always_granted) 4 2 [OpAdd 7; OpAdd 8; OpAdd 9; OpRemove 0])
    (fun r h' => blocks h' = blocks empty_heap /\
    match r with
    | inl err => err = HT_ERR_OUT_OF_MEMORY
    | inr (errs, l) => l = list_run [OpAdd 7; OpAdd 8; OpAdd 9; OpRemove 0] errs [] /\
        length errs = 4%nat /\ Forall (fun e => e = HT_ERR_OK \/ e = HT_ERR_OUT_OF_MEMORY) errs
    end) empty_heap.
Proof. apply (bag_refines_list (H := always_granted) 4); lia. Defined.
