(* ===== verification/HashMap.v ===== *)
(** The hash map of the cached-string feature (lib/hash_map.c,
    lib/include/internal/hash_map.h) and the djb2 hash
    (lib/include/internal/hash.h). *)
From S2P Require Import Prelude Alloc BaseTypes Bag.

(** [djb2_hash] of a C string, given as its characters up to the
    terminating NUL.  [char] is signed (the ABI of the supported
    platforms), so a character above 127 is sign-extended by the cast to
    [unsigned int]. *)
Definition signed_char (c : Z) : Z := if decide (c < 128) then c else c - 256.

Fixpoint djb2_loop (hash : Z) (str : list Z) : Z :=
  match str with
  | [] => hash
  | c :: str => djb2_loop (u32 (u32 (u32 (Z.shiftl hash 5) + hash) + u32 (signed_char c))) str
  end.

Definition djb2_hash (str : list Z) : Z := djb2_loop 5381 str.

Record HT_HashBucket := HashBucket {
  key_bag : bag Z;
  value_bag : bag ptr
}.

(** [HT_HashBucket buckets[512]]. *)
Abbreviation HT_HashMap := (list HT_HashBucket) (only parsing).
Definition BUCKET_COUNT : Z := 512.

Section hash_map.
  Context `{Malloc}.

Definition ht_hash_bucket_init : ST heap (HT_ErrorCode + HT_HashBucket) :=
  let min_capacity := 4 in
  r ← ht_bag_init 8 min_capacity;
  match r with
  | inl err => mret (inl err)
  | inr values =>
      r ← ht_bag_init 8 min_capacity;
      match r with
      | inl err => ht_bag_deinit values;; mret (inl err)
      | inr keys => mret (inr (HashBucket keys values))
      end
  end.

Definition ht_hash_bucket_deinit (bucket : HT_HashBucket) : ST heap () :=
  ht_bag_deinit (value_bag bucket);;
  ht_bag_deinit (key_bag bucket);;
  mret tt.

(** The search loop, [i] running from 0; the result is [out_index]. *)
Fixpoint find_value_loop (fuel : nat) (keys : bag Z) (key i : Z) : ST heap (option Z) :=
  match fuel with
  | O => nofuel
  | S fuel =>
      if decide (i < size keys) then
        k ← some_or_undef (ht_bag_nth keys i);
        if decide (k = key) then mret (Some i)
        else find_value_loop fuel keys key (u64 (i + 1))
      else mret None
  end.

Definition ht_hash_bucket_find_value (bucket : HT_HashBucket) (key : Z) : ST heap (option Z) :=
  find_value_loop (S (Z.to_nat (size (key_bag bucket)))) (key_bag bucket) key 0.

(** Iteration calls back with every key and value until the callback says
    stop; the callback runs on the state [W] of its user data. *)
Fixpoint bucket_for_each_loop {W} (fuel : nat) (bucket : HT_HashBucket)
    (callback : Z -> ptr -> ST W bool) (i : Z) : ST W bool :=
  match fuel with
  | O => nofuel
  | S fuel =>
      if decide (i < size (key_bag bucket)) then
        k ← some_or_undef (ht_bag_nth (key_bag bucket) i);
        v ← some_or_undef (ht_bag_nth (value_bag bucket) i);
        ok ← callback k v;
        if ok : bool then bucket_for_each_loop fuel bucket callback (u64 (i + 1))
        else mret false
      else mret true
  end.

Definition ht_hash_bucket_for_each {W} (bucket : HT_HashBucket)
    (callback : Z -> ptr -> ST W bool) : ST W bool :=
  bucket_for_each_loop (S (Z.to_nat (size (key_bag bucket)))) bucket callback 0.

Fixpoint deinit_buckets (l : list HT_HashBucket) : ST heap () :=
  match l with
  | [] => mret tt
  | b :: l => ht_hash_bucket_deinit b;; deinit_buckets l
  end.

(** Buckets are initialised in order; the first failure stops the loop
    and the buckets done so far are released. *)
Fixpoint init_buckets (n : nat) (acc : list HT_HashBucket) : ST heap (HT_ErrorCode * list HT_HashBucket) :=
  match n with
  | O => mret (HT_ERR_OK, acc)
  | S n =>
      r ← ht_hash_bucket_init;
      match r with
      | inl err => mret (err, acc)
      | inr b => init_buckets n (acc ++ [b])
      end
  end.

Definition ht_hash_map_init : ST heap (HT_ErrorCode + HT_HashMap) :=
  '(err, buckets) ← init_buckets (Z.to_nat BUCKET_COUNT) [];
  if decide (err = HT_ERR_OK) then mret (inr buckets)
  else deinit_buckets buckets;; mret (inl err).

Definition ht_hash_map_deinit (hash_map : HT_HashMap) : ST heap () := deinit_buckets hash_map.

(** Insertion into the bucket of the key: the previous value (or null),
    the error code and the updated bucket. *)
Definition bucket_insert (bucket : HT_HashBucket) (key : Z) (value : ptr)
    : ST heap (ptr * HT_ErrorCode * HT_HashBucket) :=
  found ← ht_hash_bucket_find_value bucket key;
  match found with
  | Some index =>
      prev ← some_or_undef (ht_bag_nth (value_bag bucket) index);
      l ← some_or_undef (slot_write (cells (value_bag bucket)) index value);
      mret (prev, HT_ERR_OK, HashBucket (key_bag bucket) (set_cells l (value_bag bucket)))
  | None =>
      '(err, keys) ← ht_bag_add 8 (key_bag bucket) key;
      if decide (err = HT_ERR_OK) then
        '(err, values) ← ht_bag_add 8 (value_bag bucket) value;
        if decide (err = HT_ERR_OK) then mret (NULL, err, HashBucket keys values)
        else
          keys ← ht_bag_remove_nth 8 keys (size keys);
          mret (NULL, err, HashBucket keys values)
      else mret (NULL, err, HashBucket keys (value_bag bucket))
  end.

Definition ht_hash_map_insert (m : HT_HashMap) (key : Z) (value : ptr)
    : ST heap (ptr * HT_ErrorCode * HT_HashMap) :=
  let i := Z.to_nat (key mod BUCKET_COUNT) in
  bucket ← some_or_undef (m !! i);
  '(prev, err, bucket) ← bucket_insert bucket key value;
  mret (prev, err, <[i := bucket]> m).

Definition ht_hash_map_get_value (m : HT_HashMap) (key : Z) : ST heap ptr :=
  bucket ← some_or_undef (m !! Z.to_nat (key mod BUCKET_COUNT));
  found ← ht_hash_bucket_find_value bucket key;
  match found with
  | Some index => some_or_undef (ht_bag_nth (value_bag bucket) index)
  | None => mret NULL
  end.

Fixpoint ht_hash_map_for_each {W} (m : HT_HashMap) (callback : Z -> ptr -> ST W bool) : ST W () :=
  match m with
  | [] => mret tt
  | b :: m =>
      ok ← ht_hash_bucket_for_each b callback;
      if ok : bool then ht_hash_map_for_each m callback else mret tt
  end.

(** ** What a bucket holds *)

Definition bucket_ptrs (b : HT_HashBucket) : list ptr := [data (key_bag b); data (value_bag b)].

Record bucket_rep (b : HT_HashBucket) (g : list Z * list ptr) (live : gmap ptr Z) : Prop := {
  br_keys : bag_rep 8 (key_bag b) g.1 live;
  br_values : bag_rep 8 (value_bag b) g.2 live;
  br_kroom : bag_room (key_bag b);
  br_vroom : bag_room (value_bag b);
  br_len : length g.1 = length g.2;
  br_kmin : min_capacity (key_bag b) = 4;
  br_vmin : min_capacity (value_bag b) = 4;
  br_disj : data (key_bag b) <> data (value_bag b)
}.

Lemma find_value_loop_spec keys l live key (i : nat) fuel h :
  bag_rep 8 keys l live -> (i <= length l)%nat -> (length l - i < fuel)%nat ->
  wp (find_value_loop fuel keys key (Z.of_nat i))
     (fun r h' => h' = h /\ r = (fun p => Z.of_nat (i + p.1)) <$> list_find (key =.) (drop i l)) h.
Proof.
  intros R. pose proof R as [_ _ Hs _ Hcap _ Hx _]. revert i. induction fuel as [|fuel IH]; [lia|].
  intros i Hi Hf. simpl. case_decide as Hlt.
  - destruct (lookup_lt_is_Some_2 l i) as [k Hk]; [lia|].
    rewrite (rep_nth 8 keys l live) by (done || lia). rewrite Nat2Z.id, Hk.
    rewrite some_bind, (drop_S _ _ _ Hk). simpl. case_decide as Hkey.
    + wp_steps. subst. rewrite decide_True by done. simpl. split; [done|]. f_equal. lia.
    + rewrite decide_False by done. rewrite u64_small by lia.
      replace (Z.of_nat i + 1) with (Z.of_nat (S i)) by lia.
      eapply wp_mono; [apply IH; lia|]. intros r h' [-> ->]. split; [done|].
      rewrite <- option_fmap_compose. destruct (list_find _ _) as [[j ?]|]; [|done].
      simpl. f_equal. lia.
  - wp_steps. rewrite drop_ge by lia. done.
Qed.

Lemma bucket_find_spec b g live key h :
  bucket_rep b g live ->
  wp (ht_hash_bucket_find_value b key)
     (fun r h' => h' = h /\ r = (fun p => Z.of_nat p.1) <$> list_find (key =.) g.1) h.
Proof.
  intros B. pose proof (br_keys _ _ _ B) as R. unfold ht_hash_bucket_find_value.
  rewrite (rep_size R), Nat2Z.id.
  apply (find_value_loop_spec (key_bag b) g.1 live key 0%nat); [done|lia|lia].
Qed.

Lemma bucket_rep_frame b g l l' :
  bucket_rep b g l -> (forall r, r ∈ bucket_ptrs b -> l' !! r = l !! r) -> bucket_rep b g l'.
Proof.
  intros [] E. split; try done; apply (rep_live_mono 8 _ _ l l'); try done;
    apply E; unfold bucket_ptrs; set_solver.
Qed.

Lemma bucket_rep_live b g l r : bucket_rep b g l -> r ∈ bucket_ptrs b -> is_Some (l !! r).
Proof.
  intros B Hr. unfold bucket_ptrs in Hr.
  rewrite elem_of_cons, list_elem_of_singleton in Hr. destruct Hr as [->| ->].
  - destruct (rep_live (br_keys _ _ _ B)) as (?&?&_). eauto.
  - destruct (rep_live (br_values _ _ _ B)) as (?&?&_). eauto.
Qed.

(** The capacities of both bags are 4, 8, 16, ...: a bag that has just
    taken one element more than a full bag holds is not itself full. *)
Lemma full_plus_one_not_full a b :
  (exists k, 0 <= k /\ a = 4 * 2 ^ k) -> (exists k, 0 <= k /\ b = 4 * 2 ^ k) ->
  a + 1 <= b -> a + 1 < b.
Proof. intros (i&_&->) (j&_&->). lia. Qed.

(** What insertion does to the entries of the bucket. *)
Definition ghost_insert (g : list Z * list ptr) (key : Z) (value : ptr) : list Z * list ptr :=
  match list_find (key =.) g.1 with
  | Some (i, _) => (g.1, <[i := value]> g.2)
  | None => (g.1 ++ [key], g.2 ++ [value])
  end.

Definition ghost_lookup (g : list Z * list ptr) (key : Z) : option ptr :=
  '(i, _) ← list_find (key =.) g.1; g.2 !! i.

(** The value bag could not grow after the key was added: the key is taken
    back.  The slot past the last key, which the code writes, exists. *)
Lemma bucket_rollback_spec b g keys key h h2 :
  bucket_rep b g (blocks h) -> bag_room keys ->
  bag_rep 8 keys (g.1 ++ [key]) (blocks h2) -> min_capacity keys = 4 ->
  replaced (data (key_bag b)) (data keys) (blocks h) (blocks h2) ->
  capacity (value_bag b) = size (value_bag b) ->
  wp (keys' ← ht_bag_remove_nth 8 keys (size keys);
      mret (NULL, HT_ERR_OUT_OF_MEMORY, HashBucket keys' (value_bag b)))
    (fun '(prev, err, b') h' =>
      heap_with h2 (blocks h') h' /\ frame (bucket_ptrs b) (bucket_ptrs b') (blocks h) (blocks h') /\
      err = HT_ERR_OUT_OF_MEMORY /\ prev = NULL /\ bucket_rep b' g (blocks h')) h2.
Proof.
  intros B Kroom Rk Kmin Krep Vfull.
  pose proof B as [_ Rv _ Vroom Hlen _ Vmin Hdisj].
  pose proof (rep_size Rk) as Ks. pose proof (rep_cap Rk) as Kc.
  pose proof (rep_size Rv) as Vs. rewrite length_app in Ks; simpl in Ks.
  assert (size keys < capacity keys).
  { destruct (rep_pow Rv) as (i&?&Hi), (rep_pow Rk) as (j&?&Hj).
    rewrite Vmin in Hi. rewrite Kmin in Hj.
    replace (size keys) with (capacity (value_bag b) + 1) in * by lia.
    apply full_plus_one_not_full; eauto; lia. }
  unfold bag_room in Kroom.
  eapply wp_call; [apply (bag_remove_spec 8 keys (g.1 ++ [key])); try done; try lia|].
  rewrite swap_remove_last by lia. intros keys' h3 (Kroom3&(Rk3&Kmin3&Krep3&Hw3)&_).
  assert (Krep' := replaced_trans _ _ _ _ _ _ Krep Krep3).
  assert (Vlive : is_Some (blocks h !! data (value_bag b)))
    by (destruct (rep_live Rv) as (?&?&_); eauto).
  destruct (replaced_other _ _ _ _ (data (value_bag b)) Krep') as [Hvk Hvl]; [done..|].
  wp_steps. split_and!; try done.
  - apply (frame_app [] [data (value_bag b)] [data (key_bag b)] [data keys']).
    + by apply replaced_frame.
    + intros r Hr. apply list_elem_of_singleton in Hr as ->.
      split; [|done]. rewrite list_elem_of_singleton. by apply not_eq_sym.
  - split; simpl; try done; try congruence. apply (rep_live_mono 8 _ _ (blocks h)); done.
Qed.

Lemma bucket_insert_spec b g key value h :
  bucket_rep b g (blocks h) ->
  wp (bucket_insert b key value) (fun '(prev, err, b') h' =>
    heap_with h (blocks h') h' /\ frame (bucket_ptrs b) (bucket_ptrs b') (blocks h) (blocks h') /\
    match err with
    | HT_ERR_OK => prev = default NULL (ghost_lookup g key) /\
                   bucket_rep b' (ghost_insert g key value) (blocks h')
    | _ => err = HT_ERR_OUT_OF_MEMORY /\ prev = NULL /\ ghost_lookup g key = None /\
           bucket_rep b' g (blocks h')
    end) h.
Proof.
  intros B. pose proof B as [Rk Rv Kroom Vroom Hlen Kmin Vmin Hdisj].
  unfold bucket_insert. eapply wp_call; [by apply (bucket_find_spec b g (blocks h))|].
  intros found h0 [-> ->]. unfold ghost_lookup, ghost_insert.
  destruct (list_find (key =.) g.1) as [[i k]|] eqn:Ef; simpl.
  - apply list_find_Some in Ef as (Hi&_&_). apply lookup_lt_Some in Hi.
    rewrite (rep_nth 8 _ g.2 (blocks h)), Nat2Z.id by (done || rewrite ?(rep_size Rv); lia).
    destruct (lookup_lt_is_Some_2 g.2 i) as [v Hv]; [lia|]. rewrite Hv, some_bind.
    destruct (rep_write 8 _ _ _ i value Rv) as (c&->&Rc); [lia|]. rewrite some_bind.
    wp_steps. split_and!; try done.
    split; simpl; rewrite ?length_insert; try done.
    unfold bag_room in *. destruct Rc as [_ (?&Hx&Hy) _ _ _ _ _ _]; simpl in *.
    destruct Rv as [_ (?&Hx'&Hy') _ _ _ _ _ _]. congruence.
  - eapply wp_call; [by apply (bag_add_spec 8 (key_bag b) g.1)|].
    intros [e keys] h1 [Kroom' He]. destruct (decide (e = HT_ERR_OK)) as [->|Hne]; cbn beta iota.
    2: { destruct e; [done|..]; destruct He as (He&_&->&Hb&Hw); try done.
         wp_steps. rewrite Hb in *. destruct b. split_and!; try done. }
    destruct He as [(Rk'&Kmin'&Krep&Hw1) Kcap].
    destruct (replaced_other _ _ _ _ (data (value_bag b)) Krep) as [Hvk Hvl];
      [done|apply (bucket_rep_live b g); [done|unfold bucket_ptrs; set_solver]|].
    assert (Rv1 : bag_rep 8 (value_bag b) g.2 (blocks h1)) by (by apply (rep_live_mono 8 _ _ (blocks h))).
    eapply wp_call; [by apply (bag_add_spec 8 (value_bag b) g.2)|].
    intros [e values] h2 [Vroom' He]. destruct (decide (e = HT_ERR_OK)) as [->|Hne]; cbn beta iota.
    + destruct He as [(Rv'&Vmin'&Vrep&Hw2) _].
      destruct (replaced_other _ _ _ _ (data keys) Vrep) as [Hkv Hkl]; [done| |].
      { destruct (rep_live Rk') as (?&?&_). eauto. }
      destruct (replaced_frame2 _ _ _ _ _ _ _ Krep Vrep) as [Hfr Hne]; try done.
      { apply (bucket_rep_live b g); [done|unfold bucket_ptrs; set_solver]. }
      { apply (rep_data Rk'). }
      { destruct (rep_live Rk') as (?&?&_). eauto. }
      wp_steps. split_and!; try done; [by eapply heap_with_trans|].
      split; simpl; try done; try congruence; [|rewrite !length_app; simpl; lia].
      by apply (rep_live_mono 8 _ _ (blocks h1)).
    + assert (Hroll : e = HT_ERR_OUT_OF_MEMORY /\ capacity (value_bag b) = size (value_bag b) /\
        values = value_bag b /\ blocks h2 = blocks h1 /\ heap_with h1 (blocks h2) h2)
        by (destruct e; done).
      destruct Hroll as (->&Vfull&->&Hb2&Hw2).
      eapply wp_mono; [apply (bucket_rollback_spec b g keys key h h2); try done; rewrite ?Hb2; congruence || done|].
      intros [[p e] b'] h3 (Hw3&Hfr3&->&->&B3). split_and!; try done.
      eapply heap_with_trans; [done|]. by eapply heap_with_trans.
Qed.

(** ** What the map holds *)

Definition map_ptrs (m : HT_HashMap) : list ptr := m ≫= bucket_ptrs.

(** Every key sits in the bucket its residue selects, once. *)
Definition ghost_ok (gs : list (list Z * list ptr)) : Prop :=
  forall i g, gs !! i = Some g ->
    NoDup g.1 /\ length g.1 = length g.2 /\ forall k, k ∈ g.1 -> Z.to_nat (k mod BUCKET_COUNT) = i.

Record map_rep (m : HT_HashMap) (gs : list (list Z * list ptr)) (live : gmap ptr Z) : Prop := {
  mr_length : length m = 512%nat;
  mr_buckets : Forall2 (fun b g => bucket_rep b g live) m gs;
  mr_ptrs : NoDup (map_ptrs m);
  mr_ghost : ghost_ok gs
}.

Definition entries (gs : list (list Z * list ptr)) : list (Z * ptr) :=
  gs ≫= fun g => zip g.1 g.2.

(** The finite map the buckets represent. *)
Definition abs (gs : list (list Z * list ptr)) : gmap Z ptr := list_to_map (entries gs).

Lemma elem_of_entries gs k v :
  (k, v) ∈ entries gs <-> exists i g, gs !! i = Some g /\ (k, v) ∈ zip g.1 g.2.
Proof.
  unfold entries. rewrite list_elem_of_bind. split.
  - intros (g&Hz&Hg). apply list_elem_of_lookup in Hg as [i Hi]. eauto.
  - intros (i&g&Hi&Hz). exists g. split; [done|]. by eapply list_elem_of_lookup_2.
Qed.

Lemma elem_of_zip_keys (g : list Z * list ptr) k v : (k, v) ∈ zip g.1 g.2 -> k ∈ g.1.
Proof. intros Hz. by apply elem_of_zip_l in Hz. Qed.

Lemma entries_keys gs : ghost_ok gs -> NoDup (entries gs).*1.
Proof.
  intros Hok. unfold entries. rewrite bind_fmap_list.
  apply (NoDup_bind_class _ (fun k => Z.to_nat (k mod BUCKET_COUNT)) gs 0).
  intros i g Hg. destruct (Hok i g Hg) as (Hnd&Hlen&Hres).
  rewrite fst_zip by lia. split; [done|]. intros k Hk. by rewrite (Hres k Hk).
Qed.

Lemma ghost_lookup_zip (g : list Z * list ptr) k v :
  NoDup g.1 -> length g.1 = length g.2 ->
  ghost_lookup g k = Some v <-> (k, v) ∈ zip g.1 g.2.
Proof.
  intros Hnd Hlen. unfold ghost_lookup. rewrite list_elem_of_lookup. split.
  - destruct (list_find (k =.) g.1) as [[i x]|] eqn:E; simpl; [|done]. intros Hv.
    apply list_find_Some in E as (Hi&->&_). exists i. rewrite lookup_zip_with, Hi, Hv. done.
  - intros [i Hi]. rewrite lookup_zip_with in Hi.
    destruct (g.1 !! i) as [k'|] eqn:Ek; simpl in Hi; [|done].
    destruct (g.2 !! i) as [v'|] eqn:Ev; simpl in Hi; [|done]. simplify_eq.
    destruct (list_find (k =.) g.1) as [[j x]|] eqn:E.
    + apply list_find_Some in E as (Hj&->&_). simpl.
      by rewrite (NoDup_lookup _ _ _ _ Hnd Hj Ek).
    + apply list_find_None in E. rewrite Forall_forall in E.
      exfalso. apply (E k); [by eapply list_elem_of_lookup_2|done].
Qed.

(** A lookup in the map is a lookup in the bucket of the key. *)
Lemma abs_lookup gs k g :
  ghost_ok gs -> gs !! Z.to_nat (k mod BUCKET_COUNT) = Some g -> abs gs !! k = ghost_lookup g k.
Proof.
  intros Hok Hg. destruct (Hok _ _ Hg) as (Hnd&Hlen&_). apply option_eq. intros v.
  rewrite ghost_lookup_zip by done. unfold abs.
  rewrite <- elem_of_list_to_map, elem_of_entries by (by apply entries_keys). split.
  - intros (i&g'&Hg'&Hz). destruct (Hok _ _ Hg') as (_&_&Hres).
    rewrite (Hres k) in Hg by (by eapply elem_of_zip_keys). by simplify_eq.
  - eauto.
Qed.

Lemma ghost_insert_lookup g key value k :
  length g.1 = length g.2 ->
  ghost_lookup (ghost_insert g key value) k = if decide (k = key) then Some value else ghost_lookup g k.
Proof.
  intros Hlen. unfold ghost_insert, ghost_lookup.
  destruct (list_find (key =.) g.1) as [[i x]|] eqn:E; simpl.
  - apply list_find_Some in E as (Hi&<-&Hfst). case_decide as Hk.
    + subst. replace (list_find (key =.) g.1) with (Some (i, key)) by (symmetry; by apply list_find_Some).
      simpl. apply list_lookup_insert_eq. rewrite <- Hlen. by eapply lookup_lt_Some.
    + destruct (list_find (k =.) g.1) as [[j y]|] eqn:Ej; simpl; [|done].
      apply list_find_Some in Ej as (Hj&<-&_).
      rewrite list_lookup_insert_ne; [done|]. intros ->. congruence.
  - case_decide as Hk.
    + subst. replace (list_find (key =.) (g.1 ++ [key])) with (Some (length g.1, key)).
      * simpl. by rewrite Hlen, lookup_app_r, Nat.sub_diag by lia.
      * symmetry. apply list_find_app_Some. right. split; [done|]. split; [done|].
        simpl. rewrite decide_True, Nat.sub_diag by done. done.
    + destruct (list_find (k =.) g.1) as [[j y]|] eqn:Ej.
      * rewrite (list_find_app_l _ _ _ _ _ Ej). simpl.
        apply list_find_Some in Ej as (Hj%lookup_lt_Some&_). by rewrite lookup_app_l by lia.
      * rewrite list_find_app_r by done. simpl. by rewrite decide_False.
Qed.

Lemma ghost_ok_insert gs i g key value :
  ghost_ok gs -> gs !! i = Some g -> i = Z.to_nat (key mod BUCKET_COUNT) ->
  ghost_ok (<[i := ghost_insert g key value]> gs).
Proof.
  intros Hok Hg Hi j g' Hj. apply list_lookup_insert_Some in Hj as [(<-&<-&_)|[Hne Hj]]; [|by apply Hok].
  destruct (Hok _ _ Hg) as (Hnd&Hlen&Hres). unfold ghost_insert.
  destruct (list_find (key =.) g.1) as [[n x]|] eqn:E; simpl.
  - rewrite length_insert. done.
  - apply list_find_None in E. rewrite Forall_forall in E. rewrite !length_app; simpl.
    split_and!; [|lia|].
    + apply NoDup_app. split_and!; [done| |apply NoDup_singleton].
      intros k Hk ->%list_elem_of_singleton. by apply (E _ Hk).
    + intros k [Hk| ->%list_elem_of_singleton]%elem_of_app; [by apply Hres|done].
Qed.

Lemma map_ptrs_app m1 m2 : map_ptrs (m1 ++ m2) = map_ptrs m1 ++ map_ptrs m2.
Proof. apply bind_app. Qed.

Lemma buckets_live m gs live r :
  Forall2 (fun b g => bucket_rep b g live) m gs -> r ∈ map_ptrs m -> is_Some (live !! r).
Proof.
  intros HF Hr. apply list_elem_of_bind in Hr as (b&Hr&Hb).
  apply list_elem_of_lookup in Hb as [i Hi].
  destruct (Forall2_lookup_l _ _ _ _ _ HF Hi) as (g&_&B). by eapply bucket_rep_live.
Qed.

Lemma buckets_frame m gs l l' :
  Forall2 (fun b g => bucket_rep b g l) m gs -> (forall r, r ∈ map_ptrs m -> l' !! r = l !! r) ->
  Forall2 (fun b g => bucket_rep b g l') m gs.
Proof.
  intros HF E. induction HF as [|b g m gs B HF IH]; constructor.
  - apply (bucket_rep_frame b g l); [done|]. intros r Hr. apply E.
    change (r ∈ bucket_ptrs b ++ map_ptrs m). by apply elem_of_app; left.
  - apply IH. intros r Hr. apply E.
    change (r ∈ bucket_ptrs b ++ map_ptrs m). by apply elem_of_app; right.
Qed.

Lemma NoDup_replace_middle {A} (P1 P P' P2 : list A) :
  NoDup (P1 ++ P ++ P2) -> NoDup P' -> (forall r, r ∈ P1 ++ P2 -> r ∉ P') -> NoDup (P1 ++ P' ++ P2).
Proof.
  intros (H1&H2&(H3&H4&H5)%NoDup_app)%NoDup_app HP' Hd. rewrite !NoDup_app.
  split_and!; try done.
  - intros x Hx [Hx'|Hx']%elem_of_app.
    + apply (Hd x); [|done]. apply elem_of_app; by left.
    + apply (H2 x Hx), elem_of_app; by right.
  - intros x Hx Hx2. apply (Hd x); [|done]. apply elem_of_app; by right.
Qed.

(** One bucket changes: the other buckets are framed. *)
Lemma map_update_bucket m gs i b g b' g' live live' :
  map_rep m gs live -> m !! i = Some b -> gs !! i = Some g ->
  bucket_rep b' g' live' -> frame (bucket_ptrs b) (bucket_ptrs b') live live' ->
  ghost_ok (<[i := g']> gs) ->
  map_rep (<[i := b']> m) (<[i := g']> gs) live' /\
  frame (map_ptrs m) (map_ptrs (<[i := b']> m)) live live'.
Proof.
  intros [Hlen HF Hnd Hok] Hb Hg B' Hfr Hok'.
  assert (Hi := lookup_lt_Some _ _ _ Hb). assert (Hi' := lookup_lt_Some _ _ _ Hg).
  assert (Em : map_ptrs m = map_ptrs (take i m) ++ bucket_ptrs b ++ map_ptrs (drop (S i) m))
    by (rewrite <- (take_drop_middle m i b Hb) at 1; apply map_ptrs_app).
  assert (Em' : map_ptrs (<[i := b']> m) = map_ptrs (take i m) ++ bucket_ptrs b' ++ map_ptrs (drop (S i) m))
    by (rewrite insert_take_drop by done; apply map_ptrs_app).
  rewrite Em in Hnd.
  rewrite <- (take_drop_middle m i b Hb), <- (take_drop_middle gs i g Hg) in HF.
  apply Forall2_app_inv in HF as [HF1 HF2]; [|rewrite !length_take; lia].
  apply Forall2_cons in HF2 as [B HF2].
  set (P1 := map_ptrs (take i m)) in *. set (P2 := map_ptrs (drop (S i) m)) in *.
  assert (Hown : forall r, r ∈ P1 ++ P2 -> (r ∉ bucket_ptrs b) /\ is_Some (live !! r)).
  { apply NoDup_app in Hnd as (_&Hd1&(_&Hd2&_)%NoDup_app).
    intros r [Hr|Hr]%elem_of_app.
    all: split; [|first [exact (buckets_live _ _ _ r HF1 Hr)|exact (buckets_live _ _ _ r HF2 Hr)]].
    - intros Hr'. apply (Hd1 r Hr), elem_of_app. by left.
    - intros Hr'. by apply (Hd2 r Hr'). }
  destruct (frame_app P1 P2 _ _ _ _ Hfr Hown) as [Hframe Hkeep].
  split; [|by rewrite Em, Em'].
  split; [by rewrite length_insert| | |done].
  - rewrite !insert_take_drop by done. apply Forall2_app; [|constructor; [done|]]; eapply buckets_frame; try done;
      intros r Hr; apply Hkeep, elem_of_app; auto.
  - rewrite Em'. apply (NoDup_replace_middle _ _ _ _ Hnd).
    + unfold bucket_ptrs. rewrite NoDup_cons. split; [|apply NoDup_singleton].
      rewrite list_elem_of_singleton. apply (br_disj _ _ _ B').
    + intros r Hr. by apply Hkeep.
Qed.

Lemma map_bucket m gs live key :
  map_rep m gs live -> exists b g,
    m !! Z.to_nat (key mod BUCKET_COUNT) = Some b /\ gs !! Z.to_nat (key mod BUCKET_COUNT) = Some g /\
    bucket_rep b g live.
Proof.
  intros [Hlen HF _ _].
  destruct (lookup_lt_is_Some_2 m (Z.to_nat (key mod BUCKET_COUNT))) as [b Hb].
  { unfold BUCKET_COUNT. pose proof (Z.mod_pos_bound key 512). lia. }
  destruct (Forall2_lookup_l _ _ _ _ _ HF Hb) as (g&Hg&B). eauto.
Qed.

Lemma hash_map_insert_spec m gs key value h :
  map_rep m gs (blocks h) ->
  wp (ht_hash_map_insert m key value) (fun '(prev, err, m') h' =>
    heap_with h (blocks h') h' /\ frame (map_ptrs m) (map_ptrs m') (blocks h) (blocks h') /\
    match err with
    | HT_ERR_OK => prev = default NULL (abs gs !! key) /\
        exists gs', map_rep m' gs' (blocks h') /\ abs gs' = <[key := value]> (abs gs)
    | _ => err = HT_ERR_OUT_OF_MEMORY /\ prev = NULL /\ map_rep m' gs (blocks h')
    end) h.
Proof.
  intros MR. destruct (map_bucket _ _ _ key MR) as (b&g&Hb&Hg&B).
  pose proof (mr_ghost _ _ _ MR) as Hok. pose proof (br_len _ _ _ B) as Hlen.
  unfold ht_hash_map_insert. rewrite Hb, some_bind.
  eapply wp_call; [by apply (bucket_insert_spec b g)|].
  intros [[prev err] b'] h' (Hw&Hfr&Hres). wp_steps.
  destruct (decide (err = HT_ERR_OK)) as [->|Hne].
  - destruct Hres as [-> B']. rewrite (abs_lookup gs key g) by done.
    assert (Hok' := ghost_ok_insert gs _ g key value Hok Hg eq_refl).
    destruct (map_update_bucket _ _ _ _ _ _ _ _ _ MR Hb Hg B' Hfr Hok') as [MR' Hframe].
    split_and!; try done. eexists; split; [done|]. apply map_eq. intros k.
    rewrite lookup_insert. destruct (map_bucket _ _ _ k MR) as (bk&gk&_&Hgk&Bk).
    destruct (decide (Z.to_nat (k mod BUCKET_COUNT) = Z.to_nat (key mod BUCKET_COUNT))) as [E|E].
    + rewrite E in Hgk. rewrite Hg in Hgk. injection Hgk as <-.
      rewrite (abs_lookup _ k (ghost_insert g key value)), (abs_lookup gs k g), ghost_insert_lookup;
        rewrite ?E; try done; [by repeat case_decide; congruence|].
      apply list_lookup_insert_eq. by eapply lookup_lt_Some.
    + rewrite decide_False by congruence.
      rewrite (abs_lookup _ k gk), (abs_lookup gs k gk); try done.
      by rewrite list_lookup_insert_ne.
  - assert (Hr : err = HT_ERR_OUT_OF_MEMORY /\ prev = NULL /\ ghost_lookup g key = None /\
      bucket_rep b' g (blocks h')) by (destruct err; done).
    destruct Hr as (->&->&_&B').
    destruct (map_update_bucket _ _ _ _ _ _ _ _ _ MR Hb Hg B' Hfr) as [MR' Hframe];
      [by rewrite list_insert_id|]. rewrite (list_insert_id gs) in MR' by done. done.
Qed.

Lemma hash_map_get_spec m gs key h :
  map_rep m gs (blocks h) ->
  wp (ht_hash_map_get_value m key) (fun v h' => h' = h /\ v = default NULL (abs gs !! key)) h.
Proof.
  intros MR. destruct (map_bucket _ _ _ key MR) as (b&g&Hb&Hg&B).
  unfold ht_hash_map_get_value. rewrite Hb, some_bind.
  rewrite (abs_lookup gs key g) by (done || apply (mr_ghost _ _ _ MR)).
  eapply wp_call; [by apply (bucket_find_spec b g (blocks h))|].
  intros found h' [-> ->]. unfold ghost_lookup.
  destruct (list_find (key =.) g.1) as [[i k]|] eqn:E; simpl; [|done].
  apply list_find_Some in E as (Hi%lookup_lt_Some&_&_).
  pose proof (br_values _ _ _ B) as Rv. pose proof (br_len _ _ _ B).
  rewrite (rep_nth 8 _ g.2 (blocks h)), Nat2Z.id by (done || rewrite ?(rep_size Rv); lia).
  destruct (lookup_lt_is_Some_2 g.2 i) as [v Hv]; [lia|]. by rewrite Hv.
Qed.

(** ** Initialisation and release *)

Lemma bucket_init_spec h :
  wp ht_hash_bucket_init (fun r h' => heap_with h (blocks h') h' /\
    match r with
    | inl err => err = HT_ERR_OUT_OF_MEMORY /\ blocks h' = blocks h
    | inr b => bucket_rep b ([], []) (blocks h') /\ frame [] (bucket_ptrs b) (blocks h) (blocks h')
    end) h.
Proof.
  unfold ht_hash_bucket_init. eapply wp_call; [apply (bag_init_spec 8); lia|].
  intros [e|values] h1; cbn beta iota.
  - intros (->&Hb&Hw). wp_steps. by rewrite Hb.
  - intros (Rv&Vroom&Vmin&_&_&Vfr&Hw1). eapply wp_call; [apply (bag_init_spec 8); lia|].
    intros [e|keys] h2; cbn beta iota.
    + intros (->&Hw2). assert (Rv2 : bag_rep 8 values [] (blocks h2)) by (by destruct Hw2 as (->&_)).
      eapply wp_call; [by eapply bag_deinit_spec|]. intros b3 h3 (_&_&_&Hw3). wp_steps.
      destruct Hw1 as (E1&?&?), Hw2 as (E2&?&?), Hw3 as (E3&?&?).
      assert (Eb : blocks h3 = blocks h) by (by rewrite E3, E2, E1, delete_insert_id).
      unfold heap_with. split_and!; congruence.
    + intros (Rk&Kroom&Kmin&_&_&Kfr&Hw2). wp_steps.
      destruct Hw1 as (E1&?&?), Hw2 as (E2&?&?). rewrite E2.
      assert (data keys <> data values)
        by (intros Eq; rewrite Eq, E1, lookup_insert_eq in Kfr; done).
      split; [unfold heap_with; split_and!; congruence|]. split.
      * split; simpl; try done; [by rewrite <- E2|].
        apply (rep_live_mono 8 _ _ (blocks h1)); [by rewrite lookup_insert_ne|done].
      * apply (frame_trans _ [data values] _ _ (blocks h1)); [rewrite E1|];
          by apply frame_insert.
Qed.

Lemma bucket_deinit_spec b g h :
  bucket_rep b g (blocks h) ->
  wp (ht_hash_bucket_deinit b) (fun _ h' => heap_with h (blocks h') h' /\
    frame (bucket_ptrs b) [] (blocks h) (blocks h')) h.
Proof.
  intros B. pose proof B as [Rk Rv _ _ _ _ _ Hdisj]. unfold ht_hash_bucket_deinit.
  eapply wp_call; [by eapply bag_deinit_spec|]. intros _ h1 (_&_&_&E1&?&?).
  assert (Rk1 : bag_rep 8 (key_bag b) g.1 (blocks h1))
    by (apply (rep_live_mono 8 _ _ (blocks h)); [by rewrite E1, lookup_delete_ne|done]).
  eapply wp_call; [by eapply bag_deinit_spec|]. intros _ h2 (_&_&_&E2&?&?). wp_steps.
  split; [unfold heap_with; split_and!; congruence|].
  apply (frame_trans _ [data (key_bag b)] _ _ (blocks h1)); [|rewrite E2; apply frame_delete].
  rewrite E1. apply (frame_app [data (key_bag b)] [] [data (value_bag b)] []); [apply frame_delete|].
  intros r ->%list_elem_of_singleton. rewrite list_elem_of_singleton. split; [done|].
  apply (bucket_rep_live b g); [done|]. unfold bucket_ptrs. by apply list_elem_of_here.
Qed.

Lemma deinit_buckets_spec m gs h :
  Forall2 (fun b g => bucket_rep b g (blocks h)) m gs -> NoDup (map_ptrs m) ->
  wp (deinit_buckets m) (fun _ h' => heap_with h (blocks h') h' /\
    frame (map_ptrs m) [] (blocks h) (blocks h')) h.
Proof.
  revert gs h. induction m as [|b m IH]; intros gs h HF Hnd; simpl.
  - wp_steps. split; [done|apply frame_refl].
  - apply Forall2_cons_inv_l in HF as (g&gs'&B&HF&->).
    change (map_ptrs (b :: m)) with (bucket_ptrs b ++ map_ptrs m) in *.
    apply NoDup_app in Hnd as (_&Hd&Hnd).
    eapply wp_call; [by apply (bucket_deinit_spec b g)|]. intros _ h1 [Hw1 Hfr1].
    destruct (frame_app [] (map_ptrs m) _ _ _ _ Hfr1) as [Hfr Hkeep].
    { intros r Hr. split; [intros Hr'; by apply (Hd r Hr')|exact (buckets_live _ _ _ r HF Hr)]. }
    eapply wp_mono; [apply (IH gs' h1); [|done]|].
    + apply (buckets_frame _ _ (blocks h)); [done|]. intros r Hr. by apply Hkeep.
    + intros _ h2 [Hw2 Hfr2]. split; [by eapply heap_with_trans|].
      by apply (frame_trans _ _ _ _ _ _ Hfr).
Qed.

(** Buckets initialised so far: all empty, on distinct blocks. *)
Definition fresh_buckets (m : HT_HashMap) (live : gmap ptr Z) : Prop :=
  Forall2 (fun b g => bucket_rep b g live) m (replicate (length m) ([], [])) /\ NoDup (map_ptrs m).

Lemma fresh_buckets_snoc m b l l' :
  fresh_buckets m l -> bucket_rep b ([], []) l' -> frame [] (bucket_ptrs b) l l' ->
  fresh_buckets (m ++ [b]) l' /\ frame (map_ptrs m) (map_ptrs (m ++ [b])) l l'.
Proof.
  intros [HF Hnd] B Hfr.
  destruct (frame_app (map_ptrs m) [] _ _ _ _ Hfr) as [Hfr' Hkeep].
  { rewrite app_nil_r. intros r Hr. split; [apply not_elem_of_nil|exact (buckets_live _ _ _ r HF Hr)]. }
  rewrite !app_nil_r in *. simpl in Hfr'.
  unfold fresh_buckets. rewrite map_ptrs_app, length_app, replicate_add.
  change (map_ptrs [b]) with (bucket_ptrs b ++ []). rewrite app_nil_r. split_and!; try done.
  - apply Forall2_app; [|constructor; [done|constructor]].
    apply (buckets_frame _ _ l); [done|]. intros r Hr. by apply Hkeep.
  - rewrite <- (app_nil_r (bucket_ptrs b)).
    apply (NoDup_replace_middle _ []); rewrite ?app_nil_r; [done| |].
    + unfold bucket_ptrs. rewrite NoDup_cons. split; [|apply NoDup_singleton].
      rewrite list_elem_of_singleton. apply (br_disj _ _ _ B).
    + intros r Hr. by apply Hkeep.
Qed.

Lemma init_buckets_spec n acc h :
  fresh_buckets acc (blocks h) ->
  wp (init_buckets n acc) (fun '(err, m) h' => heap_with h (blocks h') h' /\
    fresh_buckets m (blocks h') /\ frame (map_ptrs acc) (map_ptrs m) (blocks h) (blocks h') /\
    match err with
    | HT_ERR_OK => length m = (length acc + n)%nat
    | _ => err = HT_ERR_OUT_OF_MEMORY
    end) h.
Proof.
  revert acc h. induction n as [|n IH]; intros acc h Hacc; simpl.
  - wp_steps. split_and!; try done; lia.
  - eapply wp_call; [apply bucket_init_spec|]. intros [e|b] h1 [Hw1 Hr]; cbn beta iota in *.
    + destruct Hr as [-> E]. wp_steps. rewrite E in *. split_and!; done.
    + destruct Hr as [B Hfr].
      destruct (fresh_buckets_snoc _ _ _ _ Hacc B Hfr) as [Hacc' Hfr'].
      eapply wp_mono; [by apply IH|]. intros [e m] h2 (Hw2&Hm&Hfr2&He).
      split_and!; try done; [by eapply heap_with_trans|by eapply frame_trans|].
      destruct e; try done. rewrite He, length_app; simpl; lia.
Qed.

Lemma fresh_map_rep m live :
  length m = 512%nat -> fresh_buckets m live -> map_rep m (replicate 512 ([], [])) live.
Proof.
  intros Hlen [HF Hnd]. rewrite Hlen in HF. split; try done.
  intros i g [-> _]%lookup_replicate. split_and!; simpl; [constructor|done|].
  intros k Hk. by apply not_elem_of_nil in Hk.
Qed.

(** Initialisation gives an empty map, or fails and leaves the heap as it
    was: the buckets done before the failure are released. *)
Lemma hash_map_init_spec h :
  wp ht_hash_map_init (fun r h' => heap_with h (blocks h') h' /\
    match r with
    | inl err => err = HT_ERR_OUT_OF_MEMORY /\ blocks h' = blocks h
    | inr m => map_rep m (replicate 512 ([], [])) (blocks h') /\
               frame [] (map_ptrs m) (blocks h) (blocks h')
    end) h.
Proof.
  unfold ht_hash_map_init. eapply wp_call.
  { apply (init_buckets_spec _ []). split; [constructor|constructor]. }
  intros [e m] h1 (Hw1&Hm&Hfr&He). destruct (decide (e = HT_ERR_OK)) as [->|Hne]; cbn beta iota.
  - wp_steps. split_and!; try done. by apply fresh_map_rep.
  - assert (e = HT_ERR_OUT_OF_MEMORY) as -> by (by destruct e).
    destruct Hm as [HF Hnd]. eapply wp_call; [by eapply deinit_buckets_spec|].
    intros _ h2 [Hw2 Hfr2]. wp_steps. split_and!; try done; [by eapply heap_with_trans|].
    apply frame_nil. by eapply frame_trans.
Qed.

Lemma hash_map_deinit_spec m gs h :
  map_rep m gs (blocks h) ->
  wp (ht_hash_map_deinit m) (fun _ h' => heap_with h (blocks h') h' /\
    frame (map_ptrs m) [] (blocks h) (blocks h')) h.
Proof. intros [_ HF Hnd _]. by eapply deinit_buckets_spec. Qed.

(** ** Iteration *)

(** The callback on each entry in turn, until it answers false. *)
Fixpoint each {W} (callback : Z -> ptr -> ST W bool) (l : list (Z * ptr)) : ST W bool :=
  match l with
  | [] => mret true
  | (k, v) :: l => ok ← callback k v; if ok : bool then each callback l else mret false
  end.

Lemma each_app {W} (callback : Z -> ptr -> ST W bool) l1 l2 w :
  each callback (l1 ++ l2) w = (ok ← each callback l1; if ok : bool then each callback l2 else mret false) w.
Proof.
  revert w. induction l1 as [|[k v] l1 IH]; intros w; [done|]. simpl.
  unfold mbind, st_bind in *. destruct (callback k v w) as [[[] w1]| |]; [apply IH|done..].
Qed.

Lemma bucket_for_each_loop_eq {W} (callback : Z -> ptr -> ST W bool) b g live (i : nat) fuel w :
  bucket_rep b g live -> (i <= length g.1)%nat -> (length g.1 - i < fuel)%nat ->
  bucket_for_each_loop fuel b callback (Z.of_nat i) w = each callback (drop i (zip g.1 g.2)) w.
Proof.
  intros B. pose proof B as [Rk Rv _ _ Hlen _ _ _].
  pose proof (rep_size Rk). pose proof (rep_size Rv). pose proof (rep_cap Rk). pose proof (rep_max Rk).
  revert i w. induction fuel as [|fuel IH]; [lia|]. intros i w Hi Hf. simpl. case_decide as Hlt.
  - destruct (lookup_lt_is_Some_2 g.1 i) as [k Hk]; [lia|].
    destruct (lookup_lt_is_Some_2 g.2 i) as [v Hv]; [lia|].
    rewrite (rep_nth 8 (key_bag b) g.1 live), (rep_nth 8 (value_bag b) g.2 live), Nat2Z.id, Hk, Hv by (done || lia).
    rewrite !some_bind, (drop_S _ (k, v)) by (by rewrite lookup_zip_with, Hk, Hv). simpl.
    unfold mbind, st_bind. destruct (callback k v w) as [[[] w1]| |]; try done.
    rewrite u64_small by lia. replace (Z.of_nat i + 1) with (Z.of_nat (S i)) by lia. apply IH; lia.
  - rewrite drop_ge; [done|]. rewrite length_zip. lia.
Qed.

Lemma hash_map_for_each_eq {W} (callback : Z -> ptr -> ST W bool) m gs live w :
  Forall2 (fun b g => bucket_rep b g live) m gs ->
  ht_hash_map_for_each m callback w = (each callback (entries gs);; mret tt) w.
Proof.
  intros HF. revert w. induction HF as [|b g m gs B HF IH]; intros w; [done|]. simpl.
  change (entries (g :: gs)) with (zip g.1 g.2 ++ entries gs).
  unfold ht_hash_bucket_for_each. rewrite (rep_size (br_keys _ _ _ B)), Nat2Z.id.
  change 0 with (Z.of_nat 0). unfold mbind, st_bind.
  rewrite (bucket_for_each_loop_eq callback b g live 0) by (done || lia).
  rewrite each_app, drop_0. unfold mbind, st_bind.
  destruct (each callback (zip g.1 g.2) w) as [[[] w1]| |]; [|done..]. apply IH.
Qed.

Lemma abs_fresh : abs (replicate 512 ([], [])) = ∅.
Proof.
  unfold abs, entries. generalize 512%nat as n.
  induction n as [|n IH]; [done|]. rewrite replicate_S, bind_cons. done.
Qed.

(** ** The map as a finite map *)

(** [m] holds the finite map [M]; its blocks are live. *)
Definition holds (m : HT_HashMap) (M : gmap Z ptr) (live : gmap ptr Z) : Prop :=
  exists gs, map_rep m gs live /\ abs gs = M.

Lemma holds_live m M live r : holds m M live -> r ∈ map_ptrs m -> is_Some (live !! r).
Proof. intros (gs&[_ HF _ _]&_). by apply (buckets_live m gs). Qed.

Lemma holds_nodup m M live : holds m M live -> NoDup (map_ptrs m).
Proof. intros (gs&[_ _ ? _]&_). done. Qed.

Lemma holds_frame m M live live' :
  holds m M live -> (forall r, r ∈ map_ptrs m -> live' !! r = live !! r) -> holds m M live'.
Proof. intros (gs&[? HF ? ?]&?) Hl. exists gs. split; [|done]. split; try done. by apply (buckets_frame m gs live). Qed.

Lemma holds_insert m M key value h :
  holds m M (blocks h) ->
  wp (ht_hash_map_insert m key value) (fun '(prev, err, m') h' =>
    frame (map_ptrs m) (map_ptrs m') (blocks h) (blocks h') /\
    match err with
    | HT_ERR_OK => prev = default NULL (M !! key) /\ holds m' (<[key := value]> M) (blocks h')
    | _ => err = HT_ERR_OUT_OF_MEMORY /\ prev = NULL /\ holds m' M (blocks h')
    end) h.
Proof.
  intros (gs&MR&<-). eapply wp_mono; [by apply (hash_map_insert_spec m gs)|].
  intros [[prev err] m'] h' (_&Hfr&He). split; [done|].
  destruct err; [destruct He as (->&gs'&MR'&Eg); split; [done|]; by exists gs'|..]; destruct He as (?&?&?); try done.
  split_and!; try done. by exists gs.
Qed.

Lemma holds_get m M key h :
  holds m M (blocks h) -> wp (ht_hash_map_get_value m key) (fun v h' => h' = h /\ v = default NULL (M !! key)) h.
Proof. intros (gs&MR&<-). by apply hash_map_get_spec. Qed.

Lemma holds_init h :
  wp ht_hash_map_init (fun r h' =>
    match r with
    | inl err => err = HT_ERR_OUT_OF_MEMORY /\ blocks h' = blocks h
    | inr m => holds m ∅ (blocks h') /\ frame [] (map_ptrs m) (blocks h) (blocks h')
    end) h.
Proof.
  eapply wp_mono; [apply hash_map_init_spec|]. intros [err|m] h' [_ Hr]; [done|]. destruct Hr as [MR Hfr].
  split; [|done]. eexists. split; [done|apply abs_fresh].
Qed.

Lemma holds_deinit m M h :
  holds m M (blocks h) -> wp (ht_hash_map_deinit m) (fun _ h' => frame (map_ptrs m) [] (blocks h) (blocks h')) h.
Proof. intros (gs&MR&_). eapply wp_mono; [by apply (hash_map_deinit_spec m gs)|]. by intros ? h' [_ ?]. Qed.

(** Iteration goes through the entries of the finite map, in some order that
    does not depend on the callback. *)
Lemma holds_for_each m M live :
  holds m M live -> exists l, l ≡ₚ map_to_list M /\
    forall W (callback : Z -> ptr -> ST W bool) w, ht_hash_map_for_each m callback w = (each callback l;; mret tt) w.
Proof.
  intros (gs&[_ HF _ Hok]&<-). exists (entries gs). split; [|intros W callback w; by apply (hash_map_for_each_eq callback m gs live)].
  unfold abs. symmetry. apply map_to_list_to_map, entries_keys, Hok.
Qed.

Lemma bucket_size_le m gs live i g :
  map_rep m gs live -> gs !! i = Some g -> (length g.1 <= base.size (abs gs))%nat.
Proof.
  intros [_ _ _ Hok] Hg. unfold abs. rewrite <- length_map_to_list.
  rewrite (Permutation_length (map_to_list_to_map (entries gs) (entries_keys gs Hok))).
  unfold entries. rewrite <- (take_drop_middle gs i g Hg), bind_app, bind_cons, !length_app, length_zip.
  destruct (Hok i g Hg) as (_&?&_). lia.
Qed.

(** With memory for the asking every insertion succeeds. *)
Lemma holds_insert_generous m M key value h :
  generous -> holds m M (blocks h) -> Z.of_nat (base.size M) < 2 ^ 57 ->
  wlp (ht_hash_map_insert m key value) (fun r _ => r.1.2 = HT_ERR_OK) h.
Proof.
  intros Hg (gs&MR&<-) Hs. destruct (map_bucket _ _ _ key MR) as (b&g&Hb&Hgs&B). pose proof (bucket_size_le _ _ _ _ _ MR Hgs) as Hle.
  unfold ht_hash_map_insert. rewrite Hb, some_bind. apply wlp_bind.
  eapply (wlp_mono _ (fun r _ => r.1.2 = HT_ERR_OK)); [|intros [[prev err] b'] h' He; by apply wlp_ret].
  unfold bucket_insert. apply wlp_bind. eapply wlp_mono; [by apply wp_wlp, (bucket_find_spec b g (blocks h))|].
  intros found h0 [-> ->]. destruct (list_find _ g.1) as [[i k]|] eqn:Ef; simpl.
  - apply wlp_bind, wlp_any. intros prev h1. apply wlp_bind, wlp_any. intros l h2. by apply wlp_ret.
  - pose proof B as [Rk Rv Kroom Vroom Hlen _ _ Hdisj].
    apply wlp_bind. eapply wlp_mono; [apply wp_wlp, wp_and; [by apply (bag_add_spec 8 (key_bag b) g.1)|apply (bag_add_generous 8 _ g.1); [done|done|lia]]|].
    intros [e keys] h1 [[_ He] Hok]. simpl in Hok. subst e. rewrite decide_True by done. destruct He as [(_&_&Krep&_) _].
    destruct (replaced_other _ _ _ _ (data (value_bag b)) Krep) as [_ Hvl];
      [done|apply (bucket_rep_live b g); [done|unfold bucket_ptrs; set_solver]|].
    apply wlp_bind. eapply wlp_mono; [apply (bag_add_generous 8 _ g.2); [done| |lia]|].
    { by apply (rep_live_mono 8 _ _ (blocks h)). }
    intros [e values] h2 Hok. simpl in Hok. subst e. rewrite decide_True by done. by apply wlp_ret.
Qed.

(** ** A map from its initialisation to its release *)

Fixpoint insert_all (m : HT_HashMap) (kvs : list (Z * ptr)) : ST heap (list HT_ErrorCode * HT_HashMap) :=
  match kvs with
  | [] => mret ([], m)
  | (k, v) :: kvs =>
      '(_, err, m) ← ht_hash_map_insert m k v;
      '(errs, m) ← insert_all m kvs;
      mret (err :: errs, m)
  end.

Fixpoint get_all (m : HT_HashMap) (keys : list Z) : ST heap (list ptr) :=
  match keys with
  | [] => mret []
  | k :: keys => v ← ht_hash_map_get_value m k; vs ← get_all m keys; mret (v :: vs)
  end.

(** The finite map after the insertions that succeeded. *)
Fixpoint inserted (kvs : list (Z * ptr)) (errs : list HT_ErrorCode) (M : gmap Z ptr) : gmap Z ptr :=
  match kvs, errs with
  | (k, v) :: kvs, err :: errs =>
      inserted kvs errs (if decide (err = HT_ERR_OK) then <[k := v]> M else M)
  | _, _ => M
  end.

Lemma insert_all_spec m gs kvs h :
  map_rep m gs (blocks h) ->
  wp (insert_all m kvs) (fun '(errs, m') h' =>
    frame (map_ptrs m) (map_ptrs m') (blocks h) (blocks h') /\ length errs = length kvs /\
    Forall (fun e => e = HT_ERR_OK \/ e = HT_ERR_OUT_OF_MEMORY) errs /\
    exists gs', map_rep m' gs' (blocks h') /\ abs gs' = inserted kvs errs (abs gs)) h.
Proof.
  revert m gs h. induction kvs as [|[k v] kvs IH]; intros m gs h MR; simpl.
  { wp_steps. split_and!; try done. eauto. }
  eapply wp_call; [by apply (hash_map_insert_spec m gs)|].
  intros [[prev err] m1] h1 (_&Hfr&He).
  assert (exists gs1, map_rep m1 gs1 (blocks h1) /\ (err = HT_ERR_OK \/ err = HT_ERR_OUT_OF_MEMORY) /\
    abs gs1 = (if decide (err = HT_ERR_OK) then <[k := v]> (abs gs) else abs gs)) as (gs1&MR1&Herr&Habs).
  { destruct err; try (by destruct He).
    - destruct He as (_&gs1&MR1&E). exists gs1. split_and!; [done|by left|done].
    - destruct He as (_&_&MR1). exists gs. split_and!; [done|by right|done]. }
  eapply wp_call; [by apply (IH m1 gs1)|].
  intros [errs m2] h2 (Hfr2&Hlen&HF&gs2&MR2&Habs2). wp_steps. simpl.
  split_and!; [by eapply frame_trans|lia|by constructor|].
  exists gs2. split; [done|]. by rewrite Habs2, Habs.
Qed.

Lemma get_all_spec m gs keys h :
  map_rep m gs (blocks h) ->
  wp (get_all m keys) (fun vs h' => h' = h /\ vs = (fun k => default NULL (abs gs !! k)) <$> keys) h.
Proof.
  intros MR. induction keys as [|k keys IH]; simpl; [done|].
  eapply wp_call; [by apply (hash_map_get_spec m gs)|]. intros v h1 [-> ->].
  eapply wp_call; [apply IH|]. intros vs h2 [-> ->]. by wp_steps.
Qed.

Definition hash_map_lifetime (kvs : list (Z * ptr)) (keys : list Z)
    : ST heap (HT_ErrorCode + list HT_ErrorCode * list ptr) :=
  r ← ht_hash_map_init;
  match r with
  | inl err => mret (inl err)
  | inr m =>
      '(errs, m) ← insert_all m kvs;
      vs ← get_all m keys;
      ht_hash_map_deinit m;;
      mret (inr (errs, vs))
  end.

(** C24: the hash map behaves as a finite map, with every allocator: it is
    initialised or fails with out-of-memory; each insertion stores its
    value or fails with out-of-memory and changes nothing; a lookup gives
    the value stored last (null when there is none); no operation is
    undefined behaviour, and on release, as after a failed
    initialisation, the heap is as it was before. *)
Theorem hash_map_refines_gmap kvs keys h :
  wp (hash_map_lifetime kvs keys) (fun r h' => blocks h' = blocks h /\
    match r with
    | inl err => err = HT_ERR_OUT_OF_MEMORY
    | inr (errs, vs) => length errs = length kvs /\
        Forall (fun e => e = HT_ERR_OK \/ e = HT_ERR_OUT_OF_MEMORY) errs /\
        vs = (fun k => default NULL (inserted kvs errs ∅ !! k)) <$> keys
    end) h.
Proof.
  unfold hash_map_lifetime. eapply wp_call; [apply hash_map_init_spec|].
  intros [e|m] h1 [_ Hr]; cbn beta iota in *; [destruct Hr as [-> E]; by wp_steps|].
  destruct Hr as [MR Hfr1]. eapply wp_call; [by eapply insert_all_spec|].
  intros [errs m2] h2 (Hfr2&Hlen&HF&gs2&MR2&Habs).
  eapply wp_call; [by eapply get_all_spec|]. intros vs h3 [-> ->].
  eapply wp_call; [by eapply hash_map_deinit_spec|]. intros _ h4 [_ Hfr4]. wp_steps.
  rewrite Habs, abs_fresh. split_and!; try done.
  apply frame_nil. eapply frame_trans; [done|]. by eapply frame_trans.
Qed.

(** A callback that records what it is called with and continues. *)
Definition record_entry (k : Z) (v : ptr) : ST (list (Z * ptr)) bool :=
  modify (fun l => l ++ [(k, v)]);; mret true.

Lemma each_record l acc : each record_entry l acc = Done (true, acc ++ l).
Proof.
  revert acc. induction l as [|[k v] l IH]; intros acc; simpl; [by rewrite app_nil_r|].
  unfold mbind, st_bind; simpl. rewrite IH, <- app_assoc. done.
Qed.

(** Iterating over a map filled by any insertions calls back with
    every stored key exactly once, with its value, and with nothing
    else. *)
Theorem hash_map_for_each_complete kvs h :
  wp (r ← ht_hash_map_init;
      match r with
      | inl err => mret None
      | inr m => x ← insert_all m kvs; mret (Some x)
      end)
    (fun r _ => match r with
      | None => True
      | Some (errs, m) => exists l, ht_hash_map_for_each m record_entry [] = Done (tt, l) /\
          NoDup l.*1 /\ l ≡ₚ map_to_list (inserted kvs errs ∅)
      end) h.
Proof.
  eapply wp_call; [apply hash_map_init_spec|].
  intros [e|m] h1 [_ Hr]; cbn beta iota in *; [by wp_steps|].
  destruct Hr as [MR _]. eapply wp_call; [by eapply insert_all_spec|].
  intros [errs m2] h2 (_&_&_&gs2&MR2&Habs). wp_steps.
  rewrite (hash_map_for_each_eq record_entry m2 gs2 (blocks h2)) by apply (mr_buckets _ _ _ MR2).
  unfold mbind, st_bind. rewrite each_record. exists (entries gs2).
  pose proof (entries_keys gs2 (mr_ghost _ _ _ MR2)) as Hnd. split_and!; try done.
  rewrite <- abs_fresh, <- Habs. unfold abs. symmetry. by apply map_to_list_to_map.
Qed.

End hash_map.
