(* ===== verification/Memory.v ===== *)
(** Byte buffers: the contents of a block as a list of cells, with bounds
    checked reads and writes (memcpy). *)
From S2P Require Import Prelude.

Section memory.
  Context {V : Type}.
  Implicit Types (b vs : list V) (off n : Z).

(** memcpy(b + off, vs, length vs). *)
Definition mem_write b off vs : option (list V) :=
  if decide (0 <= off /\ off + Z.of_nat (length vs) <= Z.of_nat (length b)) then
    Some (take (Z.to_nat off) b ++ vs ++ drop (Z.to_nat off + length vs) b)
  else None.

(** The [n] cells at [b + off]. *)
Definition mem_read b off n : option (list V) :=
  if decide (0 <= off /\ 0 <= n /\ off + n <= Z.of_nat (length b)) then
    Some (take (Z.to_nat n) (drop (Z.to_nat off) b))
  else None.

Lemma mem_write_spec b off vs :
  0 <= off -> off + Z.of_nat (length vs) <= Z.of_nat (length b) ->
  exists b', mem_write b off vs = Some b' /\ length b' = length b /\
    take (Z.to_nat off) b' = take (Z.to_nat off) b /\
    take (Z.to_nat off + length vs) b' = take (Z.to_nat off) b ++ vs /\
    mem_read b' off (Z.of_nat (length vs)) = Some vs.
Proof.
  intros H0 Hb. unfold mem_write, mem_read. rewrite decide_True by done.
  eexists; split; [done|].
  assert (Hlen : length (take (Z.to_nat off) b) = Z.to_nat off) by (rewrite length_take; lia).
  assert (Hall : length (take (Z.to_nat off) b ++ vs ++ drop (Z.to_nat off + length vs) b) = length b)
    by (rewrite !length_app, length_drop; lia).
  split_and!; [done| | |].
  - by rewrite take_app_length'.
  - rewrite app_assoc, take_app_length'; [done|]. rewrite length_app. lia.
  - rewrite decide_True by lia. rewrite Nat2Z.id, drop_app_length' by done.
    by rewrite take_app_length.
Qed.

Lemma mem_write_oob b off vs :
  Z.of_nat (length b) < off + Z.of_nat (length vs) -> mem_write b off vs = None.
Proof. intros Hb. unfold mem_write. rewrite decide_False; [done|]. lia. Qed.

Lemma mem_write_nil b off : 0 <= off <= Z.of_nat (length b) -> mem_write b off [] = Some b.
Proof.
  intros Ho. unfold mem_write. rewrite decide_True by (simpl; lia). simpl.
  by rewrite Nat.add_0_r, take_drop.
Qed.

Lemma mem_write_length b off vs b' : mem_write b off vs = Some b' ->
  length b' = length b /\ 0 <= off /\ off + Z.of_nat (length vs) <= Z.of_nat (length b).
Proof.
  unfold mem_write. intros Hw. case_decide as Hd; simplify_eq.
  rewrite !length_app, length_take, length_drop. lia.
Qed.

(** Writing in two goes. *)
Lemma mem_write_app b off vs ws :
  mem_write b off (vs ++ ws) =
    (b' ← mem_write b off vs; mem_write b' (off + Z.of_nat (length vs)) ws).
Proof.
  destruct (mem_write b off vs) as [b'|] eqn:E; simpl.
  - destruct (mem_write_length _ _ _ _ E) as (Hl&H0&Hb). unfold mem_write in *.
    rewrite decide_True in E by done. injection E as E. rewrite length_app, Hl.
    destruct (decide (0 <= off + Z.of_nat (length vs) /\ _)) as [Hd|Hd].
    + rewrite decide_True by lia. f_equal. rewrite Z2Nat.inj_add, Nat2Z.id by lia.
      assert (Hlen : length (take (Z.to_nat off) b ++ vs) = (Z.to_nat off + length vs)%nat)
        by (rewrite length_app, length_take; lia).
      rewrite <- E, (app_assoc _ vs (drop (Z.to_nat off + length vs) b)), take_app_length' by done.
      rewrite (drop_app_ge (_ ++ vs)), Hlen, drop_drop, <- !app_assoc by (rewrite Hlen; lia).
      do 4 f_equal. lia.
    + rewrite decide_False; [done|]. lia.
  - unfold mem_write in *. case_decide as Hd; [done|]. rewrite decide_False; [done|].
    rewrite length_app. lia.
Qed.

(** The cells written, and the cells before them. *)
Lemma mem_write_take b off vs b' : mem_write b off vs = Some b' ->
  take (Z.to_nat off + length vs) b' = take (Z.to_nat off) b ++ vs.
Proof.
  intros E. destruct (mem_write_length _ _ _ _ E) as (_&H0&Hb).
  destruct (mem_write_spec b off vs H0 Hb) as (?&E'&_&_&Ht&_). congruence.
Qed.

Lemma mem_read_prefix b pre n :
  take (length pre) b = pre -> n = Z.of_nat (length pre) -> mem_read b 0 n = Some pre.
Proof.
  intros Hp ->. unfold mem_read. rewrite decide_True; [by rewrite Nat2Z.id, drop_0, Hp|].
  apply (f_equal length) in Hp. rewrite length_take in Hp. lia.
Qed.

(** The last part of a prefix. *)
Lemma mem_read_suffix b pre vs off n :
  take (length (pre ++ vs)) b = pre ++ vs -> off = Z.of_nat (length pre) -> n = Z.of_nat (length vs) ->
  mem_read b off n = Some vs.
Proof.
  intros Hp -> ->. assert (Hl := f_equal length Hp). rewrite length_take, length_app in Hl.
  unfold mem_read. rewrite decide_True by lia. rewrite !Nat2Z.id.
  rewrite <- (take_drop (length (pre ++ vs)) b), Hp, <- app_assoc, drop_app_length.
  by rewrite take_app_length.
Qed.

End memory.
