(* ===== verification/Stack.v ===== *)
(** The stack of variable-size frames of the callstack feature
    (lib/stack.c, lib/include/internal/stack.h).

    [contents] are the cells of the block at [data]; the bag holds the
    offset of every frame, kept as a pointer. *)
From S2P Require Import Prelude Alloc BaseTypes Bag Memory.

Record HT_Stack (V : Type) := Stack {
  sizes_stack : bag Z;
  sdata : ptr;
  contents : list V;
  ssize : Z;
  smin_capacity : Z;
  scapacity : Z
}.
Arguments Stack {V} _ _ _ _ _ _.
Arguments sizes_stack {V} _.
Arguments sdata {V} _.
Arguments contents {V} _.
Arguments ssize {V} _.
Arguments smin_capacity {V} _.
Arguments scapacity {V} _.

Section stack.
  Context `{Malloc} {V : Type} (indet : V).
  Implicit Types s : HT_Stack V.

Definition _ht_stack_resize s (new_capacity : Z) : ST heap (bool * HT_Stack V) :=
  p ← ht_realloc (sdata s) new_capacity;
  if decide (p = NULL) then mret (false, s)
  else mret (true, Stack (sizes_stack s) p (resize (Z.to_nat new_capacity) indet (contents s))
                         (ssize s) (smin_capacity s) new_capacity).

Definition ht_stack_init (capacity n_capacity : Z) : ST heap (HT_ErrorCode + HT_Stack V) :=
  p ← ht_alloc capacity;
  if decide (p = NULL) then mret (inl HT_ERR_OUT_OF_MEMORY)
  else
    r ← ht_bag_init 8 n_capacity;
    match r with
    | inl err => ht_free p;; mret (inl err)
    | inr sizes => mret (inr (Stack sizes p (replicate (Z.to_nat capacity) indet) 0 capacity capacity))
    end.

Definition ht_stack_deinit s : ST heap () :=
  ht_bag_deinit (sizes_stack s);;
  ht_free (sdata s).

(** The growth factor: 2, 4, 8, ... until the frame fits. *)
Fixpoint factor_loop (fuel : nat) (capacity used size factor : Z) : ST heap Z :=
  match fuel with
  | O => nofuel
  | S fuel =>
      if decide (u64 (u64 (capacity * factor) - used) < size)
      then factor_loop fuel capacity used size (u64 (factor * 2))
      else mret factor
  end.

Definition ht_stack_push s (frame : list V) : ST heap (HT_ErrorCode * HT_Stack V) :=
  let size := Z.of_nat (length frame) in
  '(ok, s) ← (if decide (u64 (scapacity s - ssize s) < size) then
                factor ← factor_loop 64 (scapacity s) (ssize s) size 2;
                _ht_stack_resize s (u64 (scapacity s * factor))
              else mret (true, s));
  if ok : bool then
    '(err, sizes) ← ht_bag_add 8 (sizes_stack s) (ssize s);
    if decide (err = HT_ERR_OK) then
      c ← some_or_undef (mem_write (contents s) (ssize s) frame);
      mret (HT_ERR_OK, Stack sizes (sdata s) c (u64 (ssize s + size)) (smin_capacity s) (scapacity s))
    else mret (err, Stack sizes (sdata s) (contents s) (ssize s) (smin_capacity s) (scapacity s))
  else mret (HT_ERR_OUT_OF_MEMORY, s).

Definition ht_stack_pop s : ST heap (HT_Stack V) :=
  top ← some_or_undef (ht_bag_last (sizes_stack s));
  sizes ← ht_bag_remove_nth 8 (sizes_stack s) (u64 (size (sizes_stack s) - 1));
  let s := Stack sizes (sdata s) (contents s) top (smin_capacity s) (scapacity s) in
  if decide (scapacity s > smin_capacity s /\ ssize s < scapacity s / 4) then
    '(_, s) ← _ht_stack_resize s (scapacity s / 2);
    mret s
  else mret s.

(** [ht_stack_top]: the offset, in the block of the stack, of the frame
    pushed last. *)
Definition ht_stack_top s : option Z := ht_bag_last (sizes_stack s).

(** ** What the stack promises: the list of its frames, the top last *)

Fixpoint offsets (o : Z) (frames : list (list V)) : list Z :=
  match frames with
  | [] => []
  | f :: frames => o :: offsets (o + Z.of_nat (length f)) frames
  end.

Record stack_rep s (frames : list (list V)) (live : gmap ptr Z) : Prop := {
  sr_sizes : bag_rep 8 (sizes_stack s) (offsets 0 frames) live;
  sr_room : bag_room (sizes_stack s);
  sr_data : sdata s <> NULL;
  sr_live : is_Some (live !! sdata s);
  sr_disj : data (sizes_stack s) <> sdata s;
  sr_size : ssize s = Z.of_nat (length (concat frames));
  sr_prefix : take (length (concat frames)) (contents s) = concat frames;
  sr_len : Z.of_nat (length (contents s)) = scapacity s;
  sr_min : 0 < smin_capacity s;
  sr_max : scapacity s < 2 ^ 63;
  sr_pow : exists k, 0 <= k /\ scapacity s = smin_capacity s * 2 ^ k
}.

Definition stack_ptrs s : list ptr := [data (sizes_stack s); sdata s].

Lemma offsets_snoc o frames f :
  offsets o (frames ++ [f]) = offsets o frames ++ [o + Z.of_nat (length (concat frames))].
Proof.
  revert o. induction frames as [|g frames IH]; intros o; simpl; [by rewrite Z.add_0_r|].
  rewrite IH, length_app. do 3 f_equal. lia.
Qed.

Lemma length_offsets o frames : length (offsets o frames) = length frames.
Proof. revert o. induction frames; intros; simpl; auto. Qed.

(** The loop ends after at most 63 doublings, without overflow, with a
    factor that makes the frame fit. *)
Lemma factor_loop_spec fuel capacity used sz j h :
  0 < capacity -> 0 <= used <= capacity -> 0 <= sz -> used + sz < 2 ^ 63 ->
  1 <= j -> capacity * 2 ^ (j - 1) < used + sz -> 63 - j < Z.of_nat fuel ->
  wp (factor_loop fuel capacity used sz (2 ^ j)) (fun r h' => h' = h /\
    exists k, 1 <= k /\ r = 2 ^ k /\ used + sz <= capacity * 2 ^ k < 2 ^ 64 /\ capacity * 2 ^ k < 2 * (used + sz)) h.
Proof.
  intros Hc Hu Hs Hb. revert j. induction fuel as [|fuel IH]; intros j Hj Hlt Hf.
  - assert (2 ^ 62 <= 2 ^ (j - 1)) by (apply Z.pow_le_mono_r; lia).
    assert (capacity * 2 ^ 62 <= capacity * 2 ^ (j - 1)) by nia.
    assert (2 ^ 63 <= 2 ^ (j - 1)) by (apply Z.pow_le_mono_r; lia). nia.
  - assert (E : 2 ^ j = 2 ^ (j - 1) * 2)
      by (rewrite <- (Z.pow_1_r 2) at 3; rewrite <- Z.pow_add_r by lia; f_equal; lia).
    assert (0 < 2 ^ (j - 1)) by (apply Z.pow_pos_nonneg; lia).
    assert (2 ^ (j - 1) <= capacity * 2 ^ (j - 1)) by nia.
    assert (capacity * 2 ^ j < 2 ^ 64) by lia.
    assert (used <= capacity * 2 ^ j) by nia.
    simpl. rewrite (u64_small (capacity * 2 ^ j)) by lia. rewrite u64_small by lia.
    case_decide as Hcmp.
    + rewrite u64_small by lia. replace (2 ^ j * 2) with (2 ^ (j + 1)).
      * apply IH; [lia| |lia]. replace (j + 1 - 1) with j by lia. lia.
      * rewrite Z.pow_add_r by lia. done.
    + wp_steps. split; [done|]. exists j. split_and!; (done || lia).
Qed.

Lemma stack_bound s frames live :
  stack_rep s frames live -> 0 <= ssize s <= scapacity s /\ 0 < scapacity s.
Proof.
  intros [_ _ _ _ _ Hs Hp Hl Hm _ (k&Hk&Hpow)].
  apply (f_equal length) in Hp. rewrite length_take in Hp.
  assert (0 < 2 ^ k) by (apply Z.pow_pos_nonneg; lia). nia.
Qed.

Lemma stack_resize_spec s frames n h :
  stack_rep s frames (blocks h) -> (exists k, 0 <= k /\ n = smin_capacity s * 2 ^ k) -> ssize s <= n ->
  wp (_ht_stack_resize s n) (fun '(ok, s') h' =>
    stack_rep s' frames (blocks h') /\ frame (stack_ptrs s) (stack_ptrs s') (blocks h) (blocks h') /\
    heap_with h (blocks h') h' /\ sizes_stack s' = sizes_stack s /\
    if ok : bool then scapacity s' = n else s' = s) h.
Proof.
  intros SR Hpow Hn. pose proof SR as [Rs Hroom Hd [old Hl] Hne Hs Hp Hlen Hm Hx _].
  assert (0 < n) by (destruct Hpow as (k&?&->); assert (0 < 2 ^ k) by (apply Z.pow_pos_nonneg; lia); nia).
  unfold _ht_stack_resize. wp_step. apply (ht_realloc_spec _ _ old); [done|done|done| |].
  - intros h' (E&?&?). rewrite decide_True by done. wp_steps. rewrite E. split_and!; done.
  - intros q h' Hq Hlt Hfr (E&?&?). rewrite decide_False by done. wp_steps.
    assert (Hrep : replaced (sdata s) q (blocks h) (blocks h')) by (rewrite E; by apply replaced_insert).
    destruct (rep_live Rs) as (sb&Hsb&_).
    destruct (replaced_other _ _ _ _ (data (sizes_stack s)) Hrep) as [Hqd Hkeep]; [done|eauto|].
    split_and!; try done.
    + split; simpl; try done.
      * by apply (rep_live_mono 8 _ _ (blocks h)).
      * rewrite E, lookup_insert_eq. eauto.
      * rewrite take_resize_le by lia. rewrite resize_le; [done|].
        apply (f_equal length) in Hp. rewrite length_take in Hp. lia.
      * rewrite length_resize. lia.
    + apply (frame_app [data (sizes_stack s)] [] [sdata s] [q]); [by apply replaced_frame|].
      intros r ->%list_elem_of_singleton. rewrite list_elem_of_singleton. eauto.
Qed.

(** The frame goes on top once there is room for it. *)
Lemma stack_append_spec s frames f h :
  stack_rep s frames (blocks h) -> ssize s + Z.of_nat (length f) <= scapacity s ->
  wp ('(err, sizes) ← ht_bag_add 8 (sizes_stack s) (ssize s);
      if decide (err = HT_ERR_OK) then
        c ← some_or_undef (mem_write (contents s) (ssize s) f);
        mret (HT_ERR_OK, Stack sizes (sdata s) c (u64 (ssize s + Z.of_nat (length f)))
                               (smin_capacity s) (scapacity s))
      else mret (err, Stack sizes (sdata s) (contents s) (ssize s) (smin_capacity s) (scapacity s)))
    (fun '(err, s') h' =>
      frame (stack_ptrs s) (stack_ptrs s') (blocks h) (blocks h') /\ heap_with h (blocks h') h' /\
      match err with
      | HT_ERR_OK => stack_rep s' (frames ++ [f]) (blocks h')
      | _ => err = HT_ERR_OUT_OF_MEMORY /\ stack_rep s' frames (blocks h')
      end) h.
Proof.
  intros SR Hfit. pose proof SR as [Rs Hroom Hd Hl Hne Hs Hp Hlen Hm Hx Hpow].
  eapply wp_call; [by apply (bag_add_spec 8 _ (offsets 0 frames))|].
  intros [e sizes] h1 [Hroom1 He]. destruct (decide (e = HT_ERR_OK)) as [->|Hno]; cbn beta iota.
  - destruct He as [(Rs1&_&Hrep&Hw)_].
    destruct (replaced_other _ _ _ _ (sdata s) Hrep) as [Hsd Hkeep]; [by apply not_eq_sym|done|].
    destruct (mem_write_spec (contents s) (ssize s) f) as (c&Hc&Hcl&Ht1&Ht2&_); [lia|lia|].
    rewrite Hc, some_bind. wp_steps. rewrite u64_small by lia. split_and!; try done.
    + apply (frame_app [] [sdata s] [data (sizes_stack s)] [data sizes]); [by apply replaced_frame|].
      intros r ->%list_elem_of_singleton. rewrite list_elem_of_singleton. split; [by apply not_eq_sym|done].
    + rewrite Hs, Nat2Z.id in *.
      split; simpl; rewrite ?Hkeep, ?concat_app, ?length_app; simpl; rewrite ?app_nil_r; try done; try lia.
      * rewrite offsets_snoc. by rewrite Z.add_0_l.
      * by rewrite Ht2, Hp.
  - assert (e = HT_ERR_OUT_OF_MEMORY /\ sizes = sizes_stack s /\ blocks h1 = blocks h /\
      heap_with h (blocks h1) h1) as (->&->&E&Hw) by (destruct e; intuition congruence).
    wp_steps. rewrite E in *. destruct s. split_and!; done.
Qed.

Lemma stack_push_spec s frames f h :
  stack_rep s frames (blocks h) -> ssize s + Z.of_nat (length f) < 2 ^ 63 ->
  wp (ht_stack_push s f) (fun '(err, s') h' =>
    frame (stack_ptrs s) (stack_ptrs s') (blocks h) (blocks h') /\ heap_with h (blocks h') h' /\
    match err with
    | HT_ERR_OK => stack_rep s' (frames ++ [f]) (blocks h')
    | _ => err = HT_ERR_OUT_OF_MEMORY /\ stack_rep s' frames (blocks h')
    end) h.
Proof.
  intros SR Hb. destruct (stack_bound _ _ _ SR) as [Hsz Hcap].
  pose proof (sr_max _ _ _ SR). unfold ht_stack_push.
  rewrite u64_small by lia. case_decide as Hgrow.
  - destruct (wp_inv _ _ _ (factor_loop_spec 64 (scapacity s) (ssize s) (Z.of_nat (length f)) 1 h
      Hcap Hsz ltac:(lia) Hb ltac:(lia) ltac:(lia) ltac:(lia))) as (r&h'&Hrun&->&k&Hk&->&Hfit&_).
    change (2 ^ 1) with 2 in Hrun.
    apply wp_bind, wp_bind. eapply wp_done; [exact Hrun|]. rewrite u64_small by lia.
    destruct (sr_pow _ _ _ SR) as (k0&Hk0&Hpow).
    eapply wp_mono; [apply (stack_resize_spec s frames); [done| |lia]|].
    { exists (k0 + k). rewrite Z.pow_add_r by lia. lia. }
    intros [ok s1] h1 (SR1&Hfr1&Hw1&_&Hok). cbn beta iota. destruct ok.
    + eapply wp_mono; [apply (stack_append_spec s1 frames); [done|]|].
      { rewrite (sr_size _ _ _ SR1). rewrite (sr_size _ _ _ SR) in Hfit. lia. }
      intros [e s2] h2 (Hfr2&Hw2&He).
      split_and!; [by eapply frame_trans|by eapply heap_with_trans|done].
    + wp_steps. split_and!; done.
  - apply wp_bind, wp_ret. cbn beta iota. apply (stack_append_spec s frames); [done|lia].
Qed.

Lemma stack_resize_generous s n h :
  generous -> 0 < n < 2 ^ 63 -> wlp (_ht_stack_resize s n) (fun r _ => r.1 = true) h.
Proof.
  intros Hg Hn. unfold _ht_stack_resize. apply wlp_bind. eapply wlp_mono; [apply ht_realloc_generous; [done|lia]|].
  intros p h' Hp. rewrite decide_False by (intros ->; specialize (Hp eq_refl); lia). by wlp_steps.
Qed.

(** A push that finds room, or an allocator that never runs out. *)
Definition push_room s frames (f : list V) : Prop :=
  (ssize s + Z.of_nat (length f) <= scapacity s /\ size (sizes_stack s) < capacity (sizes_stack s)) \/
  (generous /\ ssize s + Z.of_nat (length f) < 2 ^ 61 /\ Z.of_nat (length (frames : list (list V))) < 2 ^ 58).

Lemma stack_append_ok s frames f h :
  stack_rep s frames (blocks h) ->
  size (sizes_stack s) < capacity (sizes_stack s) \/ generous /\ Z.of_nat (length frames) < 2 ^ 58 ->
  wlp ('(err, sizes) ← ht_bag_add 8 (sizes_stack s) (ssize s);
      if decide (err = HT_ERR_OK) then
        c ← some_or_undef (mem_write (contents s) (ssize s) f);
        mret (HT_ERR_OK, Stack sizes (sdata s) c (u64 (ssize s + Z.of_nat (length f)))
                               (smin_capacity s) (scapacity s))
      else mret (err, Stack sizes (sdata s) (contents s) (ssize s) (smin_capacity s) (scapacity s)))
    (fun r _ => r.1 = HT_ERR_OK) h.
Proof.
  intros SR Hroom. apply wlp_bind. eapply (wlp_mono _ (fun r _ => r.1 = HT_ERR_OK)).
  - destruct Hroom as [Hlt|[Hg Hn]].
    + unfold ht_bag_add. rewrite decide_False by lia. by wlp_steps.
    + apply (bag_add_generous 8 _ (offsets 0 frames)); [done|apply (sr_sizes _ _ _ SR)|by rewrite length_offsets].
  - intros [err sizes] h2 He. simpl in He. subst err. by wlp_steps.
Qed.

Lemma stack_push_ok s frames f h :
  stack_rep s frames (blocks h) -> push_room s frames f -> wlp (ht_stack_push s f) (fun r _ => r.1 = HT_ERR_OK) h.
Proof.
  intros SR Hroom. destruct (stack_bound _ _ _ SR) as [Hsz Hcap]. pose proof (sr_max _ _ _ SR).
  unfold ht_stack_push. rewrite u64_small by lia. case_decide as Hgrow.
  - destruct Hroom as [[Hfit _]|(Hg&Hb&Hn)]; [lia|].
    destruct (wp_inv _ _ _ (factor_loop_spec 64 (scapacity s) (ssize s) (Z.of_nat (length f)) 1 h
      Hcap Hsz ltac:(lia) ltac:(lia) ltac:(lia) ltac:(lia) ltac:(lia))) as (r&h'&Hrun&->&k&Hk&->&Hfit&Hlt).
    change (2 ^ 1) with 2 in Hrun. do 2 apply wlp_bind. unfold wlp at 1. rewrite Hrun, u64_small by lia.
    destruct (sr_pow _ _ _ SR) as (k0&Hk0&Hpow).
    eapply wlp_mono; [apply wp_wlp, wp_and; [apply (stack_resize_spec s frames); [done| |lia]|
      by apply (stack_resize_generous _ (scapacity s * 2 ^ k)); [|lia]]|].
    { exists (k0 + k). rewrite Z.pow_add_r by lia. lia. }
    intros [ok s1] h1 ((SR1&_&_&Hss&_)&Hok). simpl in Hok. subst ok.
    apply (stack_append_ok s1 frames); [done|by right].
  - apply wlp_bind, wlp_ret. apply (stack_append_ok s frames); [done|]. destruct Hroom as [[_ ?]|(?&_&?)]; auto.
Qed.

Lemma stack_resize_mins s n h : wlp (_ht_stack_resize s n)
  (fun r _ => smin_capacity r.2 = smin_capacity s /\ sizes_stack r.2 = sizes_stack s) h.
Proof. unfold _ht_stack_resize. by wlp_steps. Qed.
#[local] Hint Resolve stack_resize_mins : facts.

Definition same_mins s s' : Prop :=
  smin_capacity s' = smin_capacity s /\ min_capacity (sizes_stack s') = min_capacity (sizes_stack s).

Lemma stack_push_mins s f h : wlp (ht_stack_push s f) (fun r _ => same_mins s r.2) h.
Proof.
  unfold ht_stack_push, same_mins. wlp_steps; simpl in *; destruct_and?; split; congruence.
Qed.

Lemma stack_pop_mins s h : wlp (ht_stack_pop s) (fun s' _ => same_mins s s') h.
Proof. unfold ht_stack_pop, same_mins. wlp_steps; simpl in *; destruct_and?; split; congruence. Qed.

(** The top frame overwritten in place. *)
Lemma stack_overwrite s frames f f' live :
  stack_rep s (frames ++ [f]) live -> length f' = length f ->
  exists o c, ht_stack_top s = Some o /\ o = Z.of_nat (length (concat frames)) /\ mem_write (contents s) o f' = Some c /\
    stack_rep (Stack (sizes_stack s) (sdata s) c (ssize s) (smin_capacity s) (scapacity s)) (frames ++ [f']) live.
Proof.
  intros SR Hlen. destruct (stack_bound _ _ _ SR) as [Hb _]. pose proof SR as [Rs Hroom Hd Hl Hne Hs Hp Hln Hm Hx Hpow].
  rewrite offsets_snoc in Rs. rewrite concat_app, length_app in *. simpl in *. rewrite app_nil_r in *.
  destruct (mem_write_spec (contents s) (Z.of_nat (length (concat frames))) f') as (c&Hc&Hcl&Ht1&Ht2&_); [lia|lia|].
  exists (Z.of_nat (length (concat frames))), c. split_and!; [|done|done|].
  - unfold ht_stack_top. by rewrite (rep_last 8 _ _ _ _ Rs).
  - rewrite Nat2Z.id in *. split; simpl; rewrite ?concat_app, ?length_app; simpl; rewrite ?app_nil_r, ?Hlen; try done; try lia.
    + by rewrite offsets_snoc.
    + rewrite <- Hlen, Ht2. f_equal.
      apply (f_equal (take (length (concat frames)))) in Hp. rewrite take_take, take_app_length, Nat.min_l in Hp by lia. done.
Qed.

Lemma stack_pop_spec s frames f h :
  stack_rep s (frames ++ [f]) (blocks h) ->
  wp (ht_stack_pop s) (fun s' h' =>
    frame (stack_ptrs s) (stack_ptrs s') (blocks h) (blocks h') /\ heap_with h (blocks h') h' /\
    stack_rep s' frames (blocks h')) h.
Proof.
  intros SR. destruct (stack_bound _ _ _ SR) as [Hsz Hcap].
  pose proof SR as [Rs Hroom Hd Hl Hne Hs Hp Hlen Hm Hx Hpow].
  pose proof (rep_size Rs) as Hbs. pose proof (rep_cap Rs). pose proof (rep_max Rs).
  rewrite length_offsets, length_app in Hbs; simpl in Hbs.
  unfold ht_stack_pop. rewrite offsets_snoc, Z.add_0_l in Rs.
  rewrite (rep_last 8 _ _ _ _ Rs), some_bind, u64_small by lia. unfold bag_room in Hroom.
  eapply wp_call; [apply (bag_remove_spec 8 _ _ _ _ ltac:(lia) Rs); unfold bag_room; lia|].
  intros sizes h1 (Hroom1&(Rs1&_&Hrep&Hw)&_). cbn beta zeta.
  rewrite swap_remove_last in Rs1 by (rewrite length_offsets; lia).
  destruct (replaced_other _ _ _ _ (sdata s) Hrep) as [Hsd Hkeep]; [by apply not_eq_sym|done|].
  assert (Hfr : frame (stack_ptrs s) [data sizes; sdata s] (blocks h) (blocks h1)).
  { apply (frame_app [] [sdata s] [data (sizes_stack s)] [data sizes]); [by apply replaced_frame|].
    intros r ->%list_elem_of_singleton. rewrite list_elem_of_singleton. split; [by apply not_eq_sym|done]. }
  set (s1 := Stack sizes (sdata s) (contents s) (Z.of_nat (length (concat frames)))
                   (smin_capacity s) (scapacity s)).
  assert (SR1 : stack_rep s1 frames (blocks h1)).
  { rewrite concat_app, length_app in *. split; simpl; rewrite ?Hkeep; try done.
    apply (f_equal (take (length (concat frames)))) in Hp.
    by rewrite take_take, take_app_length, Nat.min_l in Hp by lia. }
  case_decide as Hsh; [|wp_steps; done].
  destruct Hpow as (k&Hk&Hpow). simpl in Hsh. assert (k <> 0) by (intros ->; lia).
  assert (E2 : scapacity s = smin_capacity s * 2 ^ (k - 1) * 2).
  { rewrite Hpow. replace k with (k - 1 + 1) at 1 by lia. rewrite Z.pow_add_r by lia. lia. }
  assert (E4 : scapacity s / 2 = smin_capacity s * 2 ^ (k - 1)) by (rewrite E2; apply Z.div_mul; lia).
  pose proof (Z.mul_div_le (scapacity s) 4 ltac:(lia)).
  eapply wp_call; [apply (stack_resize_spec s1 frames); [done| |simpl; lia]|].
  { exists (k - 1). split; [lia|done]. }
  intros [ok s2] h2 (SR2&Hfr2&Hw2&_). wp_steps.
  split_and!; [by eapply frame_trans|by eapply heap_with_trans|done].
Qed.

(** The cells of the top frame, read where [ht_stack_top] points. *)
Lemma stack_top_spec s frames f live :
  stack_rep s (frames ++ [f]) live ->
  exists o, ht_stack_top s = Some o /\ mem_read (contents s) o (Z.of_nat (length f)) = Some f.
Proof.
  intros [Rs _ _ _ _ _ Hp _ _ _ _]. rewrite offsets_snoc, Z.add_0_l in Rs.
  unfold ht_stack_top. rewrite (rep_last 8 _ _ _ _ Rs). eexists; split; [done|].
  rewrite concat_app in Hp. simpl in Hp. rewrite app_nil_r in Hp. by eapply mem_read_suffix.
Qed.

Lemma stack_init_spec capacity n h :
  0 < capacity -> 0 < n < 2 ^ 60 ->
  wp (ht_stack_init capacity n) (fun r h' => heap_with h (blocks h') h' /\
    match r with
    | inl err => err = HT_ERR_OUT_OF_MEMORY /\ blocks h' = blocks h
    | inr s => stack_rep s [] (blocks h') /\ frame [] (stack_ptrs s) (blocks h) (blocks h')
    end) h.
Proof.
  intros Hc Hn. unfold ht_stack_init. wp_step. apply ht_alloc_spec.
  { intros h' Hw. rewrite decide_True by done. wp_steps. destruct Hw as (?&?&?). unfold heap_with. split_and!; congruence. }
  intros p h1 Hp Hlt Hfr Hw1. rewrite decide_False by done.
  eapply wp_call; [apply (bag_init_spec 8); lia|]. destruct Hw1 as (E1&?&?).
  intros [e|b] h2; cbn beta iota.
  - intros (->&E2&?&?). wp_step. eapply (ht_free_spec p capacity); [done|by rewrite E2, E1, lookup_insert_eq|].
    intros h3 (E3&?&?). wp_steps.
    assert (Eb : blocks h3 = blocks h) by (by rewrite E3, E2, E1, delete_insert_id).
    unfold heap_with. split_and!; congruence.
  - intros (Rb&Hroom&_&_&_&Hfr2&E2&?&?). wp_steps. unfold stack_ptrs. simpl.
    assert (data b <> p) by (intros Eq; rewrite Eq, E1, lookup_insert_eq in Hfr2; done).
    split; [unfold heap_with; split_and!; congruence|]. split.
    + split; simpl; rewrite ?length_replicate; try done; try lia.
      * rewrite E2, lookup_insert_ne, E1, lookup_insert_eq by done. eauto.
      * exists 0. lia.
    + apply (frame_trans _ [p] _ _ (blocks h1)); [rewrite E1|rewrite E2]; by apply frame_insert.
Qed.

Lemma stack_init_mins capacity n h : wlp (ht_stack_init capacity n)
  (fun r _ => match r with inl _ => True | inr s => smin_capacity s = capacity /\ min_capacity (sizes_stack s) = n end) h.
Proof.
  unfold ht_stack_init, ht_bag_init. by wlp_steps.
Qed.

Lemma stack_deinit_spec s frames h :
  stack_rep s frames (blocks h) ->
  wp (ht_stack_deinit s) (fun _ h' => heap_with h (blocks h') h' /\
    frame (stack_ptrs s) [] (blocks h) (blocks h')) h.
Proof.
  intros [Rs _ Hd [n Hl] Hne _ _ _ _ _ _]. unfold ht_stack_deinit.
  eapply wp_call; [by eapply bag_deinit_spec|]. intros _ h1 (_&_&_&E1&?&?).
  eapply (ht_free_spec _ n); [done|by rewrite E1, lookup_delete_ne|].
  intros h2 (E2&?&?). split; [unfold heap_with; split_and!; congruence|].
  apply (frame_trans _ [sdata s] _ _ (blocks h1)); [rewrite E1|rewrite E2]; apply frame_delete.
Qed.

(** ** Programs over a stack *)

Inductive stack_op := OpPush (frame : list V) | OpPop.

(** A client that pops only what it pushed.  The result of a pop is the
    frame read at the top just before. *)
Fixpoint stack_run (ops : list stack_op) (pushed : list nat) s
    : ST heap (list (option (list V)) * list HT_ErrorCode * HT_Stack V) :=
  match ops with
  | [] => mret ([], [], s)
  | OpPush f :: ops =>
      '(err, s) ← ht_stack_push s f;
      '(tops, errs, s) ← stack_run ops (if decide (err = HT_ERR_OK) then length f :: pushed else pushed) s;
      mret (tops, err :: errs, s)
  | OpPop :: ops =>
      match pushed with
      | [] => '(tops, errs, s) ← stack_run ops [] s; mret (None :: tops, errs, s)
      | n :: pushed =>
          o ← some_or_undef (ht_stack_top s);
          f ← some_or_undef (mem_read (contents s) o (Z.of_nat n));
          s ← ht_stack_pop s;
          '(tops, errs, s) ← stack_run ops pushed s;
          mret (Some f :: tops, errs, s)
      end
  end.

(** The same program on a list of frames, top first. *)
Fixpoint list_stack_run (ops : list stack_op) (errs : list HT_ErrorCode) (st : list (list V))
    : list (option (list V)) :=
  match ops with
  | [] => []
  | OpPush f :: ops =>
      match errs with
      | [] => []
      | err :: errs => list_stack_run ops errs (if decide (err = HT_ERR_OK) then f :: st else st)
      end
  | OpPop :: ops =>
      match st with
      | [] => None :: list_stack_run ops errs []
      | f :: st => Some f :: list_stack_run ops errs st
      end
  end.

Definition pushed_bytes (ops : list stack_op) : Z :=
  foldr (fun op n => match op with OpPush f => Z.of_nat (length f) + n | OpPop => n end) 0 ops.

Lemma pushed_bytes_nonneg ops : 0 <= pushed_bytes ops.
Proof. induction ops as [|[f|] ops IH]; simpl in *; lia. Qed.

Lemma stack_run_spec ops s frames h :
  stack_rep s frames (blocks h) -> ssize s + pushed_bytes ops < 2 ^ 63 ->
  wp (stack_run ops (length <$> reverse frames) s) (fun '(tops, errs, s') h' =>
    tops = list_stack_run ops errs (reverse frames) /\
    frame (stack_ptrs s) (stack_ptrs s') (blocks h) (blocks h') /\
    exists frames', stack_rep s' frames' (blocks h')) h.
Proof.
  revert s frames h. induction ops as [|[f|] ops IH]; intros s frames h SR Hb; simpl in *.
  - wp_steps. split_and!; try done. eauto.
  - pose proof (pushed_bytes_nonneg ops).
    eapply wp_call; [by apply (stack_push_spec s frames f); [|lia]|].
    intros [err s1] h1 (Hfr1&_&He).
    assert (exists frames1, stack_rep s1 frames1 (blocks h1) /\
      reverse frames1 = (if decide (err = HT_ERR_OK) then f :: reverse frames else reverse frames) /\
      ssize s1 <= ssize s + Z.of_nat (length f)) as (frames1&SR1&Hrev&Hs1).
    { pose proof (sr_size _ _ _ SR). destruct (decide (err = HT_ERR_OK)) as [->|Hne].
      - exists (frames ++ [f]). split; [done|]. split; [by rewrite reverse_app|].
        rewrite (sr_size _ _ _ He), concat_app, length_app. simpl. rewrite app_nil_r. lia.
      - exists frames. assert (SR1 : stack_rep s1 frames (blocks h1)) by (by destruct err; destruct He).
        split_and!; try done. rewrite (sr_size _ _ _ SR1). lia. }
    replace (if decide (err = HT_ERR_OK) then length f :: (length <$> reverse frames) else length <$> reverse frames)
      with (length <$> reverse frames1) by (rewrite Hrev; by case_decide).
    eapply wp_call; [apply (IH s1 frames1); [done|lia]|].
    intros [[tops errs] s2] h2 (->&Hfr2&Hrep2). wp_steps.
    rewrite Hrev. split_and!; [by case_decide|by eapply frame_trans|done].
  - destruct (decide (frames = [])) as [->|Hne].
    + simpl. eapply wp_call; [apply (IH s [] h); done|].
      intros [[tops errs] s2] h2 (->&Hfr2&Hrep2). by wp_steps.
    + destruct (exists_last Hne) as (frames0&f&->). rewrite reverse_app. simpl.
      destruct (stack_top_spec _ _ _ _ SR) as (o&->&Hread). rewrite some_bind, Hread, some_bind.
      eapply wp_call; [by eapply stack_pop_spec|]. intros s1 h1 (Hfr1&_&SR1).
      eapply wp_call; [apply (IH s1 frames0); [done|]|].
      { rewrite (sr_size _ _ _ SR1). rewrite (sr_size _ _ _ SR), concat_app, length_app in Hb. lia. }
      intros [[tops errs] s2] h2 (->&Hfr2&Hrep2). wp_steps.
      split_and!; [done|by eapply frame_trans|done].
Qed.

Definition stack_lifetime (capacity n : Z) (ops : list stack_op)
    : ST heap (HT_ErrorCode + list HT_ErrorCode * list (option (list V))) :=
  r ← ht_stack_init capacity n;
  match r with
  | inl err => mret (inl err)
  | inr s => '(tops, errs, s) ← stack_run ops [] s; ht_stack_deinit s;; mret (inr (errs, tops))
  end.

(** C27: the stack is a stack.  With every allocator, every program of
    pushes and pops that pops only what it pushed and pushes less than
    2^63 bytes runs without undefined behaviour (in particular the
    growth-factor loop ends); each pop finds at the top the bytes pushed
    last and not yet popped (failed pushes left out), also across the
    reallocations that grow and shrink the block; and on release, or
    after a failed initialisation, the heap is as it was before. *)
Theorem stack_lifo capacity n ops h :
  0 < capacity -> 0 < n < 2 ^ 60 -> pushed_bytes ops < 2 ^ 63 ->
  wp (stack_lifetime capacity n ops) (fun r h' => blocks h' = blocks h /\
    match r with
    | inl err => err = HT_ERR_OUT_OF_MEMORY
    | inr (errs, tops) => tops = list_stack_run ops errs []
    end) h.
Proof.
  intros Hc Hn Hb. unfold stack_lifetime. eapply wp_call; [by apply stack_init_spec|].
  intros [e|s] h1 [_ Hr]; cbn beta iota in *; [destruct Hr as [-> ?]; by wp_steps|].
  destruct Hr as [SR Hfr1]. eapply wp_call; [apply (stack_run_spec ops s [] h1 SR)|].
  { rewrite (sr_size _ _ _ SR). simpl. lia. }
  intros [[tops errs] s2] h2 (->&Hfr2&frames'&SR2).
  eapply wp_call; [by eapply stack_deinit_spec|]. intros _ h3 [_ Hfr3]. wp_steps.
  split; [|done]. apply frame_nil. eapply frame_trans; [done|]. by eapply frame_trans.
Qed.

End stack.

(** A stack of 2 bytes grows to hold a frame of 5 and gives the frames
    back in reverse order. *)
Lemma stack_lifo_witness :
  wp (stack_lifetime (H := always_granted) 0 2 1 [OpPush [1]; OpPush [2; 3; 4; 5; 6]; OpPop; OpPop])
    (fun r h' => blocks h' = blocks empty_heap /\
    match r with
    | inl err => err = HT_ERR_OUT_OF_MEMORY
    | inr (errs, tops) =>
        tops = list_stack_run [OpPush [1]; OpPush [2; 3; 4; 5; 6]; OpPop; OpPop] errs []
    end) empty_heap.
Proof. apply (stack_lifo (H := always_granted) 0 2 1); [lia|lia|reflexivity]. Defined.
