(* ===== verification/Events.v ===== *)
(** Events, event klasses and their serialisation (lib/events.c,
    lib/event_utils.c, lib/include/hawktracer/events.h, event_macros.h,
    mkcreflect.h and core_events.h).

    The macros of event_macros.h generate one get_size and one serialize
    function per HT_DECLARE_EVENT_KLASS.  Here the declaration is a value of
    [ctype] and the generated functions are [get_size] and
    [fnc_serialize] of that value. *)
From S2P Require Import Prelude Alloc BaseTypes Memory.

#[local] Set Warnings "-register-all".

(** The byte order of the machine the program runs on. *)
Class Platform := { endianness : HT_Endianness }.

(** ** Type descriptions (mkcreflect.h) *)

Inductive MKCREFLECT_Types :=
| MKCREFLECT_TYPES_STRUCT
| MKCREFLECT_TYPES_STRING
| MKCREFLECT_TYPES_INTEGER
| MKCREFLECT_TYPES_FLOAT
| MKCREFLECT_TYPES_DOUBLE
| MKCREFLECT_TYPES_POINTER.

Definition types_value (t : MKCREFLECT_Types) : Z :=
  match t with
  | MKCREFLECT_TYPES_STRUCT => 1
  | MKCREFLECT_TYPES_STRING => 2
  | MKCREFLECT_TYPES_INTEGER => 3
  | MKCREFLECT_TYPES_FLOAT => 4
  | MKCREFLECT_TYPES_DOUBLE => 5
  | MKCREFLECT_TYPES_POINTER => 6
  end.

(** The type of a field: what HT_DECLARE_EVENT_KLASS is given for it.  A
    [Scalar] is an INTEGER, DOUBLE or POINTER field with its C type, the
    size of that type and its signedness. *)
Inductive ctype :=
| Scalar (data_type : MKCREFLECT_Types) (c_type : string) (size : nat) (is_signed : bool)
| CharPtr
| HT_Event
| Struct (name : string) (fields : list (string * ctype)).

Record MKCREFLECT_FieldInfo := FieldInfo {
  field_type : string;
  field_name : string;
  fsize : Z;
  offset : Z;
  is_signed : bool;
  array_size : Z;
  data_type : MKCREFLECT_Types
}.

Record MKCREFLECT_TypeInfo := TypeInfo {
  tname : string;
  fields_count : Z;
  tsize : Z;
  packed_size : Z;
  tfields : list MKCREFLECT_FieldInfo
}.

(** The layout rules of the C compiler (natural alignment, 8-byte
    pointers). *)
Definition align_up (x a : Z) : Z := (x + a - 1) / a * a.

Fixpoint alignof (t : ctype) : Z :=
  match t with
  | Scalar _ _ n _ => Z.of_nat n
  | CharPtr | HT_Event => 8
  | Struct _ fs => foldr (fun f a => Z.max (alignof f.2) a) 1 fs
  end.

Fixpoint sizeof (t : ctype) : Z :=
  match t with
  | Scalar _ _ n _ => Z.of_nat n
  | CharPtr => 8
  | HT_Event => 24
  | Struct _ fs =>
      align_up (foldl (fun off (f : string * ctype) => align_up off (alignof f.2) + sizeof f.2) 0 fs)
               (foldr (fun f a => Z.max (alignof f.2) a) 1 fs)
  end.

(** #C_TYPE: the spelling of the type in the declaration. *)
Definition c_type_name (t : ctype) : string :=
  match t with
  | Scalar _ c _ _ => c
  | CharPtr => "const char*"
  | HT_Event => "HT_Event"
  | Struct name _ => name
  end.

Definition data_type_of (t : ctype) : MKCREFLECT_Types :=
  match t with
  | Scalar d _ _ _ => d
  | CharPtr => MKCREFLECT_TYPES_STRING
  | HT_Event | Struct _ _ => MKCREFLECT_TYPES_STRUCT
  end.

(** MKCREFLECT_IS_SIGNED_: 0 for STRUCT and POINTER; pointers compare as
    unsigned, so also for STRING. *)
Definition is_signed_of (t : ctype) : bool :=
  match t with
  | Scalar MKCREFLECT_TYPES_POINTER _ _ _ => false
  | Scalar _ _ _ s => s
  | _ => false
  end.

(** The macros take offsets and sizes from offsetof and sizeof: [align_up] is
    the rule of the usual ABIs for them, each field at the next multiple of its
    alignment. *)
Fixpoint fields_info (off : Z) (fs : list (string * ctype)) : list MKCREFLECT_FieldInfo :=
  match fs with
  | [] => []
  | (name, t) :: fs =>
      let off := align_up off (alignof t) in
      FieldInfo (c_type_name t) name (sizeof t) off (is_signed_of t) (-1) (data_type_of t)
        :: fields_info (off + sizeof t) fs
  end.

(** The fields of HT_Event (events.h). *)
Definition HT_Event_fields : list (string * ctype) :=
  [("klass", Scalar MKCREFLECT_TYPES_POINTER "HT_EventKlass*" 8 false);
   ("timestamp", Scalar MKCREFLECT_TYPES_INTEGER "HT_TimestampNs" 8 false);
   ("id", Scalar MKCREFLECT_TYPES_INTEGER "HT_EventId" 8 false)]%string.

Definition fields_of (t : ctype) : list (string * ctype) :=
  match t with
  | HT_Event => HT_Event_fields
  | Struct _ fs => fs
  | _ => []
  end.

(** mkcreflect_get_<TYPE>_type_info. *)
Definition get_type_info (t : ctype) : MKCREFLECT_TypeInfo :=
  TypeInfo (c_type_name t) (Z.of_nat (length (fields_of t))) (sizeof t)
           (foldr (fun f n => sizeof f.2 + n) 0 (fields_of t))
           (fields_info 0 (fields_of t)).

(** ** The event klasses of the library (core_events.h) *)

Section core_events.

Open Scope string_scope.

Definition uint8_t : ctype := Scalar MKCREFLECT_TYPES_INTEGER "uint8_t" 1 false.
Definition uint64_t : ctype := Scalar MKCREFLECT_TYPES_INTEGER "uint64_t" 8 false.
Definition HT_EventKlassId : ctype := Scalar MKCREFLECT_TYPES_INTEGER "HT_EventKlassId" 4 false.

(** HT_EVENT_DEFINE_STRUCTURE: the base first. *)
Definition HT_DECLARE_EVENT_KLASS (name : string) (base : ctype) (fields : list (string * ctype)) : ctype :=
  Struct name (("base", base) :: fields).

Definition HT_EndiannessInfoEvent : ctype :=
  HT_DECLARE_EVENT_KLASS "HT_EndiannessInfoEvent" HT_Event [("endianness", uint8_t)].

Definition HT_EventKlassInfoEvent : ctype :=
  HT_DECLARE_EVENT_KLASS "HT_EventKlassInfoEvent" HT_Event
    [("info_klass_id", HT_EventKlassId); ("event_klass_name", CharPtr); ("field_count", uint8_t)].

Definition HT_EventKlassFieldInfoEvent : ctype :=
  HT_DECLARE_EVENT_KLASS "HT_EventKlassFieldInfoEvent" HT_Event
    [("info_klass_id", HT_EventKlassId); ("field_type", CharPtr); ("field_name", CharPtr);
     ("size", uint64_t); ("data_type", uint8_t)].

Definition HT_CallstackBaseEvent : ctype :=
  HT_DECLARE_EVENT_KLASS "HT_CallstackBaseEvent" HT_Event
    [("duration", Scalar MKCREFLECT_TYPES_INTEGER "HT_DurationNs" 8 false);
     ("thread_id", Scalar MKCREFLECT_TYPES_INTEGER "HT_ThreadId" 4 false)].

Definition HT_CallstackIntEvent : ctype :=
  HT_DECLARE_EVENT_KLASS "HT_CallstackIntEvent" HT_CallstackBaseEvent
    [("label", Scalar MKCREFLECT_TYPES_INTEGER "HT_CallstackEventLabel" 8 false)].

Definition HT_CallstackStringEvent : ctype :=
  HT_DECLARE_EVENT_KLASS "HT_CallstackStringEvent" HT_CallstackBaseEvent [("label", CharPtr)].

Definition HT_StringMappingEvent : ctype :=
  HT_DECLARE_EVENT_KLASS "HT_StringMappingEvent" HT_Event
    [("identifier", uint64_t); ("label", CharPtr)].

Definition HT_SystemInfoEvent : ctype :=
  HT_DECLARE_EVENT_KLASS "HT_SystemInfoEvent" HT_Event
    [("version_major", uint8_t); ("version_minor", uint8_t); ("version_patch", uint8_t)].

End core_events.

(** ** Events and klasses *)

(** The value of a struct: scalars by their bits as an unsigned number,
    strings by the bytes before the terminator ([None] is NULL), an HT_Event
    by the address of its klass, its timestamp and its identifier. *)
Inductive cval :=
| VScalar (z : Z)
| VStr (s : option (list Z))
| VEvent (klass : ptr) (timestamp id : Z)
| VStruct (fields : list cval).

(** A klass instance.  Its functions are those generated for [ktype]. *)
Record HT_EventKlass := EventKlass {
  type_info : option MKCREFLECT_TypeInfo;
  ktype : ctype;
  klass_id : Z
}.

Abbreviation klass_store := (gmap ptr HT_EventKlass).

(** HT_EVENT_GET_KLASS: the first word of the object. *)
Fixpoint HT_EVENT_GET_KLASS (v : cval) : option ptr :=
  match v with
  | VEvent k _ _ => Some k
  | VStruct (v :: _) => HT_EVENT_GET_KLASS v
  | _ => None
  end.

(** The static initialiser of HT_EVENT_GET_KLASS_INSTANCE_FUNCTION_DEF. *)
Definition klass_instance (t : ctype) : HT_EventKlass := EventKlass None t HT_INVALID_KLASS_ID.

(** The contents of memory: an indeterminate byte, a byte, or the i-th byte
    of an event object that was copied as a whole. *)
Inductive memval :=
| Indet
| Byte (b : Z)
| Frag (v : cval) (i : nat).

(** The object representation of an event of [n] bytes. *)
Definition object_cells (v : cval) (n : Z) : list memval := Frag v <$> seq 0 (Z.to_nat n).

(** ** Bytes of numbers *)

Fixpoint le_bytes (n : nat) (z : Z) : list Z :=
  match n with
  | O => []
  | S n => z mod 256 :: le_bytes n (z / 256)
  end.

Section events.
  Context `{Platform}.

Definition native_bytes (n : nat) (z : Z) : list Z :=
  match endianness with
  | HT_ENDIANNESS_LITTLE => le_bytes n z
  | HT_ENDIANNESS_BIG => reverse (le_bytes n z)
  end.

(** ** The generated functions

    One field of MKCREFLECT_FOREACH and the fold over the fields take the
    function of a STRUCT field as an argument; [get_size] and
    [fnc_serialize] tie the knot. *)

(** HT_EVENT_RUNTIME_SIZEOF_<DATA_TYPE>. *)
Definition runtime_sizeof (rec : ctype -> cval -> option Z) (t : ctype) (v : cval) : option Z :=
  match t with
  | Scalar _ _ n _ => match v with VScalar _ => Some (Z.of_nat n) | _ => None end
  | CharPtr =>
      match v with
      | VStr (Some s) => Some (u64 (Z.of_nat (length s) + 1))
      | VStr None => Some 0
      | _ => None
      end
  | HT_Event | Struct _ _ => rec t v
  end.

Definition runtime_sizeof_fields (rec : ctype -> cval -> option Z)
    : list (string * ctype) -> list cval -> Z -> option Z :=
  fix go fs vs acc :=
    match fs, vs with
    | [], [] => Some acc
    | f :: fs, v :: vs => n ← runtime_sizeof rec f.2 v; go fs vs (u64 (acc + n))
    | _, _ => None
    end.

(** ht_HT_Event_get_size and HT_EVENT_GET_SIZE_FUNCTION_DEF. *)
Fixpoint get_size (t : ctype) (v : cval) : option Z :=
  match t, v with
  | HT_Event, VEvent _ _ _ => Some (4 + 8 + 8)
  | Struct _ fs, VStruct vs => runtime_sizeof_fields (fun t v => get_size t v) fs vs 0
  | _, _ => None
  end.

Definition serializer : Type := cval -> list memval -> Z -> option (list memval * Z).

(** HT_EVENT_COPY_FIELD_ and HT_EVENT_RUNTIME_SERIALIZE_BASE_TYPE_:
    memcpy(buffer + offset, &field, sizeof(field)), offset += sizeof(field),
    for a buffer that starts at [pos] of the block [b]. *)
Definition copy_field (n : nat) (z : Z) (b : list memval) (pos offset : Z)
    : option (list memval * Z) :=
  b ← mem_write b (pos + offset) (Byte <$> native_bytes n z);
  Some (b, u64 (offset + Z.of_nat n)).

(** HT_EVENT_RUNTIME_SERIALIZE_<DATA_TYPE>.  A STRUCT field is written to
    [buffer], not to [buffer + offset]. *)
Definition runtime_serialize (rec : ctype -> serializer) (t : ctype) (v : cval)
    (b : list memval) (pos offset : Z) : option (list memval * Z) :=
  match t with
  | Scalar _ _ n _ => match v with VScalar z => copy_field n z b pos offset | _ => None end
  | CharPtr =>
      match v with
      | VStr s =>
          let bytes := match s with Some s => s ++ [0] | None => [] end in
          b ← mem_write b (pos + offset) (Byte <$> bytes);
          Some (b, u64 (offset + Z.of_nat (length bytes)))
      | _ => None
      end
  | HT_Event | Struct _ _ => '(b, n) ← rec t v b pos; Some (b, u64 (offset + n))
  end.

Definition runtime_serialize_fields (rec : ctype -> serializer)
    : list (string * ctype) -> list cval -> list memval -> Z -> Z -> option (list memval * Z) :=
  fix go fs vs b pos offset :=
    match fs, vs with
    | [], [] => Some (b, offset)
    | f :: fs, v :: vs =>
        '(b, offset) ← runtime_serialize rec f.2 v b pos offset;
        go fs vs b pos offset
    | _, _ => None
    end.

(** ht_HT_Event_fnc_serialize and HT_EVENT_SERIALIZE_FUNCTION_DEF. *)
Fixpoint fnc_serialize (ks : klass_store) (t : ctype) : serializer := fun v b pos =>
  match t, v with
  | HT_Event, VEvent k timestamp id =>
      klass ← ks !! k;
      '(b, offset) ← copy_field 4 (klass_id klass) b pos 0;
      '(b, offset) ← copy_field 8 timestamp b pos offset;
      '(b, offset) ← copy_field 8 id b pos offset;
      Some (b, offset)
  | Struct _ fs, VStruct vs =>
      runtime_serialize_fields (fun t v b pos => fnc_serialize ks t v b pos) fs vs b pos 0
  | _, _ => None
  end.

(** klass->get_size(event), klass->serialize(event, buffer) and
    klass->type_info->size, with the klass of the event. *)
Definition event_klass (ks : klass_store) (event : cval) : option HT_EventKlass :=
  k ← HT_EVENT_GET_KLASS event; ks !! k.

Definition klass_get_size (ks : klass_store) (event : cval) : option Z :=
  klass ← event_klass ks event; get_size (ktype klass) event.

Definition klass_serialize (ks : klass_store) : serializer := fun event b pos =>
  klass ← event_klass ks event; fnc_serialize ks (ktype klass) event b pos.

Definition klass_size (ks : klass_store) (event : cval) : option Z :=
  klass ← event_klass ks event; ti ← type_info klass; Some (tsize ti).

Definition ht_event_utils_serialize_event_to_buffer (ks : klass_store) (event : cval)
    (b : list memval) (pos : Z) (serialize : bool) : option (list memval * Z) :=
  if serialize then klass_serialize ks event b pos
  else
    size ← klass_size ks event;
    b ← mem_write b pos (object_cells event size);
    Some (b, size).

(** HT_EVENT(events + i): the event object whose copy starts at [pos]. *)
Definition load_event (b : list memval) (pos : Z) : option cval :=
  if decide (0 <= pos) then
    match b !! Z.to_nat pos with
    | Some (Frag v O) => Some v
    | _ => None
    end
  else None.

(** ** The wire format, as the parsers expect it *)

Definition encode_fields (rec : ctype -> cval -> option (list Z))
    : list (string * ctype) -> list cval -> option (list Z) :=
  fix go fs vs :=
    match fs, vs with
    | [], [] => Some []
    | f :: fs, v :: vs => x ← rec f.2 v; y ← go fs vs; Some (x ++ y)
    | _, _ => None
    end.

Fixpoint encode (ks : klass_store) (t : ctype) (v : cval) : option (list Z) :=
  match t, v with
  | Scalar _ _ n _, VScalar z => Some (native_bytes n z)
  | CharPtr, VStr (Some s) => Some (s ++ [0])
  | CharPtr, VStr None => Some []
  | HT_Event, VEvent k timestamp id =>
      klass ← ks !! k;
      Some (native_bytes 4 (klass_id klass) ++ native_bytes 8 timestamp ++ native_bytes 8 id)
  | Struct _ fs, VStruct vs => encode_fields (fun t v => encode ks t v) fs vs
  | _, _ => None
  end.

(** The bytes of an event, by its klass. *)
Definition wire (ks : klass_store) (event : cval) : option (list Z) :=
  klass ← event_klass ks event; encode ks (ktype klass) event.

(** What HT_DECLARE_EVENT_KLASS is used for in the library: a STRUCT only
    as the base, which comes first. *)
Definition is_struct (t : ctype) : bool :=
  match t with HT_Event | Struct _ _ => true | _ => false end.

Fixpoint event_struct (t : ctype) : bool :=
  match t with
  | HT_Event => true
  | Struct _ (f :: fs) => event_struct f.2 && forallb (fun f => negb (is_struct f.2)) fs
  | _ => false
  end.

(** ** Sizes *)

Lemma length_le_bytes n z : length (le_bytes n z) = n.
Proof. revert z. induction n as [|n IH]; intros z; simpl; [done|]. by rewrite IH. Qed.

Lemma length_native_bytes n z : length (native_bytes n z) = n.
Proof. unfold native_bytes. destruct endianness; by rewrite ?length_reverse, length_le_bytes. Qed.

(** The size of a field is the number of bytes of its encoding, modulo
    2^64. *)
Definition sized (ks : klass_store) (t : ctype) (v : cval) : Prop :=
  forall bs, encode ks t v = Some bs ->
    exists n, runtime_sizeof get_size t v = Some n /\ u64 n = u64 (Z.of_nat (length bs)).

Lemma u64_add_cong a b c : u64 a = u64 b -> u64 (c + a) = u64 (c + b).
Proof. unfold u64. intros E. by rewrite <- Z.add_mod_idemp_r, E, Z.add_mod_idemp_r by lia. Qed.

Lemma sizeof_fields_sized ks fs vs acc bs :
  Forall (fun f => forall v, sized ks f.2 v) fs ->
  encode_fields (encode ks) fs vs = Some bs ->
  exists n, runtime_sizeof_fields get_size fs vs acc = Some n /\
    u64 n = u64 (acc + Z.of_nat (length bs)).
Proof.
  revert vs acc bs. induction fs as [|f fs IH]; intros [|v vs] acc bs HF E; try done; simpl in *.
  - injection E as <-. exists acc. by rewrite Z.add_0_r.
  - apply Forall_cons in HF as [Hf HF].
    destruct (encode ks f.2 v) as [x|] eqn:Ex; [|done]. simpl in E.
    destruct (encode_fields (encode ks) fs vs) as [y|] eqn:Ey; [|done]. simpl in E.
    injection E as <-. destruct (Hf v x Ex) as (n&->&Hn). simpl.
    destruct (IH vs (u64 (acc + n)) y HF Ey) as (m&->&Hm). exists m. split; [done|].
    rewrite Hm, length_app, Nat2Z.inj_add, Z.add_assoc. unfold u64.
    rewrite Z.add_mod_idemp_l by lia. rewrite <- (Z.add_mod_idemp_l (acc + _)) by lia.
    fold (u64 (acc + n)). rewrite (u64_add_cong _ _ acc Hn). unfold u64.
    by rewrite !Z.add_mod_idemp_l by lia.
Qed.

Lemma encode_sized ks t v : sized ks t v.
Proof.
  revert t v. fix IH 1. intros [d c n sg| | |name fs] v bs E.
  - destruct v; try done. injection E as <-. rewrite length_native_bytes. eauto.
  - destruct v as [|[s|]| |]; try done; injection E as <-; simpl; [|eauto].
    eexists; split; [done|]. rewrite length_app, Nat2Z.inj_add. unfold u64. by rewrite Z.mod_mod by lia.
  - destruct v as [| |k ts id|]; try done. simpl in *. destruct (ks !! k); [|done].
    simpl in E. injection E as <-. rewrite !length_app, !length_native_bytes. eauto.
  - destruct v as [| | |vs]; try done. simpl in *.
    apply (sizeof_fields_sized ks fs vs 0 bs); [|done]. clear E.
    induction fs as [|f fs IHfs]; constructor; [intros v; apply (IH f.2)|done].
Qed.

Lemma sizeof_fields_range fs vs acc n :
  0 <= acc < 2 ^ 64 -> runtime_sizeof_fields get_size fs vs acc = Some n -> 0 <= n < 2 ^ 64.
Proof.
  revert vs acc. induction fs as [|f fs IH]; intros [|v vs] acc Ha E; try done; simpl in *.
  - congruence.
  - destruct (runtime_sizeof get_size f.2 v) as [m|]; [|done]. simpl in E.
    eapply IH; [|exact E]. apply u64_range.
Qed.

(** get_size is the length of the encoding. *)
Lemma get_size_encode ks t v bs :
  is_struct t = true -> encode ks t v = Some bs -> Z.of_nat (length bs) < 2 ^ 64 ->
  get_size t v = Some (Z.of_nat (length bs)).
Proof.
  intros Ht E Hb. destruct (encode_sized ks t v bs E) as (n&En&Hn).
  assert (Er : runtime_sizeof get_size t v = get_size t v) by (by destruct t).
  rewrite Er in En. rewrite En. f_equal.
  rewrite (u64_small (Z.of_nat _)) in Hn by lia. rewrite <- Hn, u64_small; [done|].
  destruct t, v; try done; [injection En as <-; lia|]. by eapply sizeof_fields_range; [|exact En].
Qed.

(** ** The serialisers write the encoding *)

(** [buffer] is at [pos]; the encoding of [t] goes to [buffer + offset]. *)
Definition writes (m : option (list memval * Z)) (b : list memval) (pos offset : Z) (bs : list Z) : Prop :=
  m = (b' ← mem_write b (pos + offset) (Byte <$> bs); Some (b', offset + Z.of_nat (length bs))).

Lemma copy_field_writes n z b pos offset :
  0 <= offset -> offset + Z.of_nat n < 2 ^ 64 ->
  writes (copy_field n z b pos offset) b pos offset (native_bytes n z).
Proof.
  intros H0 H1. unfold copy_field, writes. rewrite length_native_bytes.
  destruct (mem_write _ _ _) as [b'|]; [|done]. simpl. by rewrite u64_small by lia.
Qed.

(** Two writes in sequence. *)
Lemma writes_seq m (k : list memval * Z -> option (list memval * Z)) b pos offset xs ys :
  writes m b pos offset xs ->
  (forall b', mem_write b (pos + offset) (Byte <$> xs) = Some b' ->
     writes (k (b', offset + Z.of_nat (length xs))) b' pos (offset + Z.of_nat (length xs)) ys) ->
  writes (m ≫= k) b pos offset (xs ++ ys).
Proof.
  intros -> Hk. unfold writes. rewrite fmap_app, mem_write_app, length_fmap, length_app.
  destruct (mem_write b _ _) as [b'|] eqn:E; [|done]. simpl. rewrite (Hk b' eq_refl).
  rewrite Z.add_assoc. destruct (mem_write b' _ _); [|done]. simpl. do 2 f_equal. lia.
Qed.

Lemma serialize_event_writes ks k timestamp id b pos bs :
  encode ks HT_Event (VEvent k timestamp id) = Some bs ->
  writes (fnc_serialize ks HT_Event (VEvent k timestamp id) b pos) b pos 0 bs.
Proof.
  simpl. destruct (ks !! k) as [kl|]; [|done]. simpl. intros [= <-].
  eapply writes_seq; [by apply copy_field_writes|]. intros b1 _. cbn beta iota.
  rewrite length_native_bytes. eapply writes_seq; [by apply copy_field_writes|]. intros b2 _. cbn beta iota.
  rewrite length_native_bytes, <- (app_nil_r (native_bytes 8 id)).
  eapply writes_seq; [by apply copy_field_writes|].
  intros b3 (Hl&H0&Hb)%mem_write_length. cbn beta iota. unfold writes.
  rewrite length_fmap, length_native_bytes in *. rewrite fmap_nil, mem_write_nil by lia. done.
Qed.

Lemma serialize_fields_write ks rec fs vs b pos offset bs :
  forallb (fun f => negb (is_struct f.2)) fs = true ->
  encode_fields (encode ks) fs vs = Some bs ->
  0 <= offset -> offset + Z.of_nat (length bs) < 2 ^ 64 -> 0 <= pos + offset <= Z.of_nat (length b) ->
  writes (runtime_serialize_fields rec fs vs b pos offset) b pos offset bs.
Proof.
  revert vs b offset bs. induction fs as [|f fs IH]; intros [|v vs] b offset bs Hfs E H0 H1 Hp; try done; simpl in *.
  - injection E as <-. unfold writes. simpl. by rewrite mem_write_nil, Z.add_0_r by lia.
  - apply andb_prop in Hfs as [Hf Hfs].
    destruct (encode ks f.2 v) as [x|] eqn:Ex; [|done]. simpl in E.
    destruct (encode_fields (encode ks) fs vs) as [y|] eqn:Ey; [|done]. simpl in E.
    injection E as <-. rewrite length_app in H1. eapply writes_seq.
    + destruct f as [fname [d c n sg| | |]]; try done; simpl in *.
      * destruct v; try done. injection Ex as <-. rewrite length_native_bytes in H1.
        apply copy_field_writes; lia.
      * destruct v as [|s| |]; try done. replace (match s with Some s => s ++ [0] | None => [] end) with x
          by (destruct s; congruence).
        unfold writes. destruct (mem_write _ _ _); [|done]. simpl. by rewrite u64_small by lia.
    + intros b1 (Hl&?&Hb)%mem_write_length. cbn beta iota. rewrite length_fmap in Hb.
      apply IH; try done; lia.
Qed.

Lemma serialize_writes ks t v b pos bs :
  event_struct t = true -> encode ks t v = Some bs -> Z.of_nat (length bs) < 2 ^ 64 ->
  writes (fnc_serialize ks t v b pos) b pos 0 bs.
Proof.
  revert t v b pos bs. fix IH 1. intros [d c n sg| | |name fs] v b pos bs Ht E Hb; try done.
  - destruct v; try done. by apply serialize_event_writes.
  - destruct v as [| | |vs]; try done. destruct fs as [|[fname t] fs]; [done|].
    cbn [event_struct snd] in Ht. apply andb_prop in Ht as [Ht Hfs].
    destruct vs as [|v vs]; [done|]. simpl in E.
    destruct (encode ks t v) as [x|] eqn:Ex; [|done]. simpl in E.
    destruct (encode_fields (encode ks) fs vs) as [y|] eqn:Ey; [|done]. simpl in E.
    injection E as <-. rewrite length_app in Hb.
    assert (Hx : Z.of_nat (length x) < 2 ^ 64) by lia.
    pose proof (IH t v b pos x Ht Ex Hx) as Hw. cbn [fnc_serialize runtime_serialize_fields snd].
    eapply writes_seq.
    + unfold runtime_serialize. destruct t; try done;
        rewrite Hw; unfold writes; destruct (mem_write _ _ _); try done; simpl; by rewrite u64_small by lia.
    + intros b1 (Hl&?&?)%mem_write_length. rewrite length_fmap in *. cbn beta iota.
      apply (serialize_fields_write ks); try done; lia.
Qed.

(** ** Layout *)

(** Every scalar has a size. *)
Fixpoint wf_ctype (t : ctype) : bool :=
  match t with
  | Scalar _ _ n _ => Nat.ltb 0 n
  | CharPtr | HT_Event => true
  | Struct _ fs => forallb (fun f => wf_ctype f.2) fs
  end.

Lemma align_up_spec x a : 0 < a -> x <= align_up x a /\ (a | align_up x a).
Proof.
  intros Ha. unfold align_up. split; [|apply Z.divide_factor_r].
  pose proof (Z.div_mod (x + a - 1) a ltac:(lia)). pose proof (Z.mod_pos_bound (x + a - 1) a Ha). lia.
Qed.

Lemma wf_alignof t : wf_ctype t = true -> 0 < alignof t.
Proof.
  destruct t as [d c n sg| | |name fs]; simpl; try lia.
  - intros Hn%Nat.ltb_lt. lia.
  - intros _. induction fs as [|f fs IH]; simpl; lia.
Qed.

Lemma layout_mono fs off :
  Forall (fun f : string * ctype => wf_ctype f.2 = true /\ 0 <= sizeof f.2) fs ->
  off <= foldl (fun off (f : string * ctype) => align_up off (alignof f.2) + sizeof f.2) off fs.
Proof.
  revert off. induction fs as [|f fs IH]; intros off HF; simpl; [lia|].
  apply Forall_cons in HF as [[Hw Hs] HF]. etrans; [|by apply IH].
  destruct (align_up_spec off (alignof f.2) (wf_alignof _ Hw)). lia.
Qed.

Lemma wf_sizeof t : wf_ctype t = true -> 0 <= sizeof t.
Proof.
  revert t. fix IH 1. intros [d c n sg| | |name fs] Ht; simpl; try lia.
  assert (HF : Forall (fun f : string * ctype => wf_ctype f.2 = true /\ 0 <= sizeof f.2) fs).
  { simpl in Ht. induction fs as [|f fs IHfs]; constructor; simpl in Ht; apply andb_prop in Ht as [Hf Hfs].
    - split; [done|by apply IH].
    - by apply IHfs. }
  pose proof (layout_mono fs 0 HF).
  assert (Ha : 0 < foldr (fun (f : string * ctype) a => Z.max (alignof f.2) a) 1 fs) by apply (wf_alignof (Struct name fs) Ht).
  destruct (align_up_spec (foldl (fun off (f : string * ctype) => align_up off (alignof f.2) + sizeof f.2) 0 fs) _ Ha). lia.
Qed.

Lemma event_struct_sizeof t : event_struct t = true -> wf_ctype t = true -> 24 <= sizeof t.
Proof.
  revert t. fix IH 1. intros [| | |name fs] Ht Hw; try done.
  pose proof (wf_alignof _ Hw) as Ha. cbn [sizeof]. cbn [alignof] in Ha.
  destruct fs as [|[fname t] fs]; [done|]. cbn [event_struct snd] in Ht. apply andb_prop in Ht as [Ht _].
  cbn [wf_ctype forallb snd] in Hw. apply andb_prop in Hw as [Hw Hfs]. pose proof (IH t Ht Hw).
  assert (HF : Forall (fun f : string * ctype => wf_ctype f.2 = true /\ 0 <= sizeof f.2) fs).
  { apply Forall_forall. intros f Hf. rewrite forallb_forall in Hfs.
    assert (wf_ctype f.2 = true) by (apply Hfs; by apply list_elem_of_In). split; [done|by apply wf_sizeof]. }
  cbn [foldl snd]. pose proof (layout_mono fs (align_up 0 (alignof t) + sizeof t) HF).
  destruct (align_up_spec 0 (alignof t) (wf_alignof _ Hw)).
  etrans; [|apply align_up_spec, Ha]. lia.
Qed.

(** An event that was copied as a whole is found where it was copied to. *)
Lemma load_object pre v n post :
  0 < n -> load_event (pre ++ object_cells v n ++ post) (Z.of_nat (length pre)) = Some v.
Proof.
  intros Hn. unfold load_event. rewrite decide_True by lia. rewrite Nat2Z.id.
  rewrite lookup_app_r, Nat.sub_diag by done. unfold object_cells.
  destruct (Z.to_nat n) as [|m] eqn:E; [lia|]. done.
Qed.

Lemma length_object_cells v n : 0 <= n -> Z.of_nat (length (object_cells v n)) = n.
Proof. intros Hn. unfold object_cells. rewrite length_fmap, length_seq. lia. Qed.

(** What a client of a klass relies on: the klass is declared with its base
    first, is registered with the type description of its declaration, and
    the event is an instance of it with the encoding [bs]. *)
Record event_ok (ks : klass_store) (event : cval) (klass : HT_EventKlass) (bs : list Z) : Prop := {
  ok_klass : event_klass ks event = Some klass;
  ok_info : type_info klass = Some (get_type_info (ktype klass));
  ok_struct : event_struct (ktype klass) = true;
  ok_wf : wf_ctype (ktype klass) = true;
  ok_wire : encode ks (ktype klass) event = Some bs;
  ok_small : Z.of_nat (length bs) < 2 ^ 64
}.

Lemma event_struct_is_struct t : event_struct t = true -> is_struct t = true.
Proof. by destruct t. Qed.

Lemma klass_get_size_ok ks event klass bs :
  event_ok ks event klass bs -> klass_get_size ks event = Some (Z.of_nat (length bs)).
Proof.
  intros [Hk _ Hs _ Hw Hb]. unfold klass_get_size. rewrite Hk. simpl.
  apply (get_size_encode ks); [by apply event_struct_is_struct|done|done].
Qed.

Lemma klass_serialize_ok ks event klass bs b pos :
  event_ok ks event klass bs ->
  klass_serialize ks event b pos =
    (b' ← mem_write b pos (Byte <$> bs); Some (b', Z.of_nat (length bs))).
Proof.
  intros [Hk _ Hs _ Hw Hb]. unfold klass_serialize. rewrite Hk. simpl.
  pose proof (serialize_writes ks (ktype klass) event b pos bs Hs Hw Hb) as E. unfold writes in E.
  by rewrite Z.add_0_r in E.
Qed.

Lemma klass_serialize_done ks event klass bs b pos b' :
  event_ok ks event klass bs -> mem_write b pos (Byte <$> bs) = Some b' ->
  klass_serialize ks event b pos = Some (b', Z.of_nat (length bs)).
Proof. intros Hok E. by rewrite (klass_serialize_ok ks event klass bs b pos Hok), E. Qed.

Lemma klass_size_ok ks event klass bs :
  event_ok ks event klass bs -> klass_size ks event = Some (sizeof (ktype klass)).
Proof. intros [Hk Hi _ _ _ _]. unfold klass_size. rewrite Hk. simpl. by rewrite Hi. Qed.

(** Every event starts with an HT_Event. *)
Lemma encode_header ks t v bs :
  event_struct t = true -> encode ks t v = Some bs -> (20 <= length bs)%nat.
Proof.
  revert t v bs. fix IH 1. intros [| | |name fs] v bs Ht E; try done.
  - destruct v as [| |k ts id|]; try done. simpl in E. destruct (ks !! k); [|done].
    simpl in E. injection E as <-. rewrite !length_app, !length_native_bytes. lia.
  - destruct v as [| | |vs]; try done. destruct fs as [|[fname t] fs]; [done|].
    cbn [event_struct snd] in Ht. apply andb_prop in Ht as [Ht _].
    destruct vs as [|v vs]; [done|]. simpl in E.
    destruct (encode ks t v) as [x|] eqn:Ex; [|done]. simpl in E.
    destruct (encode_fields (encode ks) fs vs) as [y|]; [|done]. injection E as <-.
    pose proof (IH t v x Ht Ex). rewrite length_app. lia.
Qed.

(** Event objects next to each other in memory, each with its klass and
    its encoding. *)
Record pushed := Pushed { pv : cval; pklass : HT_EventKlass; pbytes : list Z }.

Definition pushed_ok (ks : klass_store) (e : pushed) : Prop := event_ok ks (pv e) (pklass e) (pbytes e).
Definition psize (e : pushed) : Z := sizeof (ktype (pklass e)).
Definition objects (es : list pushed) : list memval := es ≫= (fun e => object_cells (pv e) (psize e)).
Definition wire_cells (es : list pushed) : list memval := es ≫= (fun e => Byte <$> pbytes e).

Lemma wire_cells_cons e es : wire_cells (e :: es) = (Byte <$> pbytes e) ++ wire_cells es.
Proof. done. Qed.

Lemma objects_cons e es : objects (e :: es) = object_cells (pv e) (psize e) ++ objects es.
Proof. done. Qed.

Lemma psize_pos ks e : pushed_ok ks e -> 24 <= psize e.
Proof. intros [_ _ Hs Hw _ _]. by apply event_struct_sizeof. Qed.

Lemma length_objects_cons ks e es : pushed_ok ks e ->
  Z.of_nat (length (objects (e :: es))) = psize e + Z.of_nat (length (objects es)).
Proof.
  intros Hok%psize_pos. rewrite objects_cons, length_app, Nat2Z.inj_add.
  rewrite length_object_cells by lia. done.
Qed.

(** C18: what goes over the wire.  For every event of a klass declared with
    HT_DECLARE_EVENT_KLASS whose only field of a structure type is its base, as
    in the klasses of the library, the generated get_size returns
    the number of bytes of the wire format (klass id, timestamp, id, then
    the fields of every base and of the event in order; strings with their
    terminator), and the generated serialize writes exactly those bytes
    from the start of the buffer, nothing else, and returns their number;
    a buffer that is too small is overrun (undefined). *)
Theorem serialize_is_wire_format ks event klass bs b pos :
  event_ok ks event klass bs ->
  klass_get_size ks event = Some (Z.of_nat (length bs)) /\
  ht_event_utils_serialize_event_to_buffer ks event b pos true =
    (b' ← mem_write b pos (Byte <$> bs); Some (b', Z.of_nat (length bs))).
Proof.
  intros Hok. split; [by eapply klass_get_size_ok|]. by eapply klass_serialize_ok.
Qed.

End events.

(** ** Concrete events *)

Section samples.

#[local] Instance little_endian : Platform := {| endianness := HT_ENDIANNESS_LITTLE |}.

Definition registered (t : ctype) (id : Z) : HT_EventKlass := EventKlass (Some (get_type_info t)) t id.

Definition sample_klasses : klass_store := <[1 := registered HT_CallstackStringEvent 7]> ∅.

Definition sample_event : cval :=
  VStruct [VStruct [VEvent 1 258 3; VScalar 5; VScalar 6]; VStr (Some [72; 105])].

Definition sample_bytes : list Z :=
  [7; 0; 0; 0; 2; 1; 0; 0; 0; 0; 0; 0; 3; 0; 0; 0; 0; 0; 0; 0;
   5; 0; 0; 0; 0; 0; 0; 0; 6; 0; 0; 0; 72; 105; 0].

Lemma sample_event_ok :
  event_ok sample_klasses sample_event (registered HT_CallstackStringEvent 7) sample_bytes.
Proof. by split. Qed.

Lemma serialize_is_wire_format_witness :
  klass_get_size sample_klasses sample_event = Some 35 /\
  ht_event_utils_serialize_event_to_buffer sample_klasses sample_event (replicate 36 Indet) 1 true =
    Some (Indet :: (Byte <$> sample_bytes), 35).
Proof.
  apply (serialize_is_wire_format sample_klasses sample_event
           (registered HT_CallstackStringEvent 7) sample_bytes (replicate 36 Indet) 1).
  exact sample_event_ok.
Defined.

(** A klass with a second STRUCT field. *)
Definition pair_struct : ctype :=
  HT_DECLARE_EVENT_KLASS "Pair" HT_Event [("other", HT_Event)]%string.

Definition pair_klasses : klass_store :=
  <[2 := registered HT_Event 9]> (<[1 := registered pair_struct 7]> ∅).

Definition pair_event : cval := VStruct [VEvent 1 10 11; VEvent 2 20 21].

(** A STRUCT field that is not the base is written over the start of
    the event.  For the klass [pair_struct] serialize returns 40, the size
    of the event, but the buffer holds the klass id, the timestamp and the
    id of the field where those of the event belong, and the last 20 bytes
    are not written. *)
Theorem nested_struct_overwrites_header :
  klass_get_size pair_klasses pair_event = Some 40 /\
  klass_serialize pair_klasses pair_event (replicate 40 Indet) 0 =
    Some ((Byte <$> [9; 0; 0; 0; 20; 0; 0; 0; 0; 0; 0; 0; 21; 0; 0; 0; 0; 0; 0; 0])
            ++ replicate 20 Indet, 40) /\
  wire pair_klasses pair_event =
    Some [7; 0; 0; 0; 10; 0; 0; 0; 0; 0; 0; 0; 11; 0; 0; 0; 0; 0; 0; 0;
          9; 0; 0; 0; 20; 0; 0; 0; 0; 0; 0; 0; 21; 0; 0; 0; 0; 0; 0; 0].
Proof. by vm_compute. Qed.

End samples.
