(* ===== verification/ListenerBuffer.v ===== *)
(** The buffer between a listener and its file or socket
    (lib/listener_buffer.c, lib/include/internal/listener_buffer.h).

    The flush callback of the listener is an interface, [FlushCallback];
    file_dump_listener.c and tcp_listener.c each implement it. *)
From S2P Require Import Prelude Alloc BaseTypes Memory Events.

(** HT_ListenerFlushCallback: what the owner of a buffer provides. [chunks]
    are the byte strings handed to the callback so far, and [sink_ok] is what
    the callback needs (an open file, a running server). *)
Class FlushCallback (L : Type) := {
  flush_callback : list memval -> ST L ();
  chunks : L -> list (list memval);
  sink_ok : L -> Prop;
  flush_callback_spec cells s :
    sink_ok s -> Z.of_nat (length cells) < 2 ^ 63 -> wp (flush_callback cells) (fun _ s' => chunks s' = chunks s ++ [cells] /\ sink_ok s') s
}.

Record HT_ListenerBuffer := ListenerBuffer {
  lb_data : ptr;
  lb_cells : list memval;
  max_size : Z;
  usage : Z
}.

Definition HT_MIN (a b : Z) : Z := if decide (a > b) then b else a.

Definition ht_listener_buffer_init `{Malloc} (max_size : Z) : ST heap (HT_ErrorCode + HT_ListenerBuffer) :=
  if decide (max_size = 0) then mret (inr (ListenerBuffer NULL [] max_size 0))
  else
    p ← ht_alloc max_size;
    if decide (p = NULL) then mret (inl HT_ERR_OUT_OF_MEMORY)
    else mret (inr (ListenerBuffer p (replicate (Z.to_nat max_size) Indet) max_size 0)).

Definition ht_listener_buffer_deinit `{Malloc} (buffer : HT_ListenerBuffer) : ST heap () :=
  ht_free (lb_data buffer).

Section listener_buffer.
  Context `{Platform} {L : Type} `{FlushCallback L} (ks : klass_store).
  Implicit Types (buffer : HT_ListenerBuffer) (events : list memval).

Definition ht_listener_buffer_flush buffer : ST L HT_ListenerBuffer :=
  cells ← some_or_undef (mem_read (lb_cells buffer) 0 (usage buffer));
  flush_callback cells;;
  mret (ListenerBuffer (lb_data buffer) (lb_cells buffer) (max_size buffer) 0).

(** The while loop over the bytes not yet written. *)
Fixpoint serialized_loop (fuel : nat) buffer events (written : Z) : ST L HT_ListenerBuffer :=
  match fuel with
  | O => nofuel
  | S fuel =>
      let size := Z.of_nat (length events) in
      if decide (written < size) then
        let actual_size := HT_MIN (u64 (size - written)) (u64 (max_size buffer - usage buffer)) in
        src ← some_or_undef (mem_read events written actual_size);
        cells ← some_or_undef (mem_write (lb_cells buffer) (usage buffer) src);
        let written := u64 (written + actual_size) in
        let buffer := ListenerBuffer (lb_data buffer) cells (max_size buffer) (u64 (usage buffer + actual_size)) in
        buffer ← (if decide (usage buffer = max_size buffer) then ht_listener_buffer_flush buffer
                  else mret buffer);
        serialized_loop fuel buffer events written
      else mret buffer
  end.

Definition ht_listener_buffer_process_serialized_events buffer events : ST L HT_ListenerBuffer :=
  if decide (max_size buffer = 0) then flush_callback events;; mret buffer
  else serialized_loop (S (S (length events))) buffer events 0.

(** The body of the for loop: flush if the event does not fit, then
    serialise it into the buffer. *)
Definition unserialized_event buffer (event : cval) : ST L HT_ListenerBuffer :=
  size ← some_or_undef (klass_get_size ks event);
  buffer ← (if decide (u64 (size + usage buffer) > max_size buffer) then ht_listener_buffer_flush buffer
            else mret buffer);
  '(cells, n) ← some_or_undef (klass_serialize ks event (lb_cells buffer) (usage buffer));
  mret (ListenerBuffer (lb_data buffer) cells (max_size buffer) (u64 (usage buffer + n))).

(** The for loop over the event objects. *)
Fixpoint unserialized_loop (fuel : nat) buffer events (i : Z) : ST L HT_ListenerBuffer :=
  match fuel with
  | O => nofuel
  | S fuel =>
      if decide (i < Z.of_nat (length events)) then
        event ← some_or_undef (load_event events i);
        buffer ← unserialized_event buffer event;
        obj ← some_or_undef (klass_size ks event);
        unserialized_loop fuel buffer events (u64 (i + obj))
      else mret buffer
  end.

Definition ht_listener_buffer_process_unserialized_events buffer events : ST L HT_ListenerBuffer :=
  require (bool_decide (max_size buffer <> 0));;
  unserialized_loop (S (length events)) buffer events 0.

(** ** What the buffer promises

    [content] is what has been accepted and not yet flushed. *)
Record lb_rep buffer (content : list memval) : Prop := {
  lb_len : Z.of_nat (length (lb_cells buffer)) = max_size buffer;
  lb_max : max_size buffer < 2 ^ 63;
  lb_usage : usage buffer = Z.of_nat (length content);
  lb_content : take (length content) (lb_cells buffer) = content
}.

Lemma lb_usage_le buffer content : lb_rep buffer content -> 0 <= usage buffer <= max_size buffer.
Proof.
  intros [Hl _ Hu Hc]. apply (f_equal length) in Hc. rewrite length_take in Hc. lia.
Qed.

(** Appending to the buffer, in place. *)
Lemma lb_append buffer content ws cells p :
  lb_rep buffer content -> mem_write (lb_cells buffer) (usage buffer) ws = Some cells ->
  lb_rep (ListenerBuffer p cells (max_size buffer) (usage buffer + Z.of_nat (length ws))) (content ++ ws).
Proof.
  intros R E. destruct R as [Hl Hm Hu Hc]. pose proof (mem_write_take _ _ _ _ E) as Ht.
  destruct (mem_write_length _ _ _ _ E) as (El&_&_).
  rewrite Hu, Nat2Z.id, Hc in Ht. split; simpl; rewrite ?length_app; try lia. done.
Qed.

Lemma lb_write_fits buffer content ws :
  lb_rep buffer content -> usage buffer + Z.of_nat (length ws) <= max_size buffer ->
  exists cells, mem_write (lb_cells buffer) (usage buffer) ws = Some cells.
Proof.
  intros R Hf. destruct (lb_usage_le _ _ R). destruct R as [Hl _ _ _].
  destruct (mem_write_spec (lb_cells buffer) (usage buffer) ws) as (cells&E&_); [lia|lia|]. eauto.
Qed.

Lemma flush_spec buffer content s :
  lb_rep buffer content -> sink_ok s ->
  wp (ht_listener_buffer_flush buffer) (fun buffer' s' =>
    lb_rep buffer' [] /\ usage buffer' = 0 /\ max_size buffer' = max_size buffer /\
    chunks s' = chunks s ++ [content] /\ sink_ok s') s.
Proof.
  intros R Hok. pose proof R as [Hl Hm Hu Hc]. unfold ht_listener_buffer_flush.
  rewrite (mem_read_prefix _ content), some_bind by done.
  eapply wp_call; [apply flush_callback_spec; [done|pose proof (lb_usage_le _ _ R); lia]|]. intros _ s1 [Hch Hok1]. wp_steps.
  by split_and!.
Qed.

(** Bytes keep their order and none is lost: what was flushed and what is
    left in the buffer is what was there and then the input; every chunk but
    the first fill of the buffer has the size of the buffer. *)
Lemma serialized_loop_spec fuel buffer content events written s :
  lb_rep buffer content -> max_size buffer <> 0 -> sink_ok s ->
  0 <= written <= Z.of_nat (length events) -> Z.of_nat (length events) < 2 ^ 63 ->
  Z.of_nat (length events) - written < Z.of_nat fuel ->
  (usage buffer = max_size buffer -> Z.of_nat (length events) - written + 1 < Z.of_nat fuel) ->
  wp (serialized_loop fuel buffer events written) (fun buffer' s' => exists content' new,
    lb_rep buffer' content' /\ sink_ok s' /\ max_size buffer' = max_size buffer /\
    chunks s' = chunks s ++ new /\
    concat new ++ content' = content ++ drop (Z.to_nat written) events /\
    Forall (fun c => Z.of_nat (length c) = max_size buffer) new) s.
Proof.
  revert buffer content written s. induction fuel as [|fuel IH]; intros buffer content written s R Hm Hok Hw He Hf Hf'; [lia|].
  cbn [serialized_loop]. cbn zeta. destruct (decide (written < Z.of_nat (length events))) as [Hlt|Hlt].
  2: { wp_steps. exists content, []. rewrite drop_ge, !app_nil_r by lia. by split_and!. }
  pose proof (lb_usage_le _ _ R) as Hu. pose proof (lb_max _ _ R).
  rewrite (u64_small (_ - written)), (u64_small (_ - usage buffer)) by lia.
  set (actual := HT_MIN _ _).
  assert (Ha : 0 <= actual /\ written + actual <= Z.of_nat (length events) /\
               usage buffer + actual <= max_size buffer /\
               (actual = 0 -> usage buffer = max_size buffer) /\
               (usage buffer + actual = max_size buffer \/ written + actual = Z.of_nat (length events))).
  { unfold actual, HT_MIN. case_decide; lia. }
  clearbody actual. destruct Ha as (Ha0&Hae&Hau&Hprog&_).
  assert (Hread : mem_read events written actual =
    Some (take (Z.to_nat actual) (drop (Z.to_nat written) events))).
  { unfold mem_read. by rewrite decide_True by lia. }
  rewrite Hread, some_bind. set (src := take _ _) in *.
  assert (Hsrc : Z.of_nat (length src) = actual) by (unfold src; rewrite length_take, length_drop; lia).
  destruct (lb_write_fits _ _ src R) as [cells E]; [lia|]. rewrite E, some_bind. cbn zeta.
  rewrite !u64_small by lia.
  pose proof (lb_append _ _ _ _ (lb_data buffer) R E) as R1. rewrite Hsrc in R1.
  assert (Hsplit : src ++ drop (Z.to_nat (written + actual)) events = drop (Z.to_nat written) events).
  { unfold src. rewrite Z2Nat.inj_add, <- drop_drop by lia. apply take_drop. }
  cbn [usage max_size]. case_decide as Hfull.
  - eapply wp_call; [by eapply flush_spec|]. intros buffer2 s2 (R2&Hu2&Hm2&Hch2&Hok2).
    cbn [max_size] in Hm2.
    eapply wp_mono; [apply (IH buffer2 []); try done; try lia; congruence|].
    intros buffer3 s3 (content'&new&R3&Hok3&Hm3&Hch3&Hcat&HF). simpl in Hcat.
    exists content', ((content ++ src) :: new). split_and!; try done; try congruence.
    + by rewrite Hch3, Hch2, <- app_assoc.
    + simpl. by rewrite <- !app_assoc, Hcat, Hsplit.
    + constructor; [|by rewrite <- Hm2].
      pose proof (lb_usage _ _ R1) as Hl1. simpl in Hl1. lia.
  - wp_steps. eapply wp_mono; [apply (IH _ _ _ _ R1); try done; simpl; lia|].
    simpl. intros buffer3 s3 (content'&new&R3&Hok3&Hm3&Hch3&Hcat&HF).
    exists content', new. split_and!; try done. by rewrite Hcat, <- app_assoc, Hsplit.
Qed.

(** The chunks a greedy packer makes of whole events: an event that does
    not fit any more starts a new chunk. *)
Definition pack (max : Z) (st : list (list memval) * list memval) (e : pushed)
    : list (list memval) * list memval :=
  let '(new, content) := st in
  if decide (Z.of_nat (length (pbytes e)) + Z.of_nat (length content) > max)
  then (new ++ [content], Byte <$> pbytes e)
  else (new, content ++ (Byte <$> pbytes e)).

Lemma pack_stream max st es :
  concat (foldl (pack max) st es).1 ++ (foldl (pack max) st es).2 = concat st.1 ++ st.2 ++ wire_cells es.
Proof.
  revert st. induction es as [|e es IH]; intros [new content]; [simpl; by rewrite app_nil_r|].
  rewrite wire_cells_cons. cbn [foldl]. rewrite IH. unfold pack. case_decide; simpl.
  - rewrite concat_app. simpl. by rewrite app_nil_r, <- !app_assoc.
  - by rewrite <- !app_assoc.
Qed.

(** One event: flush if it does not fit, then serialise it in place. *)
Lemma unserialized_step buffer content e s :
  lb_rep buffer content -> sink_ok s -> pushed_ok ks e ->
  Z.of_nat (length (pbytes e)) <= max_size buffer ->
  wp (unserialized_event buffer (pv e))
    (fun buffer' s' => let '(new, content') := pack (max_size buffer) ([], content) e in
       lb_rep buffer' content' /\ sink_ok s' /\ max_size buffer' = max_size buffer /\
       chunks s' = chunks s ++ new) s.
Proof.
  intros R Hok He Hfit. pose proof (lb_usage_le _ _ R) as Hu. pose proof (lb_max _ _ R).
  unfold unserialized_event. rewrite (klass_get_size_ok _ _ _ _ He), some_bind.
  rewrite u64_small by lia. unfold pack. rewrite <- (lb_usage _ _ R).
  assert (Hwrite : forall b c s1, lb_rep b c -> max_size b = max_size buffer -> sink_ok s1 ->
    usage b + Z.of_nat (length (pbytes e)) <= max_size b ->
    wp ('(cells, n) ← some_or_undef (klass_serialize ks (pv e) (lb_cells b) (usage b));
        mret (ListenerBuffer (lb_data b) cells (max_size b) (u64 (usage b + n))))
      (fun b' s' => lb_rep b' (c ++ (Byte <$> pbytes e)) /\ sink_ok s' /\ max_size b' = max_size buffer /\
         chunks s' = chunks s1) s1).
  { intros b c s1 R1 Hm1 Hok1 Hf1. pose proof (lb_usage_le _ _ R1).
    destruct (lb_write_fits b c (Byte <$> pbytes e) R1) as [cells E]; [rewrite length_fmap; lia|].
    rewrite (klass_serialize_done _ _ _ _ _ _ _ He E), some_bind. apply wp_ret. rewrite u64_small by lia.
    pose proof (lb_append _ _ _ _ (lb_data b) R1 E) as R2. rewrite length_fmap in R2. by split_and!. }
  case_decide as Hd.
  - eapply wp_call; [by eapply flush_spec|]. intros b1 s1 (R1&Hu1&Hm1&Hch1&Hok1).
    eapply wp_mono; [apply (Hwrite b1 [] s1 R1 Hm1 Hok1); lia|].
    intros b2 s2 (R2&Hok2&Hm2&Hch2). split_and!; try done. by rewrite Hch2, Hch1.
  - rewrite ret_bind. eapply wp_mono; [apply (Hwrite buffer content s R eq_refl Hok); lia|].
    intros b2 s2 (R2&Hok2&Hm2&Hch2). rewrite app_nil_r. by split_and!.
Qed.

Lemma pack_prefix max new content es :
  foldl (pack max) (new, content) es =
    let '(new', content') := foldl (pack max) ([], content) es in (new ++ new', content').
Proof.
  revert new content. induction es as [|e es IH]; intros new content; simpl; [by rewrite app_nil_r|].
  case_decide; [|apply IH]. rewrite IH, (IH [content]). destruct (foldl _ _ _). simpl.
  by rewrite <- app_assoc.
Qed.

Lemma unserialized_loop_spec fuel pre es buffer content s :
  lb_rep buffer content -> sink_ok s -> Forall (pushed_ok ks) es ->
  Forall (fun e => Z.of_nat (length (pbytes e)) <= max_size buffer) es ->
  Z.of_nat (length (pre ++ objects es)) < 2 ^ 63 -> (length es < fuel)%nat ->
  wp (unserialized_loop fuel buffer (pre ++ objects es) (Z.of_nat (length pre))) (fun buffer' s' =>
    let '(new, content') := foldl (pack (max_size buffer)) ([], content) es in
    lb_rep buffer' content' /\ sink_ok s' /\ max_size buffer' = max_size buffer /\
    chunks s' = chunks s ++ new) s.
Proof.
  revert pre es buffer content s. induction fuel as [|fuel IH]; intros pre es buffer content s R Hok HF Hfit Hlen Hf; [lia|].
  cbn [unserialized_loop]. destruct es as [|e es].
  { rewrite decide_False by (unfold objects; simpl; rewrite app_nil_r; lia). wp_steps. simpl.
    by rewrite app_nil_r. }
  apply Forall_cons in HF as [He HF]. apply Forall_cons in Hfit as [Hfe Hfit].
  pose proof (psize_pos _ _ He). rewrite length_app, Nat2Z.inj_add, (length_objects_cons ks) in * by done.
  rewrite decide_True by lia. rewrite objects_cons, load_object, some_bind by lia.
  eapply wp_call; [by apply (unserialized_step _ _ _ _ R Hok He Hfe)|].
  intros buffer1 s1. cbn [foldl]. destruct (pack (max_size buffer) ([], content) e) as [new1 content1].
  intros (R1&Hok1&Hm1&Hch1). rewrite (klass_size_ok _ _ _ _ He), some_bind. fold (psize e).
  rewrite u64_small by lia.
  replace (Z.of_nat (length pre) + psize e) with (Z.of_nat (length (pre ++ object_cells (pv e) (psize e))))
    by (rewrite length_app, Nat2Z.inj_add, length_object_cells; lia).
  rewrite app_assoc, <- Hm1. eapply wp_mono.
  { apply (IH (pre ++ object_cells (pv e) (psize e)) es buffer1 content1); try done.
    - by rewrite Hm1.
    - rewrite <- app_assoc, <- objects_cons, length_app, Nat2Z.inj_add, (length_objects_cons ks) by done. lia.
    - simpl in Hf. lia. }
  intros buffer2 s2. rewrite (pack_prefix _ new1). destruct (foldl _ _ _) as [new2 content2].
  intros (R2&Hok2&Hm2&Hch2). split_and!; try done. by rewrite Hch2, Hch1, <- app_assoc.
Qed.

Lemma process_serialized_spec buffer content events s :
  lb_rep buffer content -> sink_ok s -> Z.of_nat (length events) < 2 ^ 63 ->
  wp (ht_listener_buffer_process_serialized_events buffer events) (fun buffer' s' => exists content' new,
    lb_rep buffer' content' /\ sink_ok s' /\ max_size buffer' = max_size buffer /\
    chunks s' = chunks s ++ new /\ concat new ++ content' = content ++ events /\
    (max_size buffer <> 0 -> Forall (fun c => Z.of_nat (length c) = max_size buffer) new)) s.
Proof.
  intros R Hok He. unfold ht_listener_buffer_process_serialized_events. case_decide as Hm.
  - eapply wp_call; [by apply flush_callback_spec|]. intros _ s1 [Hch Hok1]. wp_steps.
    pose proof (lb_usage_le _ _ R) as Hu. pose proof (lb_usage _ _ R) as Hl.
    assert (content = []) as -> by (apply length_zero_iff_nil; lia).
    exists [], [events]. split_and!; try done. simpl. by rewrite !app_nil_r.
  - eapply wp_mono; [apply (serialized_loop_spec _ buffer content); try done; lia|].
    intros b1 s1 (c1&new&R1&Hok1&Hm1&Hch1&Hcat&HF). exists c1, new. by split_and!.
Qed.

Lemma process_unserialized_spec buffer content es s :
  lb_rep buffer content -> max_size buffer <> 0 -> sink_ok s -> Forall (pushed_ok ks) es ->
  Forall (fun e => Z.of_nat (length (pbytes e)) <= max_size buffer) es ->
  Z.of_nat (length (objects es)) < 2 ^ 63 ->
  wp (ht_listener_buffer_process_unserialized_events buffer (objects es)) (fun buffer' s' =>
    let '(new, content') := foldl (pack (max_size buffer)) ([], content) es in
    lb_rep buffer' content' /\ sink_ok s' /\ max_size buffer' = max_size buffer /\
    chunks s' = chunks s ++ new) s.
Proof.
  intros R Hm Hok HF Hfit Hlen. unfold ht_listener_buffer_process_unserialized_events.
  rewrite bool_decide_true by done. unfold require. rewrite ret_bind.
  apply (unserialized_loop_spec _ [] es buffer content s R Hok HF Hfit Hlen).
  clear -HF. induction es as [|e es IH]; [simpl; lia|]. apply Forall_cons in HF as [He HF].
  specialize (IH HF). pose proof (psize_pos _ _ He). pose proof (length_objects_cons ks e es He).
  simpl length at 1. lia.
Qed.

(** ** Any sequence of batches *)

Inductive batch :=
| Serialized (events : list memval)
| Unserialized (es : list pushed).

Definition process buffer (b : batch) : ST L HT_ListenerBuffer :=
  match b with
  | Serialized events => ht_listener_buffer_process_serialized_events buffer events
  | Unserialized es => ht_listener_buffer_process_unserialized_events buffer (objects es)
  end.

Fixpoint feed buffer (bs : list batch) : ST L HT_ListenerBuffer :=
  match bs with
  | [] => ht_listener_buffer_flush buffer
  | b :: bs => buffer ← process buffer b; feed buffer bs
  end.

Definition batch_stream (b : batch) : list memval :=
  match b with Serialized events => events | Unserialized es => wire_cells es end.

Definition batch_ok (max : Z) (b : batch) : Prop :=
  match b with
  | Serialized events => Z.of_nat (length events) < 2 ^ 63
  | Unserialized es =>
      max <> 0 /\ Forall (pushed_ok ks) es /\
      Forall (fun e => Z.of_nat (length (pbytes e)) <= max) es /\ Z.of_nat (length (objects es)) < 2 ^ 63
  end.

Lemma process_chunks buffer content b s :
  lb_rep buffer content -> sink_ok s -> batch_ok (max_size buffer) b ->
  wp (process buffer b) (fun buffer' s' => exists content' new, lb_rep buffer' content' /\ sink_ok s' /\
    max_size buffer' = max_size buffer /\ chunks s' = chunks s ++ new /\ concat new ++ content' = content ++ batch_stream b) s.
Proof.
  intros R Hok Hb. destruct b as [events|es]; simpl in *.
  - eapply wp_mono; [by apply (process_serialized_spec buffer content)|].
    intros b1 s1 (c1&new&R1&Hok1&Hm1&Hch1&Hcat&_). exists c1, new. by split_and!.
  - destruct Hb as (Hm&HF&Hfit&Hlen).
    eapply wp_mono; [by apply (process_unserialized_spec buffer content)|]. intros b1 s1.
    pose proof (pack_stream (max_size buffer) ([], content) es) as Hst.
    destruct (foldl _ _ _) as [new c1]. intros (R1&Hok1&Hm1&Hch1). exists c1, new. by split_and!.
Qed.

Lemma process_spec buffer content b s :
  lb_rep buffer content -> sink_ok s -> batch_ok (max_size buffer) b ->
  wp (process buffer b) (fun buffer' s' => exists content', lb_rep buffer' content' /\ sink_ok s' /\
    max_size buffer' = max_size buffer /\
    concat (chunks s') ++ content' = concat (chunks s) ++ content ++ batch_stream b) s.
Proof.
  intros R Hok Hb. eapply wp_mono; [by apply (process_chunks buffer content)|].
  intros b1 s1 (c1&new&R1&Hok1&Hm1&Hch1&Hcat). exists c1. split_and!; try done.
  by rewrite Hch1, concat_app, <- app_assoc, Hcat.
Qed.

Lemma feed_spec buffer content bs s :
  lb_rep buffer content -> sink_ok s -> Forall (batch_ok (max_size buffer)) bs ->
  wp (feed buffer bs) (fun buffer' s' => lb_rep buffer' [] /\ sink_ok s' /\
    max_size buffer' = max_size buffer /\
    concat (chunks s') = concat (chunks s) ++ content ++ (bs ≫= batch_stream)) s.
Proof.
  revert buffer content s. induction bs as [|b bs IH]; intros buffer content s R Hok HF; simpl.
  - eapply wp_mono; [by eapply flush_spec|]. intros b1 s1 (R1&_&Hm1&Hch1&Hok1). split_and!; try done.
    rewrite Hch1, concat_app. simpl. by rewrite !app_nil_r.
  - apply Forall_cons in HF as [Hb HF]. eapply wp_call; [by apply (process_spec buffer content)|].
    intros b1 s1 (c1&R1&Hok1&Hm1&Hcat1). eapply wp_mono; [apply (IH b1 c1); try done; by rewrite Hm1|].
    intros b2 s2 (R2&Hok2&Hm2&Hcat2). split_and!; try done; [congruence|].
    rewrite Hcat2, app_assoc, Hcat1. by rewrite <- !app_assoc.
Qed.

(** ** The block of a buffer stays the same *)

Definition keeps (p : ptr) (m : ST L HT_ListenerBuffer) : Prop :=
  forall s b s', m s = Done (b, s') -> lb_data b = p.

Lemma keeps_ret p b : lb_data b = p -> keeps p (mret b).
Proof. intros Hb s b' s' [= <- _]. done. Qed.

Lemma keeps_bind {A} p (m : ST L A) f : (forall a, keeps p (f a)) -> keeps p (m ≫= f).
Proof. intros Hf s b s'. unfold mbind, st_bind. destruct (m s) as [[a s1]| |]; try done. apply Hf. Qed.

Lemma keeps_then p m f : keeps p m -> (forall b, lb_data b = p -> keeps p (f b)) -> keeps p (m ≫= f).
Proof.
  intros Hm Hf s b s'. unfold mbind, st_bind. destruct (m s) as [[a s1]| |] eqn:Em; try done.
  apply Hf. by eapply Hm.
Qed.

Lemma wp_keeps p m Q s : wp m Q s -> keeps p m -> wp m (fun b s' => Q b s' /\ lb_data b = p) s.
Proof.
  intros Hw Hk. unfold wp in *. destruct (m s) as [[b s']| |] eqn:Em; try done. split; [done|]. by eapply Hk.
Qed.

Lemma flush_keeps buffer : keeps (lb_data buffer) (ht_listener_buffer_flush buffer).
Proof. do 2 (apply keeps_bind; intros ?). by apply keeps_ret. Qed.

Lemma flush_if_keeps p (P : Prop) `{Decision P} buffer : lb_data buffer = p ->
  keeps p (if decide P then ht_listener_buffer_flush buffer else mret buffer).
Proof. intros <-. case_decide; [apply flush_keeps|by apply keeps_ret]. Qed.

Lemma serialized_loop_keeps fuel p buffer events written :
  lb_data buffer = p -> keeps p (serialized_loop fuel buffer events written).
Proof.
  revert buffer written. induction fuel as [|fuel IH]; intros buffer written Hb; simpl; [by intros s b s'|].
  case_decide; [|by apply keeps_ret]. do 2 (apply keeps_bind; intros ?).
  apply keeps_then; [by apply flush_if_keeps|]. intros b1 Hb1. by apply IH.
Qed.

Lemma unserialized_loop_keeps fuel p buffer events i :
  lb_data buffer = p -> keeps p (unserialized_loop fuel buffer events i).
Proof.
  revert buffer i. induction fuel as [|fuel IH]; intros buffer i Hb; simpl; [by intros s b s'|].
  case_decide; [|by apply keeps_ret]. apply keeps_bind; intros event. apply keeps_then.
  - unfold unserialized_event. apply keeps_bind; intros sz. apply keeps_then; [by apply flush_if_keeps|].
    intros b1 Hb1. apply keeps_bind; intros [cells n]. by apply keeps_ret.
  - intros b1 Hb1. apply keeps_bind; intros obj. by apply IH.
Qed.

Lemma process_keeps buffer b : keeps (lb_data buffer) (process buffer b).
Proof.
  destruct b as [events|es]; simpl.
  - unfold ht_listener_buffer_process_serialized_events. case_decide; [|by apply serialized_loop_keeps].
    apply keeps_bind; intros ?. by apply keeps_ret.
  - apply keeps_bind; intros ?. by apply unserialized_loop_keeps.
Qed.

(** C19: a listener's buffer loses, duplicates and reorders nothing.  Every
    sequence of batches of serialised bytes, through a buffer of any size (0 is
    the bypass mode), and of unserialised event objects, through a buffer that is
    not empty and holds each of them in its wire format, followed by a flush, hands to the flush callback exactly what was in the buffer,
    then the bytes of the batches in order (an event object as its wire
    format), and leaves the buffer empty; the loops end and no access is out
    of bounds. *)
Theorem listener_stream_preserved buffer content bs s :
  lb_rep buffer content -> sink_ok s -> Forall (batch_ok (max_size buffer)) bs ->
  wp (feed buffer bs) (fun buffer' s' => lb_rep buffer' [] /\
    concat (chunks s') = concat (chunks s) ++ content ++ (bs ≫= batch_stream)) s.
Proof.
  intros R Hok HF. eapply wp_mono; [by apply (feed_spec buffer content)|].
  intros b1 s1 (R1&_&_&Hcat). by split.
Qed.

(** Event objects are never split between two flushes.  The chunks
    flushed while a batch of event objects is processed, and what is left in
    the buffer, are those of the greedy packer: an event that does not fit
    into what is left of the buffer starts a new chunk. *)
Theorem listener_unserialized_packing buffer content es s :
  lb_rep buffer content -> max_size buffer <> 0 -> sink_ok s -> Forall (pushed_ok ks) es ->
  Forall (fun e => Z.of_nat (length (pbytes e)) <= max_size buffer) es ->
  Z.of_nat (length (objects es)) < 2 ^ 63 ->
  wp (ht_listener_buffer_process_unserialized_events buffer (objects es)) (fun buffer' s' =>
    let '(new, content') := foldl (pack (max_size buffer)) ([], content) es in
    chunks s' = chunks s ++ new /\ lb_rep buffer' content') s.
Proof.
  intros R Hm Hok HF Hfit Hlen. eapply wp_mono; [by apply (process_unserialized_spec buffer content)|].
  intros b1 s1. destruct (foldl _ _ _) as [new c1]. intros (R1&_&_&Hch1). by split.
Qed.

(** An event object whose wire format is larger than the buffer is
    written past the end of the buffer. *)
Theorem listener_unserialized_overflow buffer content e s :
  lb_rep buffer content -> max_size buffer <> 0 -> sink_ok s -> pushed_ok ks e ->
  Z.of_nat (length (pbytes e)) > max_size buffer -> Z.of_nat (length (pbytes e)) < 2 ^ 63 ->
  ht_listener_buffer_process_unserialized_events buffer (objects [e]) s = Undef.
Proof.
  intros R Hm Hok He Hbig Hs. unfold ht_listener_buffer_process_unserialized_events.
  rewrite bool_decide_true by done. unfold require. rewrite ret_bind. cbn [unserialized_loop].
  pose proof (psize_pos _ _ He). pose proof (length_objects_cons ks e [] He).
  rewrite decide_True by lia.
  assert (load_event (objects [e]) 0 = Some (pv e)) as -> by (apply (load_object []); lia).
  rewrite some_bind. apply bind_undef. unfold unserialized_event. rewrite (klass_get_size_ok _ _ _ _ He), some_bind.
  pose proof (lb_usage_le _ _ R) as Hu. pose proof (lb_max _ _ R).
  rewrite u64_small, decide_True by lia.
  destruct (wp_inv _ _ _ (flush_spec _ _ _ R Hok)) as (b1&s1&E&R1&Hu1&Hm1&_&_).
  rewrite (bind_done _ _ _ _ _ E), (klass_serialize_ok _ _ _ _ _ _ He), mem_write_oob; [done|].
  rewrite length_fmap, (lb_len _ _ R1). lia.
Qed.

End listener_buffer.

Lemma listener_buffer_init_spec `{Malloc} n h (Q : HT_ErrorCode + HT_ListenerBuffer -> heap -> Prop) :
  0 <= n ->
  (forall h', heap_with h (blocks h) h' -> Q (inl HT_ERR_OUT_OF_MEMORY) h') ->
  (forall b h', lb_rep b [] -> max_size b = n ->
     (n = 0 /\ lb_data b = NULL /\ h' = h \/
      lb_data b <> NULL /\ blocks h !! lb_data b = None /\ heap_with h (<[lb_data b := n]> (blocks h)) h') ->
     Q (inr b) h') ->
  wp (ht_listener_buffer_init n) Q h.
Proof.
  intros Hn Hfail Hok. unfold ht_listener_buffer_init. case_decide as Hz.
  - apply wp_ret. apply Hok; simpl; [by subst; split|done|by left; split_and!].
  - apply wp_bind, ht_alloc_spec.
    + intros h' Hw. rewrite decide_True by done. apply wp_ret. by apply Hfail.
    + intros p h' Hp Hs Hf Hw. rewrite decide_False by done. apply wp_ret. apply Hok; simpl; [|done|by right].
      split; simpl; rewrite ?length_replicate; try done; lia.
Qed.

(** ** A callback that keeps a log, and concrete runs *)

Section samples.

#[local] Instance log_callback : FlushCallback (list (list memval)) := {
  flush_callback cells := fun s => Done ((), s ++ [cells]);
  chunks s := s;
  sink_ok _ := True;
  flush_callback_spec cells s _ _ := conj eq_refl I
}.

#[local] Existing Instance little_endian.

Definition sample_pushed : pushed :=
  Pushed sample_event (registered HT_CallstackStringEvent 7) sample_bytes.

Definition empty_buffer (n : Z) : HT_ListenerBuffer :=
  ListenerBuffer 1 (replicate (Z.to_nat n) Indet) n 0.

Definition sample_batches : list batch :=
  [Serialized (Byte <$> [1; 2; 3; 4; 5]); Unserialized [sample_pushed; sample_pushed]].

(** Five bytes and two event objects of 35 bytes through a buffer of 40. *)
Lemma listener_stream_preserved_witness :
  (sample_batches ≫= batch_stream) = Byte <$> ([1; 2; 3; 4; 5] ++ sample_bytes ++ sample_bytes) /\
  wp (feed sample_klasses (empty_buffer 40) sample_batches)
    (fun buffer' s' => lb_rep buffer' [] /\
      concat (chunks s') = concat (chunks []) ++ [] ++ (sample_batches ≫= batch_stream)) [].
Proof.
  split; [reflexivity|]. apply (listener_stream_preserved sample_klasses (empty_buffer 40) [] sample_batches []).
  - split; reflexivity.
  - exact I.
  - repeat constructor; first [exact sample_event_ok | reflexivity | vm_compute; congruence].
Defined.

Lemma listener_unserialized_packing_witness :
  wp (ht_listener_buffer_process_unserialized_events sample_klasses (empty_buffer 40)
        (objects [sample_pushed; sample_pushed]))
    (fun buffer' s' =>
      let '(new, content') := foldl (pack 40) ([], []) [sample_pushed; sample_pushed] in
      chunks s' = chunks [] ++ new /\ lb_rep buffer' content') [] /\
  foldl (pack 40) ([], []) [sample_pushed; sample_pushed] = ([Byte <$> sample_bytes], Byte <$> sample_bytes).
Proof.
  split; [|reflexivity].
  apply (listener_unserialized_packing sample_klasses (empty_buffer 40) [] [sample_pushed; sample_pushed] []).
  - split; reflexivity.
  - vm_compute. congruence.
  - exact I.
  - repeat constructor; exact sample_event_ok.
  - repeat constructor; vm_compute; congruence.
  - reflexivity.
Defined.

Lemma listener_unserialized_overflow_witness :
  ht_listener_buffer_process_unserialized_events sample_klasses (empty_buffer 8) (objects [sample_pushed]) []
    = Undef.
Proof.
  apply (listener_unserialized_overflow sample_klasses (empty_buffer 8) [] sample_pushed []).
  - split; reflexivity.
  - vm_compute. congruence.
  - exact I.
  - exact sample_event_ok.
  - reflexivity.
  - reflexivity.
Defined.

End samples.
