(* ===== verification/TaskScheduler.v ===== *)
(** The task scheduler (lib/task_scheduler.c).

    The tasks are objects on the heap, reached through a bag of pointers.
    The monotonic clock and the callbacks of the tasks belong to the
    environment of the scheduler; a callback does not call the scheduler. *)
From S2P Require Import Prelude Alloc BaseTypes Bag.

Inductive HT_TaskSchedulingMode := HT_TASK_SCHEDULING_IGNORE_DELAYS | HT_TASK_SCHEDULING_RESTART_TIMER.

#[export] Instance HT_TaskSchedulingMode_eq_dec : EqDecision HT_TaskSchedulingMode.
Proof. solve_decision. Defined.

Record HT_Task := Task {
  callback : ptr;
  user_data : ptr;
  period : Z;
  next_action_ts : Z;
  task_id : Z;
  mode : HT_TaskSchedulingMode
}.

(** [self] is the address of the scheduler itself. *)
Record HT_TaskScheduler := TaskScheduler {
  self : ptr;
  tasks : bag ptr;
  next_task_id : Z
}.

Definition set_tasks (b : bag ptr) (sch : HT_TaskScheduler) : HT_TaskScheduler :=
  TaskScheduler (self sch) b (next_task_id sch).

Definition HT_TASK_SCHEDULER_INVALID_TASK_ID : Z := -1.
Definition DEFAULT_INIT_TASK_COUNT_ : Z := 16.
Definition sizeof_HT_TaskScheduler : Z := 40.
Definition sizeof_HT_Task : Z := 40.

(** What the scheduler uses of its surroundings. *)
Class TaskEnv (E : Type) := {
  clock : E -> Z * E;
  run_callback : ptr -> ptr -> E -> bool * E
}.

(** The heap, the task objects in it and the environment. *)
Record world (E : Type) := World {
  wheap : heap;
  wtasks : gmap ptr HT_Task;
  wenv : E
}.
Arguments World {E} _ _ _.
Arguments wheap {E} _.
Arguments wtasks {E} _.
Arguments wenv {E} _.

#[export] Instance world_heap {E} : Lens (world E) heap.
Proof.
  refine {| view := wheap; update h w := World h (wtasks w) (wenv w) |}; by intros; destruct s.
Defined.

Section scheduler.
  Context `{Malloc} {E : Type} `{TaskEnv E}.
  Implicit Types (sch : HT_TaskScheduler) (w : world E) (ts : list HT_Task) (ps : list ptr).

Definition load_task (p : ptr) : ST (world E) HT_Task :=
  w ← get; some_or_undef (wtasks w !! p).

Definition store_task (p : ptr) (t : HT_Task) : ST (world E) () :=
  w ← get;
  require (bool_decide (is_Some (blocks (wheap w) !! p)));;
  put (World (wheap w) (<[p := t]> (wtasks w)) (wenv w)).

(** ht_free of a task: the object is gone. *)
Definition free_task (p : ptr) : ST (world E) () :=
  zoom (ht_free p);;
  modify (fun w => World (wheap w) (delete p (wtasks w)) (wenv w)).

Definition ht_monotonic_clock_get_timestamp : ST (world E) Z := fun w =>
  let '(t, e) := clock (wenv w) in Done (t, World (wheap w) (wtasks w) e).

Definition call_callback (cb data : ptr) : ST (world E) bool := fun w =>
  let '(r, e) := run_callback cb data (wenv w) in Done (r, World (wheap w) (wtasks w) e).

(** Euclid's algorithm; the fuel is enough for every 64-bit divisor. *)
Fixpoint gcd_loop (fuel : nat) (a b : Z) : outcome Z :=
  match fuel with
  | O => NoFuel
  | S fuel => if decide (b = 0) then Done a else gcd_loop fuel b (a mod b)
  end.

Definition _greatest_common_divisor (a b : Z) : outcome Z := gcd_loop 130 a b.

Definition ht_task_scheduler_create : ST (world E) (HT_ErrorCode * option HT_TaskScheduler) :=
  p ← zoom (ht_alloc sizeof_HT_TaskScheduler);
  if decide (p = NULL) then mret (HT_ERR_OUT_OF_MEMORY, None)
  else
    r ← zoom (ht_bag_init 8 DEFAULT_INIT_TASK_COUNT_);
    match r with
    | inl error_code => zoom (ht_free p);; mret (error_code, None)
    | inr b => mret (HT_ERR_OK, Some (TaskScheduler p b 0))
    end.

(** for (i = 0; i < tasks.size; i++) ht_free(tasks.data[i]). *)
Fixpoint free_loop (fuel : nat) (b : bag ptr) (i : Z) : ST (world E) () :=
  match fuel with
  | O => nofuel
  | S fuel =>
      if decide (i < size b) then
        p ← some_or_undef (ht_bag_nth b i);
        free_task p;;
        free_loop fuel b (u64 (i + 1))
      else mret ()
  end.

Definition ht_task_scheduler_destroy sch : ST (world E) () :=
  free_loop (S (Z.to_nat (size (tasks sch)))) (tasks sch) 0;;
  zoom (ht_bag_deinit (tasks sch));;
  zoom (ht_free (self sch)).

Definition ht_task_scheduler_schedule_task sch (mode : HT_TaskSchedulingMode) (period : Z)
    (callback user_data : ptr) : ST (world E) (Z * HT_TaskScheduler) :=
  if decide (next_task_id sch = HT_INT32_MAX \/ callback = NULL)
  then mret (HT_TASK_SCHEDULER_INVALID_TASK_ID, sch)
  else
    task ← zoom (ht_alloc sizeof_HT_Task);
    if decide (task = NULL) then mret (HT_TASK_SCHEDULER_INVALID_TASK_ID, sch)
    else
      now ← ht_monotonic_clock_get_timestamp;
      let id := next_task_id sch in
      store_task task (Task callback user_data period (u64 (now + period)) id mode);;
      let sch := TaskScheduler (self sch) (tasks sch) (id + 1) in
      '(err, b) ← zoom (ht_bag_add 8 (tasks sch) task);
      let sch := set_tasks b sch in
      if decide (err = HT_ERR_OK) then mret (id, sch)
      else mret (HT_TASK_SCHEDULER_INVALID_TASK_ID, sch).

Definition set_next (ts : Z) (t : HT_Task) : HT_Task :=
  Task (callback t) (user_data t) (period t) ts (task_id t) (mode t).

(** The body of the for loop of the tick; [k] goes on at the next index.
    [i--] wraps at 0 and [i++] brings it back. *)
Definition tick_step (b : bag ptr) (i : Z) (p : ptr) (k : bag ptr -> Z -> ST (world E) (bag ptr))
    : ST (world E) (bag ptr) :=
  now_ts ← ht_monotonic_clock_get_timestamp;
  task ← load_task p;
  if decide (next_action_ts task > now_ts) then k b (u64 (i + 1))
  else
    result ← call_callback (callback task) (user_data task);
    if result : bool then
      task ← load_task p;
      next ← (if decide (mode task = HT_TASK_SCHEDULING_IGNORE_DELAYS)
              then mret (u64 (next_action_ts task + period task))
              else now ← ht_monotonic_clock_get_timestamp; mret (u64 (now + period task)));
      store_task p (set_next next task);;
      k b (u64 (i + 1))
    else
      b ← zoom (ht_bag_remove_nth 8 b i);
      free_task p;;
      k b (u64 (u64 (i - 1) + 1)).

Fixpoint tick_loop (fuel : nat) (b : bag ptr) (i : Z) : ST (world E) (bag ptr) :=
  match fuel with
  | O => nofuel
  | S fuel =>
      if decide (i < size b) then
        p ← some_or_undef (ht_bag_nth b i);
        tick_step b i p (fun b i => tick_loop fuel b i)
      else mret b
  end.

Definition ht_task_scheduler_tick sch : ST (world E) HT_TaskScheduler :=
  b ← tick_loop (S (Z.to_nat (size (tasks sch)))) (tasks sch) 0;
  mret (set_tasks b sch).

(** The loop goes on after a removal. *)
Fixpoint remove_entry_loop (fuel : nat) (b : bag ptr) (task : ptr) (i : Z) : ST (world E) (bag ptr) :=
  match fuel with
  | O => nofuel
  | S fuel =>
      if decide (i < size b) then
        p ← some_or_undef (ht_bag_nth b i);
        b ← (if decide (p = task) then zoom (ht_bag_remove_nth 8 b i) else mret b);
        remove_entry_loop fuel b task (u64 (i + 1))
      else mret b
  end.

Definition ht_task_scheduler_remove_task_entry (b : bag ptr) (task : ptr) : ST (world E) (bag ptr) :=
  remove_entry_loop (S (Z.to_nat (size b))) b task 0.

Fixpoint remove_loop (fuel : nat) sch (id i : Z) : ST (world E) (bool * HT_TaskScheduler) :=
  match fuel with
  | O => nofuel
  | S fuel =>
      if decide (i < size (tasks sch)) then
        p ← some_or_undef (ht_bag_nth (tasks sch) i);
        task ← load_task p;
        if decide (task_id task = id) then
          b ← ht_task_scheduler_remove_task_entry (tasks sch) p;
          free_task p;;
          mret (true, set_tasks b sch)
        else remove_loop fuel sch id (u64 (i + 1))
      else mret (false, sch)
  end.

Definition ht_task_scheduler_remove_task sch (id : Z) : ST (world E) (bool * HT_TaskScheduler) :=
  if decide (id < 0) then mret (false, sch)
  else remove_loop (S (Z.to_nat (size (tasks sch)))) sch id 0.

Fixpoint period_loop (fuel : nat) (b : bag ptr) (task_pos perfect_period : Z) : ST (world E) Z :=
  match fuel with
  | O => nofuel
  | S fuel =>
      if decide (task_pos < size b) then
        p ← some_or_undef (ht_bag_nth b task_pos);
        task ← load_task p;
        if decide (period task = 0) then period_loop fuel b (u64 (task_pos + 1)) perfect_period
        else if decide (perfect_period = 0) then period_loop fuel b (u64 (task_pos + 1)) (period task)
        else
          match _greatest_common_divisor perfect_period (period task) with
          | Done g => period_loop fuel b (u64 (task_pos + 1)) g
          | Undef => undef
          | NoFuel => nofuel
          end
      else mret perfect_period
  end.

Definition ht_task_scheduler_get_optimal_tick_period sch : ST (world E) Z :=
  period_loop (S (Z.to_nat (size (tasks sch)))) (tasks sch) 0 0.

(** ** Euclid's algorithm *)

Lemma gcd_loop_spec k fuel a b :
  0 <= a -> 0 <= b < 2 ^ Z.of_nat k -> (2 * k < fuel)%nat -> gcd_loop fuel a b = Done (Z.gcd a b).
Proof.
  revert fuel a b. induction k as [|k IH]; intros fuel a b Ha Hb Hf; destruct fuel as [|fuel]; try lia; simpl.
  - rewrite decide_True by (simpl in Hb; lia). assert (b = 0) as -> by (simpl in Hb; lia).
    by rewrite Z.gcd_0_r, Z.abs_eq.
  - case_decide as Hz; [subst; by rewrite Z.gcd_0_r, Z.abs_eq|].
    destruct fuel as [|fuel]; [lia|]. simpl.
    pose proof (Z.mod_pos_bound a b ltac:(lia)) as Hm.
    rewrite (Z.gcd_comm a b), <- (Z.gcd_mod a b), (Z.gcd_comm _ b) by done. case_decide as Hz2.
    { rewrite Hz2, Z.gcd_0_r, Z.abs_eq by lia. done. }
    rewrite IH.
    + by rewrite (Z.gcd_comm _ (b mod _)), Z.gcd_mod, Z.gcd_comm by done.
    + lia.
    + pose proof (Z.mod_pos_bound b (a mod b) ltac:(lia)). split; [lia|].
      pose proof (Z.div_mod b (a mod b) Hz2). rewrite Nat2Z.inj_succ, Z.pow_succ_r in Hb by lia.
      assert (1 <= b / (a mod b)) by (apply Z.div_le_lower_bound; lia). nia.
    + lia.
Qed.

(** The loop ends on all 64-bit operands, with the greatest common
    divisor. *)
Lemma greatest_common_divisor_spec a b :
  0 <= a -> 0 <= b < 2 ^ 64 -> _greatest_common_divisor a b = Done (Z.gcd a b).
Proof. intros Ha Hb. apply (gcd_loop_spec 64); [done|done|lia]. Qed.

(** ** What the scheduler promises *)

(** The tasks of a bag of pointers, in order, each with its address. *)
Record tasks_rep (b : bag ptr) (pts : list (ptr * HT_Task)) w : Prop := {
  tr_bag : bag_rep 8 b pts.*1 (blocks (wheap w));
  tr_room : bag_room b;
  tr_mem : Forall (fun pt => pt.1 <> NULL /\ is_Some (blocks (wheap w) !! pt.1) /\
                             wtasks w !! pt.1 = Some pt.2) pts;
  tr_nodup : NoDup (data b :: pts.*1)
}.

Definition tasks_ptrs (b : bag ptr) (pts : list (ptr * HT_Task)) : list ptr := data b :: pts.*1.

#[local] Instance tasks_ptrs_proper b : Proper ((≡ₚ) ==> (≡ₚ)) (tasks_ptrs b).
Proof. intros pts pts' Hp. unfold tasks_ptrs. by rewrite Hp. Qed.

Lemma tasks_rep_env b pts w e : tasks_rep b pts w -> tasks_rep b pts (World (wheap w) (wtasks w) e).
Proof. by intros []. Qed.

Lemma tasks_size b pts w : tasks_rep b pts w ->
  size b = Z.of_nat (length pts) /\ 0 <= size b < 2 ^ 60.
Proof.
  intros [R _ _ _]. pose proof (rep_size R) as Hs. pose proof (rep_cap R). pose proof (rep_max R).
  rewrite length_fmap in Hs. lia.
Qed.

Lemma tasks_nth b dn p t r w :
  tasks_rep b (dn ++ (p, t) :: r) w -> ht_bag_nth b (Z.of_nat (length dn)) = Some p.
Proof.
  intros TR. destruct (tasks_size _ _ _ TR) as [Hs _]. destruct TR as [R _ _ _].
  rewrite length_app in Hs. simpl in Hs. rewrite (rep_nth 8 _ _ _ _ R) by lia.
  rewrite Nat2Z.id, fmap_app, lookup_app_r; rewrite length_fmap; [|done]. by rewrite Nat.sub_diag.
Qed.

Lemma load_task_spec b dn p t r w Q :
  tasks_rep b (dn ++ (p, t) :: r) w -> Q t w -> wp (load_task p) Q w.
Proof.
  intros [_ _ HF _] HQ. apply Forall_app in HF as [_ HF]. apply Forall_cons in HF as [(_&_&Hl) _].
  unfold load_task. wp_steps. by eapply wp_some.
Qed.

Lemma store_task_spec b dn p t t' r w Q :
  tasks_rep b (dn ++ (p, t) :: r) w ->
  (forall w', tasks_rep b (dn ++ (p, t') :: r) w' -> wheap w' = wheap w -> wenv w' = wenv w -> Q tt w') ->
  wp (store_task p t') Q w.
Proof.
  intros [R Hroom HF Hnd] HQ. pose proof HF as HF0. apply Forall_app in HF as [Hd HF].
  apply Forall_cons in HF as [(Hp&Hl&Hm) Hr]. simpl in *.
  unfold store_task. wp_steps. rewrite bool_decide_true by done. simpl. wp_steps.
  assert (Eps : (dn ++ (p, t') :: r).*1 = (dn ++ (p, t) :: r).*1) by (by rewrite !fmap_app).
  apply HQ; [|done|done]. split; rewrite ?Eps; try done. simpl.
  rewrite fmap_app in Hnd. simpl in Hnd. apply NoDup_cons in Hnd as [_ Hnd].
  apply NoDup_app in Hnd as (_&Hdr&Hnd). apply NoDup_cons in Hnd as [Hpr _].
  apply Forall_app. split; [|constructor; [by rewrite lookup_insert_eq|]].
  - rewrite Forall_forall in *. intros pt Hin. destruct (Hd pt Hin) as (?&?&?). rewrite lookup_insert_ne; [done|].
    intros ->. apply (Hdr pt.1); [by apply list_elem_of_fmap_2|]. left.
  - rewrite Forall_forall in *. intros pt Hin. destruct (Hr pt Hin) as (?&?&?). rewrite lookup_insert_ne; [done|].
    intros ->. apply Hpr. by apply list_elem_of_fmap_2.
Qed.

(** The task at [p] is allocated but no longer in the bag. *)
Record detached (b : bag ptr) (pts : list (ptr * HT_Task)) (p : ptr) w : Prop := {
  dt_rep : tasks_rep b pts w;
  dt_nonnull : p <> NULL;
  dt_live : is_Some (blocks (wheap w) !! p);
  dt_fresh : p ∉ tasks_ptrs b pts
}.

Lemma tasks_live b pts w : tasks_rep b pts w ->
  Forall (fun p => p <> NULL /\ is_Some (blocks (wheap w) !! p)) (tasks_ptrs b pts).
Proof.
  intros [R _ HF _]. destruct (rep_live R) as (n&Hl&_). constructor; [split; [apply (rep_data R)|eauto]|].
  apply Forall_fmap. eapply Forall_impl; [done|]. intros pt (?&?&?). by split.
Qed.

(** The bag's block may move; the tasks stay. *)
Lemma tasks_mem_replaced b (b' : bag ptr) pts w h :
  tasks_rep b pts w -> replaced (data b) (data b') (blocks (wheap w)) (blocks h) ->
  Forall (fun pt => pt.1 <> NULL /\ is_Some (blocks h !! pt.1) /\ wtasks w !! pt.1 = Some pt.2) pts /\
  (data b' ∉ pts.*1).
Proof.
  intros [R Hroom HF Hnd] Hrep. apply NoDup_cons in Hnd as [Hd Hnd]. rewrite Forall_forall in HF.
  assert (Hkeep : forall pt, pt ∈ pts -> pt.1 <> data b' /\ is_Some (blocks h !! pt.1)).
  { intros pt Hin. destruct (HF pt Hin) as (_&Hl&_).
    destruct (replaced_other _ _ _ _ pt.1 Hrep) as [Hne ->]; [|done|done].
    intros Eq. apply Hd. rewrite <- Eq. by apply list_elem_of_fmap_2. }
  split.
  - apply Forall_forall. intros pt Hin. destruct (HF pt Hin) as (?&?&?). by destruct (Hkeep pt Hin).
  - intros (pt&Eq&Hin)%list_elem_of_fmap. by destruct (Hkeep pt Hin).
Qed.

Lemma tasks_rep_replaced b b' pts pts' w h :
  tasks_rep b pts w -> pts' ⊆ pts -> NoDup pts'.*1 -> bag_rep 8 b' pts'.*1 (blocks h) -> bag_room b' ->
  replaced (data b) (data b') (blocks (wheap w)) (blocks h) ->
  tasks_rep b' pts' (World h (wtasks w) (wenv w)).
Proof.
  intros TR Hsub Hnd' R' Hroom' Hrep. destruct (tasks_mem_replaced _ _ _ _ _ TR Hrep) as [HF Hd].
  split; try done; simpl.
  - rewrite Forall_forall in *. auto.
  - apply NoDup_cons. split; [|done]. intros (pt&Eq&Hin)%list_elem_of_fmap. apply Hd. rewrite Eq.
    apply list_elem_of_fmap_2. auto.
Qed.

Lemma frame_ptrs b b' pts w h :
  tasks_rep b pts w -> replaced (data b) (data b') (blocks (wheap w)) (blocks h) ->
  frame (tasks_ptrs b pts) (tasks_ptrs b' pts) (blocks (wheap w)) (blocks h).
Proof.
  intros TR Hrep. pose proof (tasks_live _ _ _ TR) as HL. destruct TR as [_ _ _ Hnd].
  apply NoDup_cons in Hnd as [Hd _]. apply Forall_cons in HL as [_ HL]. rewrite Forall_forall in HL.
  apply (frame_app [] pts.*1 [data b] [data b']); [by apply replaced_frame|].
  intros r Hr. rewrite list_elem_of_singleton. destruct (HL r Hr). split; [by intros ->|done].
Qed.

(** Taking the entry of a task out of the bag. *)
Lemma tasks_detach b dn p t r w :
  tasks_rep b (dn ++ (p, t) :: r) w ->
  wp (zoom (ht_bag_remove_nth 8 b (Z.of_nat (length dn)))) (fun b' w' => exists r',
    r' ≡ₚ r /\ detached b' (dn ++ r') p w' /\ wenv w' = wenv w /\
    frame (tasks_ptrs b (dn ++ (p, t) :: r)) (p :: tasks_ptrs b' (dn ++ r')) (blocks (wheap w)) (blocks (wheap w'))) w.
Proof.
  intros TR. destruct (tasks_size _ _ _ TR) as [Hs _]. pose proof TR as [R Hroom HF Hnd].
  pose proof (rep_cap R). unfold bag_room in Hroom. rewrite length_app in Hs. simpl in Hs.
  apply wp_zoom. eapply wp_mono; [apply (bag_remove_spec 8 _ _ _ _ ltac:(lia) R); unfold bag_room; lia|].
  intros b' h' (Hroom'&(R'&_&Hrep&_)&_).
  destruct (swap_remove_split dn (p, t) r) as (r'&Hr'&Esw).
  rewrite Nat2Z.id, <- swap_remove_fmap, Esw in R'.
  exists r'. assert (Hperm : p :: (dn ++ r').*1 ≡ₚ (dn ++ (p, t) :: r).*1)
    by (rewrite !fmap_app, Hr'; apply Permutation_middle).
  pose proof (frame_ptrs b b' _ w h' TR Hrep) as Hfr.
  pose proof (tasks_live _ _ _ TR) as HL. apply Forall_cons in HL as [_ HL].
  rewrite <- Hperm in HL. apply Forall_cons in HL as [[Hp Hl] _].
  apply NoDup_cons in Hnd as [Hdp Hnd]. rewrite <- Hperm in Hdp, Hnd. apply NoDup_cons in Hnd as [Hpr Hnd].
  apply not_elem_of_cons in Hdp as [Hdp _].
  destruct (replaced_other _ _ _ _ p Hrep (not_eq_sym Hdp) Hl) as [Hpd' El].
  split_and!; [done| |done|].
  - split; simpl; [|done|by rewrite El|by apply not_elem_of_cons].
    apply (tasks_rep_replaced b b' (dn ++ (p, t) :: r)); try done.
    intros x. rewrite !elem_of_app, elem_of_cons, Hr'. tauto.
  - eapply frame_perm; [done| |exact Hfr]. unfold tasks_ptrs. rewrite <- Hperm. apply Permutation_swap.
Qed.

(** Freeing it. *)
Lemma detached_free b pts p w :
  detached b pts p w ->
  wp (free_task p) (fun _ w' => tasks_rep b pts w' /\ wenv w' = wenv w /\
    blocks (wheap w') = delete p (blocks (wheap w))) w.
Proof.
  intros [[R Hroom HF Hnd] Hp [n Hl] Hfr]. apply not_elem_of_cons in Hfr as [Hpd Hpp].
  unfold free_task. apply wp_bind, wp_zoom. apply (ht_free_spec p n); [done|done|].
  intros h' (Eh&_&_). apply wp_modify. simpl. split_and!; try done. split; try done; simpl.
  - eapply rep_live_mono; [|done]. by rewrite Eh, lookup_delete_ne.
  - rewrite Forall_forall in *. intros pt Hin. destruct (HF pt Hin) as (?&?&?).
    assert (p <> pt.1) by (intros ->; apply Hpp; by apply list_elem_of_fmap_2).
    rewrite Eh, !lookup_delete_ne by done. done.
Qed.

(** ** A tick *)

(** What a tick means for one task: nothing before its time; else its
    callback runs and says whether it stays, with its next time by its mode. *)
Definition examine (t : HT_Task) (e : E) : option HT_Task * E :=
  let '(now, e) := clock e in
  if decide (next_action_ts t > now) then (Some t, e)
  else
    let '(again, e) := run_callback (callback t) (user_data t) e in
    if again : bool then
      match mode t with
      | HT_TASK_SCHEDULING_IGNORE_DELAYS => (Some (set_next (u64 (next_action_ts t + period t)) t), e)
      | HT_TASK_SCHEDULING_RESTART_TIMER =>
          let '(now, e) := clock e in (Some (set_next (u64 (now + period t)) t), e)
      end
    else (None, e).

Fixpoint examine_all (ts : list HT_Task) (e : E) : list HT_Task * E :=
  match ts with
  | [] => ([], e)
  | t :: ts =>
      let '(r, e) := examine t e in
      let '(rs, e) := examine_all ts e in
      (match r with Some t => t :: rs | None => rs end, e)
  end.

Lemma wp_clock w now e Q :
  clock (wenv w) = (now, e) -> Q now (World (wheap w) (wtasks w) e) ->
  wp ht_monotonic_clock_get_timestamp Q w.
Proof. unfold wp, ht_monotonic_clock_get_timestamp. by intros ->. Qed.

Lemma wp_callback cb d w again e Q :
  run_callback cb d (wenv w) = (again, e) -> Q again (World (wheap w) (wtasks w) e) ->
  wp (call_callback cb d) Q w.
Proof. unfold wp, call_callback. by intros ->. Qed.

Lemma tick_step_spec b dn p t r w k Q :
  tasks_rep b (dn ++ (p, t) :: r) w ->
  (forall b' w' x r', r' ≡ₚ r ->
     examine t (wenv w) = (x, wenv w') ->
     tasks_rep b' (dn ++ match x with Some t' => [(p, t')] | None => [] end ++ r') w' ->
     frame (tasks_ptrs b (dn ++ (p, t) :: r))
           (tasks_ptrs b' (dn ++ match x with Some t' => [(p, t')] | None => [] end ++ r'))
           (blocks (wheap w)) (blocks (wheap w')) ->
     wp (k b' (match x with Some _ => u64 (Z.of_nat (length dn) + 1) | None => Z.of_nat (length dn) end)) Q w') ->
  wp (tick_step b (Z.of_nat (length dn)) p k) Q w.
Proof.
  intros TR Hk. destruct (tasks_size _ _ _ TR) as [Hs Hs']. rewrite length_app in Hs. simpl in Hs.
  unfold tick_step, examine in *. destruct (clock (wenv w)) as [now e1] eqn:E1.
  apply wp_bind. apply (wp_clock w now e1); [done|].
  pose proof (tasks_rep_env _ _ _ e1 TR) as TR1. set (w1 := World _ _ e1) in *.
  apply wp_bind. eapply load_task_spec; [exact TR1|]. cbn beta. case_decide as Hd.
  { apply (Hk b w1 (Some t) r); done. }
  destruct (run_callback (callback t) (user_data t) e1) as [again e2] eqn:E2.
  apply wp_bind. apply (wp_callback _ _ w1 again e2); [done|].
  pose proof (tasks_rep_env _ _ _ e2 TR1) as TR2. set (w2 := World _ _ e2) in *.
  destruct again.
  - apply wp_bind. eapply load_task_spec; [exact TR2|]. cbn beta.
    assert (Hst : forall next e3, (match mode t with
        | HT_TASK_SCHEDULING_IGNORE_DELAYS => (Some (set_next (u64 (next_action_ts t + period t)) t), e2)
        | HT_TASK_SCHEDULING_RESTART_TIMER =>
            let '(now, e) := clock e2 in (Some (set_next (u64 (now + period t)) t), e)
        end) = (Some (set_next next t), e3) ->
      wp (store_task p (set_next next t);; k b (u64 (Z.of_nat (length dn) + 1))) Q (World (wheap w) (wtasks w) e3)).
    { intros next e3 Ex. apply wp_bind. eapply store_task_spec; [apply (tasks_rep_env _ _ _ e3 TR)|].
      intros w3 TR3 Eh Ee. simpl in *. apply (Hk b w3 (Some (set_next next t)) r); simpl; [done|congruence|done|].
      rewrite Eh. unfold tasks_ptrs. rewrite !fmap_app. apply frame_refl. }
    destruct (mode t) eqn:Em.
    + rewrite decide_True by done. rewrite ret_bind. by apply Hst.
    + rewrite decide_False by done. destruct (clock e2) as [now2 e3] eqn:E3.
      apply wp_bind, wp_bind. apply (wp_clock w2 now2 e3); [done|]. apply wp_ret. by apply Hst.
  - eapply wp_call; [exact (tasks_detach _ _ _ _ _ _ TR2)|]. intros b3 w3 (r'&Hr'&Hdt&Ee&Hfr).
    eapply wp_call; [exact (detached_free _ _ _ _ Hdt)|]. intros _ w4 (TR4&Ee4&Eh4).
    rewrite u64_pred_succ by lia. apply (Hk b3 w4 None r'); simpl; [done|by rewrite Ee4, Ee|done|].
    rewrite Eh4. eapply frame_trans; [exact Hfr|]. apply frame_delete.
Qed.

Lemma tick_loop_spec fuel b dn r w :
  tasks_rep b (dn ++ r) w -> (length r < fuel)%nat ->
  wp (tick_loop fuel b (Z.of_nat (length dn))) (fun b' w' => exists ord pts',
    ord ≡ₚ r.*2 /\ tasks_rep b' pts' w' /\
    pts'.*2 ≡ₚ dn.*2 ++ (examine_all ord (wenv w)).1 /\ wenv w' = (examine_all ord (wenv w)).2 /\
    frame (tasks_ptrs b (dn ++ r)) (tasks_ptrs b' pts') (blocks (wheap w)) (blocks (wheap w'))) w.
Proof.
  revert b dn r w. induction fuel as [|fuel IH]; intros b dn r w TR Hf; [lia|].
  cbn [tick_loop]. destruct (tasks_size _ _ _ TR) as [Hs Hs']. rewrite length_app in Hs.
  destruct r as [|[p t] r]; simpl in Hs, Hf.
  { rewrite decide_False by lia. apply wp_ret. exists [], (dn ++ []). simpl. rewrite !app_nil_r in *.
    by split_and!. }
  rewrite decide_True by lia. rewrite (tasks_nth _ _ _ _ _ _ TR), some_bind.
  apply (tick_step_spec b dn p t r w (fun b i => tick_loop fuel b i)); [done|].
  intros b' w' x r' Hr' Ex TR' Hfr.
  assert (Hi : (match x with Some _ => u64 (Z.of_nat (length dn) + 1) | None => Z.of_nat (length dn) end) =
    Z.of_nat (length (dn ++ match x with Some t' => [(p, t')] | None => [] end))).
  { destruct x; rewrite length_app; simpl; [rewrite u64_small; lia|lia]. }
  rewrite Hi. rewrite app_assoc in TR', Hfr.
  eapply wp_mono; [apply (IH b' _ r' w' TR'); apply Permutation_length in Hr'; lia|].
  intros b2 w2 (ord&pts'&Hord&TR2&Hpts&Ee&Hfr2).
  exists (t :: ord), pts'. cbn [examine_all]. rewrite Ex.
  destruct (examine_all ord (wenv w')) as [rs e'] eqn:Eall. simpl in *. split_and!.
  - simpl. by rewrite Hord, Hr'.
  - done.
  - rewrite Hpts, fmap_app, <- app_assoc. by destruct x.
  - done.
  - by eapply frame_trans.
Qed.

(** ** Adding a task *)

Lemma tasks_rep_alloc b pts w p n h :
  tasks_rep b pts w -> p <> NULL -> blocks (wheap w) !! p = None ->
  blocks h = <[p := n]> (blocks (wheap w)) ->
  detached b pts p (World h (wtasks w) (wenv w)).
Proof.
  intros TR Hp Hfree Eh. pose proof (tasks_live _ _ _ TR) as HL.
  assert (Hfr : p ∉ tasks_ptrs b pts).
  { intros Hin. rewrite Forall_forall in HL. destruct (HL p Hin) as [_ [m Hm]]. congruence. }
  destruct TR as [R Hroom HF Hnd]. apply not_elem_of_cons in Hfr as [Hpd Hpp].
  split; simpl; [|done|rewrite Eh, lookup_insert_eq; eauto|by apply not_elem_of_cons].
  split; try done; simpl.
  - eapply rep_live_mono; [|done]. by rewrite Eh, lookup_insert_ne.
  - rewrite Forall_forall in *. intros pt Hin. destruct (HF pt Hin) as (?&?&?).
    assert (p <> pt.1) by (intros ->; apply Hpp; by apply list_elem_of_fmap_2).
    rewrite Eh, lookup_insert_ne by done. done.
Qed.

Lemma detached_store b pts p t w Q :
  detached b pts p w ->
  (forall w', detached b pts p w' -> wtasks w' !! p = Some t -> wheap w' = wheap w -> wenv w' = wenv w -> Q tt w') ->
  wp (store_task p t) Q w.
Proof.
  intros [[R Hroom HF Hnd] Hp Hl Hfr] HQ. apply not_elem_of_cons in Hfr as [Hpd Hpp].
  unfold store_task. wp_steps. rewrite bool_decide_true by done. simpl. wp_steps.
  apply HQ; try done; simpl; [|by rewrite lookup_insert_eq].
  split; simpl; try done; [|by apply not_elem_of_cons]. split; try done. simpl.
  rewrite Forall_forall in *. intros pt Hin. destruct (HF pt Hin) as (?&?&?).
  rewrite lookup_insert_ne; [done|]. intros ->. apply Hpp. by apply list_elem_of_fmap_2.
Qed.

Lemma tasks_attach b pts p t w :
  detached b pts p w -> wtasks w !! p = Some t ->
  wp (zoom (ht_bag_add 8 b p)) (fun '(err, b') w' => wenv w' = wenv w /\
    match err with
    | HT_ERR_OK => tasks_rep b' (pts ++ [(p, t)]) w' /\
        frame (p :: tasks_ptrs b pts) (tasks_ptrs b' (pts ++ [(p, t)])) (blocks (wheap w)) (blocks (wheap w'))
    | _ => b' = b /\ detached b pts p w' /\ blocks (wheap w') = blocks (wheap w)
    end) w.
Proof.
  intros [TR Hp Hl Hfr] Ht. pose proof Hfr as [Hpd Hpp]%not_elem_of_cons. pose proof TR as [R Hroom HF Hnd].
  apply wp_zoom. eapply wp_mono; [by apply (bag_add_spec 8 b pts.*1 p); [lia| |]|].
  intros [err b'] h' [Hroom' Herr]. split; [done|].
  destruct (decide (err = HT_ERR_OK)) as [->|Hne].
  - destruct Herr as [(R'&_&Hrep&_) _].
    assert (Eps : (pts ++ [(p, t)]).*1 = pts.*1 ++ [p]) by (by rewrite fmap_app).
    pose proof (frame_ptrs b b' pts w h' TR Hrep) as Hf.
    destruct (frame_cons p _ _ _ _ Hf Hfr Hl) as (Hf'&Hp'&Ep).
    destruct (replaced_other _ _ _ _ p Hrep Hpd Hl) as [Hpd' _].
    destruct (tasks_mem_replaced _ _ _ _ _ TR Hrep) as [HF' Hd']. split.
    + split; simpl; rewrite ?Eps; try done.
      * apply Forall_app. split; [done|]. repeat constructor; simpl; try done. by rewrite Ep.
      * apply NoDup_cons in Hnd as [_ Hnd]. apply NoDup_cons. split.
        { rewrite elem_of_app, list_elem_of_singleton. intros [Hin|Eq]; [done|congruence]. }
        apply NoDup_app. split_and!; [done| |apply NoDup_singleton].
        intros x Hx ->%list_elem_of_singleton. done.
    + eapply frame_perm; [done| |exact Hf']. unfold tasks_ptrs. rewrite Eps.
      rewrite <- Permutation_cons_append. apply Permutation_swap.
  - assert (b' = b /\ blocks h' = blocks (wheap w)) as [-> Eh] by (destruct err; try done; by destruct Herr as (?&?&?&?&?)).
    assert (TR' : tasks_rep b pts (World h' (wtasks w) (wenv w))) by (split; simpl; rewrite ?Eh; done).
    assert (detached b pts p (World h' (wtasks w) (wenv w))) by (split; simpl; rewrite ?Eh; done).
    by destruct err.
Qed.

(** ** The scheduler *)

Record sched_rep sch (pts : list (ptr * HT_Task)) w : Prop := {
  sc_tasks : tasks_rep (tasks sch) pts w;
  sc_nonnull : self sch <> NULL;
  sc_live : is_Some (blocks (wheap w) !! self sch);
  sc_self : self sch ∉ tasks_ptrs (tasks sch) pts;
  sc_ids : NoDup (task_id <$> pts.*2);
  sc_bound : Forall (fun t => 0 <= task_id t < next_task_id sch) pts.*2;
  sc_next : 0 <= next_task_id sch <= HT_INT32_MAX
}.

Definition sched_ptrs sch (pts : list (ptr * HT_Task)) : list ptr := self sch :: tasks_ptrs (tasks sch) pts.

(** What an operation on the tasks does to the scheduler; [leak] are
    blocks it lost. *)
Lemma sched_step sch pts w b' pts' w' next leak :
  sched_rep sch pts w -> tasks_rep b' pts' w' ->
  frame (tasks_ptrs (tasks sch) pts) (leak ++ tasks_ptrs b' pts') (blocks (wheap w)) (blocks (wheap w')) ->
  NoDup (task_id <$> pts'.*2) -> Forall (fun t => 0 <= task_id t < next) pts'.*2 -> 0 <= next <= HT_INT32_MAX ->
  sched_rep (TaskScheduler (self sch) b' next) pts' w' /\
  frame (sched_ptrs sch pts) (leak ++ sched_ptrs (TaskScheduler (self sch) b' next) pts')
    (blocks (wheap w)) (blocks (wheap w')).
Proof.
  intros [TR Hn Hl Hs _ _ _] TR' Hfr Hid Hb Hnext.
  destruct (frame_cons _ _ _ _ _ Hfr Hs Hl) as (Hfr'&Hs'&El).
  apply not_elem_of_app in Hs' as [_ Hs']. split.
  - split; simpl; try done. by rewrite El.
  - eapply frame_perm; [done| |exact Hfr']. unfold sched_ptrs. simpl. apply Permutation_middle.
Qed.

Lemma create_spec w :
  wp ht_task_scheduler_create (fun '(err, o) w' => wenv w' = wenv w /\
    match o with
    | None => err = HT_ERR_OUT_OF_MEMORY /\ blocks (wheap w') = blocks (wheap w)
    | Some sch => err = HT_ERR_OK /\ sched_rep sch [] w' /\ next_task_id sch = 0 /\
        frame [] (sched_ptrs sch []) (blocks (wheap w)) (blocks (wheap w'))
    end) w.
Proof.
  unfold ht_task_scheduler_create. apply wp_bind, wp_zoom, ht_alloc_spec.
  { intros h1 (E1&_&_). rewrite decide_True by done. by wp_steps. }
  intros p h1 Hp _ Hfree (E1&_&_). rewrite decide_False by done.
  apply wp_bind, wp_zoom. eapply wp_mono; [apply (bag_init_spec 8 DEFAULT_INIT_TASK_COUNT_); unfold DEFAULT_INIT_TASK_COUNT_; lia|].
  simpl. rewrite E1. intros [e|b] h2; cbn beta iota.
  - intros (->&E2&_). apply wp_bind, wp_zoom. eapply (ht_free_spec p); [done|simpl; by rewrite E2, lookup_insert_eq|].
    intros h3 (E3&_&_). wp_steps. simpl in *. by rewrite E3, E2, delete_insert_id.
  - intros (R&Hroom&_&_&_&Hfr2&E2&_&_). wp_steps. simpl.
    assert (data b <> p) by (intros Eq; rewrite Eq, lookup_insert_eq in Hfr2; done).
    split_and!; try done.
    + split; simpl; try done; try lia.
      * by split; [|done|constructor|apply NoDup_singleton].
      * rewrite E2, lookup_insert_ne, lookup_insert_eq by done. eauto.
      * unfold tasks_ptrs. simpl. rewrite list_elem_of_singleton. by apply not_eq_sym.
      * constructor.
    + rewrite E2. unfold sched_ptrs, tasks_ptrs. simpl.
      apply (frame_trans _ [p] _ _ (<[p:=sizeof_HT_TaskScheduler]> (blocks (wheap w)))).
      * by apply frame_insert.
      * eapply frame_perm; [done|apply Permutation_swap|]. by apply frame_insert.
Qed.

(** Scheduling appends a task with a fresh identifier, or changes nothing
    of the tasks.  When only the growth of the bag fails, the task object is
    lost. *)
Lemma schedule_task_spec sch pts m per cb ud w :
  sched_rep sch pts w ->
  wp (ht_task_scheduler_schedule_task sch m per cb ud) (fun '(id, sch') w' => exists pts' leak,
    sched_rep sch' pts' w' /\ next_task_id sch <= next_task_id sch' /\
    frame (sched_ptrs sch pts) (leak ++ sched_ptrs sch' pts') (blocks (wheap w)) (blocks (wheap w')) /\
    Forall (fun p => is_Some (blocks (wheap w') !! p) /\ p ∉ sched_ptrs sch' pts') leak /\
    if decide (id = HT_TASK_SCHEDULER_INVALID_TASK_ID) then pts' = pts /\ (length leak <= 1)%nat
    else id = next_task_id sch /\ leak = [] /\ exists p now,
      pts' = pts ++ [(p, Task cb ud per (u64 (now + per)) id m)] /\ now = (clock (wenv w)).1) w.
Proof.
  intros SR. pose proof SR as [TR Hn Hl Hs Hid Hb Hnext]. unfold ht_task_scheduler_schedule_task.
  case_decide as Hg; [wp_steps; exists pts, []; split_and!; [done|lia|apply frame_refl|constructor|rewrite decide_True by done; split; [done|simpl; lia]]|].
  apply wp_bind, wp_zoom, ht_alloc_spec.
  { intros h1 (E1&_&_). rewrite decide_True by done. wp_steps. exists pts, [].
    assert (TR1 : tasks_rep (tasks sch) pts (World h1 (wtasks w) (wenv w))) by (destruct TR; split; simpl; rewrite ?E1; done).
    split_and!; [split; simpl; rewrite ?E1; done|lia|simpl; rewrite E1; apply frame_refl|constructor|rewrite decide_True by done; split; [done|simpl; lia]]. }
  intros p h1 Hp _ Hfree (E1&_&_). rewrite decide_False by done.
  pose proof (tasks_rep_alloc _ _ _ _ _ h1 TR Hp Hfree E1) as D1. simpl in D1.
  destruct (clock (wenv w)) as [now e1] eqn:Ec.
  apply wp_bind, (wp_clock _ now e1); [done|]. simpl.
  assert (D2 : detached (tasks sch) pts p (World h1 (wtasks w) e1)).
  { destruct D1 as [TR1 ???]. split; try done. by apply (tasks_rep_env _ _ _ e1) in TR1. }
  set (t := Task _ _ _ _ _ _). apply wp_bind. eapply detached_store; [exact D2|].
  intros w3 D3 Ht Eh3 Ee3. eapply wp_call; [by apply (tasks_attach _ pts p t)|].
  intros [err b'] w4 [Ee4 Herr]. simpl in *.
  assert (Hins : frame (tasks_ptrs (tasks sch) pts) (p :: tasks_ptrs (tasks sch) pts) (blocks (wheap w)) (blocks (wheap w3))).
  { rewrite Eh3, E1. by apply frame_insert. }
  assert (Hlt : 0 <= next_task_id sch + 1 <= HT_INT32_MAX) by (unfold HT_INT32_MAX in *; lia).
  assert (Hb' : Forall (fun t => 0 <= task_id t < next_task_id sch + 1) pts.*2)
    by (eapply Forall_impl; [exact Hb|]; simpl; lia).
  case_decide as Hok; wp_steps.
  - subst err. destruct Herr as [TR4 Hfr4]. exists (pts ++ [(p, t)]), [].
    destruct (sched_step sch pts w b' (pts ++ [(p, t)]) w4 (next_task_id sch + 1) []) as [SR4 Hf4]; try done.
    { by eapply frame_trans. }
    { rewrite !fmap_app. simpl. apply NoDup_app. split_and!; [done| |apply NoDup_singleton].
      intros i Hi ->%list_elem_of_singleton. apply list_elem_of_fmap in Hi as (x&Ei&Hx).
      rewrite Forall_forall in Hb. specialize (Hb x Hx). lia. }
    { rewrite fmap_app. apply Forall_app. split; [done|]. repeat constructor; simpl; lia. }
    split_and!; [done|simpl; lia|done|constructor|]. rewrite decide_False by (unfold HT_TASK_SCHEDULER_INVALID_TASK_ID; lia).
    split_and!; [done|done|]. by exists p, now.
  - assert (b' = tasks sch /\ detached (tasks sch) pts p w4 /\ blocks (wheap w4) = blocks (wheap w3)) as (->&D4&E4)
      by (by destruct err).
    exists pts, [p]. destruct (sched_step sch pts w (tasks sch) pts w4 (next_task_id sch + 1) [p]) as [SR4 Hf4];
      try done; [apply D4|by rewrite E4|].
    assert (Hps : p <> self sch) by (intros ->; rewrite Hfree in Hl; by destruct Hl).
    split_and!; [done|simpl; lia|done| |rewrite decide_True by done; split; [done|simpl; lia]].
    constructor; [|constructor]. split; [apply D4|]. apply not_elem_of_cons. split; [done|apply D4].
Qed.

Lemma period_loop_spec fuel b dn r w pp :
  tasks_rep b (dn ++ r) w -> (length r < fuel)%nat -> 0 <= pp < 2 ^ 64 ->
  Forall (fun t => 0 <= period t < 2 ^ 64) r.*2 ->
  wp (period_loop fuel b (Z.of_nat (length dn)) pp) (fun g w' =>
    g = foldl Z.gcd pp (period <$> r.*2) /\ w' = w) w.
Proof.
  revert dn r pp. induction fuel as [|fuel IH]; intros dn r pp TR Hf Hpp HF; [lia|].
  cbn [period_loop]. destruct (tasks_size _ _ _ TR) as [Hs Hs']. rewrite length_app in Hs.
  destruct r as [|[p t] r]; simpl in Hs, Hf, HF; [rewrite decide_False by lia; by wp_steps|].
  rewrite decide_True by lia. rewrite (tasks_nth _ _ _ _ _ _ TR), some_bind.
  apply Forall_cons in HF as [Ht HF]. apply wp_bind. eapply load_task_spec; [exact TR|].
  rewrite u64_small by lia.
  replace (Z.of_nat (length dn) + 1) with (Z.of_nat (length (dn ++ [(p, t)]))) by (rewrite length_app; simpl; lia).
  assert (TR' : tasks_rep b ((dn ++ [(p, t)]) ++ r) w) by (by rewrite <- app_assoc).
  simpl. case_decide as Hz; [rewrite Hz, Z.gcd_0_r, Z.abs_eq by lia; apply IH; try done; lia|].
  case_decide as Hz2; [subst pp; rewrite Z.gcd_0_l, Z.abs_eq by lia; apply IH; try done; lia|].
  rewrite greatest_common_divisor_spec by lia. apply IH; try done; try lia.
  pose proof (Z.gcd_nonneg pp (period t)).
  pose proof (Z.divide_pos_le (Z.gcd pp (period t)) (period t) ltac:(lia) (Z.gcd_divide_r pp (period t))). lia.
Qed.

(** ** Removing a task *)

(** Once its entry is gone, the loop finds no other. *)
Lemma entry_absent fuel b dn r p w :
  detached b (dn ++ r) p w -> (length r < fuel)%nat ->
  wp (remove_entry_loop fuel b p (Z.of_nat (length dn))) (fun b' w' => b' = b /\ w' = w) w.
Proof.
  revert dn r. induction fuel as [|fuel IH]; intros dn r D Hf; [lia|]. pose proof D as [TR _ _ Hfr].
  destruct (tasks_size _ _ _ TR) as [Hs Hs']. rewrite length_app in Hs.
  cbn [remove_entry_loop]. destruct r as [|[q t] r]; simpl in Hs, Hf; [rewrite decide_False by lia; by wp_steps|].
  rewrite decide_True by lia. rewrite (tasks_nth _ _ _ _ _ _ TR), some_bind.
  rewrite decide_False, ret_bind.
  2: { intros ->. apply Hfr. right. rewrite fmap_app. apply elem_of_app. right. left. }
  rewrite u64_small by lia.
  replace (Z.of_nat (length dn) + 1) with (Z.of_nat (length (dn ++ [(q, t)]))) by (rewrite length_app; simpl; lia).
  apply (IH _ r); [by rewrite <- app_assoc|lia].
Qed.

Lemma entry_present fuel b dn r1 p t r2 w :
  tasks_rep b (dn ++ r1 ++ (p, t) :: r2) w -> (length r1 + S (length r2) < fuel)%nat ->
  wp (remove_entry_loop fuel b p (Z.of_nat (length dn))) (fun b' w' => exists pts',
    pts' ≡ₚ dn ++ r1 ++ r2 /\ detached b' pts' p w' /\ wenv w' = wenv w /\
    frame (tasks_ptrs b (dn ++ r1 ++ (p, t) :: r2)) (p :: tasks_ptrs b' pts') (blocks (wheap w)) (blocks (wheap w'))) w.
Proof.
  revert dn r1. induction fuel as [|fuel IH]; intros dn r1 TR Hf; [lia|].
  destruct (tasks_size _ _ _ TR) as [Hs Hs']. rewrite !length_app in Hs. simpl in Hs.
  cbn [remove_entry_loop]. rewrite decide_True by lia. destruct r1 as [|[q u] r1]; simpl in *.
  - rewrite (tasks_nth _ _ _ _ _ _ TR), some_bind, decide_True by done.
    eapply wp_call; [exact (tasks_detach _ _ _ _ _ _ TR)|]. intros b' w' (r'&Hr'&D&Ee&Hfr).
    rewrite u64_small by lia. pose proof D as [TR' _ _ _]. destruct (tasks_size _ _ _ TR') as [Hs2 _].
    assert (Hlr : length r' = length r2) by (by apply Permutation_length).
    assert (Habs : forall dn' r'', dn ++ r' = dn' ++ r'' -> length dn' = (length dn + 1)%nat ->
      wp (remove_entry_loop fuel b' p (Z.of_nat (length dn) + 1)) (fun b2 w2 => b2 = b' /\ w2 = w') w').
    { intros dn' r'' Eq Hl. replace (Z.of_nat (length dn) + 1) with (Z.of_nat (length dn')) by lia.
      rewrite Eq in D. apply (entry_absent _ _ _ r''); [done|]. apply (f_equal length) in Eq.
      rewrite !length_app in Eq. lia. }
    destruct r' as [|x r'].
    + destruct fuel as [|fuel]; [lia|]. cbn [remove_entry_loop]. rewrite app_nil_r in Hs2.
      rewrite decide_False by lia. wp_steps. exists (dn ++ []). split_and!; try done. by rewrite Hr'.
    + eapply wp_mono; [apply (Habs (dn ++ [x]) r'); [by rewrite <- app_assoc|rewrite length_app; simpl; lia]|].
      intros b2 w2 [-> ->]. exists (dn ++ x :: r'). split_and!; try done. by rewrite Hr'.
  - assert (Hne : q <> p).
    { destruct TR as [_ _ _ Hnd]. apply NoDup_cons in Hnd as [_ Hnd]. rewrite !fmap_app in Hnd. simpl in Hnd.
      apply NoDup_app in Hnd as (_&_&Hnd). rewrite fmap_app in Hnd. simpl in Hnd.
      apply NoDup_cons in Hnd as [Hq _]. intros ->. apply Hq, elem_of_app. right. left. }
    rewrite (tasks_nth _ _ _ _ _ _ TR), some_bind, decide_False, ret_bind by done. rewrite u64_small by lia.
    replace (Z.of_nat (length dn) + 1) with (Z.of_nat (length (dn ++ [(q, u)]))) by (rewrite length_app; simpl; lia).
    eapply wp_mono; [apply (IH (dn ++ [(q, u)]) r1); [by rewrite <- app_assoc|lia]|].
    intros b2 w2 (pts'&Hp&D&Ee&Hfr). exists pts'. rewrite <- !app_assoc in Hp, Hfr. done.
Qed.

(** The search: the tasks before [r] do not have the identifier. *)
Lemma remove_loop_spec fuel sch id dn r w :
  sched_rep sch (dn ++ r) w -> (length r < fuel)%nat -> id ∉ task_id <$> dn.*2 ->
  wp (remove_loop fuel sch id (Z.of_nat (length dn))) (fun '(ok, sch') w' => exists pts',
    sched_rep sch' pts' w' /\ wenv w' = wenv w /\ next_task_id sch' = next_task_id sch /\
    frame (sched_ptrs sch (dn ++ r)) (sched_ptrs sch' pts') (blocks (wheap w)) (blocks (wheap w')) /\
    if ok : bool then exists t, task_id t = id /\ t :: pts'.*2 ≡ₚ (dn ++ r).*2
    else pts' = dn ++ r /\ (id ∉ task_id <$> (dn ++ r).*2)) w.
Proof.
  revert dn r. induction fuel as [|fuel IH]; intros dn r SR Hf Hid; [lia|].
  pose proof SR as [TR _ _ _ Hnd Hb Hnext]. destruct (tasks_size _ _ _ TR) as [Hs Hs']. rewrite length_app in Hs.
  cbn [remove_loop]. destruct r as [|[p t] r]; simpl in Hs, Hf.
  { rewrite decide_False by lia. wp_steps. exists (dn ++ []).
    split_and!; try done. by rewrite app_nil_r. }
  rewrite decide_True by lia. rewrite (tasks_nth _ _ _ _ _ _ TR), some_bind.
  apply wp_bind. eapply load_task_spec; [exact TR|]. case_decide as Hd.
  - unfold ht_task_scheduler_remove_task_entry. eapply wp_call.
    { apply (entry_present _ _ [] dn p t r w TR). rewrite Hs. lia. }
    intros b' w1 (pts'&Hp&D&Ee&Hfr). simpl in Hp, Hfr.
    eapply wp_call; [exact (detached_free _ _ _ _ D)|]. intros _ w2 (TR2&Ee2&Eh2). wp_steps.
    assert (Hperm : t :: pts'.*2 ≡ₚ (dn ++ (p, t) :: r).*2)
      by (rewrite Hp, !fmap_app; simpl; apply Permutation_middle).
    destruct (sched_step sch (dn ++ (p, t) :: r) w b' pts' w2 (next_task_id sch) []) as [SR2 Hf2]; try done.
    { rewrite Eh2. eapply frame_trans; [exact Hfr|]. apply frame_delete. }
    { rewrite <- Hperm in Hnd. simpl in Hnd. by apply NoDup_cons in Hnd as [_ ?]. }
    { rewrite <- Hperm in Hb. by apply Forall_cons in Hb as [_ ?]. }
    exists pts'. split_and!; try done; [congruence|]. by exists t.
  - rewrite u64_small by lia.
    replace (Z.of_nat (length dn) + 1) with (Z.of_nat (length (dn ++ [(p, t)]))) by (rewrite length_app; simpl; lia).
    replace (dn ++ (p, t) :: r) with ((dn ++ [(p, t)]) ++ r) in * by (by rewrite <- app_assoc).
    apply (IH (dn ++ [(p, t)]) r); [done|lia|].
    rewrite !fmap_app, elem_of_app. simpl. rewrite list_elem_of_singleton. intros [?| ->]; done.
Qed.

(** ** Destruction *)

Lemma free_loop_spec fuel b dn r w :
  bag_rep 8 b (dn ++ r) (blocks (wheap w)) -> (length r < fuel)%nat -> NoDup (data b :: r) ->
  Forall (fun p => p <> NULL /\ is_Some (blocks (wheap w) !! p)) r ->
  wp (free_loop fuel b (Z.of_nat (length dn))) (fun _ w' => wenv w' = wenv w /\
    bag_rep 8 b (dn ++ r) (blocks (wheap w')) /\
    frame (r ++ [data b]) [data b] (blocks (wheap w)) (blocks (wheap w'))) w.
Proof.
  revert dn r w. induction fuel as [|fuel IH]; intros dn r w R Hf Hnd HF; [lia|].
  pose proof (rep_size R) as Hs. pose proof (rep_cap R). pose proof (rep_max R). rewrite length_app in Hs.
  cbn [free_loop]. destruct r as [|p r]; simpl in Hs, Hf; [rewrite decide_False by lia; by wp_steps|].
  rewrite decide_True by lia. rewrite (rep_nth 8 _ _ _ _ R) by lia.
  rewrite Nat2Z.id, list_lookup_middle, some_bind by done.
  apply Forall_cons in HF as [[Hp [n Hl]] HF]. apply NoDup_cons in Hnd as [Hd Hnd].
  apply not_elem_of_cons in Hd as [Hdp Hd]. apply NoDup_cons in Hnd as [Hpr Hnd].
  unfold free_task. apply wp_bind, wp_bind, wp_zoom. apply (ht_free_spec p n); [done|done|].
  intros h1 (E1&_&_). apply wp_modify. rewrite u64_small by lia. simpl in E1 |- *.
  replace (Z.of_nat (length dn) + 1) with (Z.of_nat (length (dn ++ [p]))) by (rewrite length_app; simpl; lia).
  set (w1 := World h1 _ _).
  assert (R1 : bag_rep 8 b ((dn ++ [p]) ++ r) (blocks (wheap w1))).
  { rewrite <- app_assoc. eapply rep_live_mono; [|exact R]. simpl. by rewrite E1, lookup_delete_ne. }
  eapply wp_mono; [apply (IH (dn ++ [p]) r w1 R1); [lia|by apply NoDup_cons|]|].
  { rewrite Forall_forall in *. intros q Hq. destruct (HF q Hq). simpl. rewrite E1, lookup_delete_ne; [done|].
    by intros ->. }
  intros _ w2 (Ee&R2&Hfr). rewrite <- app_assoc in R2. split_and!; try done.
  eapply frame_trans; [|exact Hfr]. simpl. rewrite E1. apply frame_delete.
Qed.

Lemma destroy_spec sch pts w :
  sched_rep sch pts w ->
  wp (ht_task_scheduler_destroy sch) (fun _ w' => wenv w' = wenv w /\
    frame (sched_ptrs sch pts) [] (blocks (wheap w)) (blocks (wheap w'))) w.
Proof.
  intros [TR Hn Hl Hs _ _ _]. destruct (tasks_size _ _ _ TR) as [Hsz _].
  pose proof (tasks_live _ _ _ TR) as HL. apply Forall_cons in HL as [_ HL]. destruct TR as [R _ _ Hnd].
  unfold ht_task_scheduler_destroy. eapply wp_call.
  { apply (free_loop_spec _ _ [] pts.*1 w R); try done. rewrite length_fmap. lia. }
  intros _ w1 (Ee1&R1&Hfr1). rewrite <- Permutation_cons_append in Hfr1.
  destruct (frame_cons _ _ _ _ _ Hfr1 Hs Hl) as (Hfr1'&Hs1&El).
  apply wp_bind, wp_zoom. eapply wp_mono; [by eapply bag_deinit_spec|].
  intros _ h2 (_&_&_&E2&_&_). apply wp_zoom. destruct Hl as [n Hl]. rewrite list_elem_of_singleton in Hs1.
  simpl. apply (ht_free_spec _ n); [done|rewrite E2, lookup_delete_ne by (by apply not_eq_sym); simpl; by rewrite El|].
  intros h3 (E3&_&_). simpl. split; [done|]. rewrite E3, E2. eapply frame_trans; [exact Hfr1'|].
  eapply frame_trans; [|apply frame_delete]. rewrite (Permutation_swap (data (tasks sch)) (self sch) []). apply frame_delete.
Qed.

(** ** Tick *)

Lemma examine_id t e : match (examine t e).1 with Some t' => task_id t' = task_id t | None => True end.
Proof.
  unfold examine. destruct (clock e) as [now e1]. case_decide; [done|].
  destruct (run_callback _ _ e1) as [[] e2]; [|done].
  destruct (mode t); [done|]. by destruct (clock e2).
Qed.

Lemma examine_all_ids ts e : (task_id <$> (examine_all ts e).1) `sublist_of` (task_id <$> ts).
Proof.
  revert e. induction ts as [|t ts IH]; intros e; simpl; [done|]. pose proof (examine_id t e) as Hid.
  destruct (examine t e) as [x e1]. specialize (IH e1). destruct (examine_all ts e1) as [rs e2]. simpl in *.
  destruct x as [t'|]; simpl; [|by constructor]. rewrite Hid. by constructor.
Qed.

Lemma tick_spec sch pts w :
  sched_rep sch pts w ->
  wp (ht_task_scheduler_tick sch) (fun sch' w' => exists pts' ord,
    ord ≡ₚ pts.*2 /\ sched_rep sch' pts' w' /\ next_task_id sch' = next_task_id sch /\
    pts'.*2 ≡ₚ (examine_all ord (wenv w)).1 /\ wenv w' = (examine_all ord (wenv w)).2 /\
    frame (sched_ptrs sch pts) (sched_ptrs sch' pts') (blocks (wheap w)) (blocks (wheap w'))) w.
Proof.
  intros SR. pose proof SR as [TR _ _ _ Hid Hb Hnext]. destruct (tasks_size _ _ _ TR) as [Hs _].
  unfold ht_task_scheduler_tick. eapply wp_call; [apply (tick_loop_spec _ _ [] pts w TR); lia|].
  intros b' w' (ord&pts'&Hord&TR'&Hpts&Ee&Hfr). wp_steps. simpl in *.
  pose proof (examine_all_ids ord (wenv w)) as Hsub.
  destruct (sched_step sch pts w b' pts' w' (next_task_id sch) []) as [SR' Hfr']; try done.
  - rewrite Hpts. eapply sublist_NoDup; [|exact Hsub]. by rewrite Hord.
  - rewrite Hpts. rewrite <- Hord in Hb. apply Forall_forall. intros t' Ht'.
    assert (Hin : task_id t' ∈ task_id <$> ord) by (eapply elem_of_sublist; [by apply list_elem_of_fmap_2|done]).
    apply list_elem_of_fmap in Hin as (t&->&Ht). rewrite Forall_forall in Hb. by apply Hb.
  - exists pts', ord. by split_and!.
Qed.

(** C25: a tick looks at every task exactly once.  In some order, each
    task present when the tick starts has its time compared with the clock;
    a due task has its callback run once, and leaves the scheduler (and the
    heap) if the callback returns HT_FALSE, else gets its next time by its
    mode; the order is not that of insertion when tasks leave, since the last
    task takes the place of the one that left, also in slot 0, where the
    index wraps.  The loop ends, without undefined behaviour, and the tasks
    left are exactly those examined and kept. *)
Theorem tick_examines_each_task_once sch pts w :
  sched_rep sch pts w ->
  wp (ht_task_scheduler_tick sch) (fun sch' w' => exists pts' ord,
    ord ≡ₚ pts.*2 /\ sched_rep sch' pts' w' /\
    pts'.*2 ≡ₚ (examine_all ord (wenv w)).1 /\ wenv w' = (examine_all ord (wenv w)).2 /\
    frame (sched_ptrs sch pts) (sched_ptrs sch' pts') (blocks (wheap w)) (blocks (wheap w'))) w.
Proof.
  intros SR. eapply wp_mono; [by apply tick_spec|].
  intros sch' w' (pts'&ord&?&?&_&?&?&?). by exists pts', ord.
Qed.

(** C31: the optimal tick period is the greatest common divisor of the
    periods of the tasks, tasks of period 0 left out (0 when there is no
    other); the loops end for all 64-bit periods. *)
Theorem optimal_tick_period_gcd sch pts w :
  sched_rep sch pts w -> Forall (fun t => 0 <= period t < 2 ^ 64) pts.*2 ->
  wp (ht_task_scheduler_get_optimal_tick_period sch) (fun g w' => w' = w /\ 0 <= g /\
    (forall t, t ∈ pts.*2 -> (g | period t)) /\
    (forall d, (forall t, t ∈ pts.*2 -> (d | period t)) -> (d | g))) w.
Proof.
  intros SR HF. destruct SR as [TR _ _ _ _ _ _]. destruct (tasks_size _ _ _ TR) as [Hs _].
  unfold ht_task_scheduler_get_optimal_tick_period.
  eapply wp_mono; [apply (period_loop_spec _ _ [] pts w 0 TR); try done; lia|].
  intros g w' [-> ->]. split; [done|]. revert HF. generalize (pts.*2). intros ts _.
  assert (Hfold : forall pp, (foldl Z.gcd pp (period <$> ts) | pp) /\
    (forall t, t ∈ ts -> (foldl Z.gcd pp (period <$> ts) | period t)) /\
    (forall d, (d | pp) -> (forall t, t ∈ ts -> (d | period t)) -> (d | foldl Z.gcd pp (period <$> ts))) /\
    (0 <= pp -> 0 <= foldl Z.gcd pp (period <$> ts))).
  { induction ts as [|t ts IH]; intros pp; simpl.
    - split_and!; try done. by intros t ?%not_elem_of_nil.
    - destruct (IH (Z.gcd pp (period t))) as (I1&I2&I3&I4). split_and!.
      + etrans; [exact I1|apply Z.gcd_divide_l].
      + intros u [->|Hu]%elem_of_cons; [etrans; [exact I1|apply Z.gcd_divide_r]|auto].
      + intros d Hd Hall. apply I3; [apply Z.gcd_greatest; [done|apply Hall; left]|].
        intros u Hu. apply Hall. by right.
      + intros _. apply I4, Z.gcd_nonneg. }
  destruct (Hfold 0) as (_&I2&I3&I4). split_and!; [by apply I4|done|].
  intros d Hd. apply I3; [apply Z.divide_0_r|done].
Qed.

Lemma remove_spec sch pts id w :
  sched_rep sch pts w ->
  wp (ht_task_scheduler_remove_task sch id) (fun '(ok, sch') w' => exists pts',
    sched_rep sch' pts' w' /\ wenv w' = wenv w /\ next_task_id sch' = next_task_id sch /\
    frame (sched_ptrs sch pts) (sched_ptrs sch' pts') (blocks (wheap w)) (blocks (wheap w')) /\
    if ok : bool then exists t, task_id t = id /\ t :: pts'.*2 ≡ₚ pts.*2
    else pts' = pts /\ (id ∉ task_id <$> pts.*2)) w.
Proof.
  intros SR. pose proof SR as [TR _ _ _ _ Hb _]. destruct (tasks_size _ _ _ TR) as [Hs _].
  unfold ht_task_scheduler_remove_task. case_decide as Hneg.
  - wp_steps. exists pts. split_and!; try done. intros (t&->&Ht)%list_elem_of_fmap.
    rewrite Forall_forall in Hb. specialize (Hb t Ht). lia.
  - apply (remove_loop_spec _ sch id [] pts w SR); [lia|by apply not_elem_of_nil].
Qed.

(** Removal by identifier.  The call returns HT_TRUE and removes (and
    frees) exactly the one task with the identifier, or returns HT_FALSE,
    changes nothing, and no task has the identifier. *)
Theorem remove_task_exact sch pts id w :
  sched_rep sch pts w ->
  wp (ht_task_scheduler_remove_task sch id) (fun '(ok, sch') w' => exists pts',
    sched_rep sch' pts' w' /\
    frame (sched_ptrs sch pts) (sched_ptrs sch' pts') (blocks (wheap w)) (blocks (wheap w')) /\
    if ok : bool then exists t, task_id t = id /\ t :: pts'.*2 ≡ₚ pts.*2
    else pts' = pts /\ (id ∉ task_id <$> pts.*2)) w.
Proof.
  intros SR. eapply wp_mono; [by apply (remove_spec sch pts)|].
  intros [ok sch'] w' (pts'&SR'&_&_&Hfr&Hok). by exists pts'.
Qed.

(** ** The life of a scheduler *)

Inductive sched_op :=
| OpSchedule (m : HT_TaskSchedulingMode) (per : Z) (cb ud : ptr)
| OpTick
| OpRemove (id : Z).

(** The identifiers returned by the calls that schedule. *)
Fixpoint sched_run (ops : list sched_op) sch : ST (world E) (list Z * HT_TaskScheduler) :=
  match ops with
  | [] => mret ([], sch)
  | OpSchedule m per cb ud :: ops =>
      '(id, sch) ← ht_task_scheduler_schedule_task sch m per cb ud;
      '(ids, sch) ← sched_run ops sch;
      mret (id :: ids, sch)
  | OpTick :: ops => sch ← ht_task_scheduler_tick sch; sched_run ops sch
  | OpRemove id :: ops => '(_, sch) ← ht_task_scheduler_remove_task sch id; sched_run ops sch
  end.

Definition sched_lifetime (ops : list sched_op) : ST (world E) (option (list Z)) :=
  '(err, o) ← ht_task_scheduler_create;
  match o with
  | None => mret None
  | Some sch => '(ids, sch) ← sched_run ops sch; ht_task_scheduler_destroy sch;; mret (Some ids)
  end.

Definition valid_ids (ids : list Z) : list Z :=
  filter (fun i => i <> HT_TASK_SCHEDULER_INVALID_TASK_ID) ids.

Lemma sched_run_spec ops sch pts w :
  sched_rep sch pts w ->
  wp (sched_run ops sch) (fun '(ids, sch') w' => exists pts' leak,
    sched_rep sch' pts' w' /\ next_task_id sch <= next_task_id sch' /\
    frame (sched_ptrs sch pts) (leak ++ sched_ptrs sch' pts') (blocks (wheap w)) (blocks (wheap w')) /\
    (length leak + length (valid_ids ids) <= length ids)%nat /\
    NoDup (valid_ids ids) /\ Forall (fun i => next_task_id sch <= i < next_task_id sch') (valid_ids ids) /\
    Forall (fun p => is_Some (blocks (wheap w') !! p) /\ p ∉ sched_ptrs sch' pts') leak) w.
Proof.
  revert sch pts w. induction ops as [|op ops IH]; intros sch pts w SR; simpl.
  { wp_steps. exists pts, []. split_and!; try done; simpl; try lia; constructor. }
  assert (Hrest : forall sch1 pts1 w1, sched_rep sch1 pts1 w1 -> next_task_id sch1 = next_task_id sch ->
    frame (sched_ptrs sch pts) (sched_ptrs sch1 pts1) (blocks (wheap w)) (blocks (wheap w1)) ->
    wp (sched_run ops sch1) (fun '(ids, sch') w' => exists pts' leak,
      sched_rep sch' pts' w' /\ next_task_id sch <= next_task_id sch' /\
      frame (sched_ptrs sch pts) (leak ++ sched_ptrs sch' pts') (blocks (wheap w)) (blocks (wheap w')) /\
      (length leak + length (valid_ids ids) <= length ids)%nat /\
      NoDup (valid_ids ids) /\ Forall (fun i => next_task_id sch <= i < next_task_id sch') (valid_ids ids) /\
      Forall (fun p => is_Some (blocks (wheap w') !! p) /\ p ∉ sched_ptrs sch' pts') leak) w1).
  { intros sch1 pts1 w1 SR1 En Hfr1. eapply wp_mono; [by apply (IH sch1 pts1)|]. rewrite En.
    intros [ids sch2] w2 (pts2&leak&?&?&Hfr2&?&?&?&?). exists pts2, leak. split_and!; try done.
    by eapply frame_trans. }
  destruct op as [m per cb ud| |id].
  - eapply wp_call; [by apply (schedule_task_spec sch pts)|].
    intros [id sch1] w1 (pts1&leak1&SR1&Hle1&Hfr1&Hlk&Hid).
    eapply wp_call; [by apply (IH sch1 pts1)|].
    intros [ids sch2] w2 (pts2&leak2&SR2&Hle2&Hfr2&Hlen&Hnd&HF&Hlk2). wp_steps.
    exists pts2, (leak1 ++ leak2). rewrite <- app_assoc, length_app. unfold valid_ids. rewrite filter_cons.
    fold (valid_ids ids). pose proof SR1 as [_ _ _ _ _ Hb1 _].
    assert (HF' : Forall (fun i => next_task_id sch <= i < next_task_id sch2) (valid_ids ids))
      by (eapply Forall_impl; [exact HF|]; simpl; lia).
    split_and!; try done; [lia|eapply frame_trans; [exact Hfr1|]; by apply frame_keep|..].
    4: { apply Forall_app. split; [|done]. rewrite Forall_forall in *. intros p Hp. destruct (Hlk p Hp) as [Hl Hn].
      destruct Hfr2 as [A _]. destruct (A p Hn Hl) as [Hn' ->]. split; [done|]. by apply not_elem_of_app in Hn' as [_ ?]. }
    all: destruct (decide (id = HT_TASK_SCHEDULER_INVALID_TASK_ID)) as [Ei|Ei];
      [rewrite decide_False by tauto; destruct Hid|rewrite decide_True by done; destruct Hid as (->&->&p&now&->&_)];
      simpl in *; try done; try lia.
    all: rewrite fmap_app in Hb1; apply Forall_app in Hb1 as [_ Hb1]; apply Forall_cons in Hb1 as [Hn _]; simpl in Hn.
    + apply NoDup_cons. split; [|done]. intros Hin. rewrite Forall_forall in HF. specialize (HF _ Hin). lia.
    + constructor; [lia|done].
  - eapply wp_call; [by apply tick_spec|].
    intros sch1 w1 (pts1&ord&_&SR1&En&_&_&Hfr1). by apply (Hrest sch1 pts1 w1).
  - eapply wp_call; [by apply (remove_spec sch pts)|].
    intros [ok sch1] w1 (pts1&SR1&_&En&Hfr1&_). by apply (Hrest sch1 pts1 w1).
Qed.

(** C26: the life of a scheduler.  Under every allocator, a scheduler that
    is created, runs any sequence of schedule, tick and remove calls and is
    destroyed does so without undefined behaviour; the identifiers it handed
    out are pairwise different, also those of tasks that are gone; and it
    leaves on the heap only task objects lost in calls that failed, at most
    one for each failed call (none if no call failed). *)
Theorem scheduler_lifetime ops w :
  wp (sched_lifetime ops) (fun r w' =>
    match r with
    | None => blocks (wheap w') = blocks (wheap w)
    | Some ids => NoDup (valid_ids ids) /\ exists leak,
        frame [] leak (blocks (wheap w)) (blocks (wheap w')) /\
        (length leak + length (valid_ids ids) <= length ids)%nat
    end) w.
Proof.
  unfold sched_lifetime. eapply wp_call; [apply create_spec|].
  intros [err [sch|]] w1 [_ Hc]; [|by wp_steps; destruct Hc].
  destruct Hc as (_&SR&_&Hfr1). eapply wp_call; [by apply (sched_run_spec ops sch [])|].
  intros [ids sch2] w2 (pts2&leak&SR2&_&Hfr2&Hlen&Hnd&_&Hlk).
  eapply wp_call; [by eapply destroy_spec|]. intros _ w3 [_ Hfr3]. wp_steps. split; [done|].
  exists leak. split; [|done]. eapply frame_trans; [exact Hfr1|]. eapply frame_trans; [exact Hfr2|].
  rewrite <- (app_nil_r leak) at 2. by apply frame_keep.
Qed.

End scheduler.

(** ** Concrete schedulers *)

Section samples.

(** A clock that advances by one at every reading; the callback of a task
    asks to be run again when its user data is not null. *)
#[local] Instance ticking : TaskEnv Z := {
  clock e := (e, e + 1);
  run_callback _ ud e := (bool_decide (ud <> NULL), e)
}.

Definition task0 : HT_Task := Task 100 0 12 5 0 HT_TASK_SCHEDULING_IGNORE_DELAYS.
Definition task1 : HT_Task := Task 100 7 18 5 1 HT_TASK_SCHEDULING_RESTART_TIMER.

Definition sample_tasks : list (ptr * HT_Task) := [(3, task0); (4, task1)].

Definition sample_sched : HT_TaskScheduler :=
  TaskScheduler 1 (Bag 16 16 2 2 ([Some 3; Some 4] ++ replicate 14 None)) 2.

Definition sample_world : world Z :=
  World {| blocks := <[1 := 40]> (<[2 := 128]> (<[3 := 40]> (<[4 := 40]> ∅)));
           requests := 4; realloc_fnc_ := NULL; user_data_ := NULL |}
        (<[3 := task0]> (<[4 := task1]> ∅)) 10.

Lemma sample_sched_rep : sched_rep sample_sched sample_tasks sample_world.
Proof.
  assert (TR : tasks_rep (tasks sample_sched) sample_tasks sample_world).
  { split.
    - split; try done; [exists 128; by split|by exists 0].
    - done.
    - repeat constructor; try done; simpl; eauto.
    - apply (bool_decide_unpack _). by vm_compute. }
  split; try done.
  - apply (bool_decide_unpack _). by vm_compute.
  - apply (bool_decide_unpack _). by vm_compute.
  - repeat constructor; simpl; lia.
Qed.

(** Both tasks are due; the first leaves, the second is moved to slot 0 and
    is still examined. *)
Lemma tick_examines_each_task_once_witness :
  wp (ht_task_scheduler_tick (H := always_granted) sample_sched) (fun sch' w' => exists pts' ord,
    ord ≡ₚ [task0; task1] /\ sched_rep sch' pts' w' /\
    pts'.*2 ≡ₚ (examine_all ord 10).1 /\ wenv w' = (examine_all ord 10).2 /\
    frame [1; 2; 3; 4] (sched_ptrs sch' pts') (blocks (wheap sample_world)) (blocks (wheap w'))) sample_world.
Proof.
  apply (tick_examines_each_task_once (H := always_granted) sample_sched sample_tasks sample_world sample_sched_rep).
Defined.

Lemma optimal_tick_period_gcd_witness :
  wp (ht_task_scheduler_get_optimal_tick_period sample_sched) (fun g w' => w' = sample_world /\ 0 <= g /\
    (forall t, t ∈ [task0; task1] -> (g | period t)) /\
    (forall d, (forall t, t ∈ [task0; task1] -> (d | period t)) -> (d | g))) sample_world.
Proof.
  apply (optimal_tick_period_gcd sample_sched sample_tasks sample_world sample_sched_rep).
  repeat constructor; simpl; lia.
Defined.

Lemma remove_task_exact_witness :
  wp (ht_task_scheduler_remove_task (H := always_granted) sample_sched 1) (fun '(ok, sch') w' => exists pts',
    sched_rep sch' pts' w' /\
    frame [1; 2; 3; 4] (sched_ptrs sch' pts') (blocks (wheap sample_world)) (blocks (wheap w')) /\
    if ok : bool then exists t, task_id t = 1 /\ t :: pts'.*2 ≡ₚ [task0; task1]
    else pts' = sample_tasks /\ (1 ∉ [0; 1])) sample_world.
Proof.
  apply (remove_task_exact (H := always_granted) sample_sched sample_tasks 1 sample_world sample_sched_rep).
Defined.

(** An allocator that has no block larger than 200 bytes. *)
Definition small_blocks : Malloc := bump_malloc (fun _ size => size <=? 200).

(** The leak of [scheduler_lifetime] happens.  With the allocator
    above the seventeenth task cannot be added to the bag of sixteen slots;
    the call returns the invalid identifier, and after the destruction of the
    scheduler the object of that task is still allocated. *)
Lemma schedule_task_leaks_on_failure :
  match sched_lifetime (H := small_blocks)
          (replicate 17 (OpSchedule HT_TASK_SCHEDULING_IGNORE_DELAYS 10 100 NULL))
          (World empty_heap ∅ 0) with
  | Done (Some ids, w') =>
      last ids = Some HT_TASK_SCHEDULER_INVALID_TASK_ID /\ (map_to_list (blocks (wheap w'))).*2 = [sizeof_HT_Task]
  | _ => False
  end.
Proof. by vm_compute. Qed.

End samples.
