(* ===== verification/Listeners.v ===== *)
(** Mutexes and listener containers (lib/mutex.cpp, lib/timeline_listener.c,
    lib/include/internal/timeline_listener_container.h).

    A container is shared by the timelines and the registry that hold a
    reference to it, so containers live in a store.  The listeners' callbacks
    act on the environment of the library. *)
From S2P Require Import Prelude Alloc BaseTypes Bag Memory Events.

(** HT_TimelineListenerCallback and HT_DestroyCallback, called through
    pointers, and the monotonic clock. *)
Class Host (E : Type) := {
  run_listener : ptr -> list memval -> bool -> ptr -> E -> E;
  run_destroy : ptr -> ptr -> E -> E;
  read_clock : E -> Z * E
}.

(** A host in which it can be seen what batches a listener, known by its
    user data, has been called with. *)
Class LoggedHost (E : Type) `{Host E} := {
  received : ptr -> E -> list (list memval * bool);
  received_run cb events ser ud e : received ud (run_listener cb events ser ud e) = received ud e ++ [(events, ser)];
  received_clock ud e : received ud (read_clock e).2 = received ud e
}.

Record HT_TimelineListenerEntry := ListenerEntry {
  ecallback : ptr;
  euser_data : ptr;
  edestroy_cb : ptr
}.

Definition sizeof_HT_TimelineListenerEntry : Z := 24.

Record HT_TimelineListenerContainer := Container {
  entries : bag HT_TimelineListenerEntry;
  cmutex : ptr;
  cid : Z;
  refcount : Z
}.

Definition set_entries b c := Container b (cmutex c) (cid c) (refcount c).
Definition set_id n c := Container (entries c) (cmutex c) n (refcount c).
Definition set_refcount n c := Container (entries c) (cmutex c) (cid c) n.

Definition sizeof_HT_TimelineListenerContainer : Z := 48.
Definition sizeof_HT_Mutex : Z := 40.

(** The statics of registry.c and init.c. *)
Record HT_Registry := MkRegistry {
  event_klass_register : bag ptr;
  listeners_register : bag ptr;
  feature_register : list bool;
  listeners_register_mutex : ptr;
  features_register_mutex : ptr;
  event_klass_registry_register_mutex : ptr;
  feature_count : Z;
  _ht_init_counter : Z
}.

Definition HT_TIMELINE_MAX_FEATURES : Z := 32.

(** Before ht_init: static storage is zero. *)
Definition static_registry : HT_Registry :=
  MkRegistry (Bag 0 0 0 NULL []) (Bag 0 0 0 NULL []) (replicate (Z.to_nat HT_TIMELINE_MAX_FEATURES) false)
             NULL NULL NULL 0 0.

(** The state the library works on: the heap, the mutexes (held or not),
    the containers, the default identifier provider, the klass instances,
    the registry and the rest of the process. *)
Record sys (E : Type) := Sys {
  sheap : heap;
  mutexes : gmap ptr bool;
  containers : gmap ptr HT_TimelineListenerContainer;
  current_identifier : Z;
  klasses : klass_store;
  registry : HT_Registry;
  senv : E
}.
Arguments Sys {E} _ _ _ _ _ _ _.
Arguments sheap {E} _.
Arguments mutexes {E} _.
Arguments containers {E} _.
Arguments current_identifier {E} _.
Arguments klasses {E} _.
Arguments registry {E} _.
Arguments senv {E} _.

#[export] Instance sys_heap {E} : Lens (sys E) heap.
Proof.
  refine {| view := sheap;
            update h s := Sys h (mutexes s) (containers s) (current_identifier s) (klasses s) (registry s) (senv s) |};
    by intros; destruct s.
Defined.

Section listeners.
  Context `{Malloc} {E : Type} `{Host E}.
  Implicit Types (s : sys E) (c : HT_TimelineListenerContainer).

Definition set_mutexes (f : gmap ptr bool -> gmap ptr bool) s : sys E :=
  Sys (sheap s) (f (mutexes s)) (containers s) (current_identifier s) (klasses s) (registry s) (senv s).
Definition set_containers (f : gmap ptr HT_TimelineListenerContainer -> gmap ptr HT_TimelineListenerContainer) s
    : sys E :=
  Sys (sheap s) (mutexes s) (f (containers s)) (current_identifier s) (klasses s) (registry s) (senv s).
Definition set_env (f : E -> E) s : sys E :=
  Sys (sheap s) (mutexes s) (containers s) (current_identifier s) (klasses s) (registry s) (f (senv s)).

Definition set_klasses (f : klass_store -> klass_store) s : sys E :=
  Sys (sheap s) (mutexes s) (containers s) (current_identifier s) (f (klasses s)) (registry s) (senv s).
Definition set_registry (r : HT_Registry) s : sys E :=
  Sys (sheap s) (mutexes s) (containers s) (current_identifier s) (klasses s) r (senv s).

(** ** Mutexes

    Locking a mutex that is held by the caller, unlocking one that is not
    held and destroying one that is held are undefined. *)

Definition ht_mutex_create : ST (sys E) ptr :=
  mtx ← zoom (ht_alloc sizeof_HT_Mutex);
  if decide (mtx = NULL) then mret NULL
  else modify (set_mutexes <[mtx := false]>);; mret mtx.

Definition ht_mutex_destroy (mtx : ptr) : ST (sys E) () :=
  s ← get;
  require (bool_decide (mutexes s !! mtx = Some false));;
  modify (set_mutexes (delete mtx));;
  zoom (ht_free mtx).

Definition ht_mutex_lock (mtx : ptr) : ST (sys E) () :=
  s ← get;
  require (bool_decide (mutexes s !! mtx = Some false));;
  modify (set_mutexes <[mtx := true]>).

Definition ht_mutex_unlock (mtx : ptr) : ST (sys E) () :=
  s ← get;
  require (bool_decide (mutexes s !! mtx = Some true));;
  modify (set_mutexes <[mtx := false]>).

(** ** The clock and the event identifiers *)

Definition get_timestamp : ST (sys E) Z := fun s =>
  let '(t, e) := read_clock (senv s) in Done (t, set_env (fun _ => e) s).

(** provider->current_identifier++. *)
Definition ht_event_id_provider_next : ST (sys E) Z := fun s =>
  Done (current_identifier s,
        Sys (sheap s) (mutexes s) (containers s) (u64 (current_identifier s + 1)) (klasses s) (registry s) (senv s)).

(** ** Containers *)

Definition load_container (p : ptr) : ST (sys E) HT_TimelineListenerContainer :=
  s ← get; some_or_undef (containers s !! p).

Definition store_container (p : ptr) c : ST (sys E) () :=
  s ← get;
  require (bool_decide (is_Some (blocks (sheap s) !! p)));;
  put (set_containers <[p := c]> s).

(** for (i = 0; i < entries.size; i++) with the body [f] on the entry. *)
Fixpoint entries_loop (fuel : nat) (f : HT_TimelineListenerEntry -> ST (sys E) ()) (p : ptr) (i : Z)
    : ST (sys E) () :=
  match fuel with
  | O => nofuel
  | S fuel =>
      c ← load_container p;
      if decide (i < size (entries c)) then
        e ← some_or_undef (ht_bag_nth (entries c) i);
        f e;;
        entries_loop fuel f p (u64 (i + 1))
      else mret ()
  end.

Definition for_each_entry (f : HT_TimelineListenerEntry -> ST (sys E) ()) (p : ptr) : ST (sys E) () :=
  c ← load_container p;
  entries_loop (S (Z.to_nat (size (entries c)))) f p 0.

Definition destroy_entry (e : HT_TimelineListenerEntry) : ST (sys E) () :=
  if decide (edestroy_cb e <> NULL) then modify (set_env (run_destroy (edestroy_cb e) (euser_data e)))
  else mret ().

Definition _ht_timeline_listener_container_unregister_all_listeners (container : ptr) : ST (sys E) () :=
  for_each_entry destroy_entry container;;
  c ← load_container container;
  b ← zoom (ht_bag_clear sizeof_HT_TimelineListenerEntry (entries c));
  store_container container (set_entries b c).

Definition ht_timeline_listener_container_get_id (container : ptr) : ST (sys E) Z :=
  c ← load_container container; mret (cid c).

Definition ht_timeline_listener_container_set_id (container : ptr) (id : Z) : ST (sys E) () :=
  c ← load_container container; store_container container (set_id id c).

Definition ht_timeline_listener_container_notify_listeners (container : ptr)
    (events : list memval) (serialize_events : bool) : ST (sys E) () :=
  for_each_entry (fun e =>
    modify (set_env (run_listener (ecallback e) events serialize_events (euser_data e)))) container.

Definition ht_timeline_listener_container_create : ST (sys E) ptr :=
  container ← zoom (ht_alloc sizeof_HT_TimelineListenerContainer);
  if decide (container = NULL) then mret NULL
  else
    r ← zoom (ht_bag_init sizeof_HT_TimelineListenerEntry 16);
    match r with
    | inl _ => zoom (ht_free container);; mret NULL
    | inr b =>
        mutex ← ht_mutex_create;
        if decide (mutex = NULL) then
          zoom (ht_bag_deinit b);; zoom (ht_free container);; mret NULL
        else store_container container (Container b mutex 0 1);; mret container
    end.

Definition ht_timeline_listener_container_ref (container : ptr) : ST (sys E) () :=
  c ← load_container container;
  ht_mutex_lock (cmutex c);;
  c ← load_container container;
  store_container container (set_refcount (u32 (refcount c + 1)) c);;
  ht_mutex_unlock (cmutex c).

Definition ht_timeline_listener_container_unref (container : ptr) : ST (sys E) () :=
  c ← load_container container;
  ht_mutex_lock (cmutex c);;
  c ← load_container container;
  let rc := u32 (refcount c - 1) in
  store_container container (set_refcount rc c);;
  if decide (rc = 0) then
    _ht_timeline_listener_container_unregister_all_listeners container;;
    c ← load_container container;
    b ← zoom (ht_bag_deinit (entries c));
    store_container container (set_entries b c);;
    ht_mutex_unlock (cmutex c);;
    ht_mutex_destroy (cmutex c);;
    modify (set_containers (delete container));;
    zoom (ht_free container)
  else ht_mutex_unlock (cmutex c).

Definition ht_timeline_listener_container_register_listener (container callback user_data destroy_cb : ptr)
    : ST (sys E) HT_ErrorCode :=
  c ← load_container container;
  ht_mutex_lock (cmutex c);;
  c ← load_container container;
  '(error_code, b) ← zoom (ht_bag_add sizeof_HT_TimelineListenerEntry (entries c)
                              (ListenerEntry callback user_data destroy_cb));
  store_container container (set_entries b c);;
  ht_mutex_unlock (cmutex c);;
  mret error_code.

Definition ht_timeline_listener_container_unregister_all_listeners (container : ptr) : ST (sys E) () :=
  c ← load_container container;
  ht_mutex_lock (cmutex c);;
  _ht_timeline_listener_container_unregister_all_listeners container;;
  ht_mutex_unlock (cmutex c).

(** ** What a container promises *)

Definition notify_env (es : list HT_TimelineListenerEntry) (events : list memval) (ser : bool) (env : E) : E :=
  foldl (fun env e => run_listener (ecallback e) events ser (euser_data e) env) env es.

Definition destroy_env (es : list HT_TimelineListenerEntry) (env : E) : E :=
  foldl (fun env e => if decide (edestroy_cb e <> NULL) then run_destroy (edestroy_cb e) (euser_data e) env
                      else env) env es.

(** The container at [p] has the listeners [es], in order of registration,
    and is not locked. *)
Record cont_rep s (p : ptr) c (es : list HT_TimelineListenerEntry) : Prop := {
  cr_lookup : containers s !! p = Some c;
  cr_bag : bag_rep sizeof_HT_TimelineListenerEntry (entries c) es (blocks (sheap s));
  cr_mutex : mutexes s !! cmutex c = Some false;
  cr_live : Forall (fun q => q <> NULL /\ is_Some (blocks (sheap s) !! q)) [p; cmutex c];
  cr_nodup : NoDup [p; data (entries c); cmutex c];
  cr_ref : 0 < refcount c < 2 ^ 32
}.

Definition cont_ptrs (p : ptr) c : list ptr := [p; data (entries c); cmutex c].

(** Registration of one more listener stays within the block. *)
Definition cont_room c : Prop :=
  size (entries c) < capacity (entries c) /\ size (entries c) < Z.of_nat (length (cells (entries c))).

Lemma set_env_id s : set_env (fun env => env) s = s.
Proof. by destruct s. Qed.

Lemma cont_rep_env s p c es f : cont_rep s p c es -> cont_rep (set_env f s) p c es.
Proof. by intros []. Qed.

Lemma load_container_spec s p c Q : containers s !! p = Some c -> Q c s -> wp (load_container p) Q s.
Proof. intros Hl HQ. unfold load_container. wp_steps. by eapply wp_some. Qed.

Lemma store_container_spec s p c Q :
  is_Some (blocks (sheap s) !! p) -> Q tt (set_containers <[p := c]> s) -> wp (store_container p c) Q s.
Proof. intros Hl HQ. unfold store_container. wp_steps. by rewrite bool_decide_true. Qed.

Lemma lock_spec m s Q :
  mutexes s !! m = Some false -> Q tt (set_mutexes <[m := true]> s) -> wp (ht_mutex_lock m) Q s.
Proof. intros Hm HQ. unfold ht_mutex_lock. wp_steps. by rewrite bool_decide_true. Qed.

Lemma unlock_spec m s Q :
  mutexes s !! m = Some true -> Q tt (set_mutexes <[m := false]> s) -> wp (ht_mutex_unlock m) Q s.
Proof. intros Hm HQ. unfold ht_mutex_unlock. wp_steps. by rewrite bool_decide_true. Qed.

(** Every loop over the entries is the fold of its body. *)
Lemma entries_loop_spec fuel f (g : HT_TimelineListenerEntry -> E -> E) p c dn r s :
  (forall e s, wp (f e) (fun _ s' => s' = set_env (g e) s) s) ->
  containers s !! p = Some c ->
  bag_rep sizeof_HT_TimelineListenerEntry (entries c) (dn ++ r) (blocks (sheap s)) -> (length r < fuel)%nat ->
  wp (entries_loop fuel f p (Z.of_nat (length dn))) (fun _ s' =>
    s' = set_env (fun env => foldl (fun env e => g e env) env r) s) s.
Proof.
  intros Hf. revert dn r s. induction fuel as [|fuel IH]; intros dn r s Hc R Hlt; [lia|].
  pose proof (rep_size R) as Hs. pose proof (rep_cap R). pose proof (rep_max R). rewrite length_app in Hs.
  cbn [entries_loop]. apply wp_bind. eapply load_container_spec; [done|].
  destruct r as [|e r]; simpl in Hs, Hlt; [rewrite decide_False by lia; apply wp_ret; by rewrite set_env_id|].
  rewrite decide_True by lia. rewrite (rep_nth _ _ _ _ _ R), Nat2Z.id, list_lookup_middle, some_bind by lia.
  eapply wp_call; [apply Hf|]. intros _ s1 ->. rewrite u64_small by lia.
  replace (Z.of_nat (length dn) + 1) with (Z.of_nat (length (dn ++ [e]))) by (rewrite length_app; simpl; lia).
  eapply wp_mono; [apply (IH (dn ++ [e]) r (set_env (g e) s)); [done|by rewrite <- app_assoc|lia]|].
  by intros _ s2 ->.
Qed.

Lemma for_each_entry_spec f (g : HT_TimelineListenerEntry -> E -> E) p c es s :
  (forall e s, wp (f e) (fun _ s' => s' = set_env (g e) s) s) ->
  containers s !! p = Some c -> bag_rep sizeof_HT_TimelineListenerEntry (entries c) es (blocks (sheap s)) ->
  wp (for_each_entry f p) (fun _ s' => s' = set_env (fun env => foldl (fun env e => g e env) env es) s) s.
Proof.
  intros Hf Hc R. unfold for_each_entry. apply wp_bind. eapply load_container_spec; [done|].
  apply (entries_loop_spec _ f g p c [] es s Hf Hc R). pose proof (rep_size R). lia.
Qed.

Lemma notify_spec p c es events ser s :
  cont_rep s p c es ->
  wp (ht_timeline_listener_container_notify_listeners p events ser)
    (fun _ s' => s' = set_env (notify_env es events ser) s) s.
Proof. intros [Hc R _ _ _ _]. by apply (for_each_entry_spec _ (fun e => run_listener (ecallback e) events ser (euser_data e)) p c). Qed.

Lemma destroy_entries_spec p c es s :
  containers s !! p = Some c -> bag_rep sizeof_HT_TimelineListenerEntry (entries c) es (blocks (sheap s)) ->
  wp (for_each_entry destroy_entry p) (fun _ s' => s' = set_env (destroy_env es) s) s.
Proof.
  intros Hc R. apply (for_each_entry_spec _ (fun e env => if decide (edestroy_cb e <> NULL)
    then run_destroy (edestroy_cb e) (euser_data e) env else env) p c); try done.
  intros e s1. unfold destroy_entry. case_decide; wp_steps; [done|by rewrite set_env_id].
Qed.

(** Everything but the entries and the counter of a container. *)
Lemma cont_rep_locked s p c es :
  cont_rep s p c es -> mutexes (set_mutexes <[cmutex c := true]> s) !! cmutex c = Some true.
Proof. intros _. apply lookup_insert_eq. Qed.

Lemma relock_id s m : mutexes s !! m = Some false ->
  set_mutexes <[m := false]> (set_mutexes <[m := true]> s) = s.
Proof. intros Hm. destruct s. unfold set_mutexes. simpl in *. by rewrite insert_insert_eq, insert_id. Qed.

Lemma register_spec p c es cb ud d s :
  cont_rep s p c es -> cont_room c ->
  wp (ht_timeline_listener_container_register_listener p cb ud d) (fun err s' => err = HT_ERR_OK /\
    exists b, s' = set_containers <[p := set_entries b c]> s /\
      cont_rep s' p (set_entries b c) (es ++ [ListenerEntry cb ud d]) /\
      data b = data (entries c) /\ capacity b = capacity (entries c) /\
      length (cells b) = length (cells (entries c))) s.
Proof.
  intros CR [Hr1 Hr2]. pose proof CR as [Hc R Hm Hl Hnd Hrc]. pose proof Hl as [[Hp Hpl] _]%Forall_cons.
  unfold ht_timeline_listener_container_register_listener.
  apply wp_bind. eapply load_container_spec; [done|]. apply wp_bind, lock_spec; [done|].
  apply wp_bind. eapply load_container_spec; [done|]. apply wp_bind, wp_zoom.
  eapply wp_mono; [apply (bag_add_room _ _ _ _ _ R Hr1 Hr2)|].
  intros [err b] h' (->&->&Ecap&Emin&Ed&Elen&R'). apply wp_bind, store_container_spec; [done|].
  apply wp_bind, unlock_spec; [apply lookup_insert_eq|]. apply wp_ret. split; [done|]. exists b.
  match goal with |- ?s' = _ /\ _ => assert (Es : s' = set_containers <[p := set_entries b c]> s) end.
  { destruct s. unfold set_mutexes, set_containers. simpl in *. by rewrite insert_insert_eq, insert_id. }
  rewrite Es. split_and!; try done. split; simpl; try done.
  - apply lookup_insert_eq.
  - by rewrite Ed.
Qed.

Lemma mutex_create_spec s (Q : ptr -> sys E -> Prop) :
  (forall h, heap_with (sheap s) (blocks (sheap s)) h -> Q NULL (update h s)) ->
  (forall m h, m <> NULL -> blocks (sheap s) !! m = None ->
     blocks h = <[m := sizeof_HT_Mutex]> (blocks (sheap s)) ->
     Q m (set_mutexes <[m := false]> (update h s))) ->
  wp ht_mutex_create Q s.
Proof.
  intros Hfail Hok. unfold ht_mutex_create. apply wp_bind, wp_zoom, ht_alloc_spec.
  - intros h Hw. rewrite decide_True by done. apply wp_ret. by apply Hfail.
  - intros m h Hm _ Hfr (Eh&_&_). rewrite decide_False by done. wp_steps. by apply Hok.
Qed.

Lemma mutex_destroy_spec m n s (Q : () -> sys E -> Prop) :
  mutexes s !! m = Some false -> m <> NULL -> blocks (sheap s) !! m = Some n ->
  (forall h, blocks h = delete m (blocks (sheap s)) -> Q tt (update h (set_mutexes (delete m) s))) ->
  wp (ht_mutex_destroy m) Q s.
Proof.
  intros Hm Hn Hl HQ. unfold ht_mutex_destroy. wp_steps. rewrite bool_decide_true by done. simpl. wp_steps.
  apply (ht_free_spec m n); [done|done|]. intros h (Eh&_&_). by apply HQ.
Qed.

Lemma container_create_spec s :
  wp ht_timeline_listener_container_create (fun p s' =>
    senv s' = senv s /\ current_identifier s' = current_identifier s /\ klasses s' = klasses s /\
    registry s' = registry s /\
    if decide (p = NULL) then
      blocks (sheap s') = blocks (sheap s) /\ mutexes s' = mutexes s /\ containers s' = containers s
    else exists c, cont_rep s' p c [] /\ cont_room c /\ length (cells (entries c)) = 16%nat /\
      capacity (entries c) = 16 /\ refcount c = 1 /\ cid c = 0 /\
      frame [] (cont_ptrs p c) (blocks (sheap s)) (blocks (sheap s')) /\
      blocks (sheap s) !! cmutex c = None /\
      mutexes s' = <[cmutex c := false]> (mutexes s) /\ containers s' = <[p := c]> (containers s)) s.
Proof.
  unfold ht_timeline_listener_container_create. apply wp_bind, wp_zoom, ht_alloc_spec.
  { intros h1 (E1&_&_). rewrite decide_True by done. by wp_steps. }
  intros p h1 Hp _ Hfr1 (E1&_&_). rewrite decide_False by done. apply wp_bind, wp_zoom.
  eapply wp_mono; [apply (bag_init_spec sizeof_HT_TimelineListenerEntry 16);
                     unfold sizeof_HT_TimelineListenerEntry; lia|].
  simpl. rewrite E1. intros [e|b] h2; cbn beta iota.
  { intros (->&E2&_). apply wp_bind, wp_zoom. eapply (ht_free_spec p); [done|simpl; by rewrite E2, lookup_insert_eq|].
    intros h3 (E3&_&_). wp_steps. simpl in *. by rewrite E3, E2, delete_insert_id. }
  intros (R&_&Emin&Ecap&Elen&Hfr2&E2&_&_). pose proof (rep_data R) as Hdn.
  assert (Hdp : data b <> p) by (intros Eq; rewrite Eq, lookup_insert_eq in Hfr2; done).
  set (l2 := <[data b := 16 * sizeof_HT_TimelineListenerEntry]> _) in E2.
  assert (Hfr12 : frame [] [data b; p] (blocks (sheap s)) l2).
  { eapply frame_trans; [by apply (frame_insert [] p sizeof_HT_TimelineListenerContainer)|]. by apply frame_insert. }
  apply wp_bind, mutex_create_spec; simpl.
  - intros h3 (E3&_&_). apply wp_bind, wp_zoom. simpl.
    eapply wp_mono; [eapply bag_deinit_spec; by rewrite E3, E2 in *|].
    intros _ h4 (_&_&_&E4&_&_). apply wp_bind, wp_zoom.
    eapply (ht_free_spec p); [done|simpl; rewrite E4, E3, E2; unfold l2; by rewrite lookup_delete_ne, lookup_insert_ne, lookup_insert_eq|].
    intros h5 (E5&_&_). wp_steps. simpl in *. split_and!; try done.
    rewrite E5, E4, E3, E2. unfold l2. by rewrite !delete_insert_id.
  - intros m h3 Hm Hfm E3. rewrite decide_False by done. rewrite E2 in Hfm, E3.
    assert (m <> p /\ m <> data b) as [Hmp Hmd].
    { unfold l2 in Hfm. split; intros ->; [rewrite (lookup_insert_ne _ (data b)), lookup_insert_eq in Hfm by done|
                         rewrite lookup_insert_eq in Hfm]; done. }
    apply wp_bind, store_container_spec.
    { simpl. rewrite E3, lookup_insert_ne by done. unfold l2. rewrite lookup_insert_ne, lookup_insert_eq by done. eauto. }
    apply wp_ret. simpl. rewrite decide_False by done. split_and!; try done.
    assert (Hfinal : frame [] [p; data b; m] (blocks (sheap s)) (blocks h3)).
    { rewrite E3. eapply frame_trans; [exact Hfr12|].
      rewrite (Permutation_swap (data b) p [m]), <- (Permutation_cons_append [data b; p] m). by apply frame_insert. }
    exists (Container b m 0 1). split_and!; try done.
    + split; simpl; try done; try lia.
      * apply lookup_insert_eq.
      * eapply rep_live_mono; [|exact R]. rewrite E3, E2. by rewrite lookup_insert_ne.
      * apply lookup_insert_eq.
      * repeat constructor; try done; rewrite E3.
        -- rewrite lookup_insert_ne by done. unfold l2. rewrite lookup_insert_ne, lookup_insert_eq by done. eauto.
        -- rewrite lookup_insert_eq. eauto.
      * repeat (apply NoDup_cons; split); rewrite ?not_elem_of_cons; split_and?; try apply not_elem_of_nil; try done.
        constructor.
    + unfold cont_room. simpl. rewrite (rep_size R), Ecap, Elen. simpl. lia.
    + simpl. lia.
    + simpl. unfold l2 in Hfm. by rewrite !lookup_insert_ne in Hfm by done.
Qed.

Lemma container_ref_spec p c es s :
  cont_rep s p c es -> refcount c + 1 < 2 ^ 32 ->
  wp (ht_timeline_listener_container_ref p) (fun _ s' =>
    s' = set_containers <[p := set_refcount (refcount c + 1) c]> s) s.
Proof.
  intros [Hc R Hm Hl _ Hrc] Hmax. pose proof Hl as [[_ Hpl] _]%Forall_cons.
  unfold ht_timeline_listener_container_ref.
  apply wp_bind. eapply load_container_spec; [done|]. apply wp_bind, lock_spec; [done|].
  apply wp_bind. eapply load_container_spec; [done|]. rewrite u32_small by lia.
  apply wp_bind, store_container_spec; [done|]. apply unlock_spec; [apply lookup_insert_eq|].
  destruct s. unfold set_mutexes, set_containers. simpl in *. by rewrite insert_insert_eq, insert_id.
Qed.

(** While the container is locked: the destroy callbacks run, once each and
    in order, and no listener is left. *)
Lemma unregister_all_locked p c es s :
  containers s !! p = Some c -> is_Some (blocks (sheap s) !! p) -> p <> data (entries c) ->
  bag_rep sizeof_HT_TimelineListenerEntry (entries c) es (blocks (sheap s)) ->
  wp (_ht_timeline_listener_container_unregister_all_listeners p) (fun _ s' => exists b h,
    s' = set_containers <[p := set_entries b c]> (update h (set_env (destroy_env es) s)) /\
    bag_rep sizeof_HT_TimelineListenerEntry b [] (blocks h) /\
    replaced (data (entries c)) (data b) (blocks (sheap s)) (blocks h)) s.
Proof.
  intros Hc Hl Hne R. unfold _ht_timeline_listener_container_unregister_all_listeners.
  eapply wp_call; [by eapply destroy_entries_spec|]. intros _ s1 ->.
  apply wp_bind. eapply load_container_spec; [done|]. apply wp_bind, wp_zoom.
  eapply wp_mono; [by apply (bag_clear_spec sizeof_HT_TimelineListenerEntry _ es)|].
  intros b h ((R'&_&Hrep&_)&_). apply store_container_spec.
  - simpl. destruct (replaced_other _ _ _ _ p Hrep Hne Hl) as [_ ->]. done.
  - by exists b, h.
Qed.

Lemma container_unref_shared p c es s :
  cont_rep s p c es -> 1 < refcount c ->
  wp (ht_timeline_listener_container_unref p) (fun _ s' =>
    s' = set_containers <[p := set_refcount (refcount c - 1) c]> s) s.
Proof.
  intros [Hc R Hm Hl _ Hrc] Hmany. pose proof Hl as [[_ Hpl] _]%Forall_cons.
  unfold ht_timeline_listener_container_unref.
  apply wp_bind. eapply load_container_spec; [done|]. apply wp_bind, lock_spec; [done|].
  apply wp_bind. eapply load_container_spec; [done|]. rewrite u32_small by lia.
  apply wp_bind, store_container_spec; [done|]. rewrite decide_False by lia.
  apply unlock_spec; [apply lookup_insert_eq|].
  destruct s. unfold set_mutexes, set_containers. simpl in *. by rewrite insert_insert_eq, insert_id.
Qed.

(** The last reference: the listeners are destroyed and every block of the
    container is released. *)
Lemma container_unref_last p c es s :
  cont_rep s p c es -> refcount c = 1 ->
  wp (ht_timeline_listener_container_unref p) (fun _ s' =>
    senv s' = destroy_env es (senv s) /\ current_identifier s' = current_identifier s /\ klasses s' = klasses s /\
    registry s' = registry s /\
    mutexes s' = delete (cmutex c) (mutexes s) /\ containers s' = delete p (containers s) /\
    frame (cont_ptrs p c) [] (blocks (sheap s)) (blocks (sheap s'))) s.
Proof.
  intros [Hc R Hm Hl Hnd Hrc] Hone. apply Forall_cons in Hl as [[Hp Hpl] Hl]. apply Forall_cons in Hl as [[Hmn Hml] _].
  apply NoDup_cons in Hnd as [Hpn Hnd]. apply NoDup_cons in Hnd as [Hdm _].
  rewrite list_elem_of_singleton in Hdm. apply not_elem_of_cons in Hpn as [Hpd Hpm%not_elem_of_cons].
  destruct Hpm as [Hpm _]. unfold ht_timeline_listener_container_unref.
  apply wp_bind. eapply load_container_spec; [done|]. apply wp_bind, lock_spec; [done|].
  apply wp_bind. eapply load_container_spec; [done|]. rewrite Hone. change (u32 (1 - 1)) with 0.
  apply wp_bind, store_container_spec; [done|]. rewrite decide_True by done.
  eapply wp_call; [apply (unregister_all_locked p (set_refcount 0 c) es); try done; apply lookup_insert_eq|].
  intros _ s1 (b&h&->&Rb&Hrep). simpl in Hrep.
  destruct (replaced_other _ _ _ _ p Hrep Hpd Hpl) as [Hpb Ep].
  destruct (replaced_other _ _ _ _ (cmutex c) Hrep (not_eq_sym Hdm) Hml) as [Hmb Em].
  apply wp_bind. eapply load_container_spec; [apply lookup_insert_eq|]. apply wp_bind, wp_zoom.
  eapply wp_mono; [by eapply bag_deinit_spec|]. intros b' h2 (_&_&_&E2&_&_). simpl in E2.
  apply wp_bind, store_container_spec; [simpl; by rewrite E2, lookup_delete_ne, Ep|].
  apply wp_bind, unlock_spec; [apply lookup_insert_eq|]. destruct Hml as [nm Hml], Hpl as [np Hpl].
  apply wp_bind. eapply (mutex_destroy_spec _ nm); [apply lookup_insert_eq|done| |].
  { simpl. by rewrite E2, lookup_delete_ne, Em. }
  intros h3 E3. simpl in E3. apply wp_bind, wp_modify, wp_zoom.
  apply (ht_free_spec p np); [done| |].
  { simpl. by rewrite E3, E2, !lookup_delete_ne, Ep by done. }
  intros h4 (E4&_&_). simpl in *. split_and!; try done.
  - by rewrite delete_insert_eq, delete_insert_eq.
  - by rewrite !delete_insert_eq.
  - rewrite E4, E3, E2. apply (frame_trans _ [p; data b; cmutex c] _ _ (blocks h)).
    + apply (frame_app [p] [cmutex c] [data (entries c)] [data b]); [by apply replaced_frame|].
      intros r [Eq|Eq%list_elem_of_singleton]%elem_of_cons; rewrite list_elem_of_singleton, Eq; split; eauto.
    + rewrite (Permutation_swap (data b) p). eapply frame_trans; [apply frame_delete|].
      rewrite (Permutation_swap (cmutex c) p). eapply frame_trans; [apply frame_delete|]. apply frame_delete.
Qed.

(** ** The life of a container *)

Record registration := Registration { rcallback : ptr; ruser_data : ptr; rdestroy : ptr }.

Definition entry_of (r : registration) : HT_TimelineListenerEntry :=
  ListenerEntry (rcallback r) (ruser_data r) (rdestroy r).

Fixpoint register_all (p : ptr) (rs : list registration) : ST (sys E) (list HT_ErrorCode) :=
  match rs with
  | [] => mret []
  | r :: rs =>
      err ← ht_timeline_listener_container_register_listener p (rcallback r) (ruser_data r) (rdestroy r);
      errs ← register_all p rs;
      mret (err :: errs)
  end.

Fixpoint notify_all (p : ptr) (batches : list (list memval * bool)) : ST (sys E) () :=
  match batches with
  | [] => mret ()
  | b :: batches =>
      ht_timeline_listener_container_notify_listeners p b.1 b.2;;
      notify_all p batches
  end.

Definition container_lifetime (rs : list registration) (batches : list (list memval * bool))
    : ST (sys E) (option (list HT_ErrorCode)) :=
  p ← ht_timeline_listener_container_create;
  if decide (p = NULL) then mret None
  else
    errs ← register_all p rs;
    notify_all p batches;;
    ht_timeline_listener_container_unref p;;
    mret (Some errs).

(** Every batch goes to every listener, then the listeners are destroyed. *)
Definition deliver_all (es : list HT_TimelineListenerEntry) (batches : list (list memval * bool)) (env : E) : E :=
  foldl (fun env b => notify_env es b.1 b.2 env) env batches.

(** The objects of the library are allocated. *)
Definition sys_wf s : Prop :=
  (forall m, is_Some (mutexes s !! m) -> is_Some (blocks (sheap s) !! m)) /\
  (forall p, is_Some (containers s !! p) -> is_Some (blocks (sheap s) !! p)).

Lemma register_all_spec p c es rs s :
  cont_rep s p c es -> capacity (entries c) = 16 -> length (cells (entries c)) = 16%nat ->
  (length es + length rs <= 16)%nat ->
  wp (register_all p rs) (fun errs s' => Forall (fun e => e = HT_ERR_OK) errs /\ exists b,
    s' = set_containers <[p := set_entries b c]> s /\ data b = data (entries c) /\
    cont_rep s' p (set_entries b c) (es ++ (entry_of <$> rs))) s.
Proof.
  revert c es s. induction rs as [|r rs IH]; intros c es s CR Hcap Hlen Hfit; simpl.
  { wp_steps. split; [constructor|]. exists (entries c). simpl. rewrite app_nil_r.
    assert (Eq : set_containers <[p := set_entries (entries c) c]> s = s).
    { destruct s, c. unfold set_containers, set_entries. simpl. f_equal. apply insert_id, (cr_lookup _ _ _ _ CR). }
    rewrite Eq. split_and!; try done. by destruct c. }
  simpl in Hfit. pose proof (rep_size (cr_bag _ _ _ _ CR)) as Hs.
  eapply wp_call; [apply (register_spec p c es); [done|split; lia]|].
  intros err s1 (->&b&->&CR1&Edata&Ecap&Elen). eapply wp_call.
  { apply (IH (set_entries b c) (es ++ [entry_of r])); simpl; try congruence; [done|]. rewrite length_app. simpl. lia. }
  intros errs s2 (HF&b2&->&Ed&CR2). wp_steps. split; [by constructor|]. exists b2.
  assert (Eq : set_containers <[p := set_entries b2 (set_entries b c)]> (set_containers <[p := set_entries b c]> s)
    = set_containers <[p := set_entries b2 c]> s).
  { destruct s. unfold set_containers. simpl. by rewrite insert_insert_eq. }
  rewrite Eq in CR2 |- *. rewrite <- app_assoc in CR2. split_and!; try done. simpl in Ed. congruence.
Qed.

Lemma notify_all_spec p c es batches s :
  cont_rep s p c es ->
  wp (notify_all p batches) (fun _ s' => s' = set_env (deliver_all es batches) s) s.
Proof.
  revert s. induction batches as [|b batches IH]; intros s CR; simpl.
  - wp_steps. unfold deliver_all. simpl. by rewrite set_env_id.
  - eapply wp_call; [by apply (notify_spec p c es)|]. intros _ s1 ->.
    eapply wp_mono; [by apply IH, cont_rep_env|]. by intros _ s2 ->.
Qed.

(** C29: the life of a listener container.  Under every allocator, a
    container that is created, takes up to 16 listeners, is notified of any
    batches and loses its only reference calls every listener with every
    batch, in order of registration and of arrival, then runs the destroy
    callback of every listener that has one, once, and leaves the heap, the
    mutexes and the containers as they were; if it cannot be created nothing
    changes. *)
Theorem container_lifetime_delivers rs batches s :
  sys_wf s -> (length rs <= 16)%nat ->
  wp (container_lifetime rs batches) (fun r s' =>
    blocks (sheap s') = blocks (sheap s) /\ mutexes s' = mutexes s /\ containers s' = containers s /\
    match r with
    | None => senv s' = senv s
    | Some errs => Forall (fun e => e = HT_ERR_OK) errs /\
        senv s' = destroy_env (entry_of <$> rs) (deliver_all (entry_of <$> rs) batches (senv s))
    end) s.
Proof.
  intros [Hwm Hwc] Hn. unfold container_lifetime. eapply wp_call; [apply container_create_spec|].
  intros p s1 (Ee&_&_&_&Hp). case_decide as Hnull; [wp_steps; by destruct Hp as (?&?&?)|].
  destruct Hp as (c&CR&_&Hlen&Hcap&Hrc&_&Hfr1&Hm&Em&Ec). pose proof CR as [_ _ _ Hlive _ _].
  eapply wp_call; [by apply (register_all_spec p c [] rs)|]. intros errs s2 (HF&b&->&Ed&CR2).
  eapply wp_call; [by apply (notify_all_spec p _ _ batches _ CR2)|]. intros _ s3 ->.
  eapply wp_call; [by apply (container_unref_last p (set_entries b c) (entry_of <$> rs)); [apply cont_rep_env|]|].
  intros _ s4 (Ee4&_&_&_&Em4&Ec4&Hfr4). wp_steps. simpl in *. rewrite Ee4, Em4, Ec4, Em, Ec, Ee.
  assert (Hpfree : blocks (sheap s) !! p = None).
  { destruct Hfr1 as [A _]. destruct (blocks (sheap s) !! p) eqn:Eq; [|done].
    destruct (A p) as [Hin _]; [apply not_elem_of_nil|eauto|]. exfalso. apply Hin. left. }
  split_and!; try done.
  - apply frame_nil. eapply frame_trans; [exact Hfr1|]. unfold cont_ptrs in *. simpl in Hfr4. by rewrite Ed in Hfr4.
  - rewrite delete_insert_id; [done|]. destruct (mutexes s !! cmutex c) eqn:Eq; [|done].
    destruct (Hwm (cmutex c)) as [? ?]; [eauto|congruence].
  - rewrite insert_insert_eq, delete_insert_id; [done|]. destruct (containers s !! p) eqn:Eq; [|done].
    destruct (Hwc p) as [? ?]; [eauto|congruence].
Qed.

(** A full bag of elements of 24 bytes cannot grow: the new block ends before
    the place of the new element. *)
Lemma full_bag_overflows (b : bag HT_TimelineListenerEntry) es e h :
  bag_rep sizeof_HT_TimelineListenerEntry b es (blocks h) -> capacity b = size b ->
  exists q h', ht_realloc (data b) (capacity b * 2 * 8) h = Done (q, h') /\
    if decide (q = NULL) then blocks h' = blocks h /\ ht_bag_add sizeof_HT_TimelineListenerEntry b e h = Done ((HT_ERR_OUT_OF_MEMORY, b), h')
    else blocks h' !! q = Some (capacity b * 2 * 8) /\ capacity b * 2 * 8 <= size b * sizeof_HT_TimelineListenerEntry /\
      ht_bag_add sizeof_HT_TimelineListenerEntry b e h = Undef.
Proof.
  intros R Hfull. pose proof (rep_min R). pose proof (rep_max R). destruct (rep_live R) as (n&Hl&_). pose proof (rep_data R).
  unfold sizeof_HT_TimelineListenerEntry in *.
  assert (Hw : wp (ht_realloc (data b) (capacity b * 2 * 8)) (fun q h' => if decide (q = NULL) then blocks h' = blocks h
    else blocks h' !! q = Some (capacity b * 2 * 8)) h).
  { apply (ht_realloc_spec _ _ n); [done|lia|done|intros h' (->&_); by rewrite decide_True by done|].
    intros q h' Hq _ _ (->&_). rewrite decide_False by done. apply lookup_insert_eq. }
  destruct (wp_inv _ _ _ Hw) as (q&h'&Eq&Hq). exists q, h'. split; [done|]. unfold ht_bag_add. rewrite (decide_True (P := capacity b = size b)) by done.
  unfold ht_bag_resize_. rewrite !u64_small by lia. unfold mbind, st_bind. rewrite Eq. destruct (decide (q = NULL)) as [Hn|Hn]; [done|]. split_and!; [done|lia|]. cbn [mret st_ret set_size size cells].
  unfold slot_write. rewrite decide_False; [done|]. rewrite length_resize.
  assert (capacity b * 2 * 8 / 24 < size b) by (apply Z.div_lt_upper_bound; lia). lia.
Qed.

(** C33: a container never takes more listeners than it was made for.  A
    registration in a container that has room for it is defined and succeeds.  When
    all slots are taken (16 after its creation), it asks for a block of the size
    of 32 pointers where 16 entries of three words are to be kept: if the block
    is refused, it fails with HT_ERR_OUT_OF_MEMORY and the container stays as it
    was; if it is granted, the new entry is written past its end. *)
Theorem full_container_overflows p c es cb ud d s :
  cont_rep s p c es ->
  (cont_room c -> exists s' b, ht_timeline_listener_container_register_listener p cb ud d s = Done (HT_ERR_OK, s') /\
     cont_rep s' p (set_entries b c) (es ++ [ListenerEntry cb ud d])) /\
  (capacity (entries c) = size (entries c) ->
     let bytes := capacity (entries c) * 2 * 8 in
     exists q h', ht_realloc (data (entries c)) bytes (sheap s) = Done (q, h') /\
       if decide (q = NULL)
       then exists s', ht_timeline_listener_container_register_listener p cb ud d s = Done (HT_ERR_OUT_OF_MEMORY, s') /\ cont_rep s' p c es
       else blocks h' !! q = Some bytes /\ bytes <= size (entries c) * sizeof_HT_TimelineListenerEntry /\
         ht_timeline_listener_container_register_listener p cb ud d s = Undef).
Proof.
  intros CR. split.
  - intros Hroom. destruct (wp_inv _ _ _ (register_spec p c es cb ud d s CR Hroom)) as (err&s'&Er&->&b&_&CR'&_). by exists s', b.
  - intros Hfull bytes. destruct CR as [Hc R Hm Hl Hnd Hrc]. pose proof Hl as [[_ [n Hpl]] _]%Forall_cons.
    destruct (full_bag_overflows (entries c) es (ListenerEntry cb ud d) (sheap s) R Hfull) as (q&h'&Eq&Hb). exists q, h'. split; [done|].
    unfold ht_timeline_listener_container_register_listener, load_container, ht_mutex_lock.
    unfold mbind, st_bind, get, some_or_undef. rewrite Hc. unfold mret, st_ret. rewrite bool_decide_true by done.
    simpl. rewrite Hc. unfold zoom. simpl. destruct (decide (q = NULL)).
    + destruct Hb as [Eb Ea]. rewrite Ea. unfold store_container, mbind, st_bind, get, require, put. simpl. rewrite Eb.
      rewrite bool_decide_true by (rewrite Hpl; eauto). unfold ht_mutex_unlock, mbind, st_bind, get, require, modify. simpl.
      rewrite lookup_insert_eq, bool_decide_true by done. eexists. split; [done|]. assert (set_entries (entries c) c = c) as Ec by (by destruct c).
      split; simpl; rewrite ?Ec, ?Eb; try done; [apply lookup_insert_eq|by rewrite insert_insert_eq, lookup_insert_eq].
    + destruct Hb as (E1&E2&Ea). by rewrite Ea.
Qed.

End listeners.

(** ** Concrete containers *)

Section samples.

(** An environment that logs what listeners receive, by their user data. *)
Inductive call := Called (ud : ptr) (events : list memval) (ser : bool) | Destroyed (ud : ptr).

#[local] Instance log_host : Host (list call) := {
  run_listener _ events ser ud log := log ++ [Called ud events ser];
  run_destroy _ ud log := log ++ [Destroyed ud];
  read_clock log := (Z.of_nat (length log), log)
}.

Definition empty_sys : sys (list call) := Sys empty_heap ∅ ∅ 0 ∅ static_registry [].

Lemma empty_sys_wf : sys_wf empty_sys.
Proof. split; intros ? [? ?]; set_solver. Qed.

Definition two_listeners : list registration := [Registration 100 1 NULL; Registration 100 2 200].

Definition two_batches : list (list memval * bool) := [([Byte 7], true); ([Byte 8], true)].

Lemma container_lifetime_delivers_witness :
  destroy_env (entry_of <$> two_listeners) (deliver_all (entry_of <$> two_listeners) two_batches (senv empty_sys))
    = [Called 1 [Byte 7] true; Called 2 [Byte 7] true; Called 1 [Byte 8] true;
       Called 2 [Byte 8] true; Destroyed 2] /\
  wp (container_lifetime (H := always_granted) two_listeners two_batches)
    (fun r s' => blocks (sheap s') = blocks (sheap empty_sys) /\ mutexes s' = mutexes empty_sys /\
      containers s' = containers empty_sys /\
      match r with
      | None => senv s' = senv empty_sys
      | Some errs => Forall (fun e => e = HT_ERR_OK) errs /\
          senv s' = destroy_env (entry_of <$> two_listeners)
                      (deliver_all (entry_of <$> two_listeners) two_batches (senv empty_sys))
      end) empty_sys.
Proof.
  split; [reflexivity|].
  apply (container_lifetime_delivers (H := always_granted) two_listeners two_batches empty_sys).
  - exact empty_sys_wf.
  - simpl. lia.
Defined.

Definition full_entries : list HT_TimelineListenerEntry := replicate 16 (ListenerEntry 100 1 NULL).

Definition full_container : HT_TimelineListenerContainer :=
  Container (Bag 16 16 16 2 (Some <$> full_entries)) 3 0 1.

Definition full_sys : sys (list call) :=
  Sys {| blocks := <[1 := 48]> (<[2 := 384]> (<[3 := 40]> ∅)); requests := 3;
         realloc_fnc_ := NULL; user_data_ := NULL |}
      (<[3 := false]> ∅) (<[1 := full_container]> ∅) 0 ∅ static_registry [].

Lemma full_sys_rep : cont_rep full_sys 1 full_container full_entries.
Proof.
  split; try done.
  - split; try done; [exists 384; by split|by exists 0].
  - repeat constructor; simpl; eauto; done.
  - apply (bool_decide_unpack _). by vm_compute.
Qed.

Lemma full_container_overflows_witness :
  exists q h', ht_realloc (H := always_granted) 2 256 (sheap full_sys) = Done (q, h') /\ q <> NULL /\
    blocks h' !! q = Some 256 /\ 256 <= 16 * sizeof_HT_TimelineListenerEntry /\
    ht_timeline_listener_container_register_listener (H := always_granted) 1 100 1 NULL full_sys = Undef.
Proof.
  destruct (proj2 (full_container_overflows (H := always_granted) 1 full_container full_entries 100 1 NULL full_sys full_sys_rep) eq_refl) as (q&h'&Eq&Hq).
  exists q, h'. split; [exact Eq|]. destruct (decide (q = NULL)) as [->|Hn].
  - exfalso. vm_compute in Eq. discriminate Eq.
  - split; [exact Hn|]. exact Hq.
Defined.

(** The overflow of the listeners' bag on concrete runs.  Registering
    17 listeners in a new container is undefined behaviour although every
    allocation succeeds; after ht_timeline_unregister_all_listeners already
    the sixth registration is, since the block is then cut to the size of 16
    pointers. *)
Lemma listener_bag_overflow :
  (container_lifetime (H := always_granted) (replicate 17 (Registration 100 1 NULL)) [] empty_sys = Undef) /\
  (p ← ht_timeline_listener_container_create (H := always_granted);
   ht_timeline_listener_container_unregister_all_listeners (H := always_granted) p;;
   register_all (H := always_granted) p (replicate 5 (Registration 100 1 NULL)))
    empty_sys <> Undef /\
  (p ← ht_timeline_listener_container_create (H := always_granted);
   ht_timeline_listener_container_unregister_all_listeners (H := always_granted) p;;
   register_all (H := always_granted) p (replicate 6 (Registration 100 1 NULL)))
    empty_sys = Undef.
Proof. by vm_compute. Qed.

End samples.
