(* ===== verification/Registry.v ===== *)
(** The registry of klasses, features and listener containers, the metadata
    every listener is sent first, and the initialisation of the library
    (lib/registry.c, lib/system_info.c, lib/init.c and the parts of
    lib/timeline_listener.c that use the registry). *)
From S2P Require Import Prelude Alloc BaseTypes Bag HashMap Memory Events Listeners.

(** The klass instances are static objects; these are their addresses
    ([HT_EVENT_KLASS_GET]). *)
Definition at_HT_EndiannessInfoEvent : ptr := 1.
Definition at_HT_Event : ptr := 2.
Definition at_HT_EventKlassInfoEvent : ptr := 3.
Definition at_HT_EventKlassFieldInfoEvent : ptr := 4.
Definition at_HT_CallstackBaseEvent : ptr := 5.
Definition at_HT_CallstackIntEvent : ptr := 6.
Definition at_HT_CallstackStringEvent : ptr := 7.
Definition at_HT_StringMappingEvent : ptr := 8.
Definition at_HT_SystemInfoEvent : ptr := 9.

(** In the order of ht_init. *)
Definition core_klasses : list (ptr * ctype) :=
  [(at_HT_EndiannessInfoEvent, HT_EndiannessInfoEvent); (at_HT_Event, HT_Event);
   (at_HT_EventKlassInfoEvent, HT_EventKlassInfoEvent);
   (at_HT_EventKlassFieldInfoEvent, HT_EventKlassFieldInfoEvent);
   (at_HT_CallstackBaseEvent, HT_CallstackBaseEvent); (at_HT_CallstackIntEvent, HT_CallstackIntEvent);
   (at_HT_CallstackStringEvent, HT_CallstackStringEvent); (at_HT_StringMappingEvent, HT_StringMappingEvent);
   (at_HT_SystemInfoEvent, HT_SystemInfoEvent)].

(** The bytes of a string literal. *)
Fixpoint string_bytes (str : string) : list Z :=
  match str with
  | EmptyString => []
  | String a str => Z.of_N (Ascii.N_of_ascii a) :: string_bytes str
  end.

Definition HT_MKCREFLECT_TYPES_EXT_UNSIGNED_INTEGER : Z := 99.
Definition REGISTRY_LISETNER_BUFF_SIZE : Z := 4096.
Definition HT_VERSION_MAJOR : Z := 0.
Definition HT_VERSION_MINOR : Z := 11.
Definition HT_VERSION_PATCH : Z := 0.

Definition set_listeners_register (b : bag ptr) (r : HT_Registry) : HT_Registry :=
  MkRegistry (event_klass_register r) b (feature_register r) (listeners_register_mutex r)
    (features_register_mutex r) (event_klass_registry_register_mutex r) (feature_count r) (_ht_init_counter r).
Definition set_event_klass_register (b : bag ptr) (r : HT_Registry) : HT_Registry :=
  MkRegistry b (listeners_register r) (feature_register r) (listeners_register_mutex r)
    (features_register_mutex r) (event_klass_registry_register_mutex r) (feature_count r) (_ht_init_counter r).
Definition set_features (l : list bool) (n : Z) (r : HT_Registry) : HT_Registry :=
  MkRegistry (event_klass_register r) (listeners_register r) l (listeners_register_mutex r)
    (features_register_mutex r) (event_klass_registry_register_mutex r) n (_ht_init_counter r).
Definition set_init_counter (n : Z) (r : HT_Registry) : HT_Registry :=
  MkRegistry (event_klass_register r) (listeners_register r) (feature_register r) (listeners_register_mutex r)
    (features_register_mutex r) (event_klass_registry_register_mutex r) (feature_count r) n.
Definition set_reg_mutexes (a b c : ptr) (r : HT_Registry) : HT_Registry :=
  MkRegistry (event_klass_register r) (listeners_register r) (feature_register r) a b c
    (feature_count r) (_ht_init_counter r).

Section registry.
  Context `{Malloc} `{Platform} {E : Type} `{Host E}.
  Implicit Types s : sys E.

Definition modify_registry (f : HT_Registry -> HT_Registry) : ST (sys E) () :=
  modify (fun s => set_registry (f (registry s)) s).

(** ** Features *)

(** The argument and the second result are klass->id before and after. *)
Definition ht_registry_register_feature (id : Z) : ST (sys E) (HT_ErrorCode * Z) :=
  r ← gets registry;
  ht_mutex_lock (features_register_mutex r);;
  '(err, feature_id) ←
    (if decide (id <> HT_INVALID_FEATURE_ID) then mret (HT_ERR_FEATURE_ALREADY_REGISTERED, id)
     else if decide (feature_count r = HT_TIMELINE_MAX_FEATURES)
     then mret (HT_ERR_MAX_FEATURE_COUNT_REACHED, HT_INVALID_FEATURE_ID)
     else
       require (bool_decide (0 <= feature_count r < Z.of_nat (length (feature_register r))));;
       modify_registry (fun r => set_features (<[Z.to_nat (feature_count r) := true]> (feature_register r))
                                              (u64 (feature_count r + 1)) r);;
       mret (HT_ERR_OK, u32 (feature_count r)));
  ht_mutex_unlock (features_register_mutex r);;
  mret (err, feature_id).

(** ** Initialisation

    A mutex that cannot be created is NULL, and the gotos release what was
    made before it. *)
Definition ht_registry_init : ST (sys E) HT_ErrorCode :=
  r1 ← zoom (ht_bag_init 8 8);
  match r1 with
  | inl error_code => mret error_code
  | inr klass_bag =>
      modify_registry (set_event_klass_register klass_bag);;
      r2 ← zoom (ht_bag_init 8 8);
      match r2 with
      | inl error_code =>
          b ← zoom (ht_bag_deinit klass_bag); modify_registry (set_event_klass_register b);;
          mret error_code
      | inr listener_bag =>
          modify_registry (set_listeners_register listener_bag);;
          let error_listeners_mutex :=
            b ← zoom (ht_bag_deinit listener_bag); modify_registry (set_listeners_register b);;
            b ← zoom (ht_bag_deinit klass_bag); modify_registry (set_event_klass_register b);;
            mret HT_ERR_OUT_OF_MEMORY in
          m1 ← ht_mutex_create;
          modify_registry (fun r => set_reg_mutexes m1 (features_register_mutex r) (event_klass_registry_register_mutex r) r);;
          if decide (m1 = NULL) then error_listeners_mutex
          else
            m2 ← ht_mutex_create;
            modify_registry (fun r => set_reg_mutexes m1 m2 (event_klass_registry_register_mutex r) r);;
            if decide (m2 = NULL) then ht_mutex_destroy m1;; error_listeners_mutex
            else
              m3 ← ht_mutex_create;
              modify_registry (set_reg_mutexes m1 m2 m3);;
              if decide (m3 = NULL) then ht_mutex_destroy m2;; ht_mutex_destroy m1;; error_listeners_mutex
              else mret HT_ERR_OK
      end
  end.

(** ** Klasses *)

Definition load_klass (p : ptr) : ST (sys E) HT_EventKlass :=
  s ← get; some_or_undef (klasses s !! p).

Definition ht_registry_register_event_klass (event_klass : ptr) : ST (sys E) Z :=
  k ← load_klass event_klass;
  (if decide (klass_id k = HT_INVALID_KLASS_ID) then
     r ← gets registry;
     ht_mutex_lock (event_klass_registry_register_mutex r);;
     '(err, b) ← zoom (ht_bag_add 8 (event_klass_register r) event_klass);
     modify_registry (set_event_klass_register b);;
     (if decide (err = HT_ERR_OK) then
        modify (set_klasses <[event_klass := EventKlass (type_info k) (ktype k) (u32 (size b - 1))]>)
      else mret ());;
     ht_mutex_unlock (event_klass_registry_register_mutex r)
   else mret ());;
  k ← load_klass event_klass;
  mret (klass_id k).

(** HT_REGISTER_EVENT_KLASS: the type description first. *)
Definition register_event_klass (p : ptr) : ST (sys E) Z :=
  k ← load_klass p;
  modify (set_klasses <[p := EventKlass (Some (get_type_info (ktype k))) (ktype k) (klass_id k)]>);;
  ht_registry_register_event_klass p.

(** The addresses of the registered klasses, as an array. *)
Definition ht_registry_get_event_klasses : ST (sys E) (Z * ptr) :=
  r ← gets registry;
  mret (size (event_klass_register r), data (event_klass_register r)).

(** ** Listener containers *)

Fixpoint find_container_loop (fuel : nat) (b : bag ptr) (id i : Z) : ST (sys E) ptr :=
  match fuel with
  | O => nofuel
  | S fuel =>
      if decide (i < size b) then
        p ← some_or_undef (ht_bag_nth b i);
        cid ← ht_timeline_listener_container_get_id p;
        if decide (cid = id) then mret p else find_container_loop fuel b id (u64 (i + 1))
      else mret NULL
  end.

Definition ht_registry_find_listener_container (name : list Z) : ST (sys E) ptr :=
  r ← gets registry;
  ht_mutex_lock (listeners_register_mutex r);;
  p ← find_container_loop (S (Z.to_nat (size (listeners_register r)))) (listeners_register r) (djb2_hash name) 0;
  ht_mutex_unlock (listeners_register_mutex r);;
  mret p.

Definition ht_registry_register_listener_container (name : list Z) (container : ptr) : ST (sys E) HT_ErrorCode :=
  p ← ht_registry_find_listener_container name;
  if decide (p <> NULL) then mret HT_ERR_LISTENER_CONTAINER_ALREADY_REGISTERED
  else
    r ← gets registry;
    ht_mutex_lock (listeners_register_mutex r);;
    ht_timeline_listener_container_set_id container (djb2_hash name);;
    ht_timeline_listener_container_ref container;;
    '(error_code, b) ← zoom (ht_bag_add 8 (listeners_register r) container);
    modify_registry (set_listeners_register b);;
    ht_mutex_unlock (listeners_register_mutex r);;
    mret error_code.

(** [name] is [None] for NULL. *)
Definition ht_find_or_create_listener (name : option (list Z)) : ST (sys E) ptr :=
  match name with
  | None => ht_timeline_listener_container_create
  | Some name =>
      container ← ht_registry_find_listener_container name;
      if decide (container = NULL) then
        container ← ht_timeline_listener_container_create;
        if decide (container <> NULL) then
          ht_registry_register_listener_container name container;; mret container
        else mret container
      else
        c ← load_container container;
        store_container container (set_refcount (u32 (refcount c + 1)) c);;
        mret container
  end.

Fixpoint unref_loop (fuel : nat) (b : bag ptr) (i : Z) : ST (sys E) () :=
  match fuel with
  | O => nofuel
  | S fuel =>
      if decide (i < size b) then
        p ← some_or_undef (ht_bag_nth b i);
        ht_timeline_listener_container_unref p;;
        unref_loop fuel b (u64 (i + 1))
      else mret ()
  end.

Definition ht_registry_deinit : ST (sys E) () :=
  r ← gets registry;
  unref_loop (S (Z.to_nat (size (listeners_register r)))) (listeners_register r) 0;;
  ht_mutex_destroy (features_register_mutex r);;
  ht_mutex_destroy (event_klass_registry_register_mutex r);;
  ht_mutex_destroy (listeners_register_mutex r);;
  b ← zoom (ht_bag_deinit (listeners_register r)); modify_registry (set_listeners_register b);;
  b ← zoom (ht_bag_deinit (event_klass_register r)); modify_registry (set_event_klass_register b).

(** ** Metadata *)

Definition cstr (str : string) : cval := VStr (Some (string_bytes str)).

Definition _ht_registry_init_event_klass_info_event (klass : HT_EventKlass) : ST (sys E) cval :=
  id ← ht_event_id_provider_next;
  timestamp ← get_timestamp;
  ti ← some_or_undef (type_info klass);
  mret (VStruct [VEvent at_HT_EventKlassInfoEvent timestamp id;
                 VScalar (klass_id klass); cstr (tname ti); VScalar (u8 (fields_count ti))]).

(** event->data_type. *)
Definition field_data_type (info : MKCREFLECT_FieldInfo) : Z :=
  match data_type info with
  | MKCREFLECT_TYPES_INTEGER =>
      if is_signed info then types_value MKCREFLECT_TYPES_INTEGER else HT_MKCREFLECT_TYPES_EXT_UNSIGNED_INTEGER
  | d => types_value d
  end.

Definition _ht_registry_init_event_klass_field_info_event (klass : HT_EventKlass) (field_id : Z) : ST (sys E) cval :=
  ti ← some_or_undef (type_info klass);
  info ← some_or_undef (tfields ti !! Z.to_nat field_id);
  id ← ht_event_id_provider_next;
  timestamp ← get_timestamp;
  mret (VStruct [VEvent at_HT_EventKlassFieldInfoEvent timestamp id;
                 VScalar (klass_id klass); cstr (field_type info); cstr (field_name info);
                 VScalar (fsize info); VScalar (field_data_type info)]).

Definition call_listener (callback : ptr) (events : list memval) (serialize : bool) (listener : ptr) : ST (sys E) () :=
  modify (set_env (run_listener callback events serialize listener)).

(** The array data[4096], *data_pos and total_size. *)
Record push_state := PushState { pdata : list memval; data_pos : Z; total_size : Z }.

(** One event: hand over what is buffered if the event does not fit, then
    append the event. *)
Definition push_info_event (event : cval) (t : ctype) (st : push_state) (callback listener : ptr) (serialize : bool)
    : ST (sys E) push_state :=
  size ← some_or_undef (get_size t event);
  st ← (if decide (size > u64 (REGISTRY_LISETNER_BUFF_SIZE - data_pos st)) then
          cells ← some_or_undef (mem_read (pdata st) 0 (data_pos st));
          call_listener callback cells serialize listener;;
          mret (PushState (pdata st) 0 (u64 (total_size st + data_pos st)))
        else mret st);
  s ← get;
  '(cells, n) ← some_or_undef
    (ht_event_utils_serialize_event_to_buffer (klasses s) event (pdata st) (data_pos st) serialize);
  mret (PushState cells (u64 (data_pos st + n)) (total_size st)).

Fixpoint push_fields_loop (fuel : nat) (klass : HT_EventKlass) (count j : Z) (st : push_state)
    (callback listener : ptr) (serialize : bool) : ST (sys E) push_state :=
  match fuel with
  | O => nofuel
  | S fuel =>
      if decide (j < count) then
        event ← _ht_registry_init_event_klass_field_info_event klass j;
        st ← push_info_event event HT_EventKlassFieldInfoEvent st callback listener serialize;
        push_fields_loop fuel klass count (u64 (j + 1)) st callback listener serialize
      else mret st
  end.

Definition _ht_registry_push_class_to_listener (klass : HT_EventKlass) (st : push_state)
    (callback listener : ptr) (serialize : bool) : ST (sys E) push_state :=
  event ← _ht_registry_init_event_klass_info_event klass;
  st ← push_info_event event HT_EventKlassInfoEvent st callback listener serialize;
  ti ← some_or_undef (type_info klass);
  push_fields_loop (S (Z.to_nat (fields_count ti))) klass (fields_count ti) 0 st callback listener serialize.

Fixpoint push_klasses_loop (fuel : nat) (b : bag ptr) (i : Z) (st : push_state)
    (callback listener : ptr) (serialize : bool) : ST (sys E) push_state :=
  match fuel with
  | O => nofuel
  | S fuel =>
      if decide (i < size b) then
        p ← some_or_undef (ht_bag_nth b i);
        k ← load_klass p;
        st ← _ht_registry_push_class_to_listener k st callback listener serialize;
        push_klasses_loop fuel b (u64 (i + 1)) st callback listener serialize
      else mret st
  end.

Definition ht_registry_push_registry_klasses_to_listener (callback listener : ptr) (serialize : bool) : ST (sys E) Z :=
  r ← gets registry;
  ht_mutex_lock (event_klass_registry_register_mutex r);;
  st ← push_klasses_loop (S (Z.to_nat (size (event_klass_register r)))) (event_klass_register r) 0
         (PushState (replicate (Z.to_nat REGISTRY_LISETNER_BUFF_SIZE) Indet) 0 0) callback listener serialize;
  ht_mutex_unlock (event_klass_registry_register_mutex r);;
  if decide (data_pos st > 0) then
    cells ← some_or_undef (mem_read (pdata st) 0 (data_pos st));
    call_listener callback cells serialize listener;;
    mret (u64 (total_size st + data_pos st))
  else mret (total_size st).

(** *(HT_Byte* )&i for an int i = 1. *)
Definition ht_system_info_get_endianness : option HT_Endianness :=
  match native_bytes 4 1 with
  | b :: _ => Some (if decide (b = 0) then HT_ENDIANNESS_BIG else HT_ENDIANNESS_LITTLE)
  | [] => None
  end.

Definition endianness_value (e : HT_Endianness) : Z :=
  match e with HT_ENDIANNESS_LITTLE => 0 | HT_ENDIANNESS_BIG => 1 end.

(** One event through a buffer of 64 bytes on the stack. *)
Definition push_single (event : cval) (callback listener : ptr) (serialize : bool) : ST (sys E) Z :=
  s ← get;
  '(buffer, data_size) ← some_or_undef
    (ht_event_utils_serialize_event_to_buffer (klasses s) event (replicate 64 Indet) 0 serialize);
  cells ← some_or_undef (mem_read buffer 0 data_size);
  call_listener callback cells serialize listener;;
  mret data_size.

Definition ht_system_info_push_system_info_to_listener (callback listener : ptr) (serialize : bool) : ST (sys E) Z :=
  push_single (VStruct [VEvent at_HT_SystemInfoEvent 0 0; VScalar HT_VERSION_MAJOR;
                        VScalar HT_VERSION_MINOR; VScalar HT_VERSION_PATCH]) callback listener serialize.

Definition ht_system_info_push_endianness_info_to_listener (callback listener : ptr) (serialize : bool) : ST (sys E) Z :=
  e ← some_or_undef ht_system_info_get_endianness;
  push_single (VStruct [VEvent at_HT_EndiannessInfoEvent 0 0; VScalar (endianness_value e)])
              callback listener serialize.

Definition ht_timeline_listener_push_metadata (callback listener : ptr) (serialize : bool) : ST (sys E) Z :=
  a ← ht_system_info_push_endianness_info_to_listener callback listener serialize;
  b ← ht_registry_push_registry_klasses_to_listener callback listener serialize;
  c ← ht_system_info_push_system_info_to_listener callback listener serialize;
  mret (u64 (u64 (a + b) + c)).

(** ** ht_init and ht_deinit *)

Fixpoint register_klasses (ps : list ptr) : ST (sys E) () :=
  match ps with
  | [] => mret ()
  | p :: ps => register_event_klass p;; register_klasses ps
  end.

(** The identifiers of the two core feature klasses (static objects of
    feature_cached_string.c and feature_callstack.c) before and after. *)
Definition ht_feature_register_core_features (cached_string callstack : Z) : ST (sys E) (Z * Z) :=
  '(_, cached_string) ← ht_registry_register_feature cached_string;
  '(_, callstack) ← ht_registry_register_feature callstack;
  mret (cached_string, callstack).

(** ht_init after the command line has been parsed. *)
Definition ht_init (cached_string callstack : Z) : ST (sys E) (Z * Z) :=
  ht_registry_init;;
  register_klasses core_klasses.*1;;
  ids ← ht_feature_register_core_features cached_string callstack;
  modify_registry (fun r => set_init_counter (_ht_init_counter r + 1) r);;
  mret ids.

Definition ht_is_initialized : ST (sys E) bool :=
  r ← gets registry; mret (bool_decide (_ht_init_counter r > 0)).

Definition ht_deinit : ST (sys E) () :=
  r ← gets registry;
  if decide (_ht_init_counter r > 0) then
    modify_registry (set_init_counter (_ht_init_counter r - 1));;
    if decide (_ht_init_counter r - 1 = 0) then ht_registry_deinit else mret ()
  else mret ().

(** ** What the metadata tells a listener *)

(** Only the environment and the identifier provider have changed. *)
Definition same_objects s s' : Prop :=
  sheap s' = sheap s /\ mutexes s' = mutexes s /\ containers s' = containers s /\
  klasses s' = klasses s /\ registry s' = registry s.

Lemma same_objects_refl s : same_objects s s.
Proof. done. Qed.

Lemma same_objects_trans s1 s2 s3 : same_objects s1 s2 -> same_objects s2 s3 -> same_objects s1 s3.
Proof. unfold same_objects. intuition congruence. Qed.

(** The buffer of [push_state] holds [content]. *)
Record push_rep (st : push_state) (content : list memval) : Prop := {
  pr_len : Z.of_nat (length (pdata st)) = REGISTRY_LISETNER_BUFF_SIZE;
  pr_pos : data_pos st = Z.of_nat (length content);
  pr_content : take (length content) (pdata st) = content
}.

Lemma push_pos_le st content : push_rep st content -> 0 <= data_pos st <= REGISTRY_LISETNER_BUFF_SIZE.
Proof. intros [Hl Hp Hc]. apply (f_equal length) in Hc. rewrite length_take in Hc. lia. Qed.

Section metadata.
  Context `{!LoggedHost E}.
  Context (callback listener : ptr).

(** A batch of serialised events, no larger than the buffer. *)
Definition small_batch (b : list memval * bool) : Prop :=
  b.2 = true /\ Z.of_nat (length b.1) <= REGISTRY_LISETNER_BUFF_SIZE.

(** From [s] to [s'] the listener is called with small batches only: with
    what was buffered, [content], then [bytes], but for [content'], which is
    buffered at the end. *)
Definition streams s (content : list memval) s' (content' bytes : list memval) : Prop :=
  exists new, received listener (senv s') = received listener (senv s) ++ new /\ Forall small_batch new /\
    concat new.*1 ++ content' = content ++ bytes.

Lemma streams_refl s content : streams s content s content [].
Proof. exists []. rewrite !app_nil_r. by split_and!. Qed.

Lemma streams_trans s1 c1 s2 c2 s3 c3 b1 b2 :
  streams s1 c1 s2 c2 b1 -> streams s2 c2 s3 c3 b2 -> streams s1 c1 s3 c3 (b1 ++ b2).
Proof.
  intros (n1&E1&F1&C1) (n2&E2&F2&C2). exists (n1 ++ n2). split_and!.
  - by rewrite E2, E1, <- app_assoc.
  - by apply Forall_app.
  - rewrite fmap_app, concat_app, <- app_assoc, C2, app_assoc, C1. by rewrite <- app_assoc.
Qed.

Lemma streams_from s1 s2 c1 s3 c3 b :
  received listener (senv s2) = received listener (senv s1) -> streams s2 c1 s3 c3 b -> streams s1 c1 s3 c3 b.
Proof. unfold streams. intros ->. done. Qed.

Lemma push_info_event_spec event t klass bs st content s :
  event_ok (klasses s) event klass bs -> ktype klass = t ->
  Z.of_nat (length bs) <= REGISTRY_LISETNER_BUFF_SIZE -> push_rep st content ->
  wp (push_info_event event t st callback listener true) (fun st' s' => exists content',
    push_rep st' content' /\ same_objects s s' /\
    streams s content s' content' (Byte <$> bs) /\
    u64 (total_size st' + data_pos st') = u64 (total_size st + data_pos st + Z.of_nat (length bs))) s.
Proof.
  intros Hok <- Hfit R. unfold push_info_event.
  assert (Hsz : get_size (ktype klass) event = Some (Z.of_nat (length bs))).
  { pose proof (klass_get_size_ok _ _ _ _ Hok) as Hg. unfold klass_get_size in Hg. by rewrite (ok_klass _ _ _ _ Hok) in Hg. }
  rewrite Hsz, some_bind. pose proof (push_pos_le _ _ R) as Hpos. unfold REGISTRY_LISETNER_BUFF_SIZE in *.
  rewrite u64_small by lia.
  assert (Hwrite : forall st1 c1 s1, push_rep st1 c1 -> data_pos st1 + Z.of_nat (length bs) <= 4096 ->
    klasses s1 = klasses s ->
    wp (s0 ← get;
        '(cells, n) ← some_or_undef (ht_event_utils_serialize_event_to_buffer (klasses s0) event (pdata st1) (data_pos st1) true);
        mret (PushState cells (u64 (data_pos st1 + n)) (total_size st1)))
      (fun st' s' => s' = s1 /\ push_rep st' (c1 ++ (Byte <$> bs)) /\ total_size st' = total_size st1 /\
         data_pos st' = data_pos st1 + Z.of_nat (length bs)) s1).
  { intros st1 c1 s1 R1 Hf1 Ek. pose proof (push_pos_le _ _ R1). destruct R1 as [Hl1 Hp1 Hc1]. wp_steps. rewrite Ek.
    unfold REGISTRY_LISETNER_BUFF_SIZE in *.
    destruct (mem_write_spec (pdata st1) (data_pos st1) (Byte <$> bs)) as (b'&Ew&Hlb&_&Ht&_); [lia|rewrite length_fmap; lia|].
    eapply wp_some; [exact (klass_serialize_done _ _ _ _ _ _ _ Hok Ew)|]. wp_steps. simpl. rewrite u64_small by lia.
    rewrite Hp1, Nat2Z.id, length_fmap, Hc1 in Ht.
    split_and!; try done. split; simpl; rewrite ?length_app, ?length_fmap; try lia; [unfold REGISTRY_LISETNER_BUFF_SIZE; lia|done]. }
  case_decide as Hd.
  - destruct R as [Hl Hp Hc]. rewrite (mem_read_prefix _ content) by done.
    apply wp_bind, wp_bind. eapply wp_some; [done|]. apply wp_bind. unfold call_listener. apply wp_modify, wp_ret.
    eapply wp_mono; [apply (Hwrite (PushState (pdata st) 0 (u64 (total_size st + data_pos st))) []); simpl; [|lia|done]|].
    { by split. }
    intros st2 s2 (->&R2&Et&Ep). simpl in *. exists (Byte <$> bs). split_and!; try done.
    + exists [(content, true)]. simpl. rewrite received_run, app_nil_r. split_and!; try done.
      constructor; [|constructor]. split; [done|]. unfold REGISTRY_LISETNER_BUFF_SIZE. simpl. lia.
    + rewrite Et, Ep. unfold u64. rewrite Z.add_0_l. by rewrite Z.add_mod_idemp_l by lia.
  - rewrite ret_bind. eapply wp_mono; [apply (Hwrite st content s R); [lia|done]|].
    intros st2 s2 (->&R2&Et&Ep). exists (content ++ (Byte <$> bs)). split_and!; try done.
    + exists []. rewrite app_nil_r. by split_and!.
    + rewrite Et, Ep. f_equal. lia.
Qed.

Definition klass_info_event (k : HT_EventKlass) (ti : MKCREFLECT_TypeInfo) (timestamp id : Z) : cval :=
  VStruct [VEvent at_HT_EventKlassInfoEvent timestamp id;
           VScalar (klass_id k); cstr (tname ti); VScalar (u8 (fields_count ti))].

Definition field_info_event (k : HT_EventKlass) (info : MKCREFLECT_FieldInfo) (timestamp id : Z) : cval :=
  VStruct [VEvent at_HT_EventKlassFieldInfoEvent timestamp id;
           VScalar (klass_id k); cstr (field_type info); cstr (field_name info);
           VScalar (fsize info); VScalar (field_data_type info)].

(** [es] tells about the klass [k]: its name and number of fields, then for
    every field in order its type, name, size and kind. *)
Definition describes (k : HT_EventKlass) (es : list pushed) : Prop :=
  exists ti e fs, type_info k = Some ti /\ es = e :: fs /\
    (exists timestamp id, pv e = klass_info_event k ti timestamp id) /\
    Forall2 (fun info f => exists timestamp id, pv f = field_info_event k info timestamp id) (tfields ti) fs.

(** The klasses of the metadata events are registered. *)
Record info_klasses (ks : klass_store) (K F : HT_EventKlass) : Prop := {
  ik_info : ks !! at_HT_EventKlassInfoEvent = Some K;
  ik_info_type : ktype K = HT_EventKlassInfoEvent;
  ik_info_ti : type_info K = Some (get_type_info HT_EventKlassInfoEvent);
  ik_field : ks !! at_HT_EventKlassFieldInfoEvent = Some F;
  ik_field_type : ktype F = HT_EventKlassFieldInfoEvent;
  ik_field_ti : type_info F = Some (get_type_info HT_EventKlassFieldInfoEvent)
}.

(** The names fit into the buffer. *)
Definition describable (k : HT_EventKlass) : Prop :=
  exists ti, type_info k = Some ti /\ fields_count ti = Z.of_nat (length (tfields ti)) /\
    Z.of_nat (length (string_bytes (tname ti))) <= 4070 /\
    Z.of_nat (length (tfields ti)) < 2 ^ 32 /\
    Forall (fun f => Z.of_nat (length (string_bytes (field_type f))) +
                     Z.of_nat (length (string_bytes (field_name f))) <= 4061) (tfields ti).

Lemma info_event_ok ks K F k ti timestamp id :
  info_klasses ks K F -> Z.of_nat (length (string_bytes (tname ti))) <= 4070 ->
  exists bs, event_ok ks (klass_info_event k ti timestamp id) K bs /\
    Z.of_nat (length bs) <= REGISTRY_LISETNER_BUFF_SIZE.
Proof.
  intros [Hk Ht Hi _ _ _] Hn. unfold REGISTRY_LISETNER_BUFF_SIZE.
  assert (exists bs, encode ks HT_EventKlassInfoEvent (klass_info_event k ti timestamp id) = Some bs /\
    Z.of_nat (length bs) = 26 + Z.of_nat (length (string_bytes (tname ti)))) as (bs&Eb&Hl).
  { eexists. split; [simpl; rewrite Hk; reflexivity|]. rewrite !length_app, !length_native_bytes. simpl. lia. }
  exists bs. split; [|lia]. split; rewrite ?Ht; try done. lia.
Qed.

Lemma field_event_ok ks K F k info timestamp id :
  info_klasses ks K F ->
  Z.of_nat (length (string_bytes (field_type info))) + Z.of_nat (length (string_bytes (field_name info))) <= 4061 ->
  exists bs, event_ok ks (field_info_event k info timestamp id) F bs /\
    Z.of_nat (length bs) <= REGISTRY_LISETNER_BUFF_SIZE.
Proof.
  intros [_ _ _ Hk Ht Hi] Hn. unfold REGISTRY_LISETNER_BUFF_SIZE.
  assert (exists bs, encode ks HT_EventKlassFieldInfoEvent (field_info_event k info timestamp id) = Some bs /\
    Z.of_nat (length bs) = 35 + Z.of_nat (length (string_bytes (field_type info))) +
                             Z.of_nat (length (string_bytes (field_name info)))) as (bs&Eb&Hl).
  { eexists. split; [simpl; rewrite Hk; reflexivity|]. rewrite !length_app, !length_native_bytes. simpl. lia. }
  exists bs. split; [|lia]. split; rewrite ?Ht; try done. lia.
Qed.

(** Reading the identifier and the clock leaves the stream alone. *)
Lemma next_id_spec s Q :
  (forall id s', same_objects s s' -> senv s' = senv s -> Q id s') -> wp ht_event_id_provider_next Q s.
Proof. intros HQ. by apply HQ. Qed.

Lemma timestamp_spec s Q :
  (forall t s', same_objects s s' -> received listener (senv s') = received listener (senv s) -> Q t s') ->
  wp get_timestamp Q s.
Proof.
  intros HQ. unfold wp, get_timestamp. pose proof (received_clock listener (senv s)) as Hc.
  destruct (read_clock (senv s)) as [ts e]. by apply HQ.
Qed.

Lemma push_fields_spec fuel K F k ti j st content s :
  info_klasses (klasses s) K F -> type_info k = Some ti ->
  fields_count ti = Z.of_nat (length (tfields ti)) -> Z.of_nat (length (tfields ti)) < 2 ^ 32 ->
  Forall (fun f => Z.of_nat (length (string_bytes (field_type f))) +
                   Z.of_nat (length (string_bytes (field_name f))) <= 4061) (tfields ti) ->
  push_rep st content -> (j <= length (tfields ti))%nat -> (length (tfields ti) - j < fuel)%nat ->
  wp (push_fields_loop fuel k (fields_count ti) (Z.of_nat j) st callback listener true) (fun st' s' => exists content' fs,
    push_rep st' content' /\ same_objects s s' /\ Forall (pushed_ok (klasses s)) fs /\
    Forall2 (fun info f => exists timestamp id, pv f = field_info_event k info timestamp id) (drop j (tfields ti)) fs /\
    streams s content s' content' (wire_cells fs) /\
    u64 (total_size st' + data_pos st') = u64 (total_size st + data_pos st + Z.of_nat (length (wire_cells fs)))) s.
Proof.
  intros IK Hti Hcnt Hmax HF. revert j st content s IK. induction fuel as [|fuel IH]; intros j st content s IK R Hj Hf; [lia|].
  cbn [push_fields_loop]. rewrite Hcnt. case_decide as Hd.
  2: { apply wp_ret. exists content, []. rewrite drop_ge by lia. split_and!; try done; try constructor.
       - apply streams_refl.
       - simpl. f_equal. lia. }
  destruct (lookup_lt_is_Some_2 (tfields ti) j) as [info Hinfo]; [lia|].
  unfold _ht_registry_init_event_klass_field_info_event. rewrite Hti.
  apply wp_bind, wp_bind. eapply wp_some; [done|]. apply wp_bind. eapply wp_some; [by rewrite Nat2Z.id|].
  apply wp_bind, next_id_spec. intros id s1 So1 Ee1. apply wp_bind, timestamp_spec. intros ts s2 So2 Er2. apply wp_ret.
  assert (So12 : same_objects s s2) by (by eapply same_objects_trans).
  assert (Ek : klasses s2 = klasses s) by apply So12.
  destruct (field_event_ok (klasses s) K F k info ts id IK) as (bs&Hok&Hfit).
  { rewrite Forall_forall in HF. apply HF. by eapply list_elem_of_lookup_2. }
  eapply wp_call.
  { apply (push_info_event_spec (field_info_event k info ts id) _ F bs st content s2); [by rewrite Ek|apply IK|done|done]. }
  intros st3 s3 (content3&R3&So3&Hstr3&Htot3).
  assert (So : same_objects s s3) by (by eapply same_objects_trans).
  rewrite u64_small by lia. replace (Z.of_nat j + 1) with (Z.of_nat (S j)) by lia. rewrite <- Hcnt.
  eapply wp_mono; [apply (IH (S j) st3 content3 s3); [by destruct So as (_&_&_&->&_)|done|lia|lia]|].
  intros st4 s4 (content4&fs&R4&So4&HF4&HF2&Hstr4&Htot4).
  exists content4, (Pushed (field_info_event k info ts id) F bs :: fs).
  destruct So as (?&?&?&Ek3&?). rewrite Ek3 in HF4.
  rewrite wire_cells_cons, (drop_S _ _ _ Hinfo). simpl pbytes.
  split_and!; try done.
  - eapply same_objects_trans; [|exact So4]. done.
  - by constructor.
  - constructor; [by exists ts, id|done].
  - apply (streams_from s s2); [by rewrite Er2, Ee1|]. by eapply streams_trans.
  - rewrite Htot4, length_app, length_fmap, Nat2Z.inj_add. unfold u64 in *.
    rewrite <- (Z.add_mod_idemp_l (total_size st3 + _)), Htot3, Z.add_mod_idemp_l by lia. f_equal. lia.
Qed.

Lemma total_trans (a b c d : Z) (n m : nat) :
  u64 b = u64 (a + Z.of_nat n) -> u64 d = u64 (b + Z.of_nat m) -> u64 d = u64 (a + Z.of_nat (n + m)).
Proof.
  intros Hab ->. unfold u64 in *. rewrite <- Z.add_mod_idemp_l, Hab, Z.add_mod_idemp_l by lia. f_equal. lia.
Qed.

Lemma push_class_spec K F k st content s :
  info_klasses (klasses s) K F -> describable k -> push_rep st content ->
  wp (_ht_registry_push_class_to_listener k st callback listener true) (fun st' s' => exists content' es,
    push_rep st' content' /\ same_objects s s' /\ Forall (pushed_ok (klasses s)) es /\ describes k es /\
    streams s content s' content' (wire_cells es) /\
    u64 (total_size st' + data_pos st') = u64 (total_size st + data_pos st + Z.of_nat (length (wire_cells es)))) s.
Proof.
  intros IK (ti&Hti&Hcnt&Hn&Hmax&HF) R.
  unfold _ht_registry_push_class_to_listener, _ht_registry_init_event_klass_info_event.
  apply wp_bind, wp_bind, next_id_spec. intros id s1 So1 Ee1. apply wp_bind, timestamp_spec.
  intros ts s2 So2 Er2. rewrite Hti. apply wp_bind. eapply wp_some; [done|]. apply wp_ret.
  assert (So12 : same_objects s s2) by (by eapply same_objects_trans).
  assert (Ek : klasses s2 = klasses s) by apply So12.
  destruct (info_event_ok (klasses s) K F k ti ts id IK Hn) as (bs&Hok&Hfit).
  eapply wp_call.
  { apply (push_info_event_spec (klass_info_event k ti ts id) _ K bs st content s2); [by rewrite Ek|apply IK|done|done]. }
  intros st3 s3 (content3&R3&So3&Hstr3&Htot3).
  assert (So : same_objects s s3) by (by eapply same_objects_trans). pose proof So as (_&_&_&Ek3&_).
  rewrite some_bind. eapply wp_mono.
  { apply (push_fields_spec _ K F k ti 0 st3 content3 s3); try done; [by rewrite Ek3|lia|lia]. }
  intros st4 s4 (content4&fs&R4&So4&HF4&HF2&Hstr4&Htot4). rewrite drop_0 in HF2. rewrite Ek3 in HF4.
  exists content4, (Pushed (klass_info_event k ti ts id) K bs :: fs). rewrite wire_cells_cons. simpl pbytes.
  split_and!; try done.
  - by eapply same_objects_trans.
  - by constructor.
  - exists ti, (Pushed (klass_info_event k ti ts id) K bs), fs. split_and!; try done. by exists ts, id.
  - apply (streams_from s s2); [by rewrite Er2, Ee1|]. by eapply streams_trans.
  - rewrite length_app, length_fmap. by eapply total_trans.
Qed.

Lemma push_klasses_spec fuel K F b ps dn r st content s :
  info_klasses (klasses s) K F -> bag_rep 8 b ps (blocks (sheap s)) -> ps = dn ++ r -> (length r < fuel)%nat ->
  Forall (fun p => exists k, klasses s !! p = Some k /\ describable k) r -> push_rep st content ->
  wp (push_klasses_loop fuel b (Z.of_nat (length dn)) st callback listener true) (fun st' s' => exists content' ess,
    push_rep st' content' /\ same_objects s s' /\ Forall (pushed_ok (klasses s)) (concat ess) /\
    Forall2 (fun p es => exists k, klasses s !! p = Some k /\ describes k es) r ess /\
    streams s content s' content' (wire_cells (concat ess)) /\
    u64 (total_size st' + data_pos st') =
      u64 (total_size st + data_pos st + Z.of_nat (length (wire_cells (concat ess))))) s.
Proof.
  revert dn r st content s. induction fuel as [|fuel IH]; intros dn r st content s IK Rb Eps Hf HF R; [lia|].
  pose proof (rep_size Rb) as Hs. pose proof (rep_cap Rb). pose proof (rep_max Rb).
  rewrite Eps, length_app in Hs. cbn [push_klasses_loop]. destruct r as [|p r]; simpl in Hs, Hf.
  { rewrite decide_False by lia. apply wp_ret. exists content, []. simpl. rewrite Z.add_0_r.
    split_and!; try done; try constructor. apply streams_refl. }
  rewrite decide_True by lia. rewrite (rep_nth 8 _ _ _ _ Rb), Eps, Nat2Z.id, list_lookup_middle, some_bind by lia.
  apply Forall_cons in HF as [(k&Hk&Hdesc) HF]. unfold load_klass. apply wp_bind. wp_steps.
  eapply wp_some; [done|]. eapply wp_call; [by apply (push_class_spec K F k st content s)|].
  intros st3 s3 (content3&es&R3&So3&HFok&Hdes&Hstr3&Htot3). pose proof So3 as (Eh&_&_&Ek3&_).
  rewrite u64_small by lia.
  replace (Z.of_nat (length dn) + 1) with (Z.of_nat (length (dn ++ [p]))) by (rewrite length_app; simpl; lia).
  eapply wp_mono.
  { apply (IH (dn ++ [p]) r st3 content3 s3); rewrite ?Ek3, ?Eh; try done; [by rewrite <- app_assoc|lia]. }
  intros st4 s4 (content4&ess&R4&So4&HF4&HF2&Hstr4&Htot4). rewrite Ek3 in HF4, HF2.
  assert (Ecells : wire_cells (concat (es :: ess)) = wire_cells es ++ wire_cells (concat ess))
    by (unfold wire_cells; simpl; by rewrite bind_app).
  exists content4, (es :: ess). rewrite Ecells. split_and!; try done.
  - by eapply same_objects_trans.
  - simpl. by apply Forall_app.
  - constructor; [by exists k|done].
  - by eapply streams_trans.
  - rewrite length_app. by eapply total_trans.
Qed.

Lemma push_registry_spec K F ps s :
  info_klasses (klasses s) K F ->
  bag_rep 8 (event_klass_register (registry s)) ps (blocks (sheap s)) ->
  Forall (fun p => exists k, klasses s !! p = Some k /\ describable k) ps ->
  mutexes s !! event_klass_registry_register_mutex (registry s) = Some false ->
  wp (ht_registry_push_registry_klasses_to_listener callback listener true) (fun n s' => exists ess,
    Forall2 (fun p es => exists k, klasses s !! p = Some k /\ describes k es) ps ess /\
    Forall (pushed_ok (klasses s)) (concat ess) /\ same_objects s s' /\
    streams s [] s' [] (wire_cells (concat ess)) /\
    u64 n = u64 (Z.of_nat (length (wire_cells (concat ess))))) s.
Proof.
  intros IK Rb HF Hm. unfold ht_registry_push_registry_klasses_to_listener. wp_step. apply wp_gets.
  set (m := event_klass_registry_register_mutex (registry s)) in *.
  apply wp_bind, lock_spec; [done|]. pose proof (rep_size Rb) as Hs.
  eapply wp_call.
  { apply (push_klasses_spec _ K F _ ps [] ps _ [] (set_mutexes <[m := true]> s)); try done; lia. }
  intros st s1 (content&ess&R&So&HFok&HF2&Hstr&Htot). destruct So as (Eh&Em&Ec&Ek&Er). simpl in *. rewrite !Z.add_0_l in Htot.
  apply wp_bind, unlock_spec; [by rewrite Em, lookup_insert_eq|].
  assert (So : same_objects s (set_mutexes <[m := false]> s1)).
  { split_and!; try done. simpl. by rewrite Em, insert_insert_eq, insert_id. }
  pose proof (push_pos_le _ _ R) as Hpos. destruct R as [Hl Hp Hc]. case_decide as Hd.
  - rewrite (mem_read_prefix _ content), some_bind by done. apply wp_bind. unfold call_listener. apply wp_modify, wp_ret.
    exists ess. split_and!; try done.
    + rewrite <- (app_nil_r (wire_cells _)). eapply streams_trans; [exact Hstr|]. exists [(content, true)]. simpl.
      rewrite received_run, !app_nil_r. split_and!; try done. constructor; [|constructor]. split; [done|simpl; lia].
    + rewrite <- Htot. unfold u64. by rewrite Z.mod_mod by lia.
  - apply wp_ret. assert (content = []) as -> by (apply length_zero_iff_nil; lia).
    exists ess. split_and!; try done. simpl in Hp. by rewrite <- Htot, Hp, Z.add_0_r.
Qed.

Definition endianness_event : cval := VStruct [VEvent at_HT_EndiannessInfoEvent 0 0; VScalar (endianness_value endianness)].

Definition system_info_event : cval :=
  VStruct [VEvent at_HT_SystemInfoEvent 0 0; VScalar HT_VERSION_MAJOR; VScalar HT_VERSION_MINOR; VScalar HT_VERSION_PATCH].

(** A klass of the library that has been registered. *)
Definition core_klass (ks : klass_store) (p : ptr) (t : ctype) (k : HT_EventKlass) : Prop :=
  ks !! p = Some k /\ ktype k = t /\ type_info k = Some (get_type_info t).

(** The function looks at the first byte of 1. *)
Lemma get_endianness_ok : ht_system_info_get_endianness = Some endianness.
Proof. unfold ht_system_info_get_endianness, native_bytes. by destruct endianness. Qed.

Lemma endianness_event_ok ks k : core_klass ks at_HT_EndiannessInfoEvent HT_EndiannessInfoEvent k ->
  exists bs, event_ok ks endianness_event k bs /\ Z.of_nat (length bs) <= 64.
Proof.
  intros (Hk&Ht&Hi).
  assert (exists bs, encode ks HT_EndiannessInfoEvent endianness_event = Some bs /\ length bs = 21%nat) as (bs&Eb&Hl).
  { eexists. split; [simpl; rewrite Hk; reflexivity|]. rewrite !length_app, !length_native_bytes. simpl. lia. }
  exists bs. split; [|lia]. split; rewrite ?Ht; try done. lia.
Qed.

Lemma system_info_event_ok ks k : core_klass ks at_HT_SystemInfoEvent HT_SystemInfoEvent k ->
  exists bs, event_ok ks system_info_event k bs /\ Z.of_nat (length bs) <= 64.
Proof.
  intros (Hk&Ht&Hi).
  assert (exists bs, encode ks HT_SystemInfoEvent system_info_event = Some bs /\ length bs = 23%nat) as (bs&Eb&Hl).
  { eexists. split; [simpl; rewrite Hk; reflexivity|]. rewrite !length_app, !length_native_bytes. simpl. lia. }
  exists bs. split; [|lia]. split; rewrite ?Ht; try done. lia.
Qed.

Lemma push_single_spec event k bs s :
  event_ok (klasses s) event k bs -> Z.of_nat (length bs) <= 64 ->
  wp (push_single event callback listener true) (fun n s' => n = Z.of_nat (length bs) /\ same_objects s s' /\
    streams s [] s' [] (Byte <$> bs)) s.
Proof.
  intros Hok Hn. unfold push_single. apply wp_bind, wp_get.
  destruct (mem_write_spec (replicate 64 Indet) 0 (Byte <$> bs)) as (b'&Ew&_&_&_&Hr);
    [lia|rewrite length_fmap, length_replicate; lia|].
  rewrite length_fmap in Hr. apply wp_bind. eapply wp_some; [exact (klass_serialize_done _ _ _ _ _ _ _ Hok Ew)|].
  cbn beta iota. rewrite Hr, some_bind. apply wp_bind. unfold call_listener. apply wp_modify, wp_ret. split_and!; try done.
  exists [(Byte <$> bs, true)]. simpl. rewrite received_run, !app_nil_r. split_and!; try done.
  constructor; [|constructor]. split; [done|]. simpl. rewrite length_fmap. unfold REGISTRY_LISETNER_BUFF_SIZE. lia.
Qed.

(** What pushing the metadata needs: the klasses of the events it consists
    of have been registered, the names of the registered klasses fit the
    buffer, and the registry is not in use. *)
Record metadata_ready s (B K F Y : HT_EventKlass) (ps : list ptr) : Prop := {
  mr_endianness : core_klass (klasses s) at_HT_EndiannessInfoEvent HT_EndiannessInfoEvent B;
  mr_system : core_klass (klasses s) at_HT_SystemInfoEvent HT_SystemInfoEvent Y;
  mr_info : info_klasses (klasses s) K F;
  mr_bag : bag_rep 8 (event_klass_register (registry s)) ps (blocks (sheap s));
  mr_names : Forall (fun p => exists k, klasses s !! p = Some k /\ describable k) ps;
  mr_mutex : mutexes s !! event_klass_registry_register_mutex (registry s) = Some false
}.

(** What the metadata consists of. *)
Definition metadata_events s (ps : list ptr) (es : list pushed) : Prop :=
  exists b ess y, es = b :: concat ess ++ [y] /\ pv b = endianness_event /\ pv y = system_info_event /\
    Forall2 (fun p es => exists k, klasses s !! p = Some k /\ describes k es) ps ess.

Lemma push_metadata_spec B K F Y ps s :
  metadata_ready s B K F Y ps ->
  wp (ht_timeline_listener_push_metadata callback listener true) (fun n s' => exists es,
    metadata_events s ps es /\ Forall (pushed_ok (klasses s)) es /\ same_objects s s' /\
    streams s [] s' [] (wire_cells es) /\ n = u64 (Z.of_nat (length (wire_cells es)))) s.
Proof.
  intros [HB HY IK Rb HF Hm]. unfold ht_timeline_listener_push_metadata, ht_system_info_push_endianness_info_to_listener,
    ht_system_info_push_system_info_to_listener. rewrite get_endianness_ok, some_bind.
  destruct (endianness_event_ok _ _ HB) as (bb&HokB&HlB). destruct (system_info_event_ok _ _ HY) as (by'&HokY&HlY).
  eapply wp_call; [by apply (push_single_spec endianness_event B bb)|]. intros a s1 (->&So1&St1).
  pose proof So1 as (Eh1&Em1&_&Ek1&Er1).
  eapply wp_call; [apply (push_registry_spec K F ps s1); rewrite ?Ek1, ?Er1, ?Eh1, ?Em1; done|].
  intros n s2 (ess&HF2&Hoks&So2&St2&Hn). pose proof So2 as (_&_&_&Ek2&_). rewrite Ek1 in HF2, Hoks, Ek2.
  eapply wp_call; [apply (push_single_spec system_info_event Y by'); rewrite ?Ek2; done|]. intros c s3 (->&So3&St3).
  apply wp_ret. set (eb := Pushed endianness_event B bb). set (ey := Pushed system_info_event Y by').
  assert (Ew : wire_cells (eb :: concat ess ++ [ey]) = (Byte <$> bb) ++ wire_cells (concat ess) ++ (Byte <$> by')).
  { rewrite wire_cells_cons. unfold wire_cells at 1. rewrite bind_app. simpl. by rewrite app_nil_r. }
  exists (eb :: concat ess ++ [ey]). rewrite Ew. split_and!.
  - by exists eb, ess, ey.
  - constructor; [done|]. apply Forall_app. split; [done|]. by constructor.
  - do 2 (eapply same_objects_trans; [done|]). done.
  - eapply streams_trans; [done|]. by eapply streams_trans.
  - rewrite !length_app, !length_fmap, !Nat2Z.inj_add. unfold u64 in *. rewrite Z.add_mod_idemp_l by lia.
    rewrite (Z.add_comm _ n), <- Z.add_assoc, <- (Z.add_mod_idemp_l n), Hn, Z.add_mod_idemp_l by lia. f_equal. lia.
Qed.

(** C20: what a listener learns before any event.  For every registry whose
    klass names fit the buffer, pushing the metadata to a listener calls it
    with serialised batches of at most 4096 bytes whose concatenation is the
    wire format of: the byte order of the machine; for every registered klass,
    in order of registration, its identifier, name and number of fields,
    then for each field in order its type, name, size and kind; the version
    of the library.  Nothing else changes, the call returns the number of
    bytes, and the buffers of 4096 and 64 bytes are never overrun. *)
Theorem metadata_describes_klasses B K F Y ps s :
  metadata_ready s B K F Y ps ->
  wp (ht_timeline_listener_push_metadata callback listener true) (fun n s' => exists es new,
    metadata_events s ps es /\ Forall (pushed_ok (klasses s)) es /\
    received listener (senv s') = received listener (senv s) ++ new /\ Forall small_batch new /\
    concat new.*1 = wire_cells es /\ same_objects s s' /\ n = u64 (Z.of_nat (length (wire_cells es)))) s.
Proof.
  intros MR. eapply wp_mono; [by apply (push_metadata_spec B K F Y ps)|].
  intros n s' (es&Hev&Hok&So&(new&Er&HF&Hc)&Hn). rewrite app_nil_r in Hc. exists es, new. by split_and!.
Qed.

End metadata.

(** ** Identifiers are positions in the register *)

(** [ps] are the registered klasses in order. *)
Record register_rep s (ps : list ptr) : Prop := {
  rr_bag : bag_rep 8 (event_klass_register (registry s)) ps (blocks (sheap s));
  rr_room : bag_room (event_klass_register (registry s));
  rr_mutex : mutexes s !! event_klass_registry_register_mutex (registry s) = Some false;
  rr_ids : forall i p, ps !! i = Some p ->
    exists k, klasses s !! p = Some k /\ klass_id k = Z.of_nat i /\ type_info k = Some (get_type_info (ktype k));
  rr_others : forall p k, klasses s !! p = Some k -> p ∉ ps -> klass_id k = HT_INVALID_KLASS_ID;
  rr_max : Z.of_nat (length ps) < HT_INVALID_KLASS_ID
}.

Lemma register_rep_klasses s ps f :
  register_rep s ps ->
  (forall p, option_map (fun k => (klass_id k, ktype k)) (f (klasses s) !! p) =
             option_map (fun k => (klass_id k, ktype k)) (klasses s !! p)) ->
  (forall p k, f (klasses s) !! p = Some k -> type_info k = Some (get_type_info (ktype k)) \/ klasses s !! p = Some k) ->
  register_rep (set_klasses f s) ps.
Proof.
  intros [Hb Hr Hm Hi Ho Hx] Hsame Hti. split; simpl; try done.
  - intros i p Hp. destruct (Hi i p Hp) as (k&Hk&Hid&Hinfo). specialize (Hsame p). rewrite Hk in Hsame.
    destruct (f (klasses s) !! p) as [k'|] eqn:E'; [|done]. simpl in Hsame. injection Hsame as Eid Et.
    exists k'. split; [done|]. split; [congruence|]. destruct (Hti p k' E') as [|E2]; [done|]. congruence.
  - intros p k Hk Hn. specialize (Hsame p). rewrite Hk in Hsame.
    destruct (klasses s !! p) as [k'|] eqn:E'; [|done]. simpl in Hsame. injection Hsame as Eid Et.
    rewrite Eid. by apply (Ho p).
Qed.

(** A klass that has an identifier is only read. *)
Lemma register_known s ps p i :
  register_rep s ps -> ps !! i = Some p ->
  wp (ht_registry_register_event_klass p) (fun id s' => id = Z.of_nat i /\ s' = s) s.
Proof.
  intros RR Hp. destruct (rr_ids _ _ RR i p Hp) as (k&Hk&Hid&_).
  assert (i < length ps)%nat by (by eapply lookup_lt_Some). pose proof (rr_max _ _ RR).
  unfold ht_registry_register_event_klass, load_klass. apply wp_bind. wp_steps. eapply wp_some; [done|].
  rewrite decide_False by lia. wp_steps. eapply wp_some; [done|]. by wp_steps.
Qed.

(** A new klass gets the next position, or none when memory is short. *)
Lemma register_new s ps p k :
  register_rep s ps -> klasses s !! p = Some k -> type_info k = Some (get_type_info (ktype k)) -> p ∉ ps ->
  Z.of_nat (length ps) + 1 < HT_INVALID_KLASS_ID ->
  wp (ht_registry_register_event_klass p) (fun id s' =>
    id = Z.of_nat (length ps) /\ register_rep s' (ps ++ [p]) \/
    id = HT_INVALID_KLASS_ID /\ register_rep s' ps) s.
Proof.
  intros RR Hk Hti Hp Hx. pose proof RR as [Hb Hr Hm Hi Ho _].
  assert (HINV : HT_INVALID_KLASS_ID = 2 ^ 32 - 1) by done.
  unfold ht_registry_register_event_klass, load_klass. apply wp_bind. wp_steps. eapply wp_some; [done|].
  rewrite decide_True by (by apply (Ho p)). apply wp_bind. wp_step. apply wp_gets.
  apply wp_bind, lock_spec; [done|]. apply wp_bind, wp_zoom.
  eapply wp_mono; [by apply (bag_add_spec 8 _ ps p); [lia| |]|]. intros [err b] h' [Hroom Herr].
  apply wp_bind. unfold modify_registry. apply wp_modify. destruct (decide (err = HT_ERR_OK)) as [->|Hne].
  - destruct Herr as [(Rb&_&_&_) _]. apply wp_bind, wp_modify.
    pose proof (rep_size Rb) as Hs. rewrite length_app in Hs. simpl in Hs. rewrite u32_small by lia.
    apply unlock_spec; [apply lookup_insert_eq|]. wp_steps. simpl. rewrite lookup_insert_eq.
    eapply wp_some; [done|]. wp_steps. left. simpl. split; [lia|].
    split; simpl; try done; rewrite ?length_app; simpl; try lia.
    + by rewrite insert_insert_eq, lookup_insert_eq.
    + intros i q [[Hlt Hq]|[-> Hq]]%lookup_snoc_Some.
      * destruct (Hi i q Hq) as (k2&Hk2&?&?). exists k2. rewrite lookup_insert_ne; [done|].
        intros ->. apply Hp. by eapply list_elem_of_lookup_2.
      * subst q. eexists. rewrite lookup_insert_eq. split; [done|]. simpl. split; [lia|done].
    + intros q k2 Hk2 Hq. rewrite not_elem_of_app, list_elem_of_singleton in Hq. destruct Hq as [Hq Hqp].
      rewrite lookup_insert_ne in Hk2 by (by apply not_eq_sym). by apply (Ho q).
  - assert (b = event_klass_register (registry s) /\ blocks h' = blocks (sheap s)) as [-> Eh]
      by (destruct err; try done; by destruct Herr as (?&?&?&?&?)).
    rewrite ret_bind. apply unlock_spec; [apply lookup_insert_eq|]. wp_steps. simpl.
    eapply wp_some; [done|]. wp_steps. right. split; [by apply (Ho p)|].
    split; simpl; try done; try lia; [by rewrite Eh|]. by rewrite insert_insert_eq, lookup_insert_eq.
Qed.

(** The identifier of a klass is its position in the register.
    Registering a klass (HT_REGISTER_EVENT_KLASS) that has an identifier
    returns it and leaves the register alone; registering a new one gives it
    the next free position, which is the identifier it then has, or no
    identifier when the register cannot grow; in every case identifiers and
    positions still agree for all klasses. *)
Theorem klass_ids_are_positions s ps p :
  register_rep s ps -> is_Some (klasses s !! p) -> Z.of_nat (length ps) + 1 < HT_INVALID_KLASS_ID ->
  wp (register_event_klass p) (fun id s' =>
    (exists i, ps !! i = Some p /\ id = Z.of_nat i /\ register_rep s' ps) \/
    (p ∉ ps) /\ (id = Z.of_nat (length ps) /\ register_rep s' (ps ++ [p]) \/
                id = HT_INVALID_KLASS_ID /\ register_rep s' ps)) s.
Proof.
  intros RR [k Hk] Hx. unfold register_event_klass, load_klass. apply wp_bind. wp_steps.
  eapply wp_some; [done|]. apply wp_bind, wp_modify. set (k' := EventKlass _ _ _).
  assert (RR1 : register_rep (set_klasses <[p := k']> s) ps).
  { apply register_rep_klasses; [done| |].
    - intros q. destruct (decide (q = p)) as [->|Hn]; [by rewrite lookup_insert_eq, Hk|by rewrite lookup_insert_ne].
    - intros q kq. destruct (decide (q = p)) as [->|Hn]; [rewrite lookup_insert_eq; intros [= <-]; by left|].
      rewrite lookup_insert_ne by done. by right. }
  destruct (decide (p ∈ ps)) as [Hin|Hnin].
  - apply list_elem_of_lookup in Hin as [i Hi]. eapply wp_mono; [by apply (register_known _ ps p i)|].
    intros id s' [-> ->]. left. by exists i.
  - eapply wp_mono; [apply (register_new _ ps p k'); try done; simpl; by rewrite lookup_insert_eq|].
    intros id s' Hres. by right.
Qed.

End registry.

(** ** Concrete registries *)

Section samples.

#[local] Existing Instance log_host.
#[local] Existing Instance little_endian.
#[local] Existing Instance always_granted.

Definition received_log (ud : ptr) (log : list call) : list (list memval * bool) :=
  log ≫= (fun c => match c with
                   | Called ud' events ser => if decide (ud' = ud) then [(events, ser)] else []
                   | Destroyed _ => []
                   end).

#[local] Instance log_logged : LoggedHost (list call).
Proof.
  refine {| received := received_log |}.
  - intros cb events ser ud e. unfold received_log. simpl. rewrite bind_app. simpl.
    by rewrite decide_True by done.
  - done.
Defined.

(** A process before ht_init. *)
Definition fresh_sys : sys (list call) :=
  Sys empty_heap ∅ ∅ 0 (list_to_map ((fun '(p, t) => (p, klass_instance t)) <$> core_klasses)) static_registry [].

Definition run_init : ST (sys (list call)) (Z * Z) := ht_init HT_INVALID_FEATURE_ID HT_INVALID_FEATURE_ID.

Definition state_after {A} (m : ST (sys (list call)) A) : sys (list call) :=
  match m fresh_sys with Done (_, s) => s | _ => fresh_sys end.

Definition ready_sys : sys (list call) := Eval vm_compute in state_after run_init.

Lemma ready_sys_metadata :
  metadata_ready ready_sys (registered HT_EndiannessInfoEvent 0) (registered HT_EventKlassInfoEvent 2)
    (registered HT_EventKlassFieldInfoEvent 3) (registered HT_SystemInfoEvent 8) [1; 2; 3; 4; 5; 6; 7; 8; 9].
Proof.
  split; try (split_and!; reflexivity).
  - split; reflexivity.
  - split; try (vm_compute; congruence).
    + eexists. split; reflexivity.
    + split; vm_compute; congruence.
    + exists 1. split; [lia|reflexivity].
  - repeat (apply Forall_cons; split; [eexists; split; [reflexivity|]; eexists; split; [reflexivity|];
      split_and!; [reflexivity|vm_compute; congruence|reflexivity|]; repeat constructor; vm_compute; congruence|]).
    constructor.
  - reflexivity.
Qed.

Lemma metadata_describes_klasses_witness :
  wp (ht_timeline_listener_push_metadata 100 1 true) (fun n s' => exists es new,
    metadata_events ready_sys [1; 2; 3; 4; 5; 6; 7; 8; 9] es /\ Forall (pushed_ok (klasses ready_sys)) es /\
    received 1 (senv s') = received 1 (senv ready_sys) ++ new /\ Forall small_batch new /\
    concat new.*1 = wire_cells es /\ same_objects ready_sys s' /\
    n = u64 (Z.of_nat (length (wire_cells es)))) ready_sys.
Proof.
  apply (metadata_describes_klasses 100 1 (registered HT_EndiannessInfoEvent 0) (registered HT_EventKlassInfoEvent 2)
           (registered HT_EventKlassFieldInfoEvent 3) (registered HT_SystemInfoEvent 8) [1; 2; 3; 4; 5; 6; 7; 8; 9] ready_sys).
  exact ready_sys_metadata.
Defined.

(** A register without klasses, and a klass. *)
Definition one_klass_sys : sys (list call) :=
  Sys {| blocks := <[1 := 64]> ∅; requests := 1; realloc_fnc_ := NULL; user_data_ := NULL |}
      (<[2 := false]> ∅) ∅ 0 (<[7 := klass_instance HT_SystemInfoEvent]> ∅)
      (MkRegistry (Bag 8 8 0 1 (replicate 8 None)) (Bag 0 0 0 NULL []) [] NULL NULL 2 0 0) [].

Lemma one_klass_rep : register_rep one_klass_sys [].
Proof.
  split; try done.
  - split; try done; [exists 64; by split|by exists 0].
  - intros p k Hk _. simpl in Hk. apply lookup_insert_Some in Hk as [[_ <-]|[_ Hk]]; [done|].
    by rewrite lookup_empty in Hk.
Qed.

Lemma klass_ids_are_positions_witness :
  wp (register_event_klass 7) (fun id s' =>
    (exists i, [] !! i = Some 7 /\ id = Z.of_nat i /\ register_rep s' []) \/
    (7 ∉ []) /\ (id = 0 /\ register_rep s' [7] \/ id = HT_INVALID_KLASS_ID /\ register_rep s' [])) one_klass_sys.
Proof.
  apply (klass_ids_are_positions one_klass_sys [] 7).
  - exact one_klass_rep.
  - eexists. reflexivity.
  - reflexivity.
Defined.

(** Initialisation registers the klasses of the library once only.
    After ht_init every core klass has its position in the order of ht_init
    as identifier; but after ht_deinit and another ht_init (or a second
    ht_init without ht_deinit) the register is empty while the klasses keep
    their identifiers, so that no listener is told about any klass. *)
Theorem reinit_loses_klasses :
  (fun '(p, _) => klass_id <$> klasses ready_sys !! p) <$> core_klasses = Some <$> [0; 1; 2; 3; 4; 5; 6; 7; 8] /\
  size (event_klass_register (registry ready_sys)) = 9 /\
  (let s := state_after (run_init;; ht_deinit;; ht_init 0 1) in
   size (event_klass_register (registry s)) = 0 /\
   (fun '(p, _) => klass_id <$> klasses s !! p) <$> core_klasses = Some <$> [0; 1; 2; 3; 4; 5; 6; 7; 8] /\
   match ht_registry_push_registry_klasses_to_listener 100 1 true s with
   | Done (n, s') => n = 0 /\ senv s' = []
   | _ => False
   end) /\
  (let s := state_after (run_init;; ht_init 0 1) in size (event_klass_register (registry s)) = 0).
Proof. by vm_compute. Qed.

(** Two klasses an application may declare. *)
Definition int_t : ctype := Scalar MKCREFLECT_TYPES_INTEGER "int" 4 true.
Definition wide_klass : ctype := HT_DECLARE_EVENT_KLASS "Wide" HT_Event (replicate 24 ("a"%string, int_t)).
Definition narrow_klass : ctype := HT_DECLARE_EVENT_KLASS "Narrow" HT_Event [("a"%string, int_t)].

Definition app_sys : sys (list call) :=
  Sys empty_heap ∅ ∅ 0
    (<[10 := klass_instance wide_klass]> (<[11 := klass_instance narrow_klass]> (klasses fresh_sys)))
    static_registry [].

(** The unserialised metadata can overrun its buffer.  With the klasses
    of the library and the two above, pushing the metadata serialised is
    defined, but with serialize = HT_FALSE it writes past the end of the 4096
    bytes: room is checked for the serialised size of a description (39
    bytes) and its object (64 bytes) is copied. *)
Theorem unserialized_metadata_overflow :
  (run_init;; register_klasses [10; 11];; ht_registry_push_registry_klasses_to_listener 100 1 true) app_sys <> Undef /\
  (run_init;; register_klasses [10; 11];; ht_registry_push_registry_klasses_to_listener 100 1 false) app_sys = Undef.
Proof. by vm_compute. Qed.

End samples.
