(* ===== verification/Timeline.v ===== *)
(** The timeline: the buffer of events in front of the listeners
    (lib/timeline.c, lib/include/hawktracer/timeline.h and feature.h).

    A timeline is owned by its creator and is threaded as a value; [tcells]
    are the cells of its buffer.  What features do when they are destroyed is
    an interface.  Every timeline uses the default event id provider, so that
    the field id_provider is left out. *)
From S2P Require Import Prelude Alloc BaseTypes Bag Memory Events Listeners Registry.

(** HT_FeatureKlass and HT_Feature. *)
Record HT_FeatureKlass := FeatureKlass { fk_destroy : ptr; fk_id : Z }.
Record HT_Feature := Feature { fself : ptr; fklass : HT_FeatureKlass }.

(** feature->klass->destroy(feature). *)
Class FeatureOps (E : Type) := { destroy_feature : HT_Feature -> ST (sys E) () }.

Record HT_Timeline := Timeline {
  tself : ptr;
  features : list (option HT_Feature);
  buffer_capacity : Z;
  buffer_usage : Z;
  tbuffer : ptr;
  tcells : list memval;
  tlisteners : ptr;
  locking_policy : ptr;
  serialize_events : bool
}.

Definition sizeof_HT_Timeline : Z := 312.

Definition set_buffer (cells : list memval) (usage : Z) (t : HT_Timeline) : HT_Timeline :=
  Timeline (tself t) (features t) (buffer_capacity t) usage (tbuffer t) cells (tlisteners t)
           (locking_policy t) (serialize_events t).
Definition set_timeline_features (fs : list (option HT_Feature)) (t : HT_Timeline) : HT_Timeline :=
  Timeline (tself t) fs (buffer_capacity t) (buffer_usage t) (tbuffer t) (tcells t) (tlisteners t)
           (locking_policy t) (serialize_events t).

(** The timestamp and the identifier of the HT_Event an event starts with. *)
Fixpoint set_stamp (timestamp id : Z) (v : cval) : cval :=
  match v with
  | VEvent k _ _ => VEvent k timestamp id
  | VStruct (v :: vs) => VStruct (set_stamp timestamp id v :: vs)
  | v => v
  end.

Section timeline.
  Context `{Malloc} `{Platform} {E : Type} `{Host E} `{FeatureOps E}.
  Implicit Types (s : sys E) (t : HT_Timeline).

(** _TIMELINE_LOCK. *)
Definition timeline_lock t : ST (sys E) () :=
  if decide (locking_policy t <> NULL) then ht_mutex_lock (locking_policy t) else mret ().
Definition timeline_unlock t : ST (sys E) () :=
  if decide (locking_policy t <> NULL) then ht_mutex_unlock (locking_policy t) else mret ().

Definition _ht_timeline_flush t : ST (sys E) HT_Timeline :=
  if decide (buffer_usage t <> 0) then
    cells ← some_or_undef (mem_read (tcells t) 0 (buffer_usage t));
    ht_timeline_listener_container_notify_listeners (tlisteners t) cells (serialize_events t);;
    mret (set_buffer (tcells t) 0 t)
  else mret t.

Definition ht_timeline_init_event t (event : cval) : ST (sys E) cval :=
  timestamp ← get_timestamp;
  id ← ht_event_id_provider_next;
  mret (set_stamp timestamp id event).

(** The branch of a timeline that serialises. *)
Definition push_serialized t (event : cval) : ST (sys E) HT_Timeline :=
  s ← get;
  let ks := klasses s in
  size ← some_or_undef (klass_get_size ks event);
  t ← (if decide (buffer_capacity t < u64 (buffer_usage t + size)) then _ht_timeline_flush t else mret t);
  if decide (buffer_capacity t < size) then
    if decide (size > 128) then
      buff ← zoom (ht_alloc size);
      require (bool_decide (buff <> NULL));;
      '(cells, _) ← some_or_undef (klass_serialize ks event (replicate (Z.to_nat size) Indet) 0);
      cells ← some_or_undef (mem_read cells 0 size);
      ht_timeline_listener_container_notify_listeners (tlisteners t) cells (serialize_events t);;
      zoom (ht_free buff);;
      mret t
    else
      '(cells, _) ← some_or_undef (klass_serialize ks event (replicate 128 Indet) 0);
      cells ← some_or_undef (mem_read cells 0 size);
      ht_timeline_listener_container_notify_listeners (tlisteners t) cells (serialize_events t);;
      mret t
  else
    '(cells, _) ← some_or_undef (klass_serialize ks event (tcells t) (buffer_usage t));
    mret (set_buffer cells (u64 (buffer_usage t + size)) t).

(** The other branch: events are copied as they are. *)
Definition push_unserialized t (event : cval) : ST (sys E) HT_Timeline :=
  s ← get;
  size ← some_or_undef (klass_size (klasses s) event);
  t ← (if decide (buffer_capacity t < u64 (buffer_usage t + size)) then _ht_timeline_flush t else mret t);
  if decide (buffer_capacity t < size) then
    ht_timeline_listener_container_notify_listeners (tlisteners t) (object_cells event size) (serialize_events t);;
    mret t
  else
    cells ← some_or_undef (mem_write (tcells t) (buffer_usage t) (object_cells event size));
    mret (set_buffer cells (u64 (buffer_usage t + size)) t).

Definition ht_timeline_push_event t (event : cval) : ST (sys E) HT_Timeline :=
  timeline_lock t;;
  t ← (if serialize_events t then push_serialized t event else push_unserialized t event);
  timeline_unlock t;;
  mret t.

Definition ht_timeline_flush t : ST (sys E) HT_Timeline :=
  timeline_lock t;;
  t ← _ht_timeline_flush t;
  timeline_unlock t;;
  mret t.

(** HT_TIMELINE_PUSH_EVENT: the base event first, then the fields. *)
Definition HT_TIMELINE_PUSH_EVENT t (klass : ptr) (mk : cval -> cval) : ST (sys E) HT_Timeline :=
  timestamp ← get_timestamp;
  id ← ht_event_id_provider_next;
  ht_timeline_push_event t (mk (VEvent klass timestamp id)).

Definition ht_timeline_set_feature t (feature : HT_Feature) : ST (sys E) (HT_ErrorCode * HT_Timeline) :=
  let id := fk_id (fklass feature) in
  '(error_code, t) ←
    (if decide (id = HT_INVALID_FEATURE_ID \/ id >= HT_TIMELINE_MAX_FEATURES)
     then mret (HT_ERR_FEATURE_NOT_REGISTERED, t)
     else
       slot ← some_or_undef (features t !! Z.to_nat id);
       match slot with
       | Some _ => mret (HT_ERR_FEATURE_ALREADY_REGISTERED, t)
       | None => mret (HT_ERR_OK, set_timeline_features (<[Z.to_nat id := Some feature]> (features t)) t)
       end);
  (if decide (error_code <> HT_ERR_OK) then destroy_feature feature else mret ());;
  mret (error_code, t).

(** An identifier outside the array is read out of bounds. *)
Definition ht_timeline_get_feature t (feature_klass : HT_FeatureKlass) : option (option HT_Feature) :=
  features t !! Z.to_nat (fk_id feature_klass).

Definition ht_timeline_register_listener_full t (callback user_data destroy_cb : ptr) : ST (sys E) HT_ErrorCode :=
  ht_timeline_listener_container_register_listener (tlisteners t) callback user_data destroy_cb.

Definition ht_timeline_register_listener t (callback user_data : ptr) : ST (sys E) HT_ErrorCode :=
  ht_timeline_register_listener_full t callback user_data NULL.

Definition ht_timeline_unregister_all_listeners t : ST (sys E) () :=
  ht_timeline_listener_container_unregister_all_listeners (tlisteners t).

(** The error code starts as HT_ERR_OK and is not set when the timeline
    itself cannot be allocated. *)
Definition ht_timeline_create (capacity : Z) (thread_safe serialize : bool) (name : option (list Z))
    : ST (sys E) (HT_ErrorCode * option HT_Timeline) :=
  timeline ← zoom (ht_alloc sizeof_HT_Timeline);
  if decide (timeline = NULL) then mret (HT_ERR_OK, None)
  else
    buffer ← zoom (ht_alloc capacity);
    if decide (buffer = NULL) then zoom (ht_free timeline);; mret (HT_ERR_OUT_OF_MEMORY, None)
    else
      container ← ht_find_or_create_listener name;
      if decide (container = NULL) then
        zoom (ht_free buffer);; zoom (ht_free timeline);; mret (HT_ERR_CANT_CREATE_LISTENER_CONTAINER, None)
      else
        let made policy :=
          Timeline timeline (replicate (Z.to_nat HT_TIMELINE_MAX_FEATURES) None) capacity 0 buffer
                   (replicate (Z.to_nat capacity) Indet) container policy serialize in
        if thread_safe then
          policy ← ht_mutex_create;
          if decide (policy = NULL) then
            ht_timeline_listener_container_unref container;;
            zoom (ht_free buffer);; zoom (ht_free timeline);; mret (HT_ERR_OUT_OF_MEMORY, None)
          else mret (HT_ERR_OK, Some (made policy))
        else mret (HT_ERR_OK, Some (made NULL)).

Fixpoint destroy_features (fs : list (option HT_Feature)) : ST (sys E) () :=
  match fs with
  | [] => mret ()
  | Some f :: fs => destroy_feature f;; destroy_features fs
  | None :: fs => destroy_features fs
  end.

Definition ht_timeline_destroy t : ST (sys E) () :=
  t ← ht_timeline_flush t;
  zoom (ht_free (tbuffer t));;
  ht_timeline_listener_container_unref (tlisteners t);;
  destroy_features (features t);;
  (if decide (locking_policy t <> NULL) then ht_mutex_destroy (locking_policy t) else mret ());;
  zoom (ht_free (tself t)).

(** ** What a timeline promises

    The buffer holds whole events; [cells_of] is how a timeline stores
    them. *)

Definition cells_of (ser : bool) (evs : list pushed) : list memval :=
  if ser then wire_cells evs else objects evs.

Definition event_cells (ser : bool) (e : pushed) : list memval :=
  if ser then Byte <$> pbytes e else object_cells (pv e) (psize e).

Definition event_size (ser : bool) (e : pushed) : Z := Z.of_nat (length (event_cells ser e)).

Definition buffer_size (ser : bool) (evs : list pushed) : Z := Z.of_nat (length (cells_of ser evs)).

Lemma cells_of_app ser evs evs' : cells_of ser (evs ++ evs') = cells_of ser evs ++ cells_of ser evs'.
Proof. unfold cells_of, wire_cells, objects. destruct ser; apply bind_app. Qed.

Lemma cells_of_one ser e : cells_of ser [e] = event_cells ser e.
Proof. destruct ser; apply app_nil_r. Qed.

Lemma event_size_pos ks ser e : pushed_ok ks e -> 0 < event_size ser e.
Proof.
  intros Hok. unfold event_size, event_cells. destruct ser.
  - pose proof (encode_header _ _ _ _ (ok_struct _ _ _ _ Hok) (ok_wire _ _ _ _ Hok)). rewrite length_fmap. lia.
  - pose proof (psize_pos _ _ Hok). rewrite length_object_cells by lia. lia.
Qed.

(** The effect of a step on the state: the environment changes by [f];
    allocations may have been made and released. *)
Record env_step s (f : E -> E) s' : Prop := {
  es_blocks : blocks (sheap s') = blocks (sheap s);
  es_mutexes : mutexes s' = mutexes s;
  es_containers : containers s' = containers s;
  es_klasses : klasses s' = klasses s;
  es_registry : registry s' = registry s;
  es_ids : current_identifier s' = current_identifier s;
  es_env : senv s' = f (senv s)
}.

Lemma env_step_id s : env_step s (fun e => e) s.
Proof. done. Qed.

Lemma env_step_set s f : env_step s f (set_env f s).
Proof. done. Qed.

Lemma env_step_trans s1 s2 s3 f g : env_step s1 f s2 -> env_step s2 g s3 -> env_step s1 (fun e => g (f e)) s3.
Proof. intros [] []. split; congruence. Qed.

Lemma cont_rep_step s s' p c es f : env_step s f s' -> cont_rep s p c es -> cont_rep s' p c es.
Proof. intros [Eb Em Ec _ _ _ _] []. split; rewrite ?Eb, ?Em, ?Ec; done. Qed.

Lemma cont_rep_mutex s p c es m b :
  cont_rep s p c es -> m <> cmutex c -> cont_rep (set_mutexes <[m := b]> s) p c es.
Proof. intros [] Hm. split; simpl; try done. by rewrite lookup_insert_ne. Qed.

Lemma cont_live s p c es : cont_rep s p c es -> Forall (fun r => is_Some (blocks (sheap s) !! r)) (cont_ptrs p c).
Proof.
  intros [_ R _ Hl _ _]. apply Forall_cons in Hl as [[_ ?] [[_ ?] _]%Forall_cons].
  destruct (rep_live R) as (?&?&_). unfold cont_ptrs. repeat constructor; eauto.
Qed.

(** More blocks do no harm. *)
Lemma cont_rep_alloc s p c es q n h :
  cont_rep s p c es -> blocks (sheap s) !! q = None -> blocks h = <[q := n]> (blocks (sheap s)) ->
  cont_rep (update h s) p c es.
Proof.
  intros [Hc R Hm Hl Hnd Hrc] Hq Eh.
  assert (Hkeep : forall r, is_Some (blocks (sheap s) !! r) -> blocks h !! r = blocks (sheap s) !! r).
  { intros r Hr. rewrite Eh, lookup_insert_ne; [done|]. intros ->. rewrite Hq in Hr. by destruct Hr. }
  split; simpl; try done.
  - eapply rep_live_mono; [|exact R]. apply Hkeep. destruct (rep_live R) as (?&?&_). eauto.
  - eapply Forall_impl; [exact Hl|]. simpl. intros r [? Hr]. by rewrite Hkeep.
Qed.

Record tl_rep s t (es : list HT_TimelineListenerEntry) (evs : list pushed) : Prop := {
  tl_len : Z.of_nat (length (tcells t)) = buffer_capacity t;
  tl_cap : buffer_capacity t < 2 ^ 63;
  tl_usage : buffer_usage t = buffer_size (serialize_events t) evs;
  tl_content : take (length (cells_of (serialize_events t) evs)) (tcells t) = cells_of (serialize_events t) evs;
  tl_evs : Forall (pushed_ok (klasses s)) evs;
  tl_cont : exists c, cont_rep s (tlisteners t) c es
}.

(** What stays the same of a timeline. *)
Record same_timeline t t' : Prop := {
  st_self : tself t' = tself t;
  st_features : features t' = features t;
  st_cap : buffer_capacity t' = buffer_capacity t;
  st_buffer : tbuffer t' = tbuffer t;
  st_listeners : tlisteners t' = tlisteners t;
  st_lock : locking_policy t' = locking_policy t;
  st_ser : serialize_events t' = serialize_events t
}.

Lemma same_timeline_refl t : same_timeline t t.
Proof. done. Qed.

Lemma same_timeline_trans t1 t2 t3 : same_timeline t1 t2 -> same_timeline t2 t3 -> same_timeline t1 t3.
Proof. intros [] []. split; congruence. Qed.

Lemma tl_usage_le s t es evs : tl_rep s t es evs -> 0 <= buffer_usage t <= buffer_capacity t.
Proof.
  intros [Hl _ Hu Hc _ _]. unfold buffer_size in Hu. apply (f_equal length) in Hc. rewrite length_take in Hc. lia.
Qed.

Lemma tl_rep_step s s' f t es evs : env_step s f s' -> tl_rep s t es evs -> tl_rep s' t es evs.
Proof.
  intros St [Hl Hx Hu Hc He [c CR]]. split; try done.
  - by rewrite (es_klasses _ _ _ St).
  - exists c. by eapply cont_rep_step.
Qed.

Definition deliver (es : list HT_TimelineListenerEntry) (ser : bool) (batches : list (list pushed)) (env : E) : E :=
  deliver_all es ((fun b => (cells_of ser b, ser)) <$> batches) env.

Lemma deliver_app es ser b1 b2 env : deliver es ser (b1 ++ b2) env = deliver es ser b2 (deliver es ser b1 env).
Proof. unfold deliver, deliver_all. by rewrite fmap_app, foldl_app. Qed.

(** Flushing hands over what is buffered, if there is anything. *)
Lemma timeline_flush_spec t es evs s :
  tl_rep s t es evs ->
  wp (_ht_timeline_flush t) (fun t' s' => same_timeline t t' /\ tl_rep s' t' es [] /\
    env_step s (deliver es (serialize_events t) (if decide (evs = []) then [] else [evs])) s') s.
Proof.
  intros TR. pose proof TR as [Hl Hx Hu Hc He [c CR]]. unfold _ht_timeline_flush.
  assert (Hz : buffer_usage t = 0 <-> evs = []).
  { rewrite Hu. split; [|intros ->; by destruct (serialize_events t)]. intros Hzero.
    destruct evs as [|e evs]; [done|]. apply Forall_cons in He as [He _].
    pose proof (event_size_pos _ (serialize_events t) e He) as Hp. unfold buffer_size, event_size in *.
    rewrite (cells_of_app _ [e] evs), cells_of_one, length_app in Hzero. lia. }
  case_decide as Hd.
  - rewrite decide_False by tauto. rewrite (mem_read_prefix _ (cells_of (serialize_events t) evs)), some_bind by done.
    eapply wp_call; [by eapply notify_spec|]. intros _ s1 ->. wp_steps. split; [done|]. split; [|done].
    split; simpl; try done; [by destruct (serialize_events t)|by destruct (serialize_events t)|].
    exists c. by apply cont_rep_env.
  - assert (evs = []) as -> by (destruct (decide (buffer_usage t = 0)); tauto).
    rewrite decide_True by done. by wp_steps.
Qed.

(** ** Pushing an event *)

(** The batches a push hands to the listeners and the events it leaves in a
    buffer of [cap] bytes: what is buffered goes first when the event does
    not fit behind it, and an event larger than the buffer goes alone. *)
Definition make_room (ser : bool) (cap : Z) (buf : list pushed) (size : Z) : list (list pushed) * list pushed :=
  if decide (cap < buffer_size ser buf + size)
  then (if decide (buf = []) then [] else [buf], []) else ([], buf).

Definition push_ref (ser : bool) (cap : Z) (buf : list pushed) (e : pushed) : list (list pushed) * list pushed :=
  let '(out, buf) := make_room ser cap buf (event_size ser e) in
  if decide (cap < event_size ser e) then (out ++ [[e]], buf) else (out, buf ++ [e]).

(** The size below which a push needs no memory, or memory is there. *)
Definition pushable_at (cap : Z) (ser : bool) (e : pushed) : Prop :=
  event_size ser e < 2 ^ 63 /\
  (ser = true -> event_size true e <= 128 \/ event_size true e <= cap \/ granted (event_size true e)).

Definition pushable t (e : pushed) : Prop := pushable_at (buffer_capacity t) (serialize_events t) e.

(** The start of both branches: make room. *)
Lemma make_room_spec t es evs size s (Q : HT_Timeline -> sys E -> Prop) :
  tl_rep s t es evs -> 0 <= size < 2 ^ 63 ->
  (forall out buf t1 s1, make_room (serialize_events t) (buffer_capacity t) evs size = (out, buf) ->
     same_timeline t t1 -> tl_rep s1 t1 es buf -> env_step s (deliver es (serialize_events t) out) s1 ->
     (size <= buffer_capacity t -> buffer_usage t1 + size <= buffer_capacity t) -> Q t1 s1) ->
  wp (if decide (buffer_capacity t < u64 (buffer_usage t + size)) then _ht_timeline_flush t else mret t) Q s.
Proof.
  intros TR Hs HQ. pose proof (tl_usage_le _ _ _ _ TR). pose proof (tl_cap _ _ _ _ TR).
  rewrite u64_small by lia. unfold make_room in HQ. pose proof (tl_usage _ _ _ _ TR) as Hu.
  rewrite <- Hu in HQ. case_decide as Hd.
  - eapply wp_mono; [by apply (timeline_flush_spec t es evs)|]. intros t1 s1 (Hsame&TR1&St).
    eapply HQ; [reflexivity|done|done|done|].
    intros Hle. rewrite (tl_usage _ _ _ _ TR1), (st_ser _ _ Hsame). by destruct (serialize_events t).
  - apply wp_ret. eapply HQ; [reflexivity|done|done|done|lia].
Qed.

(** The end of both branches when the event fits: append it in place. *)
Lemma append_spec t es evs e cells s :
  tl_rep s t es evs -> pushed_ok (klasses s) e ->
  mem_write (tcells t) (buffer_usage t) (event_cells (serialize_events t) e) = Some cells ->
  tl_rep s (set_buffer cells (u64 (buffer_usage t + event_size (serialize_events t) e)) t) es (evs ++ [e]).
Proof.
  intros TR He Ew. pose proof (tl_usage_le _ _ _ _ TR). pose proof (tl_cap _ _ _ _ TR).
  destruct (mem_write_length _ _ _ _ Ew) as (El&_&Hfit). pose proof (mem_write_take _ _ _ _ Ew) as Ht.
  destruct TR as [Hl Hx Hu Hc Hev Hcont]. unfold buffer_size, event_size in *.
  rewrite u64_small by lia. split; simpl; try done.
  - by rewrite El.
  - unfold buffer_size. rewrite cells_of_app, cells_of_one, length_app, Hu. lia.
  - rewrite cells_of_app, cells_of_one, length_app. rewrite Hu, Nat2Z.id, Hc in Ht. done.
  - apply Forall_app. split; [done|]. by constructor.
Qed.

Lemma tl_write_fits t es evs e s :
  tl_rep s t es evs -> buffer_usage t + event_size (serialize_events t) e <= buffer_capacity t ->
  exists cells, mem_write (tcells t) (buffer_usage t) (event_cells (serialize_events t) e) = Some cells.
Proof.
  intros TR Hf. pose proof (tl_usage_le _ _ _ _ TR). destruct TR as [Hl _ _ _ _ _]. unfold event_size in Hf.
  destruct (mem_write_spec (tcells t) (buffer_usage t) (event_cells (serialize_events t) e)) as (cells&E'&_); [lia|lia|].
  eauto.
Qed.

(** The notification with one event on its own. *)
Lemma notify_one_spec t t1 es evs e s :
  same_timeline t t1 -> tl_rep s t1 es evs ->
  wp (ht_timeline_listener_container_notify_listeners (tlisteners t1) (event_cells (serialize_events t) e) (serialize_events t1))
    (fun _ s' => s' = set_env (deliver es (serialize_events t) [[e]]) s) s.
Proof.
  intros Hsame [_ _ _ _ _ [c CR]]. rewrite (st_ser _ _ Hsame). eapply wp_mono; [by eapply notify_spec|]. intros _ s' ->.
  unfold deliver, deliver_all. simpl. by rewrite cells_of_one.
Qed.

(** Both branches end alike: an event larger than the buffer is handed over
    on its own, any other is appended. *)
Lemma push_alone t t1 es evs e out buf s s1 s2 :
  make_room (serialize_events t) (buffer_capacity t) evs (event_size (serialize_events t) e) = (out, buf) ->
  same_timeline t t1 -> tl_rep s1 t1 es buf -> env_step s (deliver es (serialize_events t) out) s1 ->
  env_step s1 (deliver es (serialize_events t) [[e]]) s2 ->
  buffer_capacity t < event_size (serialize_events t) e ->
  let '(out, buf) := push_ref (serialize_events t) (buffer_capacity t) evs e in
  same_timeline t t1 /\ tl_rep s2 t1 es buf /\ env_step s (deliver es (serialize_events t) out) s2.
Proof.
  intros Em Hsame TR St St2 Hbig. unfold push_ref. rewrite Em, decide_True by done.
  split_and!; [done|by eapply tl_rep_step|]. pose proof (env_step_trans _ _ _ _ _ St St2) as St3.
  destruct St3. split; try done. by rewrite deliver_app.
Qed.

Lemma push_append t t1 es evs e out buf cells s s1 :
  make_room (serialize_events t) (buffer_capacity t) evs (event_size (serialize_events t) e) = (out, buf) ->
  same_timeline t t1 -> tl_rep s1 t1 es buf -> env_step s (deliver es (serialize_events t) out) s1 ->
  pushed_ok (klasses s) e -> ~ buffer_capacity t < event_size (serialize_events t) e ->
  mem_write (tcells t1) (buffer_usage t1) (event_cells (serialize_events t) e) = Some cells ->
  let '(out, buf) := push_ref (serialize_events t) (buffer_capacity t) evs e in
  same_timeline t (set_buffer cells (u64 (buffer_usage t1 + event_size (serialize_events t) e)) t1) /\
  tl_rep s1 (set_buffer cells (u64 (buffer_usage t1 + event_size (serialize_events t) e)) t1) es buf /\
  env_step s (deliver es (serialize_events t) out) s1.
Proof.
  intros Em Hsame TR St He Hbig Ew. unfold push_ref. rewrite Em, decide_False by done.
  rewrite <- (st_ser _ _ Hsame) in Ew |- *. split_and!.
  - by destruct Hsame; split.
  - apply append_spec; [done| |done]. by rewrite (es_klasses _ _ _ St).
  - by rewrite (st_ser _ _ Hsame).
Qed.

Lemma push_unserialized_spec t es evs e s :
  tl_rep s t es evs -> serialize_events t = false -> pushed_ok (klasses s) e -> pushable t e ->
  wp (push_unserialized t (pv e)) (fun t' s' =>
    let '(out, buf) := push_ref (serialize_events t) (buffer_capacity t) evs e in
    same_timeline t t' /\ tl_rep s' t' es buf /\ env_step s (deliver es (serialize_events t) out) s') s.
Proof.
  intros TR Hser He [Hsz _]. pose proof (event_size_pos _ (serialize_events t) e He) as Hpos.
  pose proof (psize_pos _ _ He) as Hps.
  assert (Esz : psize e = event_size (serialize_events t) e).
  { rewrite Hser. unfold event_size, event_cells. by rewrite length_object_cells by lia. }
  assert (Ecl : object_cells (pv e) (psize e) = event_cells (serialize_events t) e) by (by rewrite Hser).
  unfold push_unserialized. wp_steps. eapply wp_some; [by apply (klass_size_ok _ _ _ _ He)|]. fold (psize e).
  rewrite Ecl. rewrite Esz. apply wp_bind. eapply make_room_spec; [done|lia|].
  intros out buf t1 s1 Em Hsame TR1 St Hroom. rewrite (st_cap _ _ Hsame). case_decide as Hbig.
  - eapply wp_call; [by apply (notify_one_spec t t1 es buf e s1)|]. intros _ s2 ->. apply wp_ret.
    by eapply push_alone.
  - destruct (tl_write_fits t1 es buf e s1) as [cells Ew]; [done|rewrite (st_ser _ _ Hsame), (st_cap _ _ Hsame); lia|].
    rewrite (st_ser _ _ Hsame) in Ew. rewrite Ew, some_bind. apply wp_ret. by eapply push_append.
Qed.

(** An event serialised into a buffer of its own. *)
Lemma serialize_alone ks e n :
  pushed_ok ks e -> event_size true e <= Z.of_nat n ->
  exists cells, klass_serialize ks (pv e) (replicate n Indet) 0 = Some (cells, event_size true e) /\
    mem_read cells 0 (event_size true e) = Some (event_cells true e).
Proof.
  intros He Hn. unfold event_size in *.
  destruct (mem_write_spec (replicate n Indet) 0 (Byte <$> pbytes e)) as (cells&Ew&_&_&_&Hread);
    [lia|rewrite length_replicate; simpl in Hn; lia|].
  exists cells. split; [|done]. simpl. rewrite length_fmap.
  exact (klass_serialize_done _ _ _ _ _ _ _ He Ew).
Qed.

Lemma push_serialized_spec t es evs e s :
  tl_rep s t es evs -> serialize_events t = true -> pushed_ok (klasses s) e -> pushable t e ->
  wp (push_serialized t (pv e)) (fun t' s' =>
    let '(out, buf) := push_ref (serialize_events t) (buffer_capacity t) evs e in
    same_timeline t t' /\ tl_rep s' t' es buf /\ env_step s (deliver es (serialize_events t) out) s') s.
Proof.
  intros TR Hser He [Hsz Hmem]. specialize (Hmem Hser).
  assert (Esz : Z.of_nat (length (pbytes e)) = event_size true e) by (unfold event_size; simpl; by rewrite length_fmap).
  pose proof (event_size_pos _ true e He) as Hpos. rewrite Hser in Hsz.
  unfold push_serialized. apply wp_bind, wp_get. cbn zeta. apply wp_bind.
  eapply wp_some; [by apply (klass_get_size_ok _ _ _ _ He)|]. rewrite Esz.
  apply wp_bind. eapply make_room_spec; [done|lia|].
  intros out buf t1 s1 Em Hsame TR1 St Hroom. rewrite (st_cap _ _ Hsame).
  rewrite <- Hser in Em. case_decide as Hbig; [case_decide as H128|].
  - destruct (serialize_alone (klasses s) e (Z.to_nat (event_size true e)) He) as (cells&Es&Er); [lia|].
    apply wp_bind, wp_zoom. apply ht_alloc_granted; [destruct Hmem as [?|[?|?]]; [lia|lia|done]|].
    intros buff h2 Hb _ Hfree (Eh2&_&_). rewrite bool_decide_true, Es by done. unfold require. rewrite ret_bind, some_bind. cbn beta iota. rewrite Er, some_bind.
    destruct (tl_cont _ _ _ _ TR1) as [c CR].
    pose proof (cont_rep_alloc s1 _ _ _ buff _ h2 CR Hfree Eh2) as CR2.
    eapply wp_call; [by eapply notify_spec|]. intros _ s3 ->. apply wp_bind, wp_zoom.
    apply (ht_free_spec buff (event_size true e)); [done|simpl; by rewrite Eh2, lookup_insert_eq|].
    intros h4 (Eh4&_&_). apply wp_ret. eapply push_alone; try done; [|by rewrite Hser].
    split; simpl in *; try done.
    + by rewrite Eh4, Eh2, delete_insert_id.
    + rewrite (st_ser _ _ Hsame), Hser. unfold deliver, deliver_all. simpl. by rewrite app_nil_r.
  - destruct (serialize_alone (klasses s) e 128 He) as (cells&Es&Er); [lia|].
    rewrite Es, some_bind. cbn beta iota. rewrite Er, some_bind.
    change (event_cells true e) with (event_cells true e). rewrite <- Hser.
    eapply wp_call; [by apply (notify_one_spec t t1 es buf e s1)|]. intros _ s2 ->. apply wp_ret.
    eapply push_alone; try done. by rewrite Hser.
  - destruct (tl_write_fits t1 es buf e s1) as [cells Ew]; [done|rewrite (st_ser _ _ Hsame), (st_cap _ _ Hsame), Hser; lia|].
    rewrite (st_ser _ _ Hsame), Hser in Ew.
    rewrite (klass_serialize_done _ _ _ _ _ _ _ He Ew), some_bind. apply wp_ret. rewrite <- Hser in Ew |- *.
    eapply push_append; try done. by rewrite Hser.
Qed.

(** ** Under the lock *)

(** A timeline that no one has locked, or that has no lock. *)
Definition tl_ready s t es evs : Prop :=
  tl_rep s t es evs /\
  (locking_policy t <> NULL -> mutexes s !! locking_policy t = Some false /\
   forall c, containers s !! tlisteners t = Some c -> locking_policy t <> cmutex c).

Lemma tl_rep_mutex s t es evs m b :
  tl_rep s t es evs -> (forall c, containers s !! tlisteners t = Some c -> m <> cmutex c) ->
  tl_rep (set_mutexes <[m := b]> s) t es evs.
Proof.
  intros [Hl Hx Hu Hc He [c CR]] Hm. split; try done. exists c. apply cont_rep_mutex; [done|].
  apply Hm, (cr_lookup _ _ _ _ CR).
Qed.

Lemma with_lock_spec t es evs s (m : ST (sys E) HT_Timeline) (Q : HT_Timeline -> sys E -> Prop) :
  tl_ready s t es evs ->
  (forall s1, tl_rep s1 t es evs -> klasses s1 = klasses s ->
     wp m (fun t' s2 => exists f buf, same_timeline t t' /\ tl_rep s2 t' es buf /\ env_step s1 f s2 /\
       forall s3, tl_ready s3 t' es buf -> env_step s f s3 -> Q t' s3) s1) ->
  wp (timeline_lock t;; t' ← m; timeline_unlock t';; mret t') Q s.
Proof.
  intros [TR Hlock] Hm. unfold timeline_lock, timeline_unlock. destruct (decide (locking_policy t = NULL)) as [Hn|Hn].
  - rewrite decide_False, ret_bind by tauto. eapply wp_call; [by apply Hm|].
    intros t' s2 (f&buf&Hsame&TR2&St&HQ). rewrite decide_False, ret_bind by (rewrite (st_lock _ _ Hsame); tauto).
    apply wp_ret, HQ; [|done]. split; [done|]. by rewrite (st_lock _ _ Hsame).
  - rewrite decide_True by done. destruct (Hlock Hn) as [Hmx Hne]. apply wp_bind, lock_spec; [done|].
    eapply wp_call; [apply Hm; [by apply tl_rep_mutex|done]|].
    intros t' s2 (f&buf&Hsame&TR2&St&HQ). destruct St as [E1 E2 E3 E4 E5 E6 E7]. simpl in *.
    rewrite decide_True by (by rewrite (st_lock _ _ Hsame)). rewrite (st_lock _ _ Hsame).
    apply wp_bind, unlock_spec; [by rewrite E2, lookup_insert_eq|]. apply wp_ret, HQ.
    + split; [apply tl_rep_mutex; [done|]|].
      * intros c. rewrite E3, (st_listeners _ _ Hsame). apply Hne.
      * intros _. rewrite (st_lock _ _ Hsame). simpl. rewrite lookup_insert_eq. split; [done|].
        intros c. rewrite E3, (st_listeners _ _ Hsame). apply Hne.
    + split; simpl; try done. by rewrite E2, insert_insert_eq, insert_id.
Qed.

Lemma push_event_spec t es evs e s :
  tl_ready s t es evs -> pushed_ok (klasses s) e -> pushable t e ->
  wp (ht_timeline_push_event t (pv e)) (fun t' s' =>
    let '(out, buf) := push_ref (serialize_events t) (buffer_capacity t) evs e in
    same_timeline t t' /\ tl_ready s' t' es buf /\ env_step s (deliver es (serialize_events t) out) s') s.
Proof.
  intros TR He Hp. unfold ht_timeline_push_event. apply (with_lock_spec t es evs s); [done|].
  intros s1 TR1 Ek. assert (He1 : pushed_ok (klasses s1) e) by (by rewrite Ek).
  destruct (push_ref _ _ evs e) as [out buf] eqn:Er.
  assert (Hw : wp (if serialize_events t then push_serialized t (pv e) else push_unserialized t (pv e))
    (fun t' s' => same_timeline t t' /\ tl_rep s' t' es buf /\ env_step s1 (deliver es (serialize_events t) out) s') s1).
  { destruct (serialize_events t) eqn:Hser.
    - pose proof (push_serialized_spec t es evs e s1 TR1 Hser He1 Hp) as Hw. rewrite Hser, Er in Hw. exact Hw.
    - pose proof (push_unserialized_spec t es evs e s1 TR1 Hser He1 Hp) as Hw. rewrite Hser, Er in Hw. exact Hw. }
  eapply wp_mono; [exact Hw|]. intros t' s2 (Hsame&TR2&St). by exists (deliver es (serialize_events t) out), buf.
Qed.

Lemma flush_event_spec t es evs s :
  tl_ready s t es evs ->
  wp (ht_timeline_flush t) (fun t' s' => same_timeline t t' /\ tl_ready s' t' es [] /\
    env_step s (deliver es (serialize_events t) (if decide (evs = []) then [] else [evs])) s') s.
Proof.
  intros TR. unfold ht_timeline_flush. apply (with_lock_spec t es evs s); [done|].
  intros s1 TR1 Ek. eapply wp_mono; [by apply (timeline_flush_spec t es evs)|].
  intros t' s2 (Hsame&TR2&St). by exists (deliver es (serialize_events t) (if decide (evs = []) then [] else [evs])), [].
Qed.

(** ** Programs over a timeline *)

Inductive timeline_op := OpPush (e : pushed) | OpFlush.

Fixpoint timeline_run (ops : list timeline_op) t : ST (sys E) HT_Timeline :=
  match ops with
  | [] => mret t
  | OpPush e :: ops => t ← ht_timeline_push_event t (pv e); timeline_run ops t
  | OpFlush :: ops => t ← ht_timeline_flush t; timeline_run ops t
  end.

(** The batches and the events left, by the reference. *)
Fixpoint run_ref (ser : bool) (cap : Z) (buf : list pushed) (ops : list timeline_op) : list (list pushed) * list pushed :=
  match ops with
  | [] => ([], buf)
  | op :: ops =>
      let '(out, buf) := match op with
                         | OpPush e => push_ref ser cap buf e
                         | OpFlush => (if decide (buf = []) then [] else [buf], [])
                         end in
      let '(out', buf) := run_ref ser cap buf ops in
      (out ++ out', buf)
  end.

Definition pushes (ops : list timeline_op) : list pushed :=
  ops ≫= (fun op => match op with OpPush e => [e] | OpFlush => [] end).

Lemma push_ref_stream ser cap buf e :
  concat (push_ref ser cap buf e).1 ++ (push_ref ser cap buf e).2 = buf ++ [e].
Proof.
  unfold push_ref, make_room. repeat case_decide; simpl; subst; rewrite ?app_nil_r; try done.
  exfalso. unfold buffer_size, event_size in *. lia.
Qed.

(** Nothing is lost, duplicated or reordered by the reference. *)
Lemma run_ref_stream ser cap buf ops :
  concat (run_ref ser cap buf ops).1 ++ (run_ref ser cap buf ops).2 = buf ++ pushes ops.
Proof.
  revert buf. induction ops as [|op ops IH]; intros buf; simpl; [by rewrite app_nil_r|].
  destruct op as [e|].
  - pose proof (push_ref_stream ser cap buf e) as Hp. destruct (push_ref ser cap buf e) as [out buf1].
    specialize (IH buf1). destruct (run_ref ser cap buf1 ops) as [out2 buf2]. simpl in *.
    rewrite concat_app, <- app_assoc, IH, app_assoc, Hp. by rewrite <- app_assoc.
  - specialize (IH []). destruct (run_ref ser cap [] ops) as [out2 buf2]. simpl in *.
    rewrite concat_app, <- app_assoc, IH. case_decide; subst; simpl; by rewrite ?app_nil_r.
Qed.

Lemma timeline_run_spec ops t es evs s :
  tl_ready s t es evs -> Forall (fun e => pushed_ok (klasses s) e /\ pushable t e) (pushes ops) ->
  wp (timeline_run ops t) (fun t' s' =>
    let '(out, buf) := run_ref (serialize_events t) (buffer_capacity t) evs ops in
    same_timeline t t' /\ tl_ready s' t' es buf /\ env_step s (deliver es (serialize_events t) out) s') s.
Proof.
  revert t evs s. induction ops as [|op ops IH]; intros t evs s TR HF; simpl; [by wp_steps|].
  assert (Hrest : forall out buf t1 s1, same_timeline t t1 -> tl_ready s1 t1 es buf ->
    env_step s (deliver es (serialize_events t) out) s1 ->
    Forall (fun e => pushed_ok (klasses s) e /\ pushable t e) (pushes ops) ->
    wp (timeline_run ops t1) (fun t' s' =>
      let '(out', buf') := run_ref (serialize_events t) (buffer_capacity t) buf ops in
      same_timeline t t' /\ tl_ready s' t' es buf' /\ env_step s (deliver es (serialize_events t) (out ++ out')) s') s1).
  { intros out buf t1 s1 Hsame TR1 St HF1. eapply wp_mono; [apply (IH t1 buf s1 TR1)|].
    - eapply Forall_impl; [exact HF1|]. intros e [He Hp]. rewrite (es_klasses _ _ _ St). split; [done|].
      unfold pushable. rewrite (st_ser _ _ Hsame), (st_cap _ _ Hsame). done.
    - intros t2 s2. rewrite (st_ser _ _ Hsame), (st_cap _ _ Hsame). destruct (run_ref _ _ buf ops) as [out' buf'].
      intros (Hs2&TR2&St2). split_and!; [by eapply same_timeline_trans|done|].
      pose proof (env_step_trans _ _ _ _ _ St St2) as St3. destruct St3. split; try done. by rewrite deliver_app. }
  destruct op as [e|].
  - apply Forall_cons in HF as [[He Hp] HF]. eapply wp_call; [by apply push_event_spec|].
    intros t1 s1. destruct (push_ref _ _ evs e) as [out buf]. intros (Hsame&TR1&St).
    eapply wp_mono; [by apply (Hrest out buf)|]. intros t2 s2. by destruct (run_ref _ _ buf ops).
  - eapply wp_call; [by apply (flush_event_spec t es evs)|]. intros t1 s1 (Hsame&TR1&St).
    eapply wp_mono; [by apply (Hrest (if decide (evs = []) then [] else [evs]) [])|]. intros t2 s2. by destruct (run_ref _ _ [] ops).
Qed.

(** ** Creation and destruction *)

Definition tl_ptrs t c : list ptr :=
  tself t :: tbuffer t :: (if decide (locking_policy t = NULL) then [] else [locking_policy t])
    ++ cont_ptrs (tlisteners t) c.

(** What a private timeline owns: its own blocks, its lock and its
    container, which nobody else refers to. *)
Record tl_owned s t c : Prop := {
  to_nonnull : Forall (fun p => p <> NULL /\ is_Some (blocks (sheap s) !! p)) [tself t; tbuffer t];
  to_lock : locking_policy t <> NULL -> is_Some (blocks (sheap s) !! locking_policy t) /\
            mutexes s !! locking_policy t = Some false;
  to_nodup : NoDup (tl_ptrs t c);
  to_cont : containers s !! tlisteners t = Some c;
  to_ref : refcount c = 1
}.

Definition no_features : list (option HT_Feature) := replicate (Z.to_nat HT_TIMELINE_MAX_FEATURES) None.

Lemma frame_nil_keep P l l' r : frame [] P l l' -> is_Some (l !! r) -> (r ∉ P) /\ l' !! r = l !! r.
Proof. intros [A _] Hr. apply A; [apply not_elem_of_nil|done]. Qed.

(** The two blocks of a timeline, for the error paths. *)
Lemma free_two {A} (k : ST (sys E) A) p q np nq s Q :
  p <> NULL -> q <> NULL -> p <> q -> blocks (sheap s) !! p = Some np -> blocks (sheap s) !! q = Some nq ->
  (forall h, blocks h = delete p (delete q (blocks (sheap s))) -> wp k Q (update h s)) ->
  wp (zoom (ht_free q);; zoom (ht_free p);; k) Q s.
Proof.
  intros Hp Hq Hne Hlp Hlq HQ. apply wp_bind, wp_zoom. apply (ht_free_spec q nq); [done|done|].
  intros h1 (E1&_&_). apply wp_bind, wp_zoom.
  apply (ht_free_spec p np); [done|simpl; by rewrite E1, lookup_delete_ne by done|].
  intros h2 (E2&_&_). simpl in E2. rewrite E1 in E2. apply (HQ h2 E2).
Qed.

Definition lock_entry (lp : ptr) (m : gmap ptr bool) : gmap ptr bool :=
  if decide (lp = NULL) then m else <[lp := false]> m.

(** The timeline [made] at the end of a successful creation. *)
Definition new_timeline (p q container : ptr) (cap : Z) (ser : bool) (policy : ptr) : HT_Timeline :=
  Timeline p (replicate (Z.to_nat HT_TIMELINE_MAX_FEATURES) None) cap 0 q
           (replicate (Z.to_nat cap) Indet) container policy ser.

Lemma tl_nodup p q (P : list ptr) : p <> q -> p ∉ P -> q ∉ P -> NoDup P -> NoDup (p :: q :: P).
Proof.
  intros Hpq Hp Hq HP. apply NoDup_cons. split; [by rewrite not_elem_of_cons|]. by apply NoDup_cons.
Qed.

Lemma new_timeline_ready s p q container c cap ser policy :
  cont_rep s container c [] -> 0 <= cap < 2 ^ 63 -> refcount c = 1 ->
  Forall (fun r => r <> NULL /\ is_Some (blocks (sheap s) !! r)) [p; q] ->
  (policy <> NULL -> is_Some (blocks (sheap s) !! policy) /\ mutexes s !! policy = Some false) ->
  NoDup (tl_ptrs (new_timeline p q container cap ser policy) c) ->
  tl_ready s (new_timeline p q container cap ser policy) [] [] /\ tl_owned s (new_timeline p q container cap ser policy) c.
Proof.
  intros CR Hcap Hrc HF Hpol Hnd. pose proof (cr_lookup _ _ _ _ CR) as Hlk. split.
  - split.
    + split; simpl; try done; [rewrite length_replicate; lia|lia|by destruct ser|by destruct ser|eauto].
    + intros Hn. simpl in *. split; [by apply Hpol|]. rewrite Hlk. intros c' [= <-] Eq.
      unfold tl_ptrs in Hnd. simpl in Hnd. rewrite decide_False in Hnd by done. simpl in Hnd.
      apply NoDup_cons in Hnd as [_ Hnd]. apply NoDup_cons in Hnd as [_ Hnd]. apply NoDup_cons in Hnd as [Hnin _].
      apply Hnin. rewrite Eq. unfold cont_ptrs. rewrite !elem_of_cons. tauto.
  - by split.
Qed.

Lemma tl_ptrs_new_lock p q container c cap ser m : m <> NULL ->
  tl_ptrs (new_timeline p q container cap ser m) c ≡ₚ m :: p :: q :: cont_ptrs container c.
Proof.
  intros Hm. unfold tl_ptrs. simpl. rewrite decide_False by done. simpl.
  rewrite (Permutation_swap m q). apply Permutation_swap.
Qed.

Lemma timeline_create_spec cap ts ser s :
  sys_wf s -> 0 <= cap ->
  wp (ht_timeline_create cap ts ser None) (fun '(err, o) s' =>
    senv s' = senv s /\ klasses s' = klasses s /\ registry s' = registry s /\
    match o with
    | None => blocks (sheap s') = blocks (sheap s) /\ mutexes s' = mutexes s /\ containers s' = containers s
    | Some t => err = HT_ERR_OK /\ buffer_capacity t = cap /\ serialize_events t = ser /\ features t = no_features /\ exists c,
        tl_ready s' t [] [] /\ tl_owned s' t c /\ capacity (entries c) = 16 /\ length (cells (entries c)) = 16%nat /\
        frame [] (tl_ptrs t c) (blocks (sheap s)) (blocks (sheap s')) /\
        mutexes s' = lock_entry (locking_policy t) (<[cmutex c := false]> (mutexes s)) /\
        containers s' = <[tlisteners t := c]> (containers s)
    end) s.
Proof.
  intros [Hwm Hwc] Hcap. unfold ht_timeline_create. apply wp_bind, wp_zoom, ht_alloc_spec.
  { intros h1 (E1&_&_). rewrite decide_True by done. by wp_steps. }
  intros p h1 Hp _ Hfp (E1&_&_). rewrite decide_False by done. apply wp_bind, wp_zoom, ht_alloc_spec.
  { intros h2 (E2&_&_). rewrite decide_True by done. apply wp_bind, wp_zoom.
    eapply (ht_free_spec p); [done|simpl in *; by rewrite E2, E1, lookup_insert_eq|]. intros h3 (E3&_&_). wp_steps. simpl in *.
    split_and!; try done. by rewrite E3, E2, E1, delete_insert_id. }
  intros q h2 Hq Hbig Hfq (E2&_&_). simpl in Hfq, E2. rewrite decide_False by done. simpl in *. rewrite E1 in Hfq, E2.
  assert (Hpq : p <> q) by (intros ->; rewrite lookup_insert_eq in Hfq; done).
  set (s2 := Sys h2 _ _ _ _ _ _). set (l2 := <[q := cap]> _) in E2.
  assert (Hl2 : l2 !! p = Some sizeof_HT_Timeline /\ l2 !! q = Some cap).
  { unfold l2. by rewrite lookup_insert_ne, !lookup_insert_eq by done. }
  assert (Hfr2 : frame [] [p; q] (blocks (sheap s)) l2).
  { apply (frame_trans _ [p] _ _ (<[p := sizeof_HT_Timeline]> (blocks (sheap s)))); [by apply frame_insert|].
    rewrite (Permutation_swap q p []). by apply frame_insert. }
  assert (Edel : delete p (delete q l2) = blocks (sheap s)).
  { unfold l2. by rewrite !delete_insert_id. }
  destruct Hl2 as [Hl2p Hl2q].
  eapply wp_call; [apply container_create_spec|]. intros container s3 (Ee&Eid&Ek&Er&Hc). case_decide as Hcn.
  { destruct Hc as (Eb3&Em3&Ec3). simpl in Eb3. rewrite E2 in Eb3.
    apply (free_two _ p q sizeof_HT_Timeline cap); rewrite ?Eb3; try done. intros h4 E4. wp_steps. simpl in *.
    rewrite Edel in E4. by split_and!. }
  destruct Hc as (c&CR&_&Hlen&Hcp&Hrc&_&Hfr3&Hmf&Em3&Ec3). simpl in Hfr3, Hmf. rewrite E2 in Hfr3, Hmf.
  destruct (frame_nil_keep _ _ _ p Hfr3) as [Hpc Ep3]; [eauto|]. destruct (frame_nil_keep _ _ _ q Hfr3) as [Hqc Eq3]; [eauto|].
  pose proof (cr_nodup _ _ _ _ CR) as Hndc. fold (cont_ptrs container c) in Hndc.
  assert (HF : Forall (fun r => r <> NULL /\ is_Some (blocks (sheap s3) !! r)) [p; q]).
  { repeat constructor; try done; [rewrite Ep3|rewrite Eq3]; eauto. }
  assert (Hfr03 : frame [] (p :: q :: cont_ptrs container c) (blocks (sheap s)) (blocks (sheap s3))).
  { apply (frame_trans _ [p; q] _ _ l2); [done|]. apply (frame_keep [p; q] []); [done|].
    repeat constructor; eauto; apply not_elem_of_nil. }
  assert (Hfree : forall r, r ∈ cont_ptrs container c -> blocks (sheap s) !! r = None).
  { intros r Hr. destruct (blocks (sheap s) !! r) eqn:Eq; [|done].
    destruct (frame_nil_keep _ _ _ r Hfr03) as [Hin _]; [eauto|]. exfalso. apply Hin. right. by right. }
  destruct ts.
  - apply wp_bind, mutex_create_spec.
    + intros h4 (E4&_&_). rewrite decide_True by done.
      eapply wp_call; [apply (container_unref_last container c []); [|done]|].
      { by eapply (cont_rep_step s3 _ _ _ _ (fun e => e)). }
      intros _ s5 (Ee5&_&Ek5&Er5&Em5&Ec5&Hfr5). simpl in *. rewrite E4 in Hfr5.
      assert (Eb5 : blocks (sheap s5) = l2) by (apply frame_nil; by eapply frame_trans).
      apply (free_two _ p q sizeof_HT_Timeline cap); rewrite ?Eb5; try done. intros h6 E6. wp_steps. simpl in *.
      rewrite Edel in E6. rewrite Ee5, Ek5, Er5, Em5, Ec5, Em3, Ec3. split_and!; try done.
      * apply delete_insert_id. destruct (mutexes s !! cmutex c) eqn:Eq; [|done].
        destruct (Hwm (cmutex c)) as [? Hm]; [eauto|]. rewrite Hfree in Hm; [done|]. unfold cont_ptrs. rewrite !elem_of_cons. tauto.
      * apply delete_insert_id. destruct (containers s !! container) eqn:Eq; [|done].
        destruct (Hwc container) as [? Hm]; [eauto|]. rewrite Hfree in Hm; [done|]. left.
    + intros m h4 Hm Hfm E4. rewrite decide_False by done. apply wp_ret.
      pose proof (cont_live _ _ _ _ CR) as Hlive.
      assert (Hmin : m ∉ p :: q :: cont_ptrs container c).
      { intros Hin. assert (is_Some (blocks (sheap s3) !! m)) as [? Hs]; [|rewrite Hfm in Hs; done].
        rewrite !elem_of_cons in Hin. apply Forall_cons in HF as [[_ ?] [[_ ?] _]%Forall_cons].
        destruct Hin as [->|[->|Hin]]; [done|done|]. rewrite Forall_forall in Hlive. by apply Hlive. }
      destruct (new_timeline_ready (set_mutexes <[m := false]> (update h4 s3)) p q container c cap ser m) as [TR TO]; try done.
      * apply cont_rep_mutex; [by eapply cont_rep_alloc|]. intros Eq. apply Hmin. rewrite Eq. unfold cont_ptrs.
        rewrite !elem_of_cons. tauto.
      * eapply Forall_impl; [exact HF|]. simpl. intros r [? ?]. rewrite E4. split; [done|]. by apply lookup_insert_is_Some'; right.
      * intros _. simpl. rewrite E4, !lookup_insert_eq. eauto.
      * rewrite (tl_ptrs_new_lock _ _ _ _ _ _ _ Hm). apply NoDup_cons. split; [done|]. by apply tl_nodup.
      * split_and!; try done. exists c. split_and!; try done.
        -- eapply frame_perm; [reflexivity|symmetry; by apply (tl_ptrs_new_lock p q container c cap ser m)|].
           simpl. rewrite E4. eapply frame_trans; [exact Hfr03|]. by apply frame_insert.
        -- simpl. unfold lock_entry. rewrite decide_False by done. by rewrite Em3.
  - apply wp_ret. destruct (new_timeline_ready s3 p q container c cap ser NULL) as [TR TO]; try done.
    { by apply tl_nodup. }
    split_and!; try done. exists c. by split_and!.
Qed.

Lemma cont_rep_free s p c es q h :
  cont_rep s p c es -> q ∉ cont_ptrs p c -> blocks h = delete q (blocks (sheap s)) ->
  cont_rep (update h s) p c es.
Proof.
  intros [Hc R Hm Hl Hnd Hrc] Hq Eh. unfold cont_ptrs in Hq. rewrite !not_elem_of_cons in Hq.
  destruct Hq as (Hqp&Hqd&Hqm&_).
  assert (Hkeep : forall r, r <> q -> blocks h !! r = blocks (sheap s) !! r).
  { intros r Hr. by rewrite Eh, lookup_delete_ne. }
  split; simpl; try done.
  - eapply rep_live_mono; [|exact R]. by apply Hkeep, not_eq_sym.
  - apply Forall_cons in Hl as [[? ?] [[? ?] _]%Forall_cons].
    repeat constructor; try done; by rewrite Hkeep by (by apply not_eq_sym).
Qed.

Lemma destroy_no_features n s (Q : () -> sys E -> Prop) : Q tt s -> wp (destroy_features (replicate n None)) Q s.
Proof. intros HQ. induction n as [|n IH]; simpl; [by apply wp_ret|done]. Qed.

(** The last blocks of a timeline: its lock, if it has one, and itself. *)
Lemma release_spec t s :
  tself t <> NULL -> is_Some (blocks (sheap s) !! tself t) ->
  (locking_policy t <> NULL -> is_Some (blocks (sheap s) !! locking_policy t) /\
     mutexes s !! locking_policy t = Some false /\ locking_policy t <> tself t) ->
  wp ((if decide (locking_policy t <> NULL) then ht_mutex_destroy (locking_policy t) else mret ());;
      zoom (ht_free (tself t))) (fun _ s' =>
    senv s' = senv s /\ klasses s' = klasses s /\ registry s' = registry s /\ containers s' = containers s /\
    mutexes s' = (if decide (locking_policy t = NULL) then mutexes s else delete (locking_policy t) (mutexes s)) /\
    frame (tself t :: (if decide (locking_policy t = NULL) then [] else [locking_policy t])) []
      (blocks (sheap s)) (blocks (sheap s'))) s.
Proof.
  intros Hn [n Hl] Hlock. destruct (decide (locking_policy t = NULL)) as [Hp|Hp].
  - rewrite decide_False, ret_bind by tauto. apply wp_zoom, (ht_free_spec _ n); [done|done|].
    intros h (Eh&_&_). simpl. rewrite Eh. split_and!; try done. apply frame_delete.
  - rewrite decide_True by done. destruct (Hlock Hp) as ([nm Hlm]&Hm&Hne). apply wp_bind.
    apply (mutex_destroy_spec _ nm); [done|done|done|]. intros h1 E1.
    apply wp_zoom, (ht_free_spec _ n); [done|simpl; by rewrite E1, lookup_delete_ne|].
    intros h (Eh&_&_). simpl in *. rewrite Eh, E1. split_and!; try done.
    rewrite (Permutation_swap (locking_policy t) (tself t)). eapply frame_trans; [apply frame_delete|apply frame_delete].
Qed.

(** Destroying the features [fs], which own the blocks [own] and among them
    the mutexes [ms], turns the environment [env] into [env'] and does nothing
    else. *)
Definition features_end (fs : list (option HT_Feature)) (own ms : list ptr) (live : gmap ptr Z) (env env' : E) : Prop :=
  forall s, senv s = env -> (forall r, r ∈ own -> blocks (sheap s) !! r = live !! r) ->
    (forall m, m ∈ ms -> mutexes s !! m = Some false) ->
    wp (destroy_features fs) (fun _ s' => senv s' = env' /\ klasses s' = klasses s /\ registry s' = registry s /\
      containers s' = containers s /\ mutexes s' = foldr delete (mutexes s) ms /\
      frame own [] (blocks (sheap s)) (blocks (sheap s'))) s.

Lemma no_features_end live env : features_end no_features [] [] live env env.
Proof. intros s Hs _ _. unfold no_features. apply destroy_no_features. by split_and!. Qed.

(** A single feature is in its slot. *)
Lemma one_feature_end n feature own ms live env env' :
  (n < Z.to_nat HT_TIMELINE_MAX_FEATURES)%nat ->
  (forall s, senv s = env -> (forall r, r ∈ own -> blocks (sheap s) !! r = live !! r) ->
    (forall m, m ∈ ms -> mutexes s !! m = Some false) ->
    wp (destroy_feature feature) (fun _ s' => senv s' = env' /\ klasses s' = klasses s /\ registry s' = registry s /\
      containers s' = containers s /\ mutexes s' = foldr delete (mutexes s) ms /\
      frame own [] (blocks (sheap s)) (blocks (sheap s'))) s) ->
  features_end (<[n := Some feature]> no_features) own ms live env env'.
Proof.
  intros Hn Hd s Hs Hl Hm. unfold no_features. rewrite insert_take_drop by (by rewrite length_replicate).
  rewrite take_replicate, drop_replicate. generalize (n `min` Z.to_nat HT_TIMELINE_MAX_FEATURES)%nat as a.
  intros a. induction a as [|a IH]; simpl; [|exact IH].
  apply wp_bind. eapply wp_mono; [by apply Hd|]. intros [] s' Hs'. by apply destroy_no_features.
Qed.

(** Destruction delivers what is buffered, destroys the listeners and the
    features and releases everything the timeline owns. *)
Lemma timeline_destroy_spec t c es evs own ms env' s :
  tl_ready s t es evs -> tl_owned s t c ->
  Forall (fun r => is_Some (blocks (sheap s) !! r) /\ r ∉ tl_ptrs t c) own ->
  Forall (fun m => m ∈ own /\ mutexes s !! m = Some false) ms ->
  features_end (features t) own ms (blocks (sheap s))
    (destroy_env es (deliver es (serialize_events t) (if decide (evs = []) then [] else [evs]) (senv s))) env' ->
  wp (ht_timeline_destroy t) (fun _ s' =>
    senv s' = env' /\
    klasses s' = klasses s /\ containers s' = delete (tlisteners t) (containers s) /\
    mutexes s' = (if decide (locking_policy t = NULL) then foldr delete (delete (cmutex c) (mutexes s)) ms
                  else delete (locking_policy t) (foldr delete (delete (cmutex c) (mutexes s)) ms)) /\
    frame (tl_ptrs t c ++ own) [] (blocks (sheap s)) (blocks (sheap s'))) s.
Proof.
  intros TR [Hnn Hlk Hnd Hc Hrc] Hown Hms Hfe. apply Forall_cons in Hnn as [[Htn Ht] [[Hbn [nb Hb]] _]%Forall_cons].
  unfold ht_timeline_destroy. eapply wp_call; [by apply (flush_event_spec t es evs)|].
  intros t1 s1 (Hsame&[TR1 _]&[Eb Em Ec Ek Er _ Ee]).
  rewrite (st_self _ _ Hsame), (st_features _ _ Hsame), (st_buffer _ _ Hsame), (st_listeners _ _ Hsame), (st_lock _ _ Hsame).
  destruct (tl_cont _ _ _ _ TR1) as [c' CR]. rewrite (st_listeners _ _ Hsame) in CR.
  pose proof (cr_lookup _ _ _ _ CR) as Hc'. rewrite Ec, Hc in Hc'. injection Hc' as <-.
  unfold tl_ptrs in Hnd, Hown |- *. set (lock := if decide _ then [] else _) in *.
  apply NoDup_cons in Hnd as [Htin [Hbin Hnd]%NoDup_cons].
  apply not_elem_of_cons in Htin as [Htb Htin]. apply not_elem_of_app in Htin as [Htl Htc]. apply not_elem_of_app in Hbin as [Hbl Hbc].
  apply NoDup_app in Hnd as (_&Hlc&_).
  apply wp_bind, wp_zoom, (ht_free_spec _ nb); [done|simpl; by rewrite Eb|]. intros h2 (E2&_&_). simpl in E2. rewrite Eb in E2.
  eapply wp_call; [apply (container_unref_last _ c es); [|done]; by apply (cont_rep_free s1 _ _ _ (tbuffer t)); rewrite ?Eb|].
  intros _ s3 (Ee3&_&Ek3&Er3&Em3&Ec3&Hfr3). simpl in Ee3, Ek3, Er3, Em3, Ec3, Hfr3. rewrite E2 in Hfr3. rewrite Ee in Ee3.
  assert (Hfr03 : frame (tbuffer t :: cont_ptrs (tlisteners t) c) [] (blocks (sheap s)) (blocks (sheap s3))).
  { eapply frame_trans; [apply frame_delete|exact Hfr3]. }
  assert (Hownk : forall r, r ∈ own -> is_Some (blocks (sheap s) !! r) /\ r <> tself t /\ (r ∉ lock) /\ r ∉ tbuffer t :: cont_ptrs (tlisteners t) c).
  { intros r Hr. rewrite Forall_forall in Hown. destruct (Hown r Hr) as [Hl Hn]. rewrite !not_elem_of_cons, not_elem_of_app in Hn.
    rewrite not_elem_of_cons. tauto. }
  assert (Hmk : forall m, m ∈ ms -> m ∈ own /\ mutexes s !! m = Some false /\ m ∉ lock).
  { intros m Hm. rewrite Forall_forall in Hms. destruct (Hms m Hm) as [Ho ?]. by destruct (Hownk m Ho) as (_&_&?&_). }
  eapply wp_call; [apply (Hfe s3 Ee3)|].
  { intros r Hr. destruct (Hownk r Hr) as (Hl&_&_&Hn). by apply (proj1 Hfr03). }
  { intros m Hm. destruct (Hmk m Hm) as (Ho&Ef&_). destruct (Hownk m Ho) as (_&_&_&Hn). rewrite Em3, Em, lookup_delete_ne; [done|].
    intros <-. apply Hn. unfold cont_ptrs. rewrite !elem_of_cons. tauto. }
  intros _ s4 (Ee4&Ek4&Er4&Ec4&Em4&Hfr4).
  assert (Hrest : Forall (fun r => is_Some (blocks (sheap s) !! r) /\ (r ∉ tbuffer t :: cont_ptrs (tlisteners t) c) /\ r ∉ own) (tself t :: lock)).
  { apply Forall_cons. rewrite not_elem_of_cons. split; [split_and!; try done; intros Hr; by destruct (Hownk _ Hr) as (_&?&_)|].
    apply Forall_forall. intros r Hr. rewrite not_elem_of_cons. split_and!; [|by intros ->| by apply Hlc|intros Hro; by destruct (Hownk _ Hro) as (_&_&?&_)].
    unfold lock in *. case_decide as Hp; [by apply not_elem_of_nil in Hr|]. apply list_elem_of_singleton in Hr as ->. by apply Hlk. }
  assert (Hkeep : forall r, r ∈ tself t :: lock -> blocks (sheap s4) !! r = blocks (sheap s) !! r).
  { intros r Hr. rewrite Forall_forall in Hrest. destruct (Hrest r Hr) as (Hl&Hn&Ho). destruct (proj1 Hfr03 r Hn Hl) as [_ E3].
    rewrite <- E3. apply (proj1 Hfr4); [done|by rewrite E3]. }
  eapply wp_mono; [apply release_spec; [done|rewrite Hkeep; [done|left]|]|].
  - intros Hp. destruct (Hlk Hp) as [Hl Hm]. unfold lock in *. rewrite decide_False in Hkeep, Hlc, Htl by done.
    assert (Hlpc : locking_policy t ∉ cont_ptrs (tlisteners t) c) by (apply Hlc; left).
    rewrite list_elem_of_singleton in Htl. rewrite Hkeep by (right; left).
    rewrite Em4, Em3, Em, lookup_foldr_delete_not_elem_of, lookup_delete_ne.
    + split_and!; done.
    + intros Eq. apply Hlpc. rewrite <- Eq. unfold cont_ptrs. rewrite !elem_of_cons. tauto.
    + intros Hin. destruct (Hmk _ Hin) as (_&_&Hn). rewrite decide_False in Hn by done. apply Hn. left.
  - intros _ s5 (Ee5&Ek5&Er5&Ec5&Em5&Hfr5). rewrite Ee5, Ec5, Em5, Ee4, Ec4, Em4, Ec3, Em3, Ec, Em, Ek5, Ek4, Ek3, Ek. split_and!; try done.
    fold lock in Hfr5. set (K := tself t :: lock) in *.
    apply (frame_trans _ (K ++ own) _ _ (blocks (sheap s3))).
    + apply (frame_perm ((K ++ own) ++ (tbuffer t :: cont_ptrs (tlisteners t) c)) ((K ++ own) ++ [])); [|by rewrite app_nil_r|].
      * unfold K. simpl. solve_Permutation.
      * apply frame_keep; [done|]. apply Forall_app. split; [eapply Forall_impl; [exact Hrest|]; by intros r (?&?&_)|].
        apply Forall_forall. intros r Hr. destruct (Hownk r Hr) as (?&_&_&?). done.
    + apply (frame_trans _ K _ _ (blocks (sheap s4))); [|done]. rewrite <- (app_nil_r K) at 2. apply frame_keep; [done|].
      eapply Forall_impl; [exact Hrest|]. intros r (Hl&Hn&Ho). destruct (proj1 Hfr03 r Hn Hl) as [_ ->]. done.
Qed.

(** The batches of the reference: none is empty, and one that does not fit
    the buffer is a single event. *)
Definition timeline_batch_ok (ser : bool) (cap : Z) (b : list pushed) : Prop :=
  b <> [] /\ (buffer_size ser b <= cap \/ length b = 1%nat).

Lemma buffered_ok ser cap buf : buffer_size ser buf <= cap -> Forall (timeline_batch_ok ser cap) (if decide (buf = []) then [] else [buf]).
Proof. intros Hle. case_decide; [constructor|]. constructor; [|constructor]. split; [done|by left]. Qed.

Lemma push_ref_ok ser cap buf e : 0 <= cap -> buffer_size ser buf <= cap ->
  Forall (timeline_batch_ok ser cap) (push_ref ser cap buf e).1 /\ buffer_size ser (push_ref ser cap buf e).2 <= cap.
Proof.
  intros Hc Hle. pose proof (buffered_ok ser cap buf Hle) as HF.
  assert (Hnil : buffer_size ser [] <= cap) by (by destruct ser).
  assert (Happ : forall buf', buffer_size ser (buf' ++ [e]) = buffer_size ser buf' + event_size ser e).
  { intros buf'. unfold buffer_size, event_size. rewrite cells_of_app, cells_of_one, length_app. lia. }
  unfold push_ref, make_room. destruct (decide (cap < buffer_size ser buf + event_size ser e)) as [Hroom|Hroom];
    destruct (decide (cap < event_size ser e)) as [Hbig|Hbig]; simpl.
  - split; [|done]. apply Forall_app. split; [done|]. constructor; [|constructor]. split; [done|by right].
  - split; [done|]. pose proof (Happ []) as Hone. simpl in Hone. rewrite Hone. destruct ser; unfold buffer_size in *; simpl in *; lia.
  - split; [|done]. constructor; [|constructor]. split; [done|by right].
  - split; [constructor|]. rewrite Happ. lia.
Qed.

Lemma run_ref_ok ser cap buf ops : 0 <= cap -> buffer_size ser buf <= cap ->
  Forall (timeline_batch_ok ser cap) (run_ref ser cap buf ops).1 /\ buffer_size ser (run_ref ser cap buf ops).2 <= cap.
Proof.
  intros Hc. revert buf. induction ops as [|op ops IH]; intros buf Hle; simpl; [done|].
  assert (Hstep : forall out buf1, Forall (timeline_batch_ok ser cap) out -> buffer_size ser buf1 <= cap ->
    let '(out', buf') := run_ref ser cap buf1 ops in
    Forall (timeline_batch_ok ser cap) (out ++ out') /\ buffer_size ser buf' <= cap).
  { intros out buf1 HF Hb. specialize (IH buf1 Hb). destruct (run_ref ser cap buf1 ops). simpl in IH.
    rewrite Forall_app. tauto. }
  destruct op as [e|].
  - destruct (push_ref_ok ser cap buf e Hc Hle) as [HF Hb]. destruct (push_ref ser cap buf e) as [out buf1].
    specialize (Hstep out buf1 HF Hb). by destruct (run_ref ser cap buf1 ops).
  - specialize (Hstep _ [] (buffered_ok ser cap buf Hle)). destruct (run_ref ser cap [] ops). apply Hstep. by destruct ser.
Qed.

(** Everything a program hands over when its timeline is flushed at the
    end. *)
Definition batches_of (ser : bool) (cap : Z) (buf : list pushed) (ops : list timeline_op) : list (list pushed) :=
  let '(out, buf) := run_ref ser cap buf ops in out ++ (if decide (buf = []) then [] else [buf]).

Lemma batches_of_ok ser cap buf ops : 0 <= cap -> buffer_size ser buf <= cap ->
  concat (batches_of ser cap buf ops) = buf ++ pushes ops /\ Forall (timeline_batch_ok ser cap) (batches_of ser cap buf ops).
Proof.
  intros Hc Hle. unfold batches_of. pose proof (run_ref_stream ser cap buf ops) as Hst.
  destruct (run_ref_ok ser cap buf ops Hc Hle) as [HF Hb]. destruct (run_ref ser cap buf ops) as [out buf1]. simpl in *.
  rewrite <- Hst, concat_app. split.
  - f_equal. case_decide; subst; simpl; [done|apply app_nil_r].
  - apply Forall_app. split; [done|]. by apply buffered_ok.
Qed.

Lemma run_flush_spec ops t es evs s :
  tl_ready s t es evs -> Forall (fun e => pushed_ok (klasses s) e /\ pushable t e) (pushes ops) ->
  wp (t ← timeline_run ops t; ht_timeline_flush t) (fun t' s' =>
    same_timeline t t' /\ tl_ready s' t' es [] /\
    env_step s (deliver es (serialize_events t) (batches_of (serialize_events t) (buffer_capacity t) evs ops)) s') s.
Proof.
  intros TR HF. eapply wp_call; [by apply (timeline_run_spec ops t es evs)|]. intros t1 s1. unfold batches_of.
  destruct (run_ref _ _ evs ops) as [out buf]. intros (Hsame&TR1&St).
  eapply wp_mono; [by apply (flush_event_spec t1 es buf)|]. intros t2 s2 (Hs2&TR2&St2).
  split_and!; [by eapply same_timeline_trans|done|]. rewrite (st_ser _ _ Hsame) in St2.
  pose proof (env_step_trans _ _ _ _ _ St St2) as St3. destruct St3. split; try done. by rewrite deliver_app.
Qed.

(** C2: a timeline loses, repeats and reorders nothing.  For every sequence
    of pushes and flushes on a timeline whose buffer is empty, followed by a
    flush, what the listeners have been given is a sequence of batches whose
    concatenation is the sequence of the pushed events, in their wire format
    or as objects; no batch is empty, each fits the buffer or is one single
    event, and nothing else of the state changes.  (The memory for serialised
    events that are larger than the buffer and than 128 bytes is granted.) *)
Theorem timeline_delivers_every_event ops t es s :
  tl_ready s t es [] -> Forall (fun e => pushed_ok (klasses s) e /\ pushable t e) (pushes ops) ->
  wp (t ← timeline_run ops t; ht_timeline_flush t) (fun t' s' =>
    tl_ready s' t' es [] /\ exists batches, concat batches = pushes ops /\
      Forall (timeline_batch_ok (serialize_events t) (buffer_capacity t)) batches /\
      env_step s (deliver es (serialize_events t) batches) s') s.
Proof.
  intros TR HF. eapply wp_mono; [by apply (run_flush_spec ops t es [])|]. intros t' s' (_&TR'&St). split; [done|].
  pose proof (tl_len _ _ _ _ (proj1 TR)) as Hlen.
  destruct (batches_of_ok (serialize_events t) (buffer_capacity t) [] ops) as [Hcat Hok]; [lia|unfold buffer_size; destruct (serialize_events t); simpl; lia|].
  eauto.
Qed.

(** ** The life of a private timeline *)

Fixpoint timeline_register_all t (rs : list registration) : ST (sys E) (list HT_ErrorCode) :=
  match rs with
  | [] => mret []
  | r :: rs =>
      err ← ht_timeline_register_listener_full t (rcallback r) (ruser_data r) (rdestroy r);
      errs ← timeline_register_all t rs;
      mret (err :: errs)
  end.

Lemma timeline_register_all_eq t rs : timeline_register_all t rs = register_all (tlisteners t) rs.
Proof. induction rs as [|r rs IH]; simpl; [done|]. by rewrite IH. Qed.

Definition timeline_lifetime (cap : Z) (ts ser : bool) (rs : list registration) (ops : list timeline_op)
    : ST (sys E) (HT_ErrorCode + list HT_ErrorCode) :=
  '(err, o) ← ht_timeline_create cap ts ser None;
  match o with
  | None => mret (inl err)
  | Some t =>
      errs ← timeline_register_all t rs;
      t ← timeline_run ops t;
      ht_timeline_destroy t;;
      mret (inr errs)
  end.

Lemma tl_register t c rs s :
  tl_ready s t [] [] -> tl_owned s t c -> capacity (entries c) = 16 -> length (cells (entries c)) = 16%nat ->
  (length rs <= 16)%nat ->
  wp (timeline_register_all t rs) (fun errs s' => Forall (fun e => e = HT_ERR_OK) errs /\ exists b,
    s' = set_containers <[tlisteners t := set_entries b c]> s /\ tl_ptrs t (set_entries b c) = tl_ptrs t c /\
    tl_ready s' t (entry_of <$> rs) [] /\ tl_owned s' t (set_entries b c)) s.
Proof.
  intros [TR Hlk] TO Hcap Hlen Hn. pose proof TO as [Hnn Htl Hnd Hc Hrc]. rewrite timeline_register_all_eq.
  destruct (tl_cont _ _ _ _ TR) as [c' CR]. pose proof (cr_lookup _ _ _ _ CR) as Hc'. rewrite Hc in Hc'. injection Hc' as <-.
  eapply wp_mono; [by apply (register_all_spec _ c [] rs)|]. intros errs s1 (HF&b&->&Ed&CR1). split; [done|]. exists b.
  assert (Eptrs : tl_ptrs t (set_entries b c) = tl_ptrs t c) by (unfold tl_ptrs, cont_ptrs; simpl; by rewrite Ed).
  split_and!; try done.
  - split.
    + destruct TR. split; try done. eauto.
    + intros Hp. destruct (Hlk Hp) as [Hm Hne]. split; [done|]. simpl. rewrite lookup_insert_eq. intros c2 [= <-]. by apply (Hne c).
  - split; try done; [by rewrite Eptrs|simpl; apply lookup_insert_eq].
Qed.

Lemma tl_owned_step s s' t t' c f : env_step s f s' -> same_timeline t t' -> tl_owned s t c -> tl_owned s' t' c.
Proof.
  intros [Eb Em Ec _ _ _ _] Hsame [Hnn Htl Hnd Hc Hrc].
  split; unfold tl_ptrs in *; rewrite ?(st_self _ _ Hsame), ?(st_buffer _ _ Hsame), ?(st_lock _ _ Hsame), ?(st_listeners _ _ Hsame),
    ?Eb, ?Em, ?Ec; done.
Qed.

Lemma lock_entry_undo lp cm (m : gmap ptr bool) :
  (lp <> NULL -> m !! lp = None /\ lp <> cm) -> m !! cm = None ->
  (if decide (lp = NULL) then delete cm (lock_entry lp (<[cm := false]> m))
   else delete lp (delete cm (lock_entry lp (<[cm := false]> m)))) = m.
Proof.
  intros Hlp Hcm. unfold lock_entry. case_decide as Hn; [by apply delete_insert_id|].
  destruct (Hlp Hn) as [Hl Hne]. rewrite insert_insert_ne, delete_insert_id; [by apply delete_insert_id| |done].
  by rewrite lookup_insert_ne.
Qed.

(** The objects of a new timeline are new. *)
Lemma new_objects s t c (l' : gmap ptr Z) :
  sys_wf s -> NoDup (tl_ptrs t c) -> frame [] (tl_ptrs t c) (blocks (sheap s)) l' ->
  mutexes s !! cmutex c = None /\ containers s !! tlisteners t = None /\
  (locking_policy t <> NULL -> mutexes s !! locking_policy t = None /\ locking_policy t <> cmutex c).
Proof.
  intros [Hwm Hwc] Hnd Hfr.
  assert (Hfree : forall r, r ∈ tl_ptrs t c -> blocks (sheap s) !! r = None).
  { intros r Hr. destruct (blocks (sheap s) !! r) eqn:Eq; [|done].
    destruct (frame_nil_keep _ _ _ r Hfr) as [Hin _]; [eauto|done]. }
  assert (Hmx : forall r, r ∈ tl_ptrs t c -> mutexes s !! r = None).
  { intros r Hr. destruct (mutexes s !! r) eqn:Eq; [|done]. destruct (Hwm r) as [? Hm]; [eauto|]. by rewrite Hfree in Hm. }
  assert (Hin : forall r, r ∈ cont_ptrs (tlisteners t) c -> r ∈ tl_ptrs t c).
  { intros r Hr. unfold tl_ptrs. right. right. apply elem_of_app. by right. }
  assert (Hcm : cmutex c ∈ cont_ptrs (tlisteners t) c) by (unfold cont_ptrs; rewrite !elem_of_cons; tauto).
  split_and!.
  - by apply Hmx, Hin.
  - destruct (containers s !! tlisteners t) eqn:Eq; [|done]. destruct (Hwc (tlisteners t)) as [? Hm]; [eauto|].
    rewrite Hfree in Hm; [done|]. apply Hin. left.
  - intros Hp. unfold tl_ptrs in Hnd, Hmx. rewrite decide_False in Hnd, Hmx by done. split.
    + apply Hmx. right. right. left.
    + intros Eq. do 2 apply NoDup_cons in Hnd as [_ Hnd]. apply NoDup_cons in Hnd as [Hn _]. apply Hn. by rewrite Eq.
Qed.

Lemma timeline_lifetime_spec cap ts ser rs ops s :
  sys_wf s -> 0 <= cap -> (length rs <= 16)%nat ->
  Forall (fun e => pushed_ok (klasses s) e /\ pushable_at cap ser e) (pushes ops) ->
  wp (timeline_lifetime cap ts ser rs ops) (fun r s' =>
    blocks (sheap s') = blocks (sheap s) /\ mutexes s' = mutexes s /\ containers s' = containers s /\
    klasses s' = klasses s /\
    match r with
    | inl _ => senv s' = senv s
    | inr errs => Forall (fun e => e = HT_ERR_OK) errs /\
        senv s' = destroy_env (entry_of <$> rs) (deliver (entry_of <$> rs) ser (batches_of ser cap [] ops) (senv s))
    end) s.
Proof.
  intros Hwf Hcap Hn HF. unfold timeline_lifetime. eapply wp_call; [by apply timeline_create_spec|].
  intros [err [t|]] s1 (Ee1&Ek1&_&Ht); [|wp_steps; tauto].
  destruct Ht as (_&Ecap&Eser&Efeat&c&TR&TO&Hc16&Hl16&Hfr&Em1&Ec1).
  destruct (new_objects s t c _ Hwf (to_nodup _ _ _ TO) Hfr) as (Hcm&Hct&Hlk).
  eapply wp_call; [by apply (tl_register t c rs s1)|]. intros errs s2 (HFe&b&->&Eptrs&TR2&TO2).
  eapply wp_call; [apply (timeline_run_spec ops t _ _ _ TR2)|].
  { simpl. rewrite Ek1. unfold pushable. by rewrite Ecap, Eser. }
  unfold batches_of. rewrite Ecap, Eser. intros t3 s3.
  destruct (run_ref ser cap [] ops) as [out buf]. intros (Hsame&TR3&St).
  pose proof (tl_owned_step _ _ _ _ _ _ St Hsame TO2) as TO3.
  eapply wp_call; [apply (timeline_destroy_spec t3 (set_entries b c) (entry_of <$> rs) buf [] []); [done|done|constructor|constructor|]|].
  { rewrite (st_features _ _ Hsame), Efeat. apply no_features_end. }
  intros _ s4 (Ee4&Ek4&Ec4&Em4&Hfr4). apply wp_ret. destruct St as [Eb3 Em3 Ec3 Ek3 _ _ Ee3]. simpl in *.
  rewrite Ee4, Ec4, Em4, Ek4, Ek3, Em3, Ec3, Em1, Ec1, Ee3, (st_ser _ _ Hsame), (st_listeners _ _ Hsame), (st_lock _ _ Hsame), Eser, Ee1.
  split_and!; try done.
  - apply frame_nil. eapply frame_trans; [exact Hfr|]. rewrite Eb3, app_nil_r in Hfr4. revert Hfr4. unfold tl_ptrs in *.
    by rewrite (st_self _ _ Hsame), (st_buffer _ _ Hsame), (st_listeners _ _ Hsame), (st_lock _ _ Hsame), Eptrs.
  - by apply lock_entry_undo.
  - by rewrite insert_insert_eq, delete_insert_id.
  - by rewrite deliver_app.
Qed.

(** C1: the life of a private timeline.  A timeline that is created without a
    name, takes up to 16 listeners, goes through any sequence of pushes and
    flushes and is destroyed has given every listener every event, in order and
    in batches, has destroyed every listener once, and leaves the heap, the
    mutexes and the containers as they were; if it cannot be created nothing
    changes.  The allocator may refuse any request but one: where the timeline
    serialises, the memory for an event of more than 128 bytes that is larger
    than the buffer has to be granted ([pushable_at]), since the code uses it
    without a check. *)
Theorem timeline_lifetime_delivers cap ts ser rs ops s :
  sys_wf s -> 0 <= cap -> (length rs <= 16)%nat ->
  Forall (fun e => pushed_ok (klasses s) e /\ pushable_at cap ser e) (pushes ops) ->
  wp (timeline_lifetime cap ts ser rs ops) (fun r s' =>
    blocks (sheap s') = blocks (sheap s) /\ mutexes s' = mutexes s /\ containers s' = containers s /\
    match r with
    | inl _ => senv s' = senv s
    | inr errs => Forall (fun e => e = HT_ERR_OK) errs /\ exists batches,
        concat batches = pushes ops /\ Forall (timeline_batch_ok ser cap) batches /\
        senv s' = destroy_env (entry_of <$> rs) (deliver (entry_of <$> rs) ser batches (senv s))
    end) s.
Proof.
  intros Hwf Hcap Hn HF. eapply wp_mono; [by apply timeline_lifetime_spec|].
  intros r s' (Eb&Em&Ec&_&Hr). split_and!; try done. destruct r as [err|errs]; [done|]. destruct Hr as [HFe Ee].
  split; [done|]. exists (batches_of ser cap [] ops).
  destruct (batches_of_ok ser cap [] ops Hcap) as [Hcat Hok]; [unfold buffer_size; destruct ser; simpl; lia|].
  by split_and!.
Qed.

(** ** Features *)

(** The features of a timeline.  A feature whose class has not been
    registered or has an identifier of 32 or more is refused with
    HT_ERR_FEATURE_NOT_REGISTERED, one whose slot is taken with
    HT_ERR_FEATURE_ALREADY_REGISTERED; both times the timeline is unchanged
    and the refused feature is destroyed, once.  Otherwise the feature is
    found under its own class and every other feature is found as before. *)
Theorem set_feature_get_feature t f s :
  length (features t) = Z.to_nat HT_TIMELINE_MAX_FEATURES -> 0 <= fk_id (fklass f) ->
  let refused err := ht_timeline_set_feature t f s = (destroy_feature f;; mret (err, t)) s in
  if decide (fk_id (fklass f) = HT_INVALID_FEATURE_ID \/ HT_TIMELINE_MAX_FEATURES <= fk_id (fklass f))
  then refused HT_ERR_FEATURE_NOT_REGISTERED
  else match ht_timeline_get_feature t (fklass f) with
       | Some (Some _) => refused HT_ERR_FEATURE_ALREADY_REGISTERED
       | Some None => exists t', ht_timeline_set_feature t f s = Done ((HT_ERR_OK, t'), s) /\
           ht_timeline_get_feature t' (fklass f) = Some (Some f) /\
           length (features t') = Z.to_nat HT_TIMELINE_MAX_FEATURES /\
           forall k, 0 <= fk_id k -> fk_id k <> fk_id (fklass f) ->
             ht_timeline_get_feature t' k = ht_timeline_get_feature t k
       | None => False
       end.
Proof.
  intros Hlen Hid refused. subst refused. cbv beta. unfold ht_timeline_set_feature, ht_timeline_get_feature. case_decide as Hd.
  - rewrite decide_True by lia. rewrite ret_bind. cbn beta iota. by rewrite decide_True by done.
  - rewrite decide_False by lia. destruct (features t !! _) as [[g|]|] eqn:Es; rewrite ?some_bind, ?ret_bind; cbn beta iota.
    + by rewrite decide_True by done.
    + eexists. split; [by rewrite decide_False by (intros []; done)|]. simpl.
      rewrite length_insert, list_lookup_insert_eq by (by eapply lookup_lt_Some). split_and!; try done.
      intros k Hk Hne. apply list_lookup_insert_ne. lia.
    + apply lookup_ge_None in Es. unfold HT_TIMELINE_MAX_FEATURES in *. lia.
Qed.

(** A large event and no memory for it: the blocks are not looked at. *)
Lemma push_serialized_refused t es evs e s :
  tl_rep s t es evs -> serialize_events t = true -> pushed_ok (klasses s) e -> 128 < event_size true e < 2 ^ 63 ->
  buffer_capacity t < event_size true e -> refused (event_size true e) -> push_serialized t (pv e) s = Undef.
Proof.
  intros TR Hser He Hsz Hcap Hr.
  assert (Esz : Z.of_nat (length (pbytes e)) = event_size true e) by (unfold event_size; simpl; by rewrite length_fmap).
  assert (wp (if decide (buffer_capacity t < u64 (buffer_usage t + event_size true e)) then _ht_timeline_flush t else mret t)
    (fun t1 _ => buffer_capacity t1 = buffer_capacity t) s) as Hw.
  { eapply make_room_spec; [done|lia|]. intros out buf t1 s1 _ Hsame _ _ _. by destruct Hsame. }
  destruct (wp_inv _ _ _ Hw) as (t1&s1&E1&Ec). unfold push_serialized, mbind, st_bind, get, some_or_undef.
  rewrite (klass_get_size_ok _ _ _ _ He), Esz. unfold mret, st_ret in E1 |- *. rewrite E1, Ec. rewrite decide_True by lia. rewrite decide_True by lia.
  destruct (ht_alloc_refused (event_size true e) (sheap s1) Hr) as (h'&Ea&_). unfold zoom. simpl. by rewrite Ea.
Qed.

(** C37: the unchecked paths of timeline.c.  When the allocation of the timeline
    is refused, ht_timeline_create gives NULL with HT_ERR_OK, while a refused
    buffer is reported as HT_ERR_OUT_OF_MEMORY.  Pushing an event larger than
    the buffer and than 128 bytes on a timeline that serialises dereferences NULL
    when the memory for it is refused, and is defined when it is granted.  And
    ht_timeline_get_feature reads outside the array for every class identifier
    that is too large, for which ht_timeline_set_feature gives
    HT_ERR_FEATURE_NOT_REGISTERED and destroys the feature. *)
Theorem timeline_unchecked_paths s t es evs e cap ts ser name f :
  (refused sizeof_HT_Timeline -> exists s', ht_timeline_create cap ts ser name s = Done ((HT_ERR_OK, None), s')) /\
  (granted sizeof_HT_Timeline -> refused cap -> exists s', ht_timeline_create cap ts ser name s = Done ((HT_ERR_OUT_OF_MEMORY, None), s')) /\
  (tl_ready s t es evs -> serialize_events t = true -> pushed_ok (klasses s) e -> 128 < event_size true e < 2 ^ 63 ->
     buffer_capacity t < event_size true e ->
     (refused (event_size true e) -> ht_timeline_push_event t (pv e) s = Undef) /\
     (granted (event_size true e) -> exists t' s', ht_timeline_push_event t (pv e) s = Done (t', s'))) /\
  (length (features t) = Z.to_nat HT_TIMELINE_MAX_FEATURES -> HT_TIMELINE_MAX_FEATURES <= fk_id (fklass f) ->
     ht_timeline_get_feature t (fklass f) = None /\
     ht_timeline_set_feature t f s = (destroy_feature f;; mret (HT_ERR_FEATURE_NOT_REGISTERED, t)) s).
Proof.
  split_and!.
  - intros Hr. destruct (ht_alloc_refused sizeof_HT_Timeline (sheap s) Hr) as (h'&Ea&_).
    unfold ht_timeline_create, mbind, st_bind, zoom. simpl. rewrite Ea. by eexists.
  - intros Hg Hr. assert (wp (ht_timeline_create cap ts ser name) (fun r _ => r = (HT_ERR_OUT_OF_MEMORY, None)) s) as Hw;
      [|destruct (wp_inv _ _ _ Hw) as (r&s'&E1&->); by exists s']. unfold ht_timeline_create. apply wp_bind, wp_zoom, ht_alloc_granted; [done|].
    intros p h Hp _ _ (Eb&_&_). rewrite decide_False by done. apply wp_bind, wp_zoom.
    destruct (ht_alloc_refused cap h Hr) as (h'&Ea&(Eb'&_&_)). unfold wp at 1. simpl. rewrite Ea. rewrite decide_True by done.
    apply wp_bind, wp_zoom. apply (ht_free_spec p sizeof_HT_Timeline); [done|simpl; rewrite Eb', Eb; apply lookup_insert_eq|]. intros h'' _. by apply wp_ret.
  - intros TR Hser He Hsz Hcap. split.
    + intros Hr. unfold ht_timeline_push_event. rewrite Hser. destruct TR as [TR Hl]. unfold timeline_lock.
      destruct (decide (locking_policy t <> NULL)) as [Hn|Hn].
      * destruct (Hl Hn) as [Hm Hne]. unfold mbind, st_bind at 1, ht_mutex_lock, get, require, modify. unfold mbind, st_bind. rewrite bool_decide_true by done.
        unfold mret, st_ret. by rewrite (push_serialized_refused t es evs e) by (done || by apply tl_rep_mutex).
      * unfold mbind, st_bind, mret, st_ret. by rewrite (push_serialized_refused t es evs e).
    + intros Hg. assert (pushable t e) as Hp. { split; [rewrite Hser; lia|]. intros _. by right; right. }
      destruct (wp_inv _ _ _ (push_event_spec t es evs e s TR He Hp)) as (t'&s'&E1&_). by exists t', s'.
  - intros Hl Hid. split; [unfold ht_timeline_get_feature; apply lookup_ge_None; lia|].
    unfold ht_timeline_set_feature. rewrite decide_True by (right; lia). rewrite ret_bind. by rewrite decide_True by done.
Qed.

End timeline.

(** ** Concrete timelines *)

Section samples.

#[local] Existing Instance little_endian.
#[local] Existing Instance log_host.

(** A feature that logs its own destruction. *)
#[local] Instance log_features : FeatureOps (list call) := {
  destroy_feature f := modify (set_env (fun log => log ++ [Destroyed (fself f)]))
}.

Definition pushed_sample : pushed := Pushed sample_event (registered HT_CallstackStringEvent 7) sample_bytes.

Definition sample_ops : list timeline_op := [OpPush pushed_sample; OpPush pushed_sample; OpFlush; OpPush pushed_sample].

(** Two listeners, on a timeline of 40 bytes without a lock. *)
Definition some_entries : list HT_TimelineListenerEntry := [ListenerEntry 100 11 NULL; ListenerEntry 100 12 NULL].

Definition some_container : HT_TimelineListenerContainer :=
  Container (Bag 16 16 2 2 ((Some <$> some_entries) ++ replicate 14 None)) 3 0 1.

Definition timeline_sys : sys (list call) :=
  Sys {| blocks := <[1 := 48]> (<[2 := 384]> (<[3 := 40]> (<[4 := 312]> (<[5 := 40]> ∅)))); requests := 5;
         realloc_fnc_ := NULL; user_data_ := NULL |}
      (<[3 := false]> ∅) (<[1 := some_container]> ∅) 0 sample_klasses static_registry [].

Definition sample_timeline : HT_Timeline := new_timeline 4 5 1 40 true NULL.

Lemma some_container_rep : cont_rep timeline_sys 1 some_container some_entries.
Proof.
  split; try done.
  - split; try done; [exists 384; by split|by exists 0].
  - repeat constructor; simpl; eauto; done.
  - apply (bool_decide_unpack _). by vm_compute.
Qed.

Lemma sample_timeline_ready : tl_ready timeline_sys sample_timeline some_entries [].
Proof. split; [|done]. split; try done. exists some_container. exact some_container_rep. Qed.

Lemma sample_ops_pushable :
  Forall (fun e => pushed_ok sample_klasses e /\ pushable_at (H := always_granted) 40 true e) (pushes sample_ops).
Proof. repeat constructor; first [exact sample_event_ok | vm_compute; congruence]. Qed.

Lemma timeline_delivers_every_event_witness :
  wp (t ← timeline_run (H := always_granted) sample_ops sample_timeline; ht_timeline_flush (H1 := log_host) t)
    (fun t' s' => tl_ready s' t' some_entries [] /\ exists batches, concat batches = pushes sample_ops /\
      Forall (timeline_batch_ok (serialize_events sample_timeline) (buffer_capacity sample_timeline)) batches /\
      env_step timeline_sys (deliver some_entries (serialize_events sample_timeline) batches) s') timeline_sys.
Proof.
  apply (timeline_delivers_every_event (H := always_granted) sample_ops sample_timeline some_entries timeline_sys).
  - exact sample_timeline_ready.
  - exact sample_ops_pushable.
Defined.

(** Three events of 35 bytes through a buffer of 40, for two listeners. *)
Definition timeline_fresh_sys : sys (list call) := Sys empty_heap ∅ ∅ 0 sample_klasses static_registry [].

Lemma timeline_fresh_sys_wf : sys_wf timeline_fresh_sys.
Proof. split; intros ? [? ?]; set_solver. Qed.

Definition sample_call (ud : ptr) : call := Called ud (Byte <$> sample_bytes) true.

Lemma timeline_lifetime_delivers_witness :
  (match timeline_lifetime (H := always_granted) 40 true true two_listeners sample_ops timeline_fresh_sys with
   | Done (r, s') => Some (r, senv s')
   | _ => None
   end) = Some (inr [HT_ERR_OK; HT_ERR_OK],
     [sample_call 1; sample_call 2; sample_call 1; sample_call 2; sample_call 1; sample_call 2; Destroyed 2]) /\
  wp (timeline_lifetime (H := always_granted) 40 true true two_listeners sample_ops) (fun r s' =>
    blocks (sheap s') = blocks (sheap timeline_fresh_sys) /\ mutexes s' = mutexes timeline_fresh_sys /\
    containers s' = containers timeline_fresh_sys /\
    match r with
    | inl _ => senv s' = senv timeline_fresh_sys
    | inr errs => Forall (fun e => e = HT_ERR_OK) errs /\ exists batches,
        concat batches = pushes sample_ops /\ Forall (timeline_batch_ok true 40) batches /\
        senv s' = destroy_env (entry_of <$> two_listeners)
                    (deliver (entry_of <$> two_listeners) true batches (senv timeline_fresh_sys))
    end) timeline_fresh_sys.
Proof.
  split; [by vm_compute|].
  apply (timeline_lifetime_delivers (H := always_granted) 40 true true two_listeners sample_ops timeline_fresh_sys).
  - exact timeline_fresh_sys_wf.
  - lia.
  - simpl. lia.
  - exact sample_ops_pushable.
Defined.

Definition sample_feature (id : Z) : HT_Feature := Feature 9 (FeatureKlass 300 id).

Lemma set_feature_get_feature_witness :
  exists t', ht_timeline_set_feature sample_timeline (sample_feature 3) timeline_fresh_sys = Done ((HT_ERR_OK, t'), timeline_fresh_sys) /\
    ht_timeline_get_feature t' (fklass (sample_feature 3)) = Some (Some (sample_feature 3)) /\
    length (features t') = Z.to_nat HT_TIMELINE_MAX_FEATURES /\
    forall k, 0 <= fk_id k -> fk_id k <> fk_id (fklass (sample_feature 3)) ->
      ht_timeline_get_feature t' k = ht_timeline_get_feature sample_timeline k.
Proof. apply (set_feature_get_feature sample_timeline (sample_feature 3) timeline_fresh_sys); [reflexivity|simpl; lia]. Defined.

(** An event of 155 bytes. *)
Definition long_event : cval :=
  VStruct [VStruct [VEvent 1 258 3; VScalar 5; VScalar 6]; VStr (Some (replicate 122 72))].

(** The event as it is pushed; memory is refused. *)
Definition pushed_long : pushed :=
  Pushed long_event (registered HT_CallstackStringEvent 7) (default [] (encode sample_klasses HT_CallstackStringEvent long_event)).

Definition no_memory : Malloc := bump_malloc (fun _ _ => false).

Lemma no_memory_refuses n : refused (H := no_memory) n.
Proof. done. Qed.

Lemma timeline_unchecked_paths_witness :
  (exists s', ht_timeline_create (H := no_memory) 64 false true None timeline_fresh_sys = Done ((HT_ERR_OK, None), s')) /\
  ht_timeline_push_event (H := no_memory) sample_timeline long_event timeline_sys = Undef /\
  ht_timeline_get_feature sample_timeline (FeatureKlass 300 32) = None.
Proof.
  split_and!.
  - apply (timeline_unchecked_paths (H := no_memory) timeline_fresh_sys sample_timeline [] [] pushed_long 64 false true None (sample_feature 32)).
    apply no_memory_refuses.
  - apply (timeline_unchecked_paths (H := no_memory) timeline_sys sample_timeline some_entries [] pushed_long 64 false true None (sample_feature 32)).
    + exact sample_timeline_ready.
    + reflexivity.
    + split; vm_compute; reflexivity.
    + vm_compute. split; reflexivity.
    + vm_compute. reflexivity.
    + apply no_memory_refuses.
  - apply (timeline_unchecked_paths (H := no_memory) timeline_sys sample_timeline some_entries [] pushed_long 64 false true None (sample_feature 32)).
    + reflexivity.
    + vm_compute. discriminate.
Defined.

End samples.
