(* ===== verification/FileDump.v ===== *)
(** The listener that writes to a file (lib/listeners/file_dump_listener.c),
    over a model of the stdio functions it uses.

    A listener is owned by its creator and threaded as a value; its callback
    touches nothing but the listener and its file, so the calls that pushing
    the metadata makes are recorded first and then made, in order. *)
From S2P Require Import Prelude Alloc BaseTypes Bag Memory Events ListenerBuffer Listeners Registry Timeline.

(** ** Standard I/O

    What the system decides: whether a file can be opened, how many bytes a
    write accepts and whether a flush succeeds, by the number of the call. *)
Class Stdio := {
  fopen_ok : nat -> list Z -> bool;
  fwrite_count : nat -> nat -> nat;
  fflush_ok : nat -> bool
}.

(** [disk]: the files by name, each as the list of what was written;
    [opened]: the open streams and the names of their files. *)
Record io_state (E : Type) := IO {
  io_sys : sys E;
  disk : gmap (list Z) (list (list memval));
  opened : gmap ptr (list Z);
  io_calls : nat
}.
Arguments IO {E} _ _ _ _.
Arguments io_sys {E} _.
Arguments disk {E} _.
Arguments opened {E} _.
Arguments io_calls {E} _.

#[export] Instance io_lens {E} : Lens (io_state E) (sys E).
Proof.
  refine {| view := io_sys; update s w := IO s (disk w) (opened w) (io_calls w) |}; by intros; destruct w || destruct s.
Defined.

Section stdio.
  Context `{Stdio} {E : Type}.
  Implicit Types w : io_state E.

(** fopen(filename, "wb"): NULL, or a new stream on an empty file. *)
Definition fopen (filename : list Z) : ST (io_state E) ptr := fun w =>
  if fopen_ok (io_calls w) filename then
    let p := Z.of_nat (S (io_calls w)) in
    Done (p, IO (io_sys w) (<[filename := []]> (disk w)) (<[p := filename]> (opened w)) (S (io_calls w)))
  else Done (NULL, IO (io_sys w) (disk w) (opened w) (S (io_calls w))).

Definition fwrite (data : list memval) (p : ptr) : ST (io_state E) () :=
  w ← get;
  name ← some_or_undef (opened w !! p);
  content ← some_or_undef (disk w !! name);
  let data := take (fwrite_count (io_calls w) (length data)) data in
  put (IO (io_sys w) (<[name := content ++ [data]]> (disk w)) (opened w) (S (io_calls w))).

Definition fflush (p : ptr) : ST (io_state E) bool :=
  w ← get;
  require (bool_decide (is_Some (opened w !! p)));;
  put (IO (io_sys w) (disk w) (opened w) (S (io_calls w)));;
  mret (fflush_ok (io_calls w)).

Definition fclose (p : ptr) : ST (io_state E) () :=
  w ← get;
  require (bool_decide (is_Some (opened w !! p)));;
  put (IO (io_sys w) (disk w) (delete p (opened w)) (S (io_calls w))).

(** The disk is never full. *)
Definition reliable : Prop := forall n len, (len <= fwrite_count n len)%nat.

(** What has been written to the stream [p]. *)
Definition written_chunks (p : ptr) w : list (list memval) :=
  default [] (opened w !! p ≫= fun name => disk w !! name).

(** From [w0] to [w] only the file of the stream [p] has changed. *)
Record only_file (p : ptr) w0 w : Prop := {
  of_sys : io_sys w = io_sys w0;
  of_opened : opened w = opened w0;
  of_disk : exists name, opened w0 !! p = Some name /\ is_Some (disk w !! name) /\
    delete name (disk w) = delete name (disk w0)
}.

(** The flush callback of the listeners that write to [p], as a client of
    the listener buffer. *)
#[refine] Definition file_sink (p : ptr) w0 : FlushCallback (io_state E) := {|
  flush_callback data := fwrite data p;
  chunks w := written_chunks p w;
  sink_ok w := only_file p w0 w /\ reliable
|}.
Proof.
  intros cells w [[Hs Ho (name&Hn&[content Hc]&Hd)] Hrel] _. unfold fwrite. wp_steps. rewrite Ho.
  eapply wp_some; [exact Hn|]. wp_steps. eapply wp_some; [exact Hc|]. wp_steps.
  rewrite firstn_all2 by apply Hrel. unfold written_chunks. simpl. rewrite Ho, Hn. simpl.
  rewrite lookup_insert_eq, Hc. split; [done|]. split; [|done]. split; simpl; try done. exists name.
  rewrite lookup_insert_eq, delete_insert_eq. by split_and!.
Defined.
End stdio.

(** ** The listener *)

Record HT_FileDumpListener := FileDumpListener {
  fd_self : ptr;
  fd_buffer : HT_ListenerBuffer;
  p_file : ptr;
  fd_mtx : ptr
}.

Definition sizeof_HT_FileDumpListener : Z := 40.

Definition set_fd_buffer (b : HT_ListenerBuffer) (l : HT_FileDumpListener) : HT_FileDumpListener :=
  FileDumpListener (fd_self l) b (p_file l) (fd_mtx l).

(** The addresses of ht_file_dump_listener_callback and _destroy. *)
Definition at_callback : ptr := 1001.
Definition at_destroy : ptr := 1002.

Section recording.
  Context `{Malloc} `{Platform} {E : Type} `{Host E}.

(** An environment that records the calls of listeners and else is [E]. *)
#[export] Instance recording : Host (E * list (list memval * bool)) := {
  run_listener _ events ser _ r := (r.1, r.2 ++ [(events, ser)]);
  run_destroy cb ud r := (run_destroy cb ud r.1, r.2);
  read_clock r := ((read_clock r.1).1, ((read_clock r.1).2, r.2))
}.

#[export] Instance recording_logged : LoggedHost (E * list (list memval * bool)).
Proof. refine {| received _ r := r.2 |}; done. Defined.

Definition with_env {A B} (b : B) (s : sys A) : sys B :=
  Sys (sheap s) (mutexes s) (containers s) (current_identifier s) (klasses s) (registry s) b.

(** The calls ht_timeline_listener_push_metadata makes. *)
Definition record_metadata (callback listener : ptr) : ST (sys E) (list (list memval * bool)) := fun s =>
  match ht_timeline_listener_push_metadata callback listener true (with_env (senv s, []) s) with
  | Done (_, s') => Done ((senv s').2, with_env (senv s').1 s')
  | Undef => Undef
  | NoFuel => NoFuel
  end.
End recording.

Section file_dump.
  Context `{Malloc} `{Platform} `{Stdio} {E : Type} `{Host E}.
  Implicit Types (w : io_state E) (l : HT_FileDumpListener).

Definition _ht_file_dump_listener_is_stopped l : bool := bool_decide (p_file l = NULL).

Definition ht_file_dump_listener_callback l (events : list memval) (serialized : bool)
    : ST (io_state E) HT_FileDumpListener :=
  zoom (ht_mutex_lock (fd_mtx l));;
  if _ht_file_dump_listener_is_stopped l then zoom (ht_mutex_unlock (fd_mtx l));; mret l
  else
    w ← get;
    b ← (if serialized
         then ht_listener_buffer_process_serialized_events (H0 := file_sink (p_file l) w) (fd_buffer l) events
         else ht_listener_buffer_process_unserialized_events (H0 := file_sink (p_file l) w)
                (klasses (io_sys w)) (fd_buffer l) events);
    zoom (ht_mutex_unlock (fd_mtx l));;
    mret (set_fd_buffer b l).

(** The calls recorded while the metadata is pushed. *)
Fixpoint callbacks l (batches : list (list memval * bool)) : ST (io_state E) HT_FileDumpListener :=
  match batches with
  | [] => mret l
  | b :: batches => l ← ht_file_dump_listener_callback l b.1 b.2; callbacks l batches
  end.

Definition ht_file_dump_listener_create (filename : list Z) (buffer_size : Z)
    : ST (io_state E) (HT_ErrorCode * option HT_FileDumpListener) :=
  listener ← zoom (zoom (ht_alloc sizeof_HT_FileDumpListener) : ST (sys E) ptr);
  if decide (listener = NULL) then mret (HT_ERR_OUT_OF_MEMORY, None)
  else
    file ← fopen filename;
    if decide (file = NULL) then
      zoom (zoom (ht_free listener) : ST (sys E) ());; mret (HT_ERR_CANT_OPEN_FILE, None)
    else
      mtx ← zoom ht_mutex_create;
      if decide (mtx = NULL) then
        fclose file;; zoom (zoom (ht_free listener) : ST (sys E) ());; mret (HT_ERR_OUT_OF_MEMORY, None)
      else
        r ← zoom (zoom (ht_listener_buffer_init buffer_size) : ST (sys E) _);
        match r with
        | inl error_code =>
            zoom (ht_mutex_destroy mtx);;
            fclose file;; zoom (zoom (ht_free listener) : ST (sys E) ());; mret (error_code, None)
        | inr buffer =>
            batches ← zoom (record_metadata at_callback listener);
            l ← callbacks (FileDumpListener listener buffer file mtx) batches;
            mret (HT_ERR_OK, Some l)
        end.

Definition ht_file_dump_listener_stop l : ST (io_state E) HT_FileDumpListener :=
  zoom (ht_mutex_lock (fd_mtx l));;
  if _ht_file_dump_listener_is_stopped l then zoom (ht_mutex_unlock (fd_mtx l));; mret l
  else
    w ← get;
    b ← ht_listener_buffer_flush (H0 := file_sink (p_file l) w) (fd_buffer l);
    zoom (zoom (ht_listener_buffer_deinit b) : ST (sys E) ());;
    fclose (p_file l);;
    zoom (ht_mutex_unlock (fd_mtx l));;
    mret (FileDumpListener (fd_self l) b NULL (fd_mtx l)).

Definition ht_file_dump_listener_destroy (listener : option HT_FileDumpListener) : ST (io_state E) () :=
  match listener with
  | None => mret ()
  | Some l =>
      l ← (if negb (_ht_file_dump_listener_is_stopped l) then ht_file_dump_listener_stop l else mret l);
      zoom (ht_mutex_destroy (fd_mtx l));;
      zoom (zoom (ht_free (fd_self l)) : ST (sys E) ())
  end.

Definition ht_file_dump_listener_flush l (flush_stream : bool) : ST (io_state E) (HT_ErrorCode * HT_FileDumpListener) :=
  zoom (ht_mutex_lock (fd_mtx l));;
  if _ht_file_dump_listener_is_stopped l then zoom (ht_mutex_unlock (fd_mtx l));; mret (HT_ERR_OK, l)
  else
    w ← get;
    b ← ht_listener_buffer_flush (H0 := file_sink (p_file l) w) (fd_buffer l);
    ret ← (if flush_stream then
             ok ← fflush (p_file l);
             mret (if ok : bool then HT_ERR_OK else HT_ERR_UNKNOWN)
           else mret HT_ERR_OK);
    zoom (ht_mutex_unlock (fd_mtx l));;
    mret (ret, set_fd_buffer b l).

Definition ht_file_dump_listener_register (t : HT_Timeline) (filename : list Z) (buffer_size : Z)
    : ST (io_state E) (HT_ErrorCode * option HT_FileDumpListener) :=
  '(err, listener) ← ht_file_dump_listener_create filename buffer_size;
  match listener with
  | None => mret (err, None)
  | Some l =>
      err ← zoom (ht_timeline_register_listener_full t at_callback (fd_self l) at_destroy);
      if decide (err <> HT_ERR_OK) then ht_file_dump_listener_destroy (Some l);; mret (err, None)
      else mret (err, Some l)
  end.

(** ** What the listener promises

    [content] is in the buffer, [written] in the file [name]. *)
Record fd_rep w l (name : list Z) (content written : list memval) : Prop := {
  fr_buf : lb_rep (fd_buffer l) content;
  fr_file : p_file l <> NULL;
  fr_open : opened w !! p_file l = Some name;
  fr_disk : exists ch, disk w !! name = Some ch /\ concat ch = written;
  fr_mutex : mutexes (io_sys w) !! fd_mtx l = Some false
}.

Record same_listener l l' : Prop := {
  sl_self : fd_self l' = fd_self l;
  sl_file : p_file l' = p_file l;
  sl_mtx : fd_mtx l' = fd_mtx l;
  sl_data : lb_data (fd_buffer l') = lb_data (fd_buffer l);
  sl_max : max_size (fd_buffer l') = max_size (fd_buffer l)
}.

(** Only the file [name] has changed. *)
Record io_step (name : list Z) w w' : Prop := {
  is_sys : io_sys w' = io_sys w;
  is_opened : opened w' = opened w;
  is_disk : delete name (disk w') = delete name (disk w)
}.

Lemma io_step_trans name w1 w2 w3 : io_step name w1 w2 -> io_step name w2 w3 -> io_step name w1 w3.
Proof. intros [] []. split; congruence. Qed.

Lemma same_listener_trans l1 l2 l3 : same_listener l1 l2 -> same_listener l2 l3 -> same_listener l1 l3.
Proof. intros [] []. split; congruence. Qed.

Definition batch_cells (b : batch) : list memval * bool :=
  match b with Serialized events => (events, true) | Unserialized es => (objects es, false) end.

(** The world while the listener is locked. *)
Definition locked_by l w : io_state E := update (set_mutexes <[fd_mtx l := true]> (io_sys w)) w.

(** Every operation of a running listener starts by taking the lock. *)
Lemma lock_running {A} w l name content written (m1 m2 : ST (io_state E) A) (Q : A -> io_state E -> Prop) :
  fd_rep w l name content written -> wp m2 Q (locked_by l w) ->
  wp (zoom (ht_mutex_lock (fd_mtx l));; if _ht_file_dump_listener_is_stopped l then m1 else m2) Q w.
Proof.
  intros [_ Hf _ _ Hm] Hk. apply wp_bind, wp_zoom, lock_spec; [done|].
  unfold _ht_file_dump_listener_is_stopped. by rewrite bool_decide_false by done.
Qed.

Lemma sink_ready w l name content written :
  fd_rep w l name content written -> reliable ->
  @sink_ok _ (file_sink (p_file l) (locked_by l w)) (locked_by l w) /\
  concat (@chunks _ (file_sink (p_file l) (locked_by l w)) (locked_by l w)) = written.
Proof.
  intros [_ _ Ho (ch&Hd&Hw) _] Hrel. split.
  - split; [|done]. split; try done. exists name. split_and!; [done|by exists ch|done].
  - simpl. unfold written_chunks. simpl. rewrite Ho. simpl. by rewrite Hd.
Qed.

(** After the buffer has done its work, and the lock has been released. *)
Lemma sink_done w l name content written w1 b content' :
  fd_rep w l name content written ->
  @sink_ok _ (file_sink (p_file l) (locked_by l w)) w1 ->
  lb_rep b content' -> lb_data b = lb_data (fd_buffer l) -> max_size b = max_size (fd_buffer l) ->
  let w2 := update (set_mutexes <[fd_mtx l := false]> (io_sys w1)) w1 in
  let written' := concat (@chunks _ (file_sink (p_file l) (locked_by l w)) w1) in
  fd_rep w2 (set_fd_buffer b l) name content' written' /\ same_listener l (set_fd_buffer b l) /\ io_step name w w2 /\
  mutexes (io_sys w1) !! fd_mtx l = Some true.
Proof.
  intros [_ Hf Ho _ Hm] [[Es Eo (name'&Hn'&[ch Hch]&Hdel)] _] Rb Hdata Hmax w2 written'. simpl in Hn'.
  rewrite Ho in Hn'. injection Hn' as <-. simpl in Es, Eo, Hdel.
  assert (Esys : io_sys w2 = io_sys w).
  { subst w2. simpl. rewrite Es. apply relock_id, Hm. }
  split_and!.
  - split; simpl; try done; [by rewrite Eo|exists ch; split; [done|]|].
    + subst written'. simpl. unfold written_chunks. rewrite Eo, Ho. simpl. by rewrite Hch.
    + apply lookup_insert_eq.
  - by split.
  - by split.
  - rewrite Es. simpl. apply lookup_insert_eq.
Qed.


Lemma callback_spec w l name content written b :
  fd_rep w l name content written -> reliable -> batch_ok (klasses (io_sys w)) (max_size (fd_buffer l)) b ->
  wp (ht_file_dump_listener_callback l (batch_cells b).1 (batch_cells b).2) (fun l' w' => exists content' written',
    fd_rep w' l' name content' written' /\ written' ++ content' = written ++ content ++ batch_stream b /\
    same_listener l l' /\ io_step name w w') w.
Proof.
  intros R Hrel Hb. unfold ht_file_dump_listener_callback. eapply lock_running; [done|]. apply wp_bind, wp_get.
  destruct (sink_ready w l name content written R Hrel) as [Hok Hw].
  set (FS := file_sink (p_file l) (locked_by l w)) in *.
  match goal with |- wp (?m ≫= _) _ _ =>
    replace m with (process (H0 := FS) (klasses (io_sys w)) (fd_buffer l) b) by (by destruct b) end.
  eapply wp_call.
  { apply wp_keeps; [|apply process_keeps]. by apply (process_spec _ _ content); [apply (fr_buf _ _ _ _ _ R)| |]. }
  intros b1 w1 ((content'&Rb&Hok1&Hmax&Hcat)&Hdata). rewrite Hw in Hcat.
  destruct (sink_done w l name content written w1 b1 content' R Hok1 Rb Hdata Hmax) as (R2&Hs&Hst&Hmx).
  apply wp_bind, wp_zoom, unlock_spec; [done|]. apply wp_ret. eexists content', _. by split_and!.
Qed.

(** Flushing empties the buffer into the file. *)
Lemma listener_flush_spec w l name content written fs :
  fd_rep w l name content written -> reliable ->
  wp (ht_file_dump_listener_flush l fs) (fun '(err, l') w' =>
    fd_rep w' l' name [] (written ++ content) /\ same_listener l l' /\ io_step name w w' /\
    (err = HT_ERR_OK \/ fs = true /\ err = HT_ERR_UNKNOWN)) w.
Proof.
  intros R Hrel. unfold ht_file_dump_listener_flush. eapply lock_running; [done|]. apply wp_bind, wp_get.
  destruct (sink_ready w l name content written R Hrel) as [Hok Hw].
  set (FS := file_sink (p_file l) (locked_by l w)) in *.
  eapply wp_call.
  { apply wp_keeps; [|apply flush_keeps]. by apply (flush_spec _ content); [apply (fr_buf _ _ _ _ _ R)|]. }
  intros b1 w1 ((Rb&_&Hmax&Hch&Hok1)&Hdata).
  assert (Hcat : concat (@chunks _ FS w1) = written ++ content).
  { rewrite Hch, concat_app, Hw. simpl. by rewrite app_nil_r. }
  assert (Hend : forall ret w2, @sink_ok _ FS w2 -> @chunks _ FS w2 = @chunks _ FS w1 ->
    ret = HT_ERR_OK \/ fs = true /\ ret = HT_ERR_UNKNOWN ->
    wp (zoom (ht_mutex_unlock (fd_mtx l));; mret (ret, set_fd_buffer b1 l)) (fun '(err, l') w' =>
      fd_rep w' l' name [] (written ++ content) /\ same_listener l l' /\ io_step name w w' /\
      (err = HT_ERR_OK \/ fs = true /\ err = HT_ERR_UNKNOWN)) w2).
  { intros ret w2 Hok2 Hch2 Hret. destruct (sink_done w l name content written w2 b1 [] R Hok2 Rb Hdata Hmax) as (R2&Hs&Hst&Hmx).
    apply wp_bind, wp_zoom, unlock_spec; [done|]. apply wp_ret. fold FS in R2. rewrite Hch2, Hcat in R2. by split_and!. }
  destruct fs.
  - apply wp_bind. unfold fflush. apply wp_bind, wp_bind, wp_get, wp_bind, wp_require.
    { apply bool_decide_eq_true. destruct Hok1 as [[_ Ho1 _] _]. rewrite Ho1. simpl. rewrite (fr_open _ _ _ _ _ R). eauto. }
    apply wp_bind, wp_put, wp_ret, wp_ret. apply Hend; [|done|destruct (fflush_ok _); tauto].
    destruct Hok1 as [[? ? ?] ?]. split; [|done]. by split.
  - apply wp_bind, wp_ret. apply Hend; [done|done|by left].
Qed.

(** What a listener owns. *)
Definition fd_ptrs l : list ptr := [fd_self l; fd_mtx l; lb_data (fd_buffer l)].

Record fd_owned w l : Prop := {
  fo_live : Forall (fun r => r <> NULL /\ is_Some (blocks (sheap (io_sys w)) !! r)) (fd_ptrs l);
  fo_nodup : NoDup (fd_ptrs l)
}.

Lemma fd_owned_step w w' l l' : io_sys w' = io_sys w -> same_listener l l' -> fd_owned w l -> fd_owned w' l'.
Proof.
  intros Es Hs [Hl Hn]. split; unfold fd_ptrs; rewrite (sl_self _ _ Hs), (sl_mtx _ _ Hs), (sl_data _ _ Hs), ?Es; done.
Qed.

(** Stopping writes the rest, closes the file and releases the buffer. *)
Lemma stop_spec w l name content written :
  fd_rep w l name content written -> reliable -> fd_owned w l ->
  wp (ht_file_dump_listener_stop l) (fun l' w' =>
    p_file l' = NULL /\ fd_self l' = fd_self l /\ fd_mtx l' = fd_mtx l /\
    io_sys w' = update (sheap (io_sys w')) (io_sys w) /\
    blocks (sheap (io_sys w')) = delete (lb_data (fd_buffer l)) (blocks (sheap (io_sys w))) /\
    opened w' = delete (p_file l) (opened w) /\ delete name (disk w') = delete name (disk w) /\
    (exists ch, disk w' !! name = Some ch /\ concat ch = written ++ content)) w.
Proof.
  intros R Hrel [Hl _]. unfold ht_file_dump_listener_stop. eapply lock_running; [done|]. apply wp_bind, wp_get.
  destruct (sink_ready w l name content written R Hrel) as [Hok Hw].
  set (FS := file_sink (p_file l) (locked_by l w)) in *.
  eapply wp_call.
  { apply wp_keeps; [|apply flush_keeps]. by apply (flush_spec _ content); [apply (fr_buf _ _ _ _ _ R)|]. }
  intros b1 w1 ((Rb&_&Hmax&Hch&Hok1)&Hdata).
  destruct Hok1 as [[Es1 Eo1 (name'&Hn'&[ch Hd]&Hdel)] _]. simpl in Es1, Eo1, Hn', Hdel.
  rewrite (fr_open _ _ _ _ _ R) in Hn'. injection Hn' as <-.
  unfold fd_ptrs in Hl. apply Forall_cons in Hl as [_ [_ [[Hbn [nb Hb]] _]%Forall_cons]%Forall_cons].
  apply wp_bind, wp_zoom, wp_zoom. unfold ht_listener_buffer_deinit. rewrite Hdata.
  apply (ht_free_spec _ nb); [done|simpl; by rewrite Es1|]. intros h2 (E2&_&_). simpl in E2. rewrite Es1 in E2.
  apply wp_bind. unfold fclose. apply wp_bind, wp_get, wp_bind, wp_require.
  { apply bool_decide_eq_true. simpl. rewrite Eo1, (fr_open _ _ _ _ _ R). eauto. }
  apply wp_put. apply wp_bind, wp_zoom, unlock_spec; [simpl; rewrite Es1; apply lookup_insert_eq|]. apply wp_ret.
  simpl. rewrite Es1. simpl in *. split_and!; try done.
  - unfold set_mutexes. simpl. rewrite insert_insert_eq, insert_id by apply (fr_mutex _ _ _ _ _ R). done.
  - by rewrite Eo1.
  - exists ch. split; [done|]. unfold written_chunks in Hch. simpl in Hch. rewrite Eo1 in Hch. rewrite (fr_open _ _ _ _ _ R) in Hch. simpl in Hch.
    rewrite Hd in Hch. simpl in Hch. rewrite Hch, concat_app. simpl. unfold written_chunks in Hw. simpl in Hw.
    rewrite (fr_open _ _ _ _ _ R) in Hw. simpl in Hw. rewrite Hw, app_nil_r. done.
Qed.

Lemma release_listener_spec w self mtx :
  self <> NULL -> mtx <> NULL -> self <> mtx ->
  is_Some (blocks (sheap (io_sys w)) !! self) -> is_Some (blocks (sheap (io_sys w)) !! mtx) ->
  mutexes (io_sys w) !! mtx = Some false ->
  wp (zoom (ht_mutex_destroy mtx);; zoom (zoom (ht_free self) : ST (sys E) ())) (fun _ w' =>
    blocks (sheap (io_sys w')) = delete self (delete mtx (blocks (sheap (io_sys w)))) /\
    mutexes (io_sys w') = delete mtx (mutexes (io_sys w)) /\ klasses (io_sys w') = klasses (io_sys w) /\
    opened w' = opened w /\ disk w' = disk w) w.
Proof.
  intros Hs Hm Hne [ns Hls] [nm Hlm] Hmx. apply wp_bind, wp_zoom. apply (mutex_destroy_spec _ nm); [done|done|done|].
  intros h1 E1. apply wp_zoom, wp_zoom. simpl in E1.
  apply (ht_free_spec _ ns); [done|simpl; by rewrite E1, lookup_delete_ne|]. intros h2 (E2&_&_). simpl in *.
  rewrite E2, E1. by split_and!.
Qed.

(** The end of a listener, running or stopped. *)
Lemma destroy_running_spec w l name content written :
  fd_rep w l name content written -> reliable -> fd_owned w l ->
  wp (ht_file_dump_listener_destroy (Some l)) (fun _ w' =>
    frame (fd_ptrs l) [] (blocks (sheap (io_sys w))) (blocks (sheap (io_sys w'))) /\
    mutexes (io_sys w') = delete (fd_mtx l) (mutexes (io_sys w)) /\
    opened w' = delete (p_file l) (opened w) /\ delete name (disk w') = delete name (disk w) /\
    (exists ch, disk w' !! name = Some ch /\ concat ch = written ++ content)) w.
Proof.
  intros R Hrel FO. unfold ht_file_dump_listener_destroy, _ht_file_dump_listener_is_stopped.
  rewrite bool_decide_false by apply (fr_file _ _ _ _ _ R). simpl negb. cbn iota.
  eapply wp_call; [by apply (stop_spec w l name content written)|].
  intros l1 w1 (_&->&->&Es1&Eb1&Eo1&Ed1&Hch). destruct FO as [Hl Hn].
  apply Forall_cons in Hl as [[Hsn Hs] [[Hmn Hm] [[Hdn Hd] _]%Forall_cons]%Forall_cons].
  unfold fd_ptrs in Hn. apply NoDup_cons in Hn as [Hsin Hn]. apply NoDup_cons in Hn as [Hmin _].
  rewrite !not_elem_of_cons in Hsin. rewrite not_elem_of_cons in Hmin. destruct Hsin as (Hsm&Hsd&_), Hmin as [Hmd _].
  eapply wp_mono; [apply release_listener_spec|].
  all: rewrite ?Eb1, ?lookup_delete_ne by (by apply not_eq_sym); try done.
  { rewrite Es1. simpl. apply (fr_mutex _ _ _ _ _ R). }
  intros _ w2 (Eb2&Em2&_&Eo2&Ed2). rewrite Eo2, Ed2, Em2, Eb2. split_and!; try done.
  - unfold fd_ptrs. apply (frame_perm [lb_data (fd_buffer l); fd_mtx l; fd_self l] []); [|done|].
    { rewrite (Permutation_swap (fd_mtx l)). rewrite (Permutation_swap (fd_self l) (lb_data (fd_buffer l)) []).
      apply Permutation_swap. }
    do 3 (eapply frame_trans; [apply frame_delete|]). apply frame_refl.
  - by rewrite Es1.
Qed.

(** More blocks and mutexes do no harm to the registry. *)
Lemma metadata_ready_mono {A B} (s : sys A) (s' : sys B) K1 K2 K3 K4 ps :
  metadata_ready s K1 K2 K3 K4 ps -> klasses s' = klasses s -> registry s' = registry s ->
  (forall r, is_Some (blocks (sheap s) !! r) -> blocks (sheap s') !! r = blocks (sheap s) !! r) ->
  (forall m, is_Some (mutexes s !! m) -> mutexes s' !! m = mutexes s !! m) ->
  metadata_ready s' K1 K2 K3 K4 ps.
Proof.
  intros [HB HY IK Rb HF Hm] Ek Er Hb Hmx. split; rewrite ?Ek, ?Er; try done.
  - eapply rep_live_mono; [|exact Rb]. destruct (rep_live Rb) as (?&?&_). apply Hb. eauto.
  - rewrite Hmx; eauto.
Qed.

Lemma record_metadata_spec cb p K1 K2 K3 K4 ps (s : sys E) :
  metadata_ready s K1 K2 K3 K4 ps ->
  wp (record_metadata cb p) (fun batches s' => exists es,
    metadata_events s ps es /\ Forall (pushed_ok (klasses s)) es /\ same_objects s s' /\
    Forall small_batch batches /\ concat batches.*1 = wire_cells es) s.
Proof.
  intros MR. unfold record_metadata, wp.
  assert (MR' : metadata_ready (with_env (senv s, @nil (list memval * bool)) s) K1 K2 K3 K4 ps) by (by eapply metadata_ready_mono).
  pose proof (push_metadata_spec cb p K1 K2 K3 K4 ps _ MR') as Hw. unfold wp in Hw.
  destruct (ht_timeline_listener_push_metadata cb p true _) as [[n s1]| |]; [|done|done].
  destruct Hw as (es&Hev&Hok&(?&?&?&?&?)&(new&Er&HF&Hc)&_). exists es. simpl in *. rewrite app_nil_r in Hc. subst new.
  split_and!; try done.
Qed.

Lemma callbacks_spec w l name content written bs :
  fd_rep w l name content written -> reliable ->
  Forall (batch_ok (klasses (io_sys w)) (max_size (fd_buffer l))) bs ->
  wp (callbacks l (batch_cells <$> bs)) (fun l' w' => exists content' written',
    fd_rep w' l' name content' written' /\ written' ++ content' = written ++ content ++ (bs ≫= batch_stream) /\
    same_listener l l' /\ io_step name w w') w.
Proof.
  revert w l content written. induction bs as [|b bs IH]; intros w l content written R Hrel HF; simpl.
  - wp_steps. exists content, written. rewrite app_nil_r. by split_and!.
  - apply Forall_cons in HF as [Hb HF]. eapply wp_call; [by apply (callback_spec w l name content written b R Hrel)|].
    intros l1 w1 (c1&wr1&R1&Hcat1&Hs1&St1).
    eapply wp_mono; [apply (IH w1 l1 c1 wr1); try done; by rewrite (is_sys _ _ _ St1), (sl_max _ _ Hs1)|].
    intros l2 w2 (c2&wr2&R2&Hcat2&Hs2&St2). exists c2, wr2.
    split_and!; [done| |by eapply same_listener_trans|by eapply io_step_trans].
    rewrite Hcat2, (app_assoc wr1), Hcat1. by rewrite <- !app_assoc.
Qed.

(** The batches of the metadata are serialised. *)
Lemma small_batches ks n batches : Forall small_batch batches ->
  exists bs, batches = batch_cells <$> bs /\ Forall (batch_ok ks n) bs /\ (bs ≫= batch_stream) = concat batches.*1.
Proof.
  induction 1 as [|[ev ser] batches [Hser Hsm] _ (bs&->&HF&Hst)]; [by exists []|]. simpl in *. subst ser.
  exists (Serialized ev :: bs). split_and!; [done| |by rewrite bind_cons, Hst].
  constructor; [|done]. simpl. unfold REGISTRY_LISETNER_BUFF_SIZE in Hsm. lia.
Qed.

(** Streams and mutexes that exist. *)
Record io_wf w : Prop := {
  iw_mutexes : forall m, is_Some (mutexes (io_sys w) !! m) -> is_Some (blocks (sheap (io_sys w)) !! m);
  iw_opened : forall p, is_Some (opened w !! p) -> p <= Z.of_nat (io_calls w)
}.

(** The last step of a creation: a new listener receives the metadata. *)
Lemma create_finish w w1 filename K1 K2 K3 K4 ps l :
  metadata_ready (io_sys w1) K1 K2 K3 K4 ps -> klasses (io_sys w1) = klasses (io_sys w) -> reliable ->
  fd_rep w1 l filename [] [] -> fd_owned w1 l ->
  wp (batches ← zoom (record_metadata at_callback (fd_self l));
      l ← callbacks l batches;
      mret (HT_ERR_OK, Some l)) (fun '(err, o) w' => err = HT_ERR_OK /\ exists l' es content written,
    o = Some l' /\ same_listener l l' /\ fd_rep w' l' filename content written /\ fd_owned w' l' /\
    same_objects (io_sys w1) (io_sys w') /\ opened w' = opened w1 /\ delete filename (disk w') = delete filename (disk w1) /\
    metadata_events (io_sys w) ps es /\ Forall (pushed_ok (klasses (io_sys w))) es /\ written ++ content = wire_cells es) w1.
Proof.
  intros MR Ek Hrel R FO. apply wp_bind, wp_zoom.
  eapply wp_mono; [by apply (record_metadata_spec at_callback (fd_self l) K1 K2 K3 K4 ps)|].
  intros batches s2 (es&Hev&Hok&So&HF&Hcat). pose proof So as (Eh&Em&_&Ek2&_).
  assert (R2 : fd_rep (update s2 w1) l filename [] []).
  { destruct R as [? ? ? ? Hm]. split; simpl; try done. by rewrite Em. }
  destruct (small_batches (klasses s2) (max_size (fd_buffer l)) batches HF) as (bs&->&HFb&Hst).
  eapply wp_call; [by apply (callbacks_spec _ l filename [] [] bs)|].
  intros l' w3 (content&written&R3&Hcat3&Hs&[Es3 Eo3 Ed3]). apply wp_ret. split; [done|]. simpl in *.
  exists l', es, content, written. split_and!; try done.
  - destruct FO as [Hl Hn]. split; unfold fd_ptrs; rewrite (sl_self _ _ Hs), (sl_mtx _ _ Hs), (sl_data _ _ Hs), ?Es3, ?Eh; done.
  - rewrite Es3. done.
  - unfold metadata_events in *. by rewrite <- Ek.
  - by rewrite <- Ek.
  - by rewrite Hcat3, Hst, Hcat.
Qed.

Lemma fclose_spec w p (Q : () -> io_state E -> Prop) :
  is_Some (opened w !! p) ->
  Q tt (IO (io_sys w) (disk w) (delete p (opened w)) (S (io_calls w))) -> wp (fclose p) Q w.
Proof.
  intros Hp HQ. unfold fclose. apply wp_bind, wp_get, wp_bind, wp_require; [by apply bool_decide_eq_true|]. by apply wp_put.
Qed.

Definition created w filename n K (ps : list ptr) (r : HT_ErrorCode * option HT_FileDumpListener) w' : Prop :=
  klasses (io_sys w') = K /\ delete filename (disk w') = delete filename (disk w) /\
  containers (io_sys w') = containers (io_sys w) /\
  match r.2 with
  | None => (r.1 = HT_ERR_OUT_OF_MEMORY \/ r.1 = HT_ERR_CANT_OPEN_FILE) /\
      blocks (sheap (io_sys w')) = blocks (sheap (io_sys w)) /\ mutexes (io_sys w') = mutexes (io_sys w) /\
      opened w' = opened w
  | Some l => r.1 = HT_ERR_OK /\ max_size (fd_buffer l) = n /\ fd_owned w' l /\
      frame [] (fd_ptrs l) (blocks (sheap (io_sys w))) (blocks (sheap (io_sys w'))) /\
      mutexes (io_sys w') = <[fd_mtx l := false]> (mutexes (io_sys w)) /\ mutexes (io_sys w) !! fd_mtx l = None /\
      opened w' = <[p_file l := filename]> (opened w) /\ opened w !! p_file l = None /\
      exists es content written, metadata_events (io_sys w) ps es /\ Forall (pushed_ok K) es /\
        fd_rep w' l filename content written /\ written ++ content = wire_cells es
  end.

Lemma created_none w w' filename n K ps err :
  (err = HT_ERR_OUT_OF_MEMORY \/ err = HT_ERR_CANT_OPEN_FILE) ->
  klasses (io_sys w') = K -> delete filename (disk w') = delete filename (disk w) ->
  containers (io_sys w') = containers (io_sys w) -> blocks (sheap (io_sys w')) = blocks (sheap (io_sys w)) -> mutexes (io_sys w') = mutexes (io_sys w) ->
  opened w' = opened w -> created w filename n K ps (err, None) w'.
Proof. intros. unfold created. simpl. by split_and!. Qed.

Lemma fopen_spec filename w (Q : ptr -> io_state E -> Prop) :
  Q NULL (IO (io_sys w) (disk w) (opened w) (S (io_calls w))) ->
  Q (Z.of_nat (S (io_calls w)))
    (IO (io_sys w) (<[filename := []]> (disk w)) (<[Z.of_nat (S (io_calls w)) := filename]> (opened w)) (S (io_calls w))) ->
  wp (fopen filename) Q w.
Proof. intros Hfail Hok. unfold fopen, wp. by destruct (fopen_ok _ _). Qed.

(** The rest of a creation, once the file is open. *)
Lemma create_opened w w1 filename n K1 K2 K3 K4 ps p q :
  io_wf w -> metadata_ready (io_sys w) K1 K2 K3 K4 ps -> reliable -> 0 < n ->
  p <> NULL -> q <> NULL -> blocks (sheap (io_sys w)) !! p = None -> opened w !! q = None ->
  blocks (sheap (io_sys w1)) = <[p := sizeof_HT_FileDumpListener]> (blocks (sheap (io_sys w))) ->
  mutexes (io_sys w1) = mutexes (io_sys w) -> klasses (io_sys w1) = klasses (io_sys w) ->
  registry (io_sys w1) = registry (io_sys w) -> containers (io_sys w1) = containers (io_sys w) ->
  opened w1 = <[q := filename]> (opened w) -> disk w1 = <[filename := []]> (disk w) ->
  wp (mtx ← zoom ht_mutex_create;
      if decide (mtx = NULL) then
        fclose q;; zoom (zoom (ht_free p) : ST (sys E) ());; mret (HT_ERR_OUT_OF_MEMORY, None)
      else
        r ← zoom (zoom (ht_listener_buffer_init n) : ST (sys E) _);
        match r with
        | inl error_code =>
            zoom (ht_mutex_destroy mtx);;
            fclose q;; zoom (zoom (ht_free p) : ST (sys E) ());; mret (error_code, None)
        | inr buffer =>
            batches ← zoom (record_metadata at_callback p);
            l ← callbacks (FileDumpListener p buffer q mtx) batches;
            mret (HT_ERR_OK, Some l)
        end) (created w filename n (klasses (io_sys w)) ps) w1.
Proof.
  intros [Hwm _] MR Hrel Hn Hp Hq Hfp Hfq Eb Em Ek Er Ec Eo Ed.
  apply wp_bind, wp_zoom, mutex_create_spec.
  { intros h2 (E2&_&_). rewrite decide_True by done. apply wp_bind, fclose_spec; [simpl; rewrite Eo, lookup_insert_eq; eauto|].
    simpl in E2. rewrite Eb in E2. apply wp_bind, wp_zoom, wp_zoom.
    apply (ht_free_spec _ sizeof_HT_FileDumpListener); [done|simpl; by rewrite E2, lookup_insert_eq|].
    intros h3 (E3&_&_). simpl in E3. apply wp_ret, created_none; simpl; try done; [tauto| | |].
    - by rewrite Ed, delete_insert_eq.
    - by rewrite E3, E2, delete_insert_id.
    - by rewrite Eo, delete_insert_id. }
  intros m h2 Hm Hfm E2. simpl in Hfm, E2. rewrite Eb in Hfm, E2. rewrite decide_False by done.
  assert (Hmp : m <> p) by (intros ->; by rewrite lookup_insert_eq in Hfm).
  assert (Hfm0 : blocks (sheap (io_sys w)) !! m = None) by (by rewrite lookup_insert_ne in Hfm).
  assert (Hmx : mutexes (io_sys w) !! m = None).
  { destruct (mutexes (io_sys w) !! m) eqn:Eq; [|done]. destruct (Hwm m) as [? ?]; [eauto|congruence]. }
  apply wp_bind, wp_zoom, wp_zoom, listener_buffer_init_spec; [lia| |].
  - intros h3 (E3&_&_). simpl in E3. rewrite E2 in E3. apply wp_bind, wp_zoom.
    apply (mutex_destroy_spec _ sizeof_HT_Mutex); [apply lookup_insert_eq|done|simpl; by rewrite E3, lookup_insert_eq|].
    intros h4 E4. simpl in E4. rewrite E3, delete_insert_id in E4 by done.
    apply wp_bind, fclose_spec; [simpl; rewrite Eo, lookup_insert_eq; eauto|]. apply wp_bind, wp_zoom, wp_zoom.
    apply (ht_free_spec _ sizeof_HT_FileDumpListener); [done|simpl; by rewrite E4, lookup_insert_eq|].
    intros h5 (E5&_&_). simpl in E5. apply wp_ret, created_none; simpl; try done; [tauto| | | |].
    + by rewrite Ed, delete_insert_eq.
    + by rewrite E5, E4, delete_insert_id.
    + by rewrite delete_insert_id, Em by (by rewrite Em).
    + by rewrite Eo, delete_insert_id.
  - intros b h3 Rb Hmax [[? _]|(Hdn&Hfd&E3&_&_)]; [lia|].
    simpl in Hfd, E3. rewrite E2 in Hfd, E3.
    assert (Hdm : lb_data b <> m) by (intros Eq; by rewrite Eq, lookup_insert_eq in Hfd).
    assert (Hdp : lb_data b <> p) by (intros Eq; rewrite Eq, lookup_insert_ne, lookup_insert_eq in Hfd by done; done).
    assert (Hd0 : blocks (sheap (io_sys w)) !! lb_data b = None) by (by rewrite !lookup_insert_ne in Hfd by done).
    set (l := FileDumpListener p b q m). change p with (fd_self l) at 1.
    set (w3 := update _ _). assert (Eb3 : blocks (sheap (io_sys w3)) = blocks h3) by done.
    assert (Hlive : forall r, is_Some (blocks (sheap (io_sys w)) !! r) ->
      blocks (sheap (io_sys w3)) !! r = blocks (sheap (io_sys w)) !! r).
    { intros r [x Hr]. rewrite Eb3, E3, !lookup_insert_ne; [done| | |]; intros <-; congruence. }
    eapply wp_mono; [apply (create_finish w w3 filename K1 K2 K3 K4 ps l); try done|].
    + eapply metadata_ready_mono; [exact MR|done|done|exact Hlive|].
      intros m' [x Hm']. simpl. rewrite lookup_insert_ne, Em; [done|]. intros ->. congruence.
    + split; simpl; try done; [by rewrite Eo, lookup_insert_eq|exists []; by rewrite Ed, lookup_insert_eq|apply lookup_insert_eq].
    + split.
      * unfold fd_ptrs. repeat constructor; simpl; try done; rewrite E3.
        -- rewrite !lookup_insert_ne, lookup_insert_eq by done. eauto.
        -- rewrite lookup_insert_ne, lookup_insert_eq by done. eauto.
        -- rewrite lookup_insert_eq. eauto.
      * unfold fd_ptrs. simpl. apply tl_nodup; [by apply not_eq_sym| | |apply NoDup_singleton];
          rewrite list_elem_of_singleton; by apply not_eq_sym.
    + intros [err o] w' (->&l'&es&content&written&->&Hs&R&FO&(Eh&Em'&Ec'&Ek'&_)&Eo'&Ed'&Hev&Hok&Hcat). simpl in *.
      unfold created. simpl. rewrite Ek', Ed', Em', Ec', Eo', Eh, (sl_max _ _ Hs), (sl_mtx _ _ Hs), (sl_file _ _ Hs).
      split_and!; try done.
      * by rewrite Ed, delete_insert_eq.
      * rewrite E3. unfold fd_ptrs. rewrite (sl_self _ _ Hs), (sl_mtx _ _ Hs), (sl_data _ _ Hs). simpl.
        apply (frame_perm [] [lb_data b; m; p]); [done| |].
        { rewrite (Permutation_swap p m []), (Permutation_swap p (lb_data b)). by rewrite (Permutation_swap m (lb_data b)). }
        do 3 (eapply frame_trans; [|by apply frame_insert]). apply frame_refl.
      * simpl. by rewrite Em.
      * exists es, content, written. by split_and!.
Qed.

Lemma file_dump_create_spec filename n w K1 K2 K3 K4 ps :
  io_wf w -> metadata_ready (io_sys w) K1 K2 K3 K4 ps -> reliable -> 0 < n ->
  wp (ht_file_dump_listener_create filename n) (created w filename n (klasses (io_sys w)) ps) w.
Proof.
  intros Wf MR Hrel Hn. unfold ht_file_dump_listener_create. apply wp_bind, wp_zoom, wp_zoom, ht_alloc_spec.
  { intros h1 (E1&_&_). rewrite decide_True by done. apply wp_ret, created_none; try done. tauto. }
  intros p h1 Hp _ Hfp (E1&_&_). rewrite decide_False by done. simpl in Hfp, E1. apply wp_bind, fopen_spec.
  { rewrite decide_True by done. apply wp_bind, wp_zoom, wp_zoom.
    apply (ht_free_spec _ sizeof_HT_FileDumpListener); [done|simpl; by rewrite E1, lookup_insert_eq|].
    intros h2 (E2&_&_). simpl in E2. apply wp_ret, created_none; simpl; try done; [tauto|].
    by rewrite E2, E1, delete_insert_id. }
  rewrite decide_False by (unfold NULL; lia). apply (create_opened w _ _ _ K1 K2 K3 K4); try done.
  simpl. destruct (opened w !! _) eqn:Eq; [|done].
  assert (Z.of_nat (S (io_calls w)) <= Z.of_nat (io_calls w)) by (apply (iw_opened _ Wf); eauto). lia.
Qed.

(** ** The life of a listener *)

Inductive fd_op := FdBatch (b : batch) | FdFlush (flush_stream : bool) | FdStop.

Definition fd_step l (op : fd_op) : ST (io_state E) HT_FileDumpListener :=
  match op with
  | FdBatch b => ht_file_dump_listener_callback l (batch_cells b).1 (batch_cells b).2
  | FdFlush fs => '(_, l) ← ht_file_dump_listener_flush l fs; mret l
  | FdStop => ht_file_dump_listener_stop l
  end.

Fixpoint fd_run (ops : list fd_op) l : ST (io_state E) HT_FileDumpListener :=
  match ops with
  | [] => mret l
  | op :: ops => l ← fd_step l op; fd_run ops l
  end.

Definition file_dump_lifetime (filename : list Z) (n : Z) (ops : list fd_op) : ST (io_state E) (HT_ErrorCode + ()) :=
  '(err, o) ← ht_file_dump_listener_create filename n;
  match o with
  | None => mret (inl err)
  | Some l => l ← fd_run ops l; ht_file_dump_listener_destroy (Some l);; mret (inr ())
  end.

(** What goes to the file: the batches before the listener is stopped. *)
Fixpoint fd_stream (ops : list fd_op) : list memval :=
  match ops with
  | [] | FdStop :: _ => []
  | FdBatch b :: ops => batch_stream b ++ fd_stream ops
  | FdFlush _ :: ops => fd_stream ops
  end.

Definition fd_op_ok (ks : klass_store) (n : Z) (op : fd_op) : Prop :=
  match op with FdBatch b => batch_ok ks n b | _ => True end.

(** A stopped listener ignores everything. *)
Lemma stopped_step w l op :
  p_file l = NULL -> mutexes (io_sys w) !! fd_mtx l = Some false ->
  wp (fd_step l op) (fun l' w' => l' = l /\ w' = w) w.
Proof.
  intros Hp Hm. assert (Hst : _ht_file_dump_listener_is_stopped l = true) by (by apply bool_decide_eq_true).
  assert (Hlock : forall A (m1 m2 : ST (io_state E) A) Q, wp m1 Q w ->
    wp (zoom (ht_mutex_lock (fd_mtx l));; if _ht_file_dump_listener_is_stopped l
        then zoom (ht_mutex_unlock (fd_mtx l));; m1 else m2) Q w).
  { intros A m1 m2 Q HQ. apply wp_bind, wp_zoom, lock_spec; [done|]. rewrite Hst.
    apply wp_bind, wp_zoom, unlock_spec; [apply lookup_insert_eq|]. simpl.
    rewrite relock_id by done. by destruct w. }
  destruct op as [b|fs|]; simpl; [by apply Hlock| |by apply Hlock].
  apply wp_bind. by apply Hlock.
Qed.

Lemma stopped_run_destroy ops w l :
  p_file l = NULL -> mutexes (io_sys w) !! fd_mtx l = Some false ->
  fd_self l <> NULL -> fd_mtx l <> NULL -> fd_self l <> fd_mtx l ->
  is_Some (blocks (sheap (io_sys w)) !! fd_self l) -> is_Some (blocks (sheap (io_sys w)) !! fd_mtx l) ->
  wp (l ← fd_run ops l; ht_file_dump_listener_destroy (Some l)) (fun _ w' =>
    blocks (sheap (io_sys w')) = delete (fd_self l) (delete (fd_mtx l) (blocks (sheap (io_sys w)))) /\
    mutexes (io_sys w') = delete (fd_mtx l) (mutexes (io_sys w)) /\ klasses (io_sys w') = klasses (io_sys w) /\
    opened w' = opened w /\ disk w' = disk w) w.
Proof.
  intros Hp Hm Hs Hmn Hne Hls Hlm. revert w Hm Hls Hlm. induction ops as [|op ops IH]; intros w Hm Hls Hlm.
  - simpl fd_run. rewrite ret_bind. unfold ht_file_dump_listener_destroy, _ht_file_dump_listener_is_stopped.
    rewrite bool_decide_true by done. simpl negb. cbn iota. rewrite ret_bind. by apply release_listener_spec.
  - simpl fd_run. apply wp_bind, wp_bind. eapply wp_mono; [by apply stopped_step|]. intros l' w' [-> ->].
    by apply wp_bind_inv, IH.
Qed.

Definition ended w l name (total : list memval) w' : Prop :=
  frame (fd_ptrs l) [] (blocks (sheap (io_sys w))) (blocks (sheap (io_sys w'))) /\
  mutexes (io_sys w') = delete (fd_mtx l) (mutexes (io_sys w)) /\
  opened w' = delete (p_file l) (opened w) /\ delete name (disk w') = delete name (disk w) /\
  exists ch, disk w' !! name = Some ch /\ concat ch = total.

Lemma ended_step w w1 w2 l l1 name total :
  io_step name w w1 -> same_listener l l1 -> ended w1 l1 name total w2 -> ended w l name total w2.
Proof.
  intros [Es Eo Ed] Hs. unfold ended, fd_ptrs.
  by rewrite (sl_self _ _ Hs), (sl_mtx _ _ Hs), (sl_data _ _ Hs), (sl_file _ _ Hs), Es, Eo, Ed.
Qed.

Lemma stop_run_destroy ops w l name content written :
  fd_rep w l name content written -> reliable -> fd_owned w l ->
  wp (l ← fd_step l FdStop; l ← fd_run ops l; ht_file_dump_listener_destroy (Some l))
    (fun _ w' => ended w l name (written ++ content) w') w.
Proof.
  intros R Hrel FO. eapply wp_call; [by apply (stop_spec w l name content written)|].
  intros l1 w1 (Hp&Es&Em&Esys&Eb1&Eo1&Ed1&Hch). destruct FO as [Hl Hn].
  apply Forall_cons in Hl as [[Hsn Hs] [[Hmn Hm] [[Hdn Hd] _]%Forall_cons]%Forall_cons].
  unfold fd_ptrs in Hn. apply NoDup_cons in Hn as [Hsin Hn]. apply NoDup_cons in Hn as [Hmin _].
  rewrite !not_elem_of_cons in Hsin. rewrite not_elem_of_cons in Hmin. destruct Hsin as (Hsm&Hsd&_), Hmin as [Hmd _].
  eapply wp_mono; [apply stopped_run_destroy|].
  all: rewrite ?Es, ?Em, ?Eb1, ?lookup_delete_ne by (by apply not_eq_sym); try done.
  { rewrite Esys. simpl. apply (fr_mutex _ _ _ _ _ R). }
  intros _ w2 (Eb2&Em2&_&Eo2&Ed2). unfold ended. rewrite Eo2, Ed2, Em2, Eb2. split_and!; try done.
  - unfold fd_ptrs. apply (frame_perm [lb_data (fd_buffer l); fd_mtx l; fd_self l] []); [|done|].
    { rewrite (Permutation_swap (fd_mtx l)). rewrite (Permutation_swap (fd_self l) (lb_data (fd_buffer l)) []).
      apply Permutation_swap. }
    do 3 (eapply frame_trans; [apply frame_delete|]). apply frame_refl.
  - by rewrite Esys.
Qed.

Lemma running_run_destroy ops w l name content written :
  fd_rep w l name content written -> reliable -> fd_owned w l ->
  Forall (fd_op_ok (klasses (io_sys w)) (max_size (fd_buffer l))) ops ->
  wp (l ← fd_run ops l; ht_file_dump_listener_destroy (Some l))
    (fun _ w' => ended w l name (written ++ content ++ fd_stream ops) w') w.
Proof.
  revert w l content written. induction ops as [|op ops IH]; intros w l content written R Hrel FO HF.
  { simpl fd_run. rewrite ret_bind, app_nil_r. by apply destroy_running_spec. }
  apply Forall_cons in HF as [Hop HF].
  assert (Hnext : forall l1 w1 content1 written1, fd_rep w1 l1 name content1 written1 -> same_listener l l1 ->
    io_step name w w1 -> written1 ++ content1 ++ fd_stream ops = written ++ content ++ fd_stream (op :: ops) ->
    wp (fd_run ops l1) (fun l2 s2 => wp (ht_file_dump_listener_destroy (Some l2))
      (fun _ w' => ended w l name (written ++ content ++ fd_stream (op :: ops)) w') s2) w1).
  { intros l1 w1 c1 wr1 R1 Hs St Eq. apply wp_bind_inv. eapply wp_mono; [apply (IH w1 l1 c1 wr1); try done|].
    - eapply fd_owned_step; [apply St|exact Hs|done].
    - by rewrite (is_sys _ _ _ St), (sl_max _ _ Hs).
    - intros u w2. rewrite Eq. by apply ended_step. }
  simpl fd_run. apply wp_bind, wp_bind. destruct op as [b|fs|].
  - eapply wp_mono; [by apply (callback_spec w l name content written b)|].
    intros l1 w1 (c1&wr1&R1&Hcat&Hs&St). apply (Hnext l1 w1 c1 wr1); try done. simpl.
    rewrite app_assoc, Hcat. by rewrite <- !app_assoc.
  - simpl fd_step. eapply wp_call; [by apply (listener_flush_spec w l name content written fs)|].
    intros [err l1] w1 (R1&Hs&St&_). apply wp_ret. apply (Hnext l1 w1 [] (written ++ content)); try done. simpl.
    by rewrite <- app_assoc.
  - simpl fd_stream. rewrite app_nil_r.
    pose proof (wp_bind_inv _ _ _ _ (stop_run_destroy ops w l name content written R Hrel FO)) as Hw.
    eapply wp_mono; [exact Hw|]. intros l1 w1 Hw1. by apply wp_bind_inv.
Qed.

(** The whole life, for every answer of the allocator and the file system. *)
Lemma file_dump_lifetime_spec filename n ops w B K F Y ps :
  io_wf w -> metadata_ready (io_sys w) B K F Y ps -> reliable -> 0 < n ->
  Forall (fd_op_ok (klasses (io_sys w)) n) ops ->
  wp (file_dump_lifetime filename n ops) (fun r w' =>
    blocks (sheap (io_sys w')) = blocks (sheap (io_sys w)) /\ mutexes (io_sys w') = mutexes (io_sys w) /\
    opened w' = opened w /\ delete filename (disk w') = delete filename (disk w) /\
    match r with
    | inl err => err = HT_ERR_OUT_OF_MEMORY \/ err = HT_ERR_CANT_OPEN_FILE
    | inr _ => exists es ch, metadata_events (io_sys w) ps es /\ Forall (pushed_ok (klasses (io_sys w))) es /\
        disk w' !! filename = Some ch /\ concat ch = wire_cells es ++ fd_stream ops
    end) w.
Proof.
  intros Wf MR Hrel Hn HF. unfold file_dump_lifetime. eapply wp_call; [by eapply file_dump_create_spec|].
  intros [err [l|]] w1 (Ek&Ed&_&Hr); simpl in Hr; [|apply wp_ret; tauto].
  destruct Hr as (->&Hmax&FO&Hfr&Em&Hmx&Eo&Hfo&es&content&written&Hev&Hok&R&Hcat).
  assert (Hrun : wp (l ← fd_run ops l; ht_file_dump_listener_destroy (Some l))
    (fun _ w' => ended w1 l filename (written ++ content ++ fd_stream ops) w') w1).
  { apply running_run_destroy; try done. by rewrite Ek, Hmax. }
  apply wp_bind. eapply wp_mono; [apply (wp_bind_inv _ _ _ _ Hrun)|]. intros l2 w2 Hw2.
  eapply wp_call; [exact Hw2|]. intros [] w3 (Hfr3&Em3&Eo3&Ed3&ch&Hch&Hc). apply wp_ret. split_and!.
  - apply frame_nil. by eapply frame_trans.
  - by rewrite Em3, Em, delete_insert_id.
  - by rewrite Eo3, Eo, delete_insert_id.
  - by rewrite Ed3.
  - exists es, ch. split_and!; try done. by rewrite Hc, app_assoc, Hcat.
Qed.

(** C3: what is in the file.  On a disk that takes whatever is written to it
    (the code does not look at what fwrite returns), whatever the allocator and
    fopen answer, creating a file listener with a buffer that is not empty,
    calling it with any sequence of flushes, stops and batches, of serialised
    events or of event objects that fit the buffer, and destroying it either
    fails at the creation with HT_ERR_OUT_OF_MEMORY or HT_ERR_CANT_OPEN_FILE, or
    leaves in the file exactly the metadata followed by the wire format of
    the batches given before the listener was stopped, in order; every other
    file, the open streams, the heap and the mutexes are as before. *)
Theorem file_dump_writes_everything filename n ops w B K F Y ps :
  io_wf w -> metadata_ready (io_sys w) B K F Y ps -> reliable -> 0 < n ->
  Forall (fd_op_ok (klasses (io_sys w)) n) ops ->
  wp (file_dump_lifetime filename n ops) (fun r w' =>
    blocks (sheap (io_sys w')) = blocks (sheap (io_sys w)) /\ mutexes (io_sys w') = mutexes (io_sys w) /\
    opened w' = opened w /\ delete filename (disk w') = delete filename (disk w) /\
    match r with
    | inl err => err = HT_ERR_OUT_OF_MEMORY \/ err = HT_ERR_CANT_OPEN_FILE
    | inr _ => exists es ch, metadata_events (io_sys w) ps es /\ Forall (pushed_ok (klasses (io_sys w))) es /\
        disk w' !! filename = Some ch /\ concat ch = wire_cells es ++ fd_stream ops
    end) w.
Proof. apply file_dump_lifetime_spec. Qed.

End file_dump.

(** ** A concrete file *)

Section samples.

#[local] Existing Instance log_host.
#[local] Existing Instance little_endian.
#[local] Existing Instance always_granted.

#[local] Instance good_disk : Stdio := {| fopen_ok _ _ := true; fwrite_count _ n := n; fflush_ok _ := true |}.

Definition sample_io : io_state (list call) := IO ready_sys ∅ ∅ 0.

Lemma sample_io_wf : io_wf sample_io.
Proof.
  split; simpl.
  - intros m [b Hm]. revert m b Hm. apply map_Forall_lookup. apply (bool_decide_unpack _). by vm_compute.
  - intros p [x Hp]. by rewrite lookup_empty in Hp.
Qed.

Definition sample_fd_ops : list fd_op :=
  [FdBatch (Serialized (Byte <$> [1; 2; 3])); FdFlush true; FdBatch (Serialized (Byte <$> [4; 5])); FdStop;
   FdBatch (Serialized (Byte <$> [6]))].

Lemma file_dump_writes_everything_witness :
  fd_stream sample_fd_ops = Byte <$> [1; 2; 3; 4; 5] /\
  wp (file_dump_lifetime [102] 16 sample_fd_ops) (fun r w' =>
    blocks (sheap (io_sys w')) = blocks (sheap (io_sys sample_io)) /\
    mutexes (io_sys w') = mutexes (io_sys sample_io) /\
    opened w' = opened sample_io /\ delete [102] (disk w') = delete [102] (disk sample_io) /\
    match r with
    | inl err => err = HT_ERR_OUT_OF_MEMORY \/ err = HT_ERR_CANT_OPEN_FILE
    | inr _ => exists es ch, metadata_events (io_sys sample_io) [1; 2; 3; 4; 5; 6; 7; 8; 9] es /\
        Forall (pushed_ok (klasses (io_sys sample_io))) es /\
        disk w' !! [102] = Some ch /\ concat ch = wire_cells es ++ fd_stream sample_fd_ops
    end) sample_io.
Proof.
  split; [reflexivity|].
  apply (file_dump_writes_everything [102] 16 sample_fd_ops sample_io (registered HT_EndiannessInfoEvent 0)
           (registered HT_EventKlassInfoEvent 2) (registered HT_EventKlassFieldInfoEvent 3) (registered HT_SystemInfoEvent 8)).
  - exact sample_io_wf.
  - exact ready_sys_metadata.
  - intros k len. apply le_n.
  - lia.
  - repeat constructor.
Defined.

End samples.
