(* ===== verification/TcpServer.v ===== *)
(** * The TCP server of the library

    lib/tcp_server.cpp: a thread that accepts clients, and a broadcast of
    buffers to them.  The sockets of the system are a parameter ([Sockets]);
    what was sent on every socket, and which descriptors are open or shut down, is
    part of the state.  A server is owned by
    its creator and threaded as a value; the accepting thread is given by its
    iterations ([accept_client]), which the owner's operations interleave
    with. *)

From S2P Require Import Prelude Alloc BaseTypes Bag Memory Events Listeners.

(** ** Sockets

    What the system answers, by the number of the call: negative on errors.
    send() never sends more than it is given, and at most 0x7ffff000 bytes,
    so that its answer fits into an int. *)
Class Sockets := {
  os_socket : nat -> Z;
  os_setsockopt : nat -> Z -> Z;
  os_bind : nat -> Z -> Z -> Z;
  os_listen : nat -> Z -> Z;
  os_accept : nat -> Z -> Z;
  os_send : nat -> Z -> nat -> Z;
  os_send_le : forall n fd len, -1 <= os_send n fd len <= Z.of_nat len `min` 0x7ffff000
}.

(** [delivered]: everything that was sent, by socket.  [descriptors]: the
    sockets that are open, and whether they were shut down. *)
Record net_state (E : Type) := Net {
  net_sys : sys E;
  delivered : gmap Z (list memval);
  net_calls : nat;
  descriptors : gmap Z bool
}.
Arguments Net {E} _ _ _ _.
Arguments net_sys {E} _.
Arguments delivered {E} _.
Arguments net_calls {E} _.
Arguments descriptors {E} _.

#[export] Instance net_lens {E} : Lens (net_state E) (sys E).
Proof.
  refine {| view := net_sys; update s w := Net s (delivered w) (net_calls w) (descriptors w) |}; by intros; destruct w || destruct s.
Defined.

Definition sent_to {E} (fd : Z) (w : net_state E) : list memval := default [] (delivered w !! fd).

Record HT_TCPServer := TCPServer {
  srv_self : ptr;
  accept_client_thread : ptr;
  client_sock_fd : option (bag Z);
  client_mutex : ptr;
  server_sock_fd : Z;
  client_connected_cb : ptr;
  client_connected_ud : ptr
}.

Definition sizeof_HT_TCPServer : Z := 80.
Definition sizeof_HT_Thread : Z := 8.
Definition sizeof_int : Z := 4.

Definition set_clients (b : bag Z) (s : HT_TCPServer) : HT_TCPServer :=
  TCPServer (srv_self s) (accept_client_thread s) (Some b) (client_mutex s) (server_sock_fd s) (client_connected_cb s) (client_connected_ud s).
Definition set_thread (p : ptr) (s : HT_TCPServer) : HT_TCPServer :=
  TCPServer (srv_self s) p (client_sock_fd s) (client_mutex s) (server_sock_fd s) (client_connected_cb s) (client_connected_ud s).
Definition set_server_fd (fd : Z) (s : HT_TCPServer) : HT_TCPServer :=
  TCPServer (srv_self s) (accept_client_thread s) (client_sock_fd s) (client_mutex s) fd (client_connected_cb s) (client_connected_ud s).

Definition set_callback (cb ud : ptr) (s : HT_TCPServer) : HT_TCPServer :=
  TCPServer (srv_self s) (accept_client_thread s) (client_sock_fd s) (client_mutex s) (server_sock_fd s) cb ud.

Section server.
  Context `{Malloc} `{Sockets} {E : Type} `{Host E}.
  Implicit Types (w : net_state E) (server : HT_TCPServer).

(** The conversion to int. *)
Definition to_int (n : Z) : Z := (n + 2 ^ 31) mod 2 ^ 32 - 2 ^ 31.

Lemma to_int_small n : - 2 ^ 31 <= n < 2 ^ 31 -> to_int n = n.
Proof. intros Hn. unfold to_int. rewrite Z.mod_small; lia. Qed.

(** A system call that only answers. *)
Definition syscall (f : nat -> Z) : ST (net_state E) Z := fun w =>
  Done (f (net_calls w), Net (net_sys w) (delivered w) (S (net_calls w)) (descriptors w)).

Definition set_descriptors (f : gmap Z bool -> gmap Z bool) w : net_state E :=
  Net (net_sys w) (delivered w) (net_calls w) (f (descriptors w)).

(** A call that opens a socket, unless it fails. *)
Definition open_socket (f : nat -> Z) : ST (net_state E) Z :=
  fd ← syscall f;
  modify (set_descriptors (fun ds => if decide (0 <= fd) then <[fd := false]> ds else ds));;
  mret fd.

(** shutdown(sock_fd, 2): the socket stays open. *)
Definition shutdown (sock_fd : Z) : ST (net_state E) () := modify (set_descriptors (alter (fun _ => true) sock_fd)).

Definition send (sock_fd : Z) (data : list memval) : ST (net_state E) Z := fun w =>
  let n := os_send (net_calls w) sock_fd (length data) in
  Done (n, Net (net_sys w) (<[sock_fd := sent_to sock_fd w ++ take (Z.to_nat n) data]> (delivered w)) (S (net_calls w)) (descriptors w)).

Definition heap_op {A} (m : ST heap A) : ST (net_state E) A := zoom (zoom m : ST (sys E) A).

(** ** Threads *)

(** The object is constructed in the block without a test. *)
Definition ht_thread_create : ST (net_state E) ptr :=
  th ← heap_op (ht_alloc sizeof_HT_Thread);
  require (bool_decide (th <> NULL));;
  mret th.

(** The join needs the thread's function to return. *)
Definition ht_thread_destroy (th : ptr) : ST (net_state E) () := heap_op (ht_free th).

(** ** The server *)

(** No allocation is tested; a bag that could not be allocated has
    indeterminate fields. *)
Definition ht_tcp_server_create : ST (net_state E) HT_TCPServer :=
  server ← heap_op (ht_alloc sizeof_HT_TCPServer);
  require (bool_decide (server <> NULL));;
  r ← heap_op (ht_bag_init sizeof_int 8);
  mtx ← zoom ht_mutex_create;
  mret (TCPServer server NULL (match r with inl _ => None | inr b => Some b end) mtx (-1) NULL NULL).

Definition ht_tcp_server_is_running server : bool := bool_decide (server_sock_fd server <> -1).

Definition ht_tcp_server_stop server : ST (net_state E) HT_TCPServer :=
  if negb (ht_tcp_server_is_running server) then mret server
  else
    zoom (ht_mutex_lock (client_mutex server));;
    b ← some_or_undef (client_sock_fd server);
    b ← heap_op (ht_bag_clear sizeof_int b);
    zoom (ht_mutex_unlock (client_mutex server));;
    let prev_sock_fd := server_sock_fd server in
    let server := set_server_fd (-1) (set_clients b server) in
    shutdown prev_sock_fd;;
    if decide (accept_client_thread server <> NULL) then
      ht_thread_destroy (accept_client_thread server);;
      mret (set_thread NULL server)
    else mret server.

Definition ht_tcp_server_destroy server : ST (net_state E) () :=
  server ← ht_tcp_server_stop server;
  b ← some_or_undef (client_sock_fd server);
  heap_op (ht_bag_deinit b);;
  zoom (ht_mutex_destroy (client_mutex server));;
  heap_op (ht_free (srv_self server)).

Definition ht_tcp_server_start server (port : Z) (cb user_data : ptr) : ST (net_state E) (bool * HT_TCPServer) :=
  server ← (if ht_tcp_server_is_running server then ht_tcp_server_stop server else mret server);
  fd ← open_socket os_socket;
  let server := set_server_fd fd server in
  if decide (fd < 0) then mret (false, server)
  else
    r ← syscall (fun n => os_setsockopt n fd);
    if decide (r <> 0) then server ← ht_tcp_server_stop server; mret (false, server)
    else
      r ← syscall (fun n => os_bind n fd (port mod 2 ^ 16));
      if decide (r < 0) then server ← ht_tcp_server_stop server; mret (false, server)
      else
        r ← syscall (fun n => os_listen n fd);
        if decide (r < 0) then server ← ht_tcp_server_stop server; mret (false, server)
        else
          th ← ht_thread_create;
          mret (true, set_thread th (set_callback cb user_data server)).

(** The loop of ht_tcp_server_write_to_socket. *)
Fixpoint send_loop (fuel : nat) (sock_fd : Z) (buffer : list memval) (sent : Z) : ST (net_state E) bool :=
  match fuel with
  | O => nofuel
  | S fuel =>
    if decide (sent < Z.of_nat (length buffer)) then
      n ← send sock_fd (drop (Z.to_nat sent) buffer);
      let n := to_int n in
      if decide (n <= 0) then mret false else send_loop fuel sock_fd buffer (u64 (sent + n))
    else mret true
  end.

Definition ht_tcp_server_write_to_socket (sock_fd : Z) (buffer : list memval) : ST (net_state E) bool :=
  if decide (length buffer = O) then mret true else send_loop (S (length buffer)) sock_fd buffer 0.

(** The loop of ht_tcp_server_write: a client that cannot be written to is
    removed, and the index is decremented, wrapping around at 0, before the
    increment of the loop. *)
Fixpoint write_loop (fuel : nat) (buffer : list memval) (b : bag Z) (i : Z) : ST (net_state E) (bag Z) :=
  match fuel with
  | O => nofuel
  | S fuel =>
    if decide (i < size b) then
      fd ← some_or_undef (ht_bag_nth b i);
      ok ← ht_tcp_server_write_to_socket fd buffer;
      if (ok : bool) then write_loop fuel buffer b (u64 (i + 1))
      else
        b ← heap_op (ht_bag_remove_nth sizeof_int b i);
        write_loop fuel buffer b (u64 (u64 (i - 1) + 1))
    else mret b
  end.

Definition ht_tcp_server_write server (buffer : list memval) : ST (net_state E) HT_TCPServer :=
  zoom (ht_mutex_lock (client_mutex server));;
  b ← some_or_undef (client_sock_fd server);
  b ← write_loop (S (Z.to_nat (size b))) buffer b 0;
  zoom (ht_mutex_unlock (client_mutex server));;
  mret (set_clients b server).

(** The end of an iteration of [_ht_tcp_server_run]: a client that does not
    fit is dropped silently. *)
Definition add_client server (client_fd : Z) : ST (net_state E) HT_TCPServer :=
  zoom (ht_mutex_lock (client_mutex server));;
  b ← some_or_undef (client_sock_fd server);
  '(_, b) ← heap_op (ht_bag_add sizeof_int b client_fd);
  zoom (ht_mutex_unlock (client_mutex server));;
  mret (set_clients b server).

(** ** What a write does *)

(** Everything but the sockets and the heap is as before. *)
Record net_step w w' : Prop := {
  ns_mutexes : mutexes (net_sys w') = mutexes (net_sys w);
  ns_klasses : klasses (net_sys w') = klasses (net_sys w);
  ns_containers : containers (net_sys w') = containers (net_sys w);
  ns_registry : registry (net_sys w') = registry (net_sys w);
  ns_ids : current_identifier (net_sys w') = current_identifier (net_sys w);
  ns_env : senv (net_sys w') = senv (net_sys w)
}.

Lemma sent_to_insert fd fd' x s d n ds :
  sent_to (E := E) fd' (Net s (<[fd := x]> d) n ds) = if decide (fd' = fd) then x else default [] (d !! fd').
Proof. unfold sent_to. simpl. case_decide; [subst; by rewrite lookup_insert_eq|by rewrite lookup_insert_ne]. Qed.

(** A connection that does not break. *)
Definition reliable (fd : Z) : Prop := forall n len, (0 < len)%nat -> 0 < os_send n fd len.

(** The whole of [buffer], or a proper prefix of it where the connection
    breaks, goes to one socket. *)
Definition written_to (fd : Z) (buffer : list memval) (ok : bool) w w' : Prop :=
  (exists p, p `prefix_of` buffer /\ (ok = true <-> p = buffer) /\ sent_to fd w' = sent_to fd w ++ p) /\
  (forall fd', fd' <> fd -> sent_to fd' w' = sent_to fd' w) /\ (reliable fd -> ok = true).

Lemma send_loop_spec fuel fd buffer sent w0 w :
  Z.of_nat (length buffer) < 2 ^ 63 -> 0 <= sent <= Z.of_nat (length buffer) -> (length buffer - Z.to_nat sent < fuel)%nat ->
  net_sys w = net_sys w0 -> sent_to fd w = sent_to fd w0 ++ take (Z.to_nat sent) buffer ->
  (forall fd', fd' <> fd -> sent_to fd' w = sent_to fd' w0) ->
  wp (send_loop fuel fd buffer sent) (fun ok w' => net_sys w' = net_sys w0 /\ written_to fd buffer ok w0 w') w.
Proof.
  intros Hb. revert sent w. induction fuel as [|fuel IH]; intros sent w Hs Hf Hsys Hfd Ho; [lia|]. cbn [send_loop].
  destruct (decide (sent < Z.of_nat (length buffer))) as [Hlt|Hge].
  - apply wp_bind. unfold wp at 1, send. set (d := drop (Z.to_nat sent) buffer). set (n := os_send (net_calls w) fd (length d)).
    pose proof (os_send_le (net_calls w) fd (length d)) as Hn. fold n in Hn. unfold d in Hn. rewrite length_drop in Hn.
    cbv zeta. rewrite to_int_small by lia. destruct (decide (n <= 0)) as [Hz|Hz].
    + apply wp_ret. split; [done|]. split.
      * exists (take (Z.to_nat sent) buffer). split; [apply prefix_take|]. split.
        { split; [done|]. intros E'. apply (f_equal length) in E'. rewrite length_take in E'. lia. }
        rewrite sent_to_insert, decide_True by done. replace (Z.to_nat n) with 0%nat by lia. simpl. by rewrite app_nil_r.
      * split; [intros fd' Hne; rewrite sent_to_insert, decide_False by done; by apply Ho|].
        assert (0 < length d)%nat as Hd by (unfold d; rewrite length_drop; lia). intros Hrel. specialize (Hrel (net_calls w) _ Hd). fold n in Hrel. lia.
    + rewrite u64_small by lia. apply IH; simpl; try done; try lia.
      * rewrite sent_to_insert, decide_True, Hfd, <- app_assoc by done. f_equal. unfold d.
        rewrite take_take_drop. f_equal. lia.
      * intros fd' Hne. rewrite sent_to_insert, decide_False by done. by apply Ho.
  - apply wp_ret. split; [done|]. split; [|by split]. exists buffer. split; [done|]. split; [done|].
    rewrite Hfd, take_ge by lia. done.
Qed.

Lemma write_to_socket_spec fd buffer w :
  Z.of_nat (length buffer) < 2 ^ 63 ->
  wp (ht_tcp_server_write_to_socket fd buffer) (fun ok w' => net_sys w' = net_sys w /\ written_to fd buffer ok w w') w.
Proof.
  intros Hb. unfold ht_tcp_server_write_to_socket. destruct (decide _) as [Hz|Hz].
  - apply wp_ret. split; [done|]. split; [|by split]. exists []. split; [apply prefix_nil|]. destruct buffer; [|done]. by rewrite app_nil_r.
  - apply send_loop_spec; try done; [lia|lia|]. by rewrite app_nil_r.
Qed.

Lemma net_step_trans w1 w2 w3 : net_step w1 w2 -> net_step w2 w3 -> net_step w1 w3.
Proof. intros [] []. split; congruence. Qed.

Lemma net_step_sys w w' : net_sys w' = net_sys w -> net_step w w'.
Proof. intros Es. split; by rewrite Es. Qed.

(** The blocks of the process. *)
Definition live w : gmap ptr Z := blocks (sheap (net_sys w)).

(** [buffer] was written to the clients [l], of which [kept] are left: they
    got all of it, the others a proper prefix, the rest of the world
    nothing. *)
Record broadcast (buffer : list memval) (l kept : list Z) w w' : Prop := {
  bc_sub : kept ⊆+ l;
  bc_kept : forall fd, fd ∈ kept -> sent_to fd w' = sent_to fd w ++ buffer;
  bc_gone : forall fd, fd ∈ l -> fd ∉ kept -> exists p, p `prefix_of` buffer /\ p <> buffer /\ sent_to fd w' = sent_to fd w ++ p;
  bc_rest : forall fd, fd ∉ l -> sent_to fd w' = sent_to fd w;
  bc_reliable : forall fd, fd ∈ l -> reliable fd -> fd ∈ kept
}.

Lemma broadcast_ok fd buffer r kept w w1 w2 :
  fd ∉ r -> written_to fd buffer true w w1 -> broadcast buffer r kept w1 w2 -> broadcast buffer (fd :: r) (fd :: kept) w w2.
Proof.
  intros Hfd [(p&_&Hp&Hs) [Ho _]] [Hsub Hk Hg Hr Hl]. assert (p = buffer) as -> by (by apply Hp). split.
  - by apply submseteq_skip.
  - intros x [->|Hx]%elem_of_cons; [by rewrite (Hr _ Hfd)|].
    rewrite (Hk x Hx), (Ho x); [done|]. intros ->. by apply Hfd, (elem_of_submseteq _ _ _ Hx Hsub).
  - intros x [->|Hx]%elem_of_cons Hn; [by destruct Hn; left|]. apply not_elem_of_cons in Hn as [Hne Hn].
    destruct (Hg x Hx Hn) as (q&?&?&E1). exists q. by rewrite E1, (Ho x).
  - intros x Hx. apply not_elem_of_cons in Hx as [Hne Hx]. by rewrite (Hr x Hx), (Ho x).
  - intros x [->|Hx]%elem_of_cons Hrel; [by left|]. right. by apply Hl.
Qed.

Lemma broadcast_fail fd buffer r r' kept w w1 w2 :
  fd ∉ r -> r' ≡ₚ r -> written_to fd buffer false w w1 -> broadcast buffer r' kept w1 w2 -> broadcast buffer (fd :: r) kept w w2.
Proof.
  intros Hfd Hp [(p&Hpre&Hpb&Hs) [Ho Hre]] [Hsub Hk Hg Hr Hl]. rewrite Hp in Hsub. split.
  - by apply submseteq_cons.
  - intros x Hx. rewrite (Hk x Hx), (Ho x); [done|]. intros ->. by apply Hfd, (elem_of_submseteq _ _ _ Hx Hsub).
  - intros x [->|Hx]%elem_of_cons Hn.
    + exists p. rewrite (Hr fd) by (by rewrite Hp). split_and!; try done. intros E'. by apply Hpb in E'.
    + destruct (Hg x) as (q&?&?&E'); [by rewrite Hp|done|]. exists q. rewrite E', (Ho x); [done|]. by intros ->.
  - intros x Hx. apply not_elem_of_cons in Hx as [Hne Hx]. rewrite (Hr x), (Ho x) by (done || by rewrite Hp). done.
  - intros x [->|Hx]%elem_of_cons Hrel; [by apply Hre in Hrel|]. apply Hl; [by rewrite Hp|done].
Qed.

Lemma write_loop_spec fuel buffer b dn r w :
  Z.of_nat (length buffer) < 2 ^ 63 -> bag_rep sizeof_int b (dn ++ r) (live w) -> bag_room b -> NoDup r -> (length r < fuel)%nat ->
  wp (write_loop fuel buffer b (Z.of_nat (length dn))) (fun b' w' => exists kept,
    broadcast buffer r kept w w' /\ bag_rep sizeof_int b' (dn ++ kept) (live w') /\ bag_room b' /\ net_step w w' /\
    replaced (data b) (data b') (live w) (live w')) w.
Proof.
  intros Hb. revert b dn r w. induction fuel as [|fuel IH]; intros b dn r w R Hroom Hnd Hf; [lia|]. cbn [write_loop].
  pose proof R as [Hd _ Hs _ Hcap _ Hmax _]. rewrite length_app in Hs. destruct r as [|fd r]; simpl in Hs.
  { rewrite decide_False by lia. apply wp_ret. exists []. split_and!; try done; [|apply replaced_same]. by split; intros ? ?%not_elem_of_nil || done. }
  apply NoDup_cons in Hnd as [Hfd Hnd]. simpl in Hf.
  rewrite decide_True by lia. unfold ht_bag_nth. rewrite (rep_read sizeof_int b (dn ++ fd :: r) (live w)) by (done || rewrite length_app; simpl; lia).
  rewrite list_lookup_middle, some_bind by done.
  eapply wp_call; [by apply write_to_socket_spec|]. intros ok w1 [Es Hw]. destruct ok.
  - rewrite u64_small by lia. replace (Z.of_nat (length dn) + 1) with (Z.of_nat (length (dn ++ [fd]))) by (rewrite length_app; simpl; lia).
    eapply wp_mono; [apply (IH b (dn ++ [fd]) r w1); try done; [|lia]|].
    { unfold live in *. by rewrite Es, <- app_assoc. }
    intros b2 w2 (kept&Hbc&R2&Hroom2&Hst&Hrep). exists (fd :: kept). rewrite <- app_assoc in R2. unfold live in Hrep. rewrite Es in Hrep. split_and!; try done.
    + by eapply broadcast_ok.
    + eapply net_step_trans; [|exact Hst]. by apply net_step_sys.
  - rewrite u64_pred_succ by lia. apply wp_bind, wp_zoom, wp_zoom. unfold live in *. simpl. rewrite Es.
    eapply wp_mono; [apply (bag_remove_spec sizeof_int b (dn ++ fd :: r)); try done; try lia; unfold bag_room in Hroom; lia|].
    intros b1 h1 (Hroom1&(R1&_&Hrep1&_)&_). cbn beta. rewrite Nat2Z.id in R1.
    destruct (swap_remove_split dn fd r) as (r'&Hp&Er). rewrite Er in R1.
    eapply wp_mono; [apply (IH b1 dn r'); [done..|by rewrite Hp|rewrite Hp; lia]|].
    intros b2 w2 (kept&Hbc&R2&Hroom2&Hst&Hrep). exists kept. split_and!; try done.
    + eapply broadcast_fail; [done|done| |exact Hbc]. exact Hw.
    + eapply net_step_trans; [|exact Hst]. by split.
    + by eapply replaced_trans.
Qed.

(** ** What a server owns *)

(** The blocks of a server, other than the one of its bag. *)
Definition srv_rest server : list ptr :=
  srv_self server :: client_mutex server :: (if decide (accept_client_thread server = NULL) then [] else [accept_client_thread server]).

Definition srv_ptrs server : list ptr :=
  match client_sock_fd server with Some b => data b :: srv_rest server | None => srv_rest server end.

(** A server with the clients [fds]. *)
Record server_rep w server (fds : list Z) : Prop := {
  sr_bag : exists b, client_sock_fd server = Some b /\ bag_rep sizeof_int b fds (live w) /\ bag_room b;
  sr_ptrs : Forall (fun r => r <> NULL /\ is_Some (live w !! r)) (srv_ptrs server);
  sr_own : NoDup (srv_ptrs server);
  sr_clients : NoDup fds;
  sr_mutex : mutexes (net_sys w) !! client_mutex server = Some false
}.

Definition same_server server server' : Prop :=
  srv_rest server' = srv_rest server /\ server_sock_fd server' = server_sock_fd server /\
  client_mutex server' = client_mutex server.

(** An operation changes the bag. *)
Definition server_post w server (fds : list Z) w' server' : Prop :=
  server_rep w' server' fds /\ same_server server server' /\ net_step w w' /\ frame (srv_ptrs server) (srv_ptrs server') (live w) (live w').

Lemma server_post_trans w server fds w1 server1 fds1 w2 server2 :
  server_post w server fds1 w1 server1 -> server_post w1 server1 fds w2 server2 -> server_post w server fds w2 server2.
Proof.
  intros (_&(E1&E2&E3)&Hs1&Hf1) (R&(F1&F2&F3)&Hs2&Hf2). split_and!; [done|split_and!; congruence|by eapply net_step_trans|by eapply frame_trans].
Qed.

Lemma replace_bag w w' server b b' fds fds' :
  server_rep w server fds -> client_sock_fd server = Some b -> bag_rep sizeof_int b' fds' (live w') -> bag_room b' -> NoDup fds' ->
  replaced (data b) (data b') (live w) (live w') -> net_step w w' -> server_post w server fds' w' (set_clients b' server).
Proof.
  intros [_ Hp Hn _ Hm] Eb R' Hroom' Hnd Hrep Hst. unfold srv_ptrs in *. rewrite Eb in *. simpl.
  apply Forall_cons in Hp as [[Hd Hl] Hp]. apply NoDup_cons in Hn as [Hd' Hn].
  assert (Forall (fun r => is_Some (live w !! r) /\ r ∉ [data b]) (srv_rest server)) as Hk.
  { apply Forall_forall. intros r Hr. rewrite Forall_forall in Hp. destruct (Hp r Hr). split; [done|].
    rewrite list_elem_of_singleton. by intros ->. }
  pose proof (frame_keep _ _ _ _ _ (replaced_frame _ _ _ _ Hrep) Hk) as Hf.
  rewrite (Permutation_app_comm _ [data b]), (Permutation_app_comm _ [data b']) in Hf.
  assert (forall r, r ∈ srv_rest server -> r <> data b' /\ live w' !! r = live w !! r) as Hr.
  { intros r Hr. rewrite Forall_forall in Hp. apply (replaced_other _ _ _ _ r Hrep); [by intros ->|by apply Hp]. }
  unfold server_post, srv_ptrs. rewrite Eb. split_and!; [|done|done|exact Hf]. split; simpl.
  - exists b'. by split_and!.
  - apply Forall_cons. split; [|apply Forall_forall; intros r Hr'; destruct (Hr r Hr') as [_ E']].
    + destruct R' as [? (?&?&_) _ _ _ _ _ _]. split; [done|by eexists].
    + rewrite E'. rewrite Forall_forall in Hp. by apply Hp.
  - apply NoDup_cons. split; [|done]. intros Hin. by destruct (Hr _ Hin).
  - done.
  - by rewrite (ns_mutexes _ _ Hst).
Qed.

(** Only the sockets differ. *)
Lemma server_rep_sys w w' server fds : net_sys w' = net_sys w -> server_rep w server fds -> server_rep w' server fds.
Proof. intros Es [R1 R2 R3 R4 R5]. split; unfold live in *; by rewrite ?Es. Qed.

Lemma server_post_sys w w' server fds w1 server1 : net_sys w' = net_sys w -> server_post w server fds w1 server1 -> server_post w' server fds w1 server1.
Proof. intros Es (R&S1&[] &F). split_and!; [done|done|split; by rewrite Es|]. unfold live in *. by rewrite Es. Qed.

(** Between lock and unlock. *)
Definition locked server w : net_state E := update (set_mutexes <[client_mutex server := true]> (net_sys w)) w.

Lemma net_step_relock server w w1 :
  mutexes (net_sys w) !! client_mutex server = Some false -> net_step (locked server w) w1 ->
  mutexes (net_sys w1) !! client_mutex server = Some true /\
  net_step w (update (set_mutexes <[client_mutex server := false]> (net_sys w1)) w1).
Proof.
  intros Hm [E1 E2 E3 E4 E5 E6]. simpl in *. rewrite E1. split; [apply lookup_insert_eq|]. split; simpl; try done.
  by rewrite E1, insert_insert_eq, insert_id.
Qed.

(** A client that is not known yet. *)
Lemma add_client_spec w server fds fd :
  server_rep w server fds -> fd ∉ fds ->
  wp (add_client server fd) (fun server' w' => delivered w' = delivered w /\
    exists fds', (fds' = fds \/ fds' = fds ++ [fd]) /\ (generous -> Z.of_nat (length fds) < 2 ^ 58 -> fds' = fds ++ [fd]) /\
    server_post w server fds' w' server') w.
Proof.
  intros R Hfd. pose proof R as [(b&Eb&Rb&Hroom) _ _ Hnd Hm]. unfold add_client. apply wp_bind, wp_zoom, lock_spec; [done|].
  rewrite Eb, some_bind. apply wp_bind, wp_zoom, wp_zoom.
  eapply wp_mono; [eapply (wp_and _ _ (fun r _ => generous -> Z.of_nat (length fds) < 2 ^ 58 -> r.1 = HT_ERR_OK));
    [by apply (bag_add_spec sizeof_int b fds fd)|]|].
  { unfold wlp. destruct (ht_bag_add _ _ _ _) as [[r h]| |] eqn:Ea; [|done..]. intros Hg Hlen.
    pose proof (bag_add_generous sizeof_int b fds fd _ Hg Rb Hlen) as Hw. unfold wlp in Hw. unfold live in Hw. simpl in Ea. by rewrite Ea in Hw. }
  intros [err b1] h1 [[Hroom1 Hpost] Hgen]. cbn beta iota. simpl in Hgen.
  set (w1 := update (update h1 (net_sys (locked server w))) (locked server w)).
  destruct (net_step_relock server w w1) as [Hu Hst]; [done|by split|].
  apply wp_bind, wp_zoom, unlock_spec; [exact Hu|]. apply wp_ret. split; [done|].
  destruct err; try (destruct Hpost as (_&_&->&E1&_); exists fds; split; [by left|]; split; [intros Hg Hl; by specialize (Hgen Hg Hl)|]; apply (replace_bag w _ server b b fds fds); try done;
    unfold live in *; simpl in *; rewrite E1; [done|apply replaced_same]).
  destruct Hpost as [(R1&_&Hrep&_) _]. exists (fds ++ [fd]). split; [by right|]. split; [done|]. apply (replace_bag w _ server b b1 fds (fds ++ [fd])); try done.
  apply NoDup_app. split_and!; [done| |apply NoDup_singleton]. intros x Hx ->%list_elem_of_singleton. done.
Qed.

Lemma server_write_spec w server fds buffer :
  server_rep w server fds -> Z.of_nat (length buffer) < 2 ^ 63 ->
  wp (ht_tcp_server_write server buffer) (fun server' w' => exists kept,
    broadcast buffer fds kept w w' /\ server_post w server kept w' server') w.
Proof.
  intros R Hb. pose proof R as [(b&Eb&Rb&Hroom) _ _ Hnd Hm]. unfold ht_tcp_server_write. apply wp_bind, wp_zoom, lock_spec; [done|].
  rewrite Eb, some_bind. eapply wp_call.
  { apply (write_loop_spec _ buffer b [] fds (locked server w)); try done. destruct Rb as [_ _ Hsz _ _ _ _ _]. lia. }
  intros b1 w1 (kept&Hbc&R1&Hroom1&Hst1&Hrep). destruct (net_step_relock server w w1) as [Hu Hst]; [done..|].
  apply wp_bind, wp_zoom, unlock_spec; [exact Hu|]. apply wp_ret. exists kept. split; [by destruct Hbc|].
  apply (replace_bag w _ server b b1 fds kept); try done. destruct Hbc as [Hsub _ _ _ _].
  apply submseteq_Permutation in Hsub as [k Hk]. rewrite Hk in Hnd. by apply NoDup_app in Hnd as [? _].
Qed.

(** ** A server at work *)

(** accept() gives the socket [fd], and the accepting thread adds it; or a
    buffer is written. *)
Inductive srv_op := Connects (fd : Z) | Writes (buffer : list memval).

Definition srv_step server (op : srv_op) : ST (net_state E) HT_TCPServer :=
  match op with Connects fd => modify (set_descriptors <[fd := false]>);; add_client server fd | Writes buffer => ht_tcp_server_write server buffer end.

Fixpoint srv_run server (ops : list srv_op) : ST (net_state E) HT_TCPServer :=
  match ops with
  | [] => mret server
  | op :: ops => server ← srv_step server op; srv_run server ops
  end.

Definition connects (ops : list srv_op) : list Z := ops ≫= fun op => match op with Connects fd => [fd] | _ => [] end.
Definition writes (ops : list srv_op) : list memval := ops ≫= fun op => match op with Writes buffer => buffer | _ => [] end.

(** What is written after the client [fd] has connected. *)
Fixpoint due (fd : Z) (ops : list srv_op) : list memval :=
  match ops with
  | [] => []
  | Connects fd' :: ops => if decide (fd = fd') then writes ops else due fd ops
  | Writes _ :: ops => due fd ops
  end.

Definition due_to (fds : list Z) (fd : Z) (ops : list srv_op) : list memval :=
  if decide (fd ∈ fds) then writes ops else due fd ops.

(** The clients get what is due to them, up to where they are dropped. *)
Record served (fds : list Z) (ops : list srv_op) (fds' : list Z) w w' : Prop := {
  sv_sub : forall fd, fd ∈ fds' -> fd ∈ fds ++ connects ops;
  sv_due : forall fd, fd ∈ fds ++ connects ops -> exists p, p `prefix_of` due_to fds fd ops /\
    (fd ∈ fds' -> p = due_to fds fd ops) /\ sent_to fd w' = sent_to fd w ++ p;
  sv_rest : forall fd, fd ∉ fds ++ connects ops -> sent_to fd w' = sent_to fd w;
  sv_reliable : generous -> Z.of_nat (length (fds ++ connects ops)) < 2 ^ 58 ->
    forall fd, fd ∈ fds ++ connects ops -> reliable fd -> fd ∈ fds'
}.

Lemma served_nil fds w : served fds [] fds w w.
Proof.
  split; try done.
  - intros fd Hfd. by rewrite app_nil_r.
  - intros fd _. exists []. split; [apply prefix_nil|]. rewrite app_nil_r. split; [|done]. intros _. unfold due_to. by case_decide.
  - intros _ _ fd Hfd _. by rewrite app_nil_r in Hfd.
Qed.

Lemma served_write fds buffer kept ops fds' w w1 w2 :
  NoDup (fds ++ connects ops) -> broadcast buffer fds kept w w1 -> served kept ops fds' w1 w2 ->
  served fds (Writes buffer :: ops) fds' w w2.
Proof.
  intros Hnd [Hsub Hk Hg Hr Hl] [S1 S2 S3 S4]. apply NoDup_app in Hnd as (_&Hdis&_).
  assert (forall fd, fd ∈ kept -> fd ∈ fds) as Hin by (intros fd Hfd; by eapply elem_of_submseteq). split.
  - intros fd [Hfd|Hfd]%S1%elem_of_app; apply elem_of_app; [left; by apply Hin|by right].
  - intros fd Hfd. unfold due_to. cbn [due]. change (writes (Writes buffer :: ops)) with (buffer ++ writes ops).
    destruct (decide (fd ∈ fds)) as [Hf|Hf].
    + destruct (decide (fd ∈ kept)) as [Hke|Hke].
      * destruct (S2 fd) as (p&Hp1&Hp2&E2); [apply elem_of_app; by left|]. unfold due_to in *. rewrite decide_True in Hp1, Hp2 by done.
        exists (buffer ++ p). split; [by apply prefix_app|]. split; [intros Hz; by rewrite Hp2|]. by rewrite E2, (Hk fd Hke), app_assoc.
      * assert (fd ∉ kept ++ connects ops) as Hno by (intros [?|Hc]%elem_of_app; [done|by apply (Hdis fd)]).
        destruct (Hg fd Hf Hke) as (p&Hp&_&E1). exists p. split; [by apply prefix_app_r|]. split; [intros Hz; by apply S1 in Hz|].
        by rewrite (S3 fd Hno).
    + change (connects (Writes buffer :: ops)) with (connects ops) in Hfd. apply elem_of_app in Hfd as [|Hfd]; [done|].
      destruct (S2 fd) as (p&Hp1&Hp2&E2); [apply elem_of_app; by right|]. unfold due_to in *.
      rewrite decide_False in Hp1, Hp2 by (by intros ?%Hin). exists p. split_and!; [done..|]. by rewrite E2, (Hr fd).
  - intros fd Hfd. change (connects (Writes buffer :: ops)) with (connects ops) in Hfd. rewrite (S3 fd), (Hr fd); [done| |].
    + intros Hz. apply Hfd, elem_of_app. by left.
    + intros [Hz|Hz]%elem_of_app; apply Hfd, elem_of_app; [left; by apply Hin|by right].
  - intros Hg' Hlen fd Hfd Hrel. apply submseteq_length in Hsub. change (connects (Writes buffer :: ops)) with (connects ops) in Hfd, Hlen.
    rewrite length_app in Hlen. apply S4; [done|rewrite length_app; lia| |done].
    apply elem_of_app in Hfd as [Hfd|Hfd]; apply elem_of_app; [left; by apply Hl|by right].
Qed.

Lemma served_connect fds fd0 fds1 ops fds' w w1 w2 :
  NoDup (fds ++ fd0 :: connects ops) -> (fds1 = fds \/ fds1 = fds ++ [fd0]) ->
  (generous -> Z.of_nat (length fds) < 2 ^ 58 -> fds1 = fds ++ [fd0]) -> delivered w1 = delivered w -> served fds1 ops fds' w1 w2 -> served fds (Connects fd0 :: ops) fds' w w2.
Proof.
  intros Hnd Hf1 Hg1 Ed [S1 S2 S3 S4]. apply NoDup_app in Hnd as (_&Hdis&[Hn0 _]%NoDup_cons).
  assert (forall fd, sent_to fd w1 = sent_to fd w) as Es by (intros fd; unfold sent_to; by rewrite Ed).
  assert (fd0 ∉ fds) as Hf0 by (intros Hz; apply (Hdis fd0 Hz); by left).
  change (connects (Connects fd0 :: ops)) with (fd0 :: connects ops). split.
  - intros fd [Hfd|Hfd]%S1%elem_of_app; apply elem_of_app; [|right; by right].
    destruct Hf1 as [->| ->]; [by left|]. apply elem_of_app in Hfd as [?| ->%list_elem_of_singleton]; [by left|right; by left].
  - intros fd Hfd. unfold due_to. cbn [due]. change (writes (Connects fd0 :: ops)) with (writes ops).
    destruct (decide (fd = fd0)) as [->|Hne].
    + rewrite decide_False by done. destruct Hf1 as [->| ->].
      * exists []. split; [apply prefix_nil|]. assert (fd0 ∉ fds ++ connects ops) as Hno by (by intros [?|?]%elem_of_app).
        split; [by intros ?%S1|]. by rewrite (S3 fd0 Hno), Es, app_nil_r.
      * destruct (S2 fd0) as (p&Hp1&Hp2&E2); [apply elem_of_app; left; apply elem_of_app; right; by left|]. unfold due_to in *.
        rewrite decide_True in Hp1, Hp2 by (apply elem_of_app; right; by left). exists p. by rewrite <- Es.
    + destruct (S2 fd) as (p&Hp1&Hp2&E2).
      { apply elem_of_app in Hfd as [Hfd|[?|Hfd]%elem_of_cons]; [|done|]; apply elem_of_app; [left|by right].
        destruct Hf1 as [->| ->]; [done|]. apply elem_of_app. by left. }
      exists p. rewrite <- Es. unfold due_to in *. destruct Hf1 as [->| ->]; [done|].
      destruct (decide (fd ∈ fds)) as [Hf|Hf]; [rewrite decide_True in Hp1, Hp2 by (apply elem_of_app; by left); done|].
      rewrite decide_False in Hp1, Hp2; [done| |]; by intros [?|?%list_elem_of_singleton]%elem_of_app.
  - intros fd Hfd. rewrite (S3 fd), Es; [done|]. intros Hz. apply Hfd. apply elem_of_app in Hz as [Hz|Hz]; apply elem_of_app; [|right; by right].
    destruct Hf1 as [->| ->]; [by left|]. apply elem_of_app in Hz as [?| ->%list_elem_of_singleton]; [by left|right; by left].
  - intros Hg Hlen fd Hfd Hrel. change (connects (Connects fd0 :: ops)) with (fd0 :: connects ops) in Hlen. rewrite length_app in Hlen. simpl in Hlen.
    rewrite Hg1 in S4 by (done || lia). apply S4; [done|rewrite !length_app; simpl; lia|by rewrite <- app_assoc|done].
Qed.

Definition op_small (op : srv_op) : Prop :=
  match op with Connects _ => True | Writes buffer => Z.of_nat (length buffer) < 2 ^ 63 end.

Lemma srv_run_spec ops w server fds :
  server_rep w server fds -> NoDup (fds ++ connects ops) -> Forall op_small ops ->
  wp (srv_run server ops) (fun server' w' => exists fds', served fds ops fds' w w' /\ server_post w server fds' w' server') w.
Proof.
  revert w server fds. induction ops as [|op ops IH]; intros w server fds R Hnd Hs; simpl.
  - apply wp_ret. exists fds. split; [apply served_nil|]. split_and!; [done..| |apply frame_refl]. by apply net_step_sys.
  - apply Forall_cons in Hs as [Ho Hs]. destruct op as [fd|buffer].
    + change (connects (Connects fd :: ops)) with (fd :: connects ops) in Hnd. pose proof Hnd as (Hn1&Hdis&[Hn2 Hn3]%NoDup_cons)%NoDup_app.
      assert (fd ∉ fds) as Hf by (intros Hz; apply (Hdis fd Hz); by left).
      cbn [srv_step]. apply wp_bind, wp_bind, wp_modify. set (w0 := set_descriptors _ w).
      eapply wp_mono; [apply (add_client_spec w0); [by apply (server_rep_sys w)|done]|]. intros server1 w1 (Ed&fds1&Hf1&Hg1&P1).
      apply (server_post_sys w0 w) in P1; [|done].
      eapply wp_mono; [apply (IH w1 server1 fds1); [by destruct P1| |done]|].
      { destruct Hf1 as [->| ->]; [|by rewrite <- app_assoc]. apply NoDup_app. split_and!; [done| |done]. intros x Hx Hc. apply (Hdis x Hx). by right. }
      intros server2 w2 (fds2&S2&P2). exists fds2. split; [by eapply served_connect|by eapply server_post_trans].
    + eapply wp_call; [by apply server_write_spec|]. intros server1 w1 (kept&Hbc&P1). pose proof Hnd as (Hn1&Hdis&Hn3)%NoDup_app.
      eapply wp_mono; [apply (IH w1 server1 kept); [by destruct P1| |done]|].
      { apply NoDup_app. split_and!; [by destruct P1 as [[] _]| |done]. intros x Hx. apply Hdis. eapply elem_of_submseteq; [done|apply (bc_sub _ _ _ _ _ Hbc)]. }
      intros server2 w2 (fds2&S2&P2). exists fds2. split; [by eapply served_write|by eapply server_post_trans].
Qed.

(** ** Its lifetime *)

(** The state but for the heap, the sockets and the mutexes. *)
Record net_env w w' : Prop := {
  ne_klasses : klasses (net_sys w') = klasses (net_sys w);
  ne_containers : containers (net_sys w') = containers (net_sys w);
  ne_registry : registry (net_sys w') = registry (net_sys w);
  ne_ids : current_identifier (net_sys w') = current_identifier (net_sys w);
  ne_env : senv (net_sys w') = senv (net_sys w)
}.

Lemma net_step_env w w' : net_step w w' -> net_env w w'.
Proof. by intros []. Qed.

Lemma net_env_trans w1 w2 w3 : net_env w1 w2 -> net_env w2 w3 -> net_env w1 w3.
Proof. intros [] []. split; congruence. Qed.

(** The allocations that are not tested. *)
Definition server_memory : Prop :=
  granted sizeof_HT_TCPServer /\ granted (8 * sizeof_int) /\ granted sizeof_HT_Mutex /\ granted sizeof_HT_Thread.

Definition created_server w server w' : Prop :=
  server_rep w' server [] /\ server_sock_fd server = -1 /\ accept_client_thread server = NULL /\
  frame [] (srv_ptrs server) (live w) (live w') /\ delivered w' = delivered w /\ net_env w w' /\
  mutexes (net_sys w') = <[client_mutex server := false]> (mutexes (net_sys w)) /\ live w !! client_mutex server = None.

Lemma server_create_spec w :
  server_memory -> wp ht_tcp_server_create (created_server w) w.
Proof.
  intros (G1&G2&G3&_). unfold ht_tcp_server_create. apply wp_bind, wp_zoom, wp_zoom, ht_alloc_granted; [done|].
  intros p h1 Hp _ Hf1 (E1&_&_). rewrite bool_decide_true by done. unfold require. rewrite ret_bind.
  apply wp_bind, wp_zoom, wp_zoom. unfold ht_bag_init. change (u64 (8 * sizeof_int)) with (8 * sizeof_int).
  apply wp_bind, ht_alloc_granted; [done|]. intros d h2 Hd _ Hf2 (E2&_&_). rewrite decide_False by done. apply wp_ret.
  apply wp_bind, wp_zoom. unfold ht_mutex_create. apply wp_bind, wp_zoom, ht_alloc_granted; [done|].
  intros m h3 Hm _ Hf3 (E3&_&_). rewrite decide_False by done. apply wp_bind, wp_modify, wp_ret, wp_ret.
  cbn in Hf1, E1, Hf2, E2, Hf3, E3. rewrite E1 in Hf2, E2. rewrite E2 in Hf3, E3. fold (live w) in *.
  apply lookup_insert_None in Hf2 as [Hf2 Hpd]. apply lookup_insert_None in Hf3 as [[Hf3 Hpm]%lookup_insert_None Hdm].
  assert (El : blocks h3 = <[m := sizeof_HT_Mutex]> (<[d := 8 * sizeof_int]> (<[p := sizeof_HT_TCPServer]> (live w)))) by done.
  split_and!; try done.
  - split; simpl; unfold live, srv_ptrs, srv_rest; simpl; rewrite ?El, ?decide_True by done.
    + eexists. split; [done|]. split; [|by unfold bag_room; simpl]. split; simpl; try done; try lia.
      * exists (8 * sizeof_int). by rewrite lookup_insert_ne, lookup_insert_eq.
      * by exists 0.
    + repeat (apply Forall_cons; split; [split; [done|]|]); [| | |apply Forall_nil; exact I]; eexists.
      * by rewrite lookup_insert_ne, lookup_insert_eq.
      * by rewrite lookup_insert_ne, lookup_insert_ne, lookup_insert_eq.
      * by rewrite lookup_insert_eq.
    + repeat (apply NoDup_cons; split; [rewrite ?not_elem_of_cons; repeat split; try done; apply not_elem_of_nil|]); apply NoDup_nil_2.
    + apply NoDup_nil_2.
    + apply lookup_insert_eq.
  - unfold srv_ptrs, srv_rest, live. simpl. rewrite El.
    rewrite (Permutation_swap m p []), (Permutation_swap m d [p]).
    eapply (frame_trans [] [p]); [by apply frame_insert|]. eapply (frame_trans [p] [d; p]); [apply frame_insert; by rewrite lookup_insert_ne|].
    apply frame_insert. by rewrite !lookup_insert_ne.
Qed.

(** A thread is joined when the server is stopped. *)
Definition joinable server : Prop := accept_client_thread server <> NULL -> ht_tcp_server_is_running server = true.

(** A step of the server's life that sends nothing. *)
Definition server_life w server w' server' : Prop :=
  (exists fds, server_rep w' server' fds) /\ joinable server' /\ client_mutex server' = client_mutex server /\ net_step w w' /\
  frame (srv_ptrs server) (srv_ptrs server') (live w) (live w') /\ delivered w' = delivered w.

Lemma server_life_trans w server w1 server1 w2 server2 :
  server_life w server w1 server1 -> server_life w1 server1 w2 server2 -> server_life w server w2 server2.
Proof.
  intros (_&_&E1&S1&F1&D1) (R&J&E2&S2&F2&D2). split_and!; try done; [congruence|by eapply net_step_trans|by eapply frame_trans|congruence].
Qed.

Lemma server_life_refl w server fds : server_rep w server fds -> joinable server -> server_life w server w server.
Proof. intros R J. split_and!; try done. by exists fds. Qed.

Lemma server_life_fd w server fds fd n ds : server_rep w server fds -> (accept_client_thread server <> NULL -> fd <> -1) ->
  server_life w server (Net (net_sys w) (delivered w) n ds) (set_server_fd fd server).
Proof.
  intros [R1 R2 R3 R4 R5] Hfd. split_and!; try done; [by exists fds|]. intros Hn. by apply bool_decide_eq_true, Hfd.
Qed.

Lemma server_stop_spec w server fds :
  server_rep w server fds -> joinable server ->
  wp (ht_tcp_server_stop server) (fun server' w' => server_life w server w' server' /\ accept_client_thread server' = NULL /\
    server_sock_fd server' = -1) w.
Proof.
  intros R J. unfold ht_tcp_server_stop. destruct (ht_tcp_server_is_running server) eqn:Er; cbn [negb].
  2: { apply wp_ret. split_and!.
    - by eapply server_life_refl.
    - destruct (decide (accept_client_thread server = NULL)) as [|Hn]; [done|]. apply J in Hn. congruence.
    - unfold ht_tcp_server_is_running in Er. apply bool_decide_eq_false in Er. by destruct (decide (server_sock_fd server = -1)). }
  pose proof R as [(b&Eb&Rb&Hroom) _ _ _ Hm]. apply wp_bind, wp_zoom, lock_spec; [done|]. rewrite Eb, some_bind.
  apply wp_bind, wp_zoom, wp_zoom. eapply wp_mono; [by apply (bag_clear_spec sizeof_int b fds)|].
  intros b1 h1 [(R1&_&Hrep&_) Hroom1]. cbn beta. set (w1 := update (update h1 (net_sys (locked server w))) (locked server w)).
  destruct (net_step_relock server w w1) as [Hu Hst]; [done|by split|]. apply wp_bind, wp_zoom, unlock_spec; [exact Hu|]. cbv zeta.
  set (w2 := update (set_mutexes _ _) _).
  assert (server_post w server [] w2 (set_clients b1 server)) as (P1&_&P3&P4).
  { apply (replace_bag w w2 server b b1 fds []); try done; [by apply Hroom1|apply NoDup_nil_2]. }
  apply wp_bind, wp_modify. set (w3 := set_descriptors _ w2).
  set (server1 := set_server_fd (-1) (set_clients b1 server)). change (srv_ptrs (set_clients b1 server)) with (srv_ptrs server1) in P4.
  change (accept_client_thread server1) with (accept_client_thread server).
  assert (server_rep w3 server1 []) as P1' by (by destruct P1; split). clear P1. rename P1' into P1.
  assert (net_step w w3) as P3' by (by destruct P3; split). clear P3. rename P3' into P3. change (live w2) with (live w3) in P4. destruct (decide (accept_client_thread server <> NULL)) as [Hn|Hn].
  - apply wp_bind, wp_zoom, wp_zoom. destruct P1 as [(b2&Eb2&Rb2&Hroom2) Hp Hown _ Hm2]. simpl in Eb2. injection Eb2 as <-.
    unfold srv_ptrs, srv_rest in *. cbn in Hp, Hown, P4. rewrite decide_False in Hp, Hown, P4 by done.
    set (th := accept_client_thread server) in *.
    change (data b1 :: srv_self server :: client_mutex server :: [th]) with ([data b1; srv_self server; client_mutex server] ++ [th]) in Hp, Hown, P4.
    apply Forall_app in Hp as [Hp [[_ [nt Hth]] _]%Forall_cons]. apply NoDup_app in Hown as (Hown&Hdis&_).
    assert (forall r, r ∈ [data b1; srv_self server; client_mutex server] -> r <> th) as Hne.
    { intros r Hr ->. apply (Hdis th Hr). by left. }
    apply (ht_free_spec th nt); [done|exact Hth|]. intros h3 (E3&_&_). apply wp_ret.
    assert (forall r, r <> th -> blocks h3 !! r = live w3 !! r) as Ek by (intros r Hr; rewrite E3; by rewrite lookup_delete_ne).
    split; [|done]. split_and!; try done.
    + exists []. split; simpl; unfold srv_ptrs, srv_rest; simpl; try done.
      * exists b1. split; [done|]. split; [|done]. eapply rep_live_mono; [|exact Rb2]. apply Ek, Hne. by left.
      * apply Forall_forall. intros r Hr. rewrite Forall_forall in Hp. unfold live. simpl. rewrite Ek by (by apply Hne). by apply Hp.
      * apply NoDup_nil_2.
    + by intros Hz.
    + eapply net_step_trans; [exact P3|]. by split.
    + unfold srv_ptrs at 1. rewrite Eb. unfold srv_ptrs, srv_rest. simpl. rewrite decide_False by done. fold th.
      rewrite Eb in P4.
      eapply frame_trans; [exact P4|]. unfold live at 2. simpl. rewrite E3. eapply (frame_perm (th :: [data b1; srv_self server; client_mutex server])); [apply (Permutation_cons_append [_; _; _])|done|apply frame_delete].
  - apply wp_ret. assert (accept_client_thread server = NULL) by (by destruct (decide (accept_client_thread server = NULL))).
    split; [|done]. split_and!; try done; [by exists []|by intros Hz].
Qed.

(** A start that fails stops what it has started. *)
Lemma start_fails w0 server0 w server fds :
  server_rep w server fds -> joinable server -> server_life w0 server0 w server ->
  wp (server ← ht_tcp_server_stop server; mret (false, server)) (fun '(ok, server') w' =>
    server_life w0 server0 w' server' /\ ok = false) w.
Proof.
  intros R J L. eapply wp_call; [by eapply server_stop_spec|]. intros server1 w1 (L1&_&_). apply wp_ret.
  split; [by eapply server_life_trans|done].
Qed.

(** The system gives a socket that listens. *)
Definition listening : Prop := forall n fd port,
  0 <= os_socket n /\ os_setsockopt n fd = 0 /\ 0 <= os_bind n fd port /\ 0 <= os_listen n fd.

Lemma server_start_spec w server port cb ud :
  server_rep w server [] -> accept_client_thread server = NULL -> server_sock_fd server = -1 -> server_memory ->
  wp (ht_tcp_server_start server port cb ud) (fun '(ok, server') w' =>
    server_life w server w' server' /\ (ok = true -> server_rep w' server' [] /\ ht_tcp_server_is_running server' = true) /\ (listening -> ok = true)) w.
Proof.
  intros R Ht Hfd (_&_&_&G). unfold ht_tcp_server_start, ht_tcp_server_is_running. rewrite bool_decide_false by (rewrite Hfd; tauto).
  rewrite ret_bind. apply wp_bind. unfold open_socket. apply wp_bind. unfold wp at 1, syscall. set (fd := os_socket (net_calls w)). apply wp_bind, wp_modify, wp_ret.
  unfold set_descriptors. cbn [net_sys delivered net_calls descriptors]. cbv zeta.
  generalize (if decide (0 <= fd) then <[fd := false]> (descriptors w) else descriptors w). intros ds0.
  assert (forall n ds, server_rep (Net (net_sys w) (delivered w) n ds) (set_server_fd fd server) []) as Rn by (intros n ds; by destruct R).
  assert (forall n ds, server_life w server (Net (net_sys w) (delivered w) n ds) (set_server_fd fd server)) as Ln.
  { intros n ds. eapply server_life_fd; [done|]. by rewrite Ht. }
  assert (joinable (set_server_fd fd server)) as J by (by intros Hz).
  destruct (decide (fd < 0)); [apply wp_ret; split_and!; [done..|]; intros Hl; destruct (Hl (net_calls w) 0 0) as [? _]; lia|].
  apply wp_bind. unfold wp at 1. destruct (decide _).
  { eapply wp_mono; [by eapply start_fails|]. intros [ok server'] w' [L ->]. split_and!; [done..|]. intros Hl. match goal with Hx : context [os_setsockopt ?n ?f] |- _ => destruct (Hl n f 0) as (?&?&?&?) end. lia. }
  apply wp_bind. unfold wp at 1. destruct (decide _).
  { eapply wp_mono; [by eapply start_fails|]. intros [ok server'] w' [L ->]. split_and!; [done..|]. intros Hl. match goal with Hx : context [os_bind ?n ?f ?q] |- _ => destruct (Hl n f q) as (?&?&?&?) end. lia. }
  apply wp_bind. unfold wp at 1. destruct (decide _).
  { eapply wp_mono; [by eapply start_fails|]. intros [ok server'] w' [L ->]. split_and!; [done..|]. intros Hl. match goal with Hx : context [os_listen ?n ?f] |- _ => destruct (Hl n f 0) as (?&?&?&?) end. lia. }
  set (w1 := Net _ _ _ _). specialize (Rn (net_calls w1) (descriptors w1)). specialize (Ln (net_calls w1) (descriptors w1)). change (Net _ _ (net_calls w1) (descriptors w1)) with w1 in Rn, Ln.
  unfold ht_thread_create. apply wp_bind, wp_bind, wp_zoom, wp_zoom, ht_alloc_granted; [done|]. intros th h Hth _ Hfr (Eh&_&_).
  rewrite bool_decide_true by done. apply wp_ret.
  set (server1 := set_thread th _). set (w2 := update _ w1). change (blocks _ !! th = None) with (live w1 !! th = None) in Hfr.
  change (blocks h) with (live w2) in Eh. change (blocks (view (view w1))) with (live w1) in Eh.
  destruct Rn as [(b&Eb&Rb&Hroom) Hp Hown Hnd Hm].
  assert (srv_ptrs server1 ≡ₚ th :: srv_ptrs (set_server_fd fd server)) as Hperm.
  { unfold srv_ptrs. simpl in *. rewrite Eb. unfold srv_rest. simpl. rewrite Ht, (decide_True (P := NULL = NULL)), decide_False by done. solve_Permutation. }
  assert (forall r, r ∈ srv_ptrs (set_server_fd fd server) -> r <> th) as Hne.
  { intros r Hr ->. rewrite Forall_forall in Hp. destruct (Hp th Hr) as [_ [nn Hn]]. congruence. }
  assert (server_rep w2 server1 []) as R2.
  { split; try done.
    - exists b. split; [exact Eb|]. split; [|done]. eapply rep_live_mono; [|exact Rb]. rewrite Eh. apply lookup_insert_ne.
      apply not_eq_sym, Hne. unfold srv_ptrs. rewrite Eb. by left.
    - rewrite Hperm, Eh. apply Forall_cons. split; [rewrite lookup_insert_eq; by split; [|eexists]|].
      apply Forall_forall. intros r Hr. rewrite Forall_forall in Hp. rewrite lookup_insert_ne by (apply not_eq_sym; by apply Hne). by apply Hp.
    - rewrite Hperm. apply NoDup_cons. split; [|done]. intros Hz. by apply (Hne th). }
  assert (ht_tcp_server_is_running server1 = true) as Hrun by (apply bool_decide_eq_true; simpl; lia).
  split; [|done]. eapply server_life_trans; [exact Ln|]. split_and!; try done.
  - by exists [].
  - by intros _.
  - rewrite Hperm, Eh. by apply frame_insert.
Qed.

Lemma server_destroy_spec w server fds :
  server_rep w server fds -> joinable server ->
  wp (ht_tcp_server_destroy server) (fun _ w' => frame (srv_ptrs server) [] (live w) (live w') /\
    mutexes (net_sys w') = delete (client_mutex server) (mutexes (net_sys w)) /\ net_env w w' /\ delivered w' = delivered w) w.
Proof.
  intros R J. unfold ht_tcp_server_destroy. eapply wp_call; [by eapply server_stop_spec|].
  intros server1 w1 (([fds1 R1]&_&Em&Hst&Hf&Ed)&Ht&_). destruct R1 as [(b&Eb&Rb&_) Hp Hown _ Hm1]. rewrite Eb, some_bind.
  unfold srv_ptrs, srv_rest in Hp, Hown. unfold srv_ptrs in Hf at 2. rewrite Eb in Hf, Hp, Hown. unfold srv_rest in Hf. rewrite Ht, decide_True in Hf, Hp, Hown by done.
  apply Forall_cons in Hp as [_ [[Hs1 [ns Hs]] [[Hm0 [nm Hm]] _]%Forall_cons]%Forall_cons].
  apply NoDup_cons in Hown as [Hn1 [Hn2 _]%NoDup_cons]. rewrite !not_elem_of_cons in Hn1. rewrite !not_elem_of_cons in Hn2.
  destruct Hn1 as (Hd1&Hd2&_). destruct Hn2 as (Hsm&_).
  apply wp_bind, wp_zoom, wp_zoom. eapply wp_mono; [by apply (bag_deinit_spec sizeof_int b fds1)|]. intros _ h2 (_&_&_&E2&_&_). cbn beta.
  apply wp_bind, wp_zoom. apply (mutex_destroy_spec _ nm); [done|done|simpl; rewrite E2; by rewrite lookup_delete_ne|]. intros h3 E3.
  simpl in E3. rewrite E2 in E3. apply wp_zoom, wp_zoom.
  apply (ht_free_spec _ ns); [done|simpl; rewrite E3; by rewrite !lookup_delete_ne|]. intros h4 (E4&_&_). simpl in E4. rewrite E3 in E4.
  split_and!.
  - eapply frame_trans; [exact Hf|]. unfold live at 2. simpl. rewrite E4. eapply frame_trans; [apply frame_delete|].
    eapply frame_trans; [|apply frame_delete]. rewrite (Permutation_swap (client_mutex server1) (srv_self server1) []). apply frame_delete.
  - simpl. by rewrite (ns_mutexes _ _ Hst), Em.
  - eapply net_env_trans; [by apply net_step_env|]. by split.
  - exact Ed.
Qed.

(** ** The sockets *)

Definition keeps_open {A} (p : ST (net_state E) A) : Prop := forall w, wlp p (fun _ w' => descriptors w' = descriptors w) w.

Lemma keeps_open_bind {A B} (p : ST (net_state E) A) (f : A -> ST (net_state E) B) :
  keeps_open p -> (forall a, keeps_open (f a)) -> keeps_open (p ≫= f).
Proof.
  intros Hp Hf w. apply wlp_bind. eapply wlp_mono; [apply Hp|]. intros a w1 E1. eapply wlp_mono; [apply Hf|]. intros b w2 E2. congruence.
Qed.

Lemma keeps_open_ret {A} (a : A) : keeps_open (mret a).
Proof. by intros w. Qed.

Lemma keeps_open_sys {A} (p : ST (sys E) A) : keeps_open (zoom p).
Proof. intros w. unfold wlp, zoom. simpl. by destruct (p (net_sys w)) as [[??]| |]. Qed.

Lemma keeps_open_some {A} (o : option A) : keeps_open (some_or_undef o).
Proof. intros w. by destruct o. Qed.

Lemma keeps_open_require b : keeps_open (require b).
Proof. intros w. by destruct b. Qed.

Lemma keeps_open_call f : keeps_open (syscall f).
Proof. by intros w. Qed.

Lemma keeps_open_send_loop fuel fd buffer sent : keeps_open (send_loop fuel fd buffer sent).
Proof.
  revert sent. induction fuel as [|fuel IH]; intros sent; [by intros w|]. cbn [send_loop]. case_decide; [|apply keeps_open_ret].
  apply keeps_open_bind; [by intros w|]. intros n. case_decide; [apply keeps_open_ret|apply IH].
Qed.

Lemma keeps_open_write_to_socket fd buffer : keeps_open (ht_tcp_server_write_to_socket fd buffer).
Proof. unfold ht_tcp_server_write_to_socket. case_decide; [apply keeps_open_ret|apply keeps_open_send_loop]. Qed.

Lemma keeps_open_write_loop fuel buffer b i : keeps_open (write_loop fuel buffer b i).
Proof.
  revert b i. induction fuel as [|fuel IH]; intros b i; [by intros w|]. cbn [write_loop]. case_decide; [|apply keeps_open_ret].
  apply keeps_open_bind; [apply keeps_open_some|]. intros fd. apply keeps_open_bind; [apply keeps_open_write_to_socket|].
  intros []; [apply IH|]. apply keeps_open_bind; [apply keeps_open_sys|]. intros b'. apply IH.
Qed.

Lemma keeps_open_create : keeps_open ht_tcp_server_create.
Proof.
  unfold ht_tcp_server_create. apply keeps_open_bind; [apply keeps_open_sys|]. intros server. apply keeps_open_bind; [apply keeps_open_require|].
  intros _. apply keeps_open_bind; [apply keeps_open_sys|]. intros r. apply keeps_open_bind; [apply keeps_open_sys|]. intros m. apply keeps_open_ret.
Qed.

(** The calls that a client connects with or a buffer is written with, on the
    same server. *)
Lemma add_client_open server fd w :
  wlp (add_client server fd) (fun server' w' => descriptors w' = descriptors w /\ server_sock_fd server' = server_sock_fd server) w.
Proof.
  unfold add_client. apply wlp_bind. eapply wlp_mono; [apply keeps_open_sys|]. intros ? w1 E1. apply wlp_bind.
  eapply wlp_mono; [apply keeps_open_some|]. intros b w2 E2. apply wlp_bind. eapply wlp_mono; [apply keeps_open_sys|]. intros [err b'] w3 E3.
  apply wlp_bind. eapply wlp_mono; [apply keeps_open_sys|]. intros ? w4 E4. apply wlp_ret. split; [congruence|done].
Qed.

Lemma server_write_open server buffer w :
  wlp (ht_tcp_server_write server buffer) (fun server' w' => descriptors w' = descriptors w /\ server_sock_fd server' = server_sock_fd server) w.
Proof.
  unfold ht_tcp_server_write. apply wlp_bind. eapply wlp_mono; [apply keeps_open_sys|]. intros ? w1 E1. apply wlp_bind.
  eapply wlp_mono; [apply keeps_open_some|]. intros b w2 E2. apply wlp_bind. eapply wlp_mono; [apply keeps_open_write_loop|]. intros b' w3 E3.
  apply wlp_bind. eapply wlp_mono; [apply keeps_open_sys|]. intros ? w4 E4. apply wlp_ret. split; [congruence|done].
Qed.

Definition open_all (fds : list Z) (ds : gmap Z bool) : gmap Z bool := foldl (fun ds fd => <[fd := false]> ds) ds fds.

Lemma open_all_dom fds ds : dom (open_all fds ds) = dom ds ∪ list_to_set fds.
Proof.
  revert ds. induction fds as [|fd fds IH]; intros ds; simpl; [set_solver|]. unfold open_all in *. simpl. rewrite IH, dom_insert_L. set_solver.
Qed.

Lemma srv_run_open ops server w :
  wlp (srv_run server ops) (fun server' w' => descriptors w' = open_all (connects ops) (descriptors w) /\ server_sock_fd server' = server_sock_fd server) w.
Proof.
  revert server w. induction ops as [|op ops IH]; intros server w; [by apply wlp_ret|]. cbn [srv_run]. apply wlp_bind. destruct op as [fd|buffer]; cbn [srv_step].
  - apply wlp_bind. unfold wlp at 1, modify. eapply wlp_mono; [apply add_client_open|]. intros server1 w1 [E1 F1].
    eapply wlp_mono; [apply IH|]. intros server2 w2 [E2 F2]. split; [|congruence]. by rewrite E2, E1.
  - eapply wlp_mono; [apply server_write_open|]. intros server1 w1 [E1 F1]. eapply wlp_mono; [apply IH|]. intros server2 w2 [E2 F2].
    split; [by rewrite E2, E1|congruence].
Qed.

Definition after_stop server (ds : gmap Z bool) : gmap Z bool :=
  if ht_tcp_server_is_running server then alter (fun _ => true) (server_sock_fd server) ds else ds.

Lemma after_stop_dom server ds : dom (after_stop server ds) = dom ds.
Proof. unfold after_stop. destruct (ht_tcp_server_is_running server); [apply dom_alter_L|done]. Qed.

Lemma server_stop_open server w : wlp (ht_tcp_server_stop server) (fun _ w' => descriptors w' = after_stop server (descriptors w)) w.
Proof.
  unfold ht_tcp_server_stop, after_stop. destruct (ht_tcp_server_is_running server); cbn [negb]; [|by apply wlp_ret].
  apply wlp_bind. eapply wlp_mono; [apply keeps_open_sys|]. intros ? w1 E1. apply wlp_bind. eapply wlp_mono; [apply keeps_open_some|]. intros b w2 E2.
  apply wlp_bind. eapply wlp_mono; [apply keeps_open_sys|]. intros b' w3 E3. apply wlp_bind. eapply wlp_mono; [apply keeps_open_sys|]. intros ? w4 E4.
  cbv zeta. apply wlp_bind. unfold wlp at 1, shutdown, modify.
  assert (descriptors (set_descriptors (alter (fun _ => true) (server_sock_fd server)) w4) = alter (fun _ => true) (server_sock_fd server) (descriptors w)) as E5.
  { cbn. congruence. }
  case_decide; [|by apply wlp_ret]. apply wlp_bind. eapply wlp_mono; [apply keeps_open_sys|]. intros ? w6 E6. apply wlp_ret. congruence.
Qed.

Lemma server_destroy_open server w : wlp (ht_tcp_server_destroy server) (fun _ w' => descriptors w' = after_stop server (descriptors w)) w.
Proof.
  unfold ht_tcp_server_destroy. apply wlp_bind. eapply wlp_mono; [apply server_stop_open|]. intros server1 w1 E1.
  apply wlp_bind. eapply wlp_mono; [apply keeps_open_some|]. intros b w2 E2. apply wlp_bind. eapply wlp_mono; [apply keeps_open_sys|]. intros ? w3 E3.
  apply wlp_bind. eapply wlp_mono; [apply keeps_open_sys|]. intros ? w4 E4. eapply wlp_mono; [apply keeps_open_sys|]. intros ? w5 E5. cbn beta in *. congruence.
Qed.

(** A start opens a socket, which stays open also when the start fails. *)
Lemma server_start_open server port cb ud w :
  wlp (ht_tcp_server_start server port cb ud) (fun '(ok, server') w' => dom (descriptors w) ⊆ dom (descriptors w') /\
    (ok = true -> 0 <= server_sock_fd server' /\ server_sock_fd server' ∈ dom (descriptors w') /\ exists n, server_sock_fd server' = os_socket n)) w.
Proof.
  assert (Hfail : forall server1 w1, dom (descriptors w) ⊆ dom (descriptors w1) -> wlp (server ← ht_tcp_server_stop server1; mret (false, server)) (fun '(ok, server') w' =>
    dom (descriptors w) ⊆ dom (descriptors w') /\ (ok = true -> 0 <= server_sock_fd server' /\ server_sock_fd server' ∈ dom (descriptors w') /\ exists n, server_sock_fd server' = os_socket n)) w1).
  { intros server1 w1 Hd. apply wlp_bind. eapply wlp_mono; [apply server_stop_open|]. intros server2 w2 E2. apply wlp_ret. by rewrite E2, after_stop_dom. }
  unfold ht_tcp_server_start. apply wlp_bind. eapply (wlp_mono _ (fun _ w' => dom (descriptors w) ⊆ dom (descriptors w'))).
  { destruct (ht_tcp_server_is_running server); [|by apply wlp_ret]. eapply wlp_mono; [apply server_stop_open|]. intros ? w1 E1. by rewrite E1, after_stop_dom. }
  intros server1 w1 Hd1. apply wlp_bind. unfold open_socket. apply wlp_bind. unfold wlp at 1, syscall. set (fd := os_socket (net_calls w1)).
  apply wlp_bind. unfold wlp at 1, modify. set (w2 := set_descriptors _ _). apply wlp_ret. cbv zeta.
  assert (dom (descriptors w) ⊆ dom (descriptors w2)) as Hd2 by (subst w2; cbn; case_decide; [rewrite dom_insert_L|]; set_solver).
  destruct (decide (fd < 0)); [by apply wlp_ret|]. assert (fd ∈ dom (descriptors w2)) as Hfd by (subst w2; cbn; rewrite decide_True by lia; rewrite dom_insert_L; set_solver).
  clearbody w2. apply wlp_bind. unfold wlp at 1, syscall. case_decide; [by apply Hfail|]. apply wlp_bind. unfold wlp at 1. case_decide; [by apply Hfail|].
  apply wlp_bind. unfold wlp at 1. case_decide; [by apply Hfail|]. apply wlp_bind. unfold ht_thread_create.
  apply wlp_bind. eapply wlp_mono; [apply keeps_open_sys|]. intros th w3 E3. apply wlp_bind. eapply wlp_mono; [apply keeps_open_require|]. intros ? w4 E4.
  apply wlp_ret, wlp_ret. rewrite E4, E3. cbn. split; [done|]. intros _. split; [lia|]. split; [done|by eexists].
Qed.

(** From create to destroy, with what the accepting thread and the owner do
    in between. *)
Definition server_lifetime (port : Z) (cb ud : ptr) (ops : list srv_op) : ST (net_state E) bool :=
  server ← ht_tcp_server_create;
  '(ok, server) ← ht_tcp_server_start server port cb ud;
  server ← (if (ok : bool) then srv_run server ops else mret server);
  ht_tcp_server_destroy server;;
  mret ok.

(** Every socket that is opened stays open. *)
Definition left_open (ops : list srv_op) (ok : bool) w w' : Prop :=
  dom (descriptors w) ⊆ dom (descriptors w') /\
  (ok = true -> (forall fd, fd ∈ connects ops -> is_Some (descriptors w' !! fd)) /\ exists n, descriptors w' !! os_socket n = Some true).

Lemma server_lifetime_open port cb ud ops w : wlp (server_lifetime port cb ud ops) (fun ok w' => left_open ops ok w w') w.
Proof.
  unfold server_lifetime. apply wlp_bind. eapply wlp_mono; [apply keeps_open_create|]. intros server w1 E1.
  apply wlp_bind. eapply wlp_mono; [apply server_start_open|]. intros [ok server2] w2 [D2 H2]. rewrite E1 in D2. destruct ok.
  - destruct (H2 eq_refl) as (Hp&Hin&n&En). apply wlp_bind. eapply wlp_mono; [apply srv_run_open|]. intros server3 w3 [E3 F3].
    apply wlp_bind. eapply wlp_mono; [apply server_destroy_open|]. intros ? w4 E4. apply wlp_ret. pose proof (open_all_dom (connects ops) (descriptors w2)) as D3.
    rewrite <- E3 in D3. assert (dom (descriptors w4) = dom (descriptors w3)) as D4 by (by rewrite E4, after_stop_dom). split; [set_solver|]. intros _. split.
    + intros fd Hfd. apply elem_of_dom. rewrite D4, D3. apply elem_of_union. right. by apply elem_of_list_to_set.
    + exists n. rewrite <- En, <- F3, E4. unfold after_stop, ht_tcp_server_is_running. rewrite bool_decide_eq_true_2 by lia.
      rewrite lookup_alter_eq. apply fmap_Some. rewrite F3. assert (server_sock_fd server2 ∈ dom (descriptors w3)) as [b Hb]%elem_of_dom by set_solver. by exists b.
  - apply wlp_bind, wlp_ret, wlp_bind. eapply wlp_mono; [apply server_destroy_open|]. intros ? w4 E4. apply wlp_ret. split; [by rewrite E4, after_stop_dom|done].
Qed.

(** Who gets what, and what is released. *)
Lemma server_lifetime_spec port cb ud ops w :
  generous -> sys_wf (net_sys w) -> NoDup (connects ops) -> Z.of_nat (length (connects ops)) < 2 ^ 58 -> Forall op_small ops ->
  wp (server_lifetime port cb ud ops) (fun ok w' => live w' = live w /\ mutexes (net_sys w') = mutexes (net_sys w) /\ net_env w w' /\
    if (ok : bool) then
      (forall fd, fd ∈ connects ops -> exists p, p `prefix_of` due fd ops /\ (reliable fd -> p = due fd ops) /\ sent_to fd w' = sent_to fd w ++ p) /\
      (forall fd, fd ∉ connects ops -> sent_to fd w' = sent_to fd w)
    else delivered w' = delivered w) w.
Proof.
  intros Gen [Hwf _] Hnd Hlen Hs. assert (G : server_memory) by (split_and!; by apply Gen). unfold server_lifetime.
  eapply wp_call; [by apply server_create_spec|].
  intros server w1 (R1&Hfd&Ht&F1&D1&N1&M1&Hm1). eapply wp_call; [by apply server_start_spec|].
  intros [ok server2] w2 (L2&R2&_). pose proof L2 as ([fds2 R2']&J2&Em2&S2&F2&D2).
  assert (mutexes (net_sys w) !! client_mutex server = None) as Hfresh.
  { destruct (mutexes (net_sys w) !! client_mutex server) eqn:Ez; [|done]. destruct (Hwf (client_mutex server)) as [? ?]; [by rewrite Ez|]. unfold live in Hm1. congruence. }
  assert (forall w3 server3 fds3 (Q : bool -> net_state E -> Prop), server_rep w3 server3 fds3 -> joinable server3 -> client_mutex server3 = client_mutex server2 ->
    net_step w2 w3 -> frame (srv_ptrs server2) (srv_ptrs server3) (live w2) (live w3) ->
    (forall w4, live w4 = live w -> mutexes (net_sys w4) = mutexes (net_sys w) -> net_env w w4 -> delivered w4 = delivered w3 -> Q ok w4) ->
    wp (ht_tcp_server_destroy server3;; mret ok) Q w3) as Hend.
  { intros w3 server3 fds3 Q R3 J3 Em3 S3 F3 HQ. eapply wp_call; [by eapply server_destroy_spec|]. intros _ w4 (F4&M4&N4&D4). apply wp_ret, HQ; [| | |done].
    - apply frame_nil. eapply frame_trans; [exact F1|]. eapply frame_trans; [exact F2|]. by eapply frame_trans.
    - rewrite M4, (ns_mutexes _ _ S3), (ns_mutexes _ _ S2), M1, Em3, Em2, delete_insert_id; done.
    - eapply net_env_trans; [exact N1|]. eapply net_env_trans; [by apply net_step_env|]. eapply net_env_trans; [by apply net_step_env|done]. }
  destruct ok.
  - eapply wp_call; [apply (srv_run_spec ops w2 server2 []); [by apply R2|done|done]|].
    intros server3 w3 (fds3&[V1 V2 V3 V4]&(R3&(Er3&Ef3&Ec3)&S3&F3)). eapply Hend; [done| |done..|].
    { intros Hz. unfold ht_tcp_server_is_running. rewrite Ef3. apply J2. unfold srv_rest in Er3. intros Hz'. rewrite (decide_True (P := accept_client_thread server2 = NULL)) in Er3 by done.
      by rewrite decide_False in Er3. }
    intros w4 L4 M4 N4 D4. do 3 (split; [done|]). unfold sent_to in *. rewrite D1 in D2. rewrite D2 in V2, V3. split.
    + intros fd Hin. rewrite D4. destruct (V2 fd Hin) as (p&Hp1&Hp2&Hp3). exists p. split_and!; [done| |done]. intros Hrel. by apply Hp2, V4.
    + intros fd Hin. rewrite D4. by apply V3.
  - rewrite ret_bind. eapply Hend; [done|done|done| |apply frame_refl|]; [by apply net_step_sys|].
    intros w4 L4 M4 N4 D4. split_and!; [done..|]. by rewrite D4, D2, D1.
Qed.

(** C14: every client of a server whose connection does not break gets
    everything that is written after it has connected, in order and without
    gaps, and every other client a prefix of it.  This is so for every
    sequence of clients that connect and buffers that are written, however
    send() splits the buffers and whichever clients are dropped in between,
    where memory is never refused; nothing goes to any other socket.  The loops
    end, every access is inside the bag of clients, and destroying the server
    releases its memory and its mutex, also when it could not be started.  The
    sockets are not released: that of every client is still open at the end, and
    the one that listened is shut down but open. *)
Theorem server_serves_clients port cb ud ops w :
  generous -> sys_wf (net_sys w) -> NoDup (connects ops) -> Z.of_nat (length (connects ops)) < 2 ^ 58 -> Forall op_small ops ->
  wp (server_lifetime port cb ud ops) (fun ok w' => live w' = live w /\ mutexes (net_sys w') = mutexes (net_sys w) /\ net_env w w' /\
    left_open ops ok w w' /\
    if (ok : bool) then
      (forall fd, fd ∈ connects ops -> exists p, p `prefix_of` due fd ops /\ (reliable fd -> p = due fd ops) /\ sent_to fd w' = sent_to fd w ++ p) /\
      (forall fd, fd ∉ connects ops -> sent_to fd w' = sent_to fd w)
    else delivered w' = delivered w) w.
Proof.
  intros Gen Wf Hnd Hlen Hs. eapply wp_mono; [apply wp_and; [by apply server_lifetime_spec|apply server_lifetime_open]|].
  intros ok w' [(L&M&N&D) O]. by split_and!.
Qed.

End server.

(** An iteration of [_ht_tcp_server_run], with the callback of the server's
    owner, which works on a bigger state: first the client is greeted, then it is
    added ([add_client]).  Other threads may write to the clients in between. *)
Definition greet_client `{Malloc} `{Sockets} {E S} `{Host E} `{Lens S (net_state E)} (server : HT_TCPServer)
    (callback : Z -> ST S ()) : ST S (option Z) :=
  if ht_tcp_server_is_running server then
    client_fd ← zoom (open_socket (fun n => os_accept n (server_sock_fd server)) : ST (net_state E) Z);
    if decide (client_fd >= 0) then callback client_fd;; mret (Some client_fd) else mret None
  else mret None.

Definition accept_client `{Malloc} `{Sockets} {E S} `{Host E} `{Lens S (net_state E)} (server : HT_TCPServer)
    (callback : Z -> ST S ()) : ST S HT_TCPServer :=
  client ← greet_client server callback;
  match client with
  | Some client_fd => zoom (add_client server client_fd : ST (net_state E) _)
  | None => mret server
  end.

(** ** Two clients, one of which breaks *)

Section samples.

#[local] Existing Instance always_granted.
#[local] Existing Instance log_host.

(** The socket 5 takes two bytes at a time, the socket 7 nothing. *)
#[refine, local] Instance sample_sockets : Sockets := {
  os_socket _ := 3;
  os_setsockopt _ _ := 0;
  os_bind _ _ _ := 0;
  os_listen _ _ := 0;
  os_accept n _ := Z.of_nat n;
  os_send _ fd len := if decide (fd = 5) then Z.min 2 (Z.of_nat len) else -1
}.
Proof. intros n fd len. case_decide; lia. Defined.

Definition sample_net : net_state (list call) := Net empty_sys ∅ 0 ∅.

Definition sample_srv_ops : list srv_op :=
  [Writes [Byte 1]; Connects 7; Connects 5; Writes [Byte 2; Byte 3; Byte 4]; Writes [Byte 5]].

(** The client that does not break gets the four bytes written since it has
    connected. *)
Lemma server_serves_clients_witness :
  sent_to 5 (match server_lifetime 8765 1 2 sample_srv_ops sample_net with Done (_, w) => w | _ => sample_net end) = [Byte 2; Byte 3; Byte 4; Byte 5] /\
  wp (server_lifetime 8765 1 2 sample_srv_ops) (fun ok w' => live w' = live sample_net /\
    mutexes (net_sys w') = mutexes (net_sys sample_net) /\ net_env sample_net w' /\ left_open sample_srv_ops ok sample_net w' /\
    if (ok : bool) then
      (forall fd, fd ∈ connects sample_srv_ops -> exists p, p `prefix_of` due fd sample_srv_ops /\
        (reliable fd -> p = due fd sample_srv_ops) /\ sent_to fd w' = sent_to fd sample_net ++ p) /\
      (forall fd, fd ∉ connects sample_srv_ops -> sent_to fd w' = sent_to fd sample_net)
    else delivered w' = delivered sample_net) sample_net.
Proof.
  split; [vm_compute; reflexivity|].
  apply (server_serves_clients 8765 1 2 sample_srv_ops sample_net).
  - exact always_generous.
  - exact empty_sys_wf.
  - apply (bool_decide_unpack _). vm_compute. exact I.
  - vm_compute. reflexivity.
  - repeat constructor.
Defined.

End samples.
