(* ===== verification/TcpListener.v ===== *)
(** * The listener that serves TCP clients

    lib/listeners/tcp_listener.c, over the server of TcpServer.v and the
    listener buffer.  The listener is part of the state, since its flush
    callback and the accepting thread's callback work on it, and so is a client
    that was greeted but is not yet among those of the server.  Fields that
    malloc leaves uninitialised are [None] until they are assigned. *)

From S2P Require Import Prelude Alloc BaseTypes Bag Memory Events ListenerBuffer Listeners Registry Timeline FileDump TcpServer.

(** ** The listener *)

(** HT_TCPListenerOnClientConnectedCallback, called through a pointer. *)
Class ClientHost (E : Type) := { run_client_connected : ptr -> Z -> ptr -> E -> E }.

Record HT_TCPListener := TCPListener {
  tl_self : ptr;
  _push_action_mutex : option ptr;
  _buffer : option HT_ListenerBuffer;
  _tcp_server : option (option HT_TCPServer);
  _last_client_sock_fd : option Z;
  _was_flushed : option bool;
  _client_connected_callback : option (ptr * ptr)
}.

Definition sizeof_HT_TCPListener : Z := 80.

Definition tl_set_mutex m l := TCPListener (tl_self l) (Some m) (_buffer l) (_tcp_server l) (_last_client_sock_fd l) (_was_flushed l) (_client_connected_callback l).
Definition tl_set_buffer b l := TCPListener (tl_self l) (_push_action_mutex l) (Some b) (_tcp_server l) (_last_client_sock_fd l) (_was_flushed l) (_client_connected_callback l).
Definition tl_set_server s l := TCPListener (tl_self l) (_push_action_mutex l) (_buffer l) (Some s) (_last_client_sock_fd l) (_was_flushed l) (_client_connected_callback l).
Definition tl_set_last fd l := TCPListener (tl_self l) (_push_action_mutex l) (_buffer l) (_tcp_server l) (Some fd) (_was_flushed l) (_client_connected_callback l).
Definition tl_set_flushed b l := TCPListener (tl_self l) (_push_action_mutex l) (_buffer l) (_tcp_server l) (_last_client_sock_fd l) (Some b) (_client_connected_callback l).
Definition tl_set_callback c l := TCPListener (tl_self l) (_push_action_mutex l) (_buffer l) (_tcp_server l) (_last_client_sock_fd l) (_was_flushed l) (Some c).

(** [tw_log]: what the flush callback was called with.  [tw_joining]: the
    accepting thread has greeted a client and adds it, for which it needs the mutex
    of the server only, just before the flush after [n] more flushes. *)
Record tcp_world (E : Type) := TcpWorld {
  tw_net : net_state E;
  tw_listener : HT_TCPListener;
  tw_log : list (list memval);
  tw_joining : option (nat * Z)
}.
Arguments TcpWorld {E} _ _ _ _.
Arguments tw_net {E} _.
Arguments tw_listener {E} _.
Arguments tw_log {E} _.
Arguments tw_joining {E} _.

#[export] Instance tcp_lens {E} : Lens (tcp_world E) (net_state E).
Proof.
  refine {| view := tw_net; update n w := TcpWorld n (tw_listener w) (tw_log w) (tw_joining w) |}; by intros; destruct w || destruct s.
Defined.

Section tcp_listener.
  Context `{Malloc} `{Platform} `{Sockets} {E : Type} `{Host E} `{ClientHost E}.
  Implicit Types (w : tcp_world E) (l : HT_TCPListener).

Definition net_op {A} (m : ST (net_state E) A) : ST (tcp_world E) A := zoom m.
Definition sys_op {A} (m : ST (sys E) A) : ST (tcp_world E) A := net_op (zoom m).
Definition set_listener (f : HT_TCPListener -> HT_TCPListener) : ST (tcp_world E) () :=
  modify (fun w => TcpWorld (tw_net w) (f (tw_listener w)) (tw_log w) (tw_joining w)).
Definition set_joining (j : option (nat * Z)) : ST (tcp_world E) () :=
  modify (fun w => TcpWorld (tw_net w) (tw_listener w) (tw_log w) j).

(** A field that has to be initialised. *)
Definition field {A} (f : HT_TCPListener -> option A) : ST (tcp_world E) A :=
  l ← gets tw_listener;
  some_or_undef (f l).

Definition _ht_tcp_listener_is_stopped : ST (tcp_world E) bool :=
  server ← field _tcp_server;
  mret (match server with None => true | Some _ => false end).

(** What the accepting thread does before a flush. *)
Definition add_joining (server : HT_TCPServer) : ST (tcp_world E) HT_TCPServer :=
  j ← gets tw_joining;
  match j with
  | None => mret server
  | Some (S n, fd) => set_joining (Some (n, fd));; mret server
  | Some (O, fd) => set_joining None;; net_op (add_client server fd)
  end.

Definition ht_tcp_listener_f_flush (data : list memval) : ST (tcp_world E) () :=
  server ← field _tcp_server;
  server ← some_or_undef server;
  server ← add_joining server;
  server ← net_op (ht_tcp_server_write server data);
  set_listener (tl_set_server (Some server));;
  set_listener (tl_set_flushed true);;
  modify (fun w => TcpWorld (tw_net w) (tw_listener w) (tw_log w ++ [data]) (tw_joining w)).

(** ** Who gets the flushes *)

Definition joins w (fd : Z) : Prop := exists n, tw_joining w = Some (n, fd).

(** The client that joins gets what is flushed from then on. *)
Definition joined (fds fds' : list Z) (x : list (list memval)) w w' : Prop :=
  match tw_joining w with
  | None => tw_joining w' = None
  | Some (n, fd) =>
      if decide (length x <= n)%nat
      then tw_joining w' = Some ((n - length x)%nat, fd) /\ fd ∉ fds' /\ (length fds' <= length fds)%nat /\ sent_to fd (tw_net w') = sent_to fd (tw_net w)
      else tw_joining w' = None /\ (generous -> Z.of_nat (length fds) < 2 ^ 58 -> reliable fd ->
        fd ∈ fds' /\ sent_to fd (tw_net w') = sent_to fd (tw_net w) ++ concat (drop n x))
  end.

(** The flushes [x] went to the clients [fds] whose connections do not break,
    of which [fds'] are left. *)
Definition handed (fds fds' : list Z) (x : list (list memval)) w w' : Prop :=
  (forall fd, fd ∈ fds -> reliable fd -> fd ∈ fds' /\ sent_to fd (tw_net w') = sent_to fd (tw_net w) ++ concat x) /\
  (forall fd, fd ∈ fds' -> fd ∈ fds \/ joins w fd) /\
  (forall fd, fd ∉ fds -> ~ joins w fd -> sent_to fd (tw_net w') = sent_to fd (tw_net w)) /\
  joined fds fds' x w w'.

Lemma joined_joins fds fds' x w w' fd : joined fds fds' x w w' -> joins w' fd -> joins w fd /\ fd ∉ fds'.
Proof.
  unfold joined, joins. intros J [n' E']. destruct (tw_joining w) as [[n fd0]|]; [|congruence]. destruct (decide _).
  - destruct J as (E1&Hn&_). rewrite E1 in E'. injection E' as _ <-. split; [by eexists|done].
  - destruct J as [E1 _]. congruence.
Qed.

Lemma handed_refl fds w : (forall fd, joins w fd -> fd ∉ fds) -> handed fds fds [] w w.
Proof.
  intros Hj. split_and!; [intros fd Hf _; split; [done|]; simpl; by rewrite app_nil_r|by left|done|]. unfold joined.
  destruct (tw_joining w) as [[n fd]|] eqn:Ej; [|done]. rewrite decide_True by (simpl; lia). split_and!; [do 2 f_equal; simpl; lia| |lia|done].
  apply Hj. by exists n.
Qed.

Lemma joined_trans fds1 fds2 fds3 x y w1 w2 w3 :
  handed fds1 fds2 x w1 w2 -> handed fds2 fds3 y w2 w3 -> joined fds1 fds3 (x ++ y) w1 w3.
Proof.
  intros (_&_&_&J1) (B1&_&_&J2). unfold joined in *. destruct (tw_joining w1) as [[n fd]|]; [|by rewrite J1 in J2].
  rewrite length_app. destruct (decide (length x <= n)%nat) as [Hx|Hx].
  - destruct J1 as (E1&Hn1&Hl1&S1). rewrite E1 in J2. destruct (decide (length y <= n - length x)%nat) as [Hy|Hy].
    + rewrite decide_True by lia. destruct J2 as (E2&Hn2&Hl2&S2). split_and!; [rewrite E2; do 2 f_equal; lia|done|lia|congruence].
    + rewrite decide_False by lia. destruct J2 as [E2 S2]. split; [done|]. intros Hg Hl Hr. destruct S2 as [Hin S2]; [done|lia|done|].
      split; [done|]. rewrite S2, S1. f_equal. f_equal. rewrite drop_app_ge by lia. done.
  - rewrite decide_False by lia. destruct J1 as [E1 S1]. rewrite E1 in J2. split; [done|]. intros Hg Hl Hr. destruct (S1 Hg Hl Hr) as [Hin S1'].
    destruct (B1 fd Hin Hr) as [Hin2 S2]. split; [done|]. rewrite S2, S1', drop_app_le, concat_app, app_assoc by lia. done.
Qed.

Lemma handed_trans fds1 fds2 fds3 x y w1 w2 w3 :
  handed fds1 fds2 x w1 w2 -> handed fds2 fds3 y w2 w3 -> handed fds1 fds3 (x ++ y) w1 w3.
Proof.
  intros Ha Hb. pose proof (joined_trans _ _ _ _ _ _ _ _ Ha Hb) as J. destruct Ha as (A1&A2&A3&A4), Hb as (B1&B2&B3&_). split_and!; [| | |done].
  - intros fd Hf Hr. destruct (A1 fd Hf Hr) as [Hf2 E1]. destruct (B1 fd Hf2 Hr) as [Hf3 E2]. split; [done|]. by rewrite E2, E1, concat_app, app_assoc.
  - intros fd [Hf|Hj]%B2; [by apply A2|]. right. by apply (joined_joins fds1 fds2 x w1 w2 fd A4).
  - intros fd Hf Hj. rewrite (B3 fd), (A3 fd); [done..| |].
    + intros [|]%A2; done.
    + intros Hj2. by apply (joined_joins fds1 fds2 x w1 w2 fd A4) in Hj2 as [? _].
Qed.

(** A write to the clients, when nobody joins. *)
Lemma broadcast_handed fds kept cells w w' :
  broadcast cells fds kept (tw_net w) (tw_net w') -> (forall fd, joins w fd -> fd ∉ fds) ->
  match tw_joining w with None => tw_joining w' = None | Some (O, _) => False | Some (S n, fd) => tw_joining w' = Some (n, fd) end ->
  handed fds kept [cells] w w'.
Proof.
  intros [Hs Hk _ Hr Hl] Hj Ej. assert (forall fd, fd ∈ kept -> fd ∈ fds) as Hsub by (intros fd Hf; by eapply elem_of_submseteq).
  assert (concat [cells] = cells) as Ec by (simpl; apply app_nil_r). split_and!.
  - intros fd Hf Hre. specialize (Hl fd Hf Hre). split; [done|]. by rewrite Ec, (Hk fd Hl).
  - intros fd Hf. left. by apply Hsub.
  - intros fd Hf _. by apply Hr.
  - unfold joined. destruct (tw_joining w) as [[[|n] fd]|] eqn:Ew; [done| |done]. rewrite decide_True by (simpl; lia).
    assert (fd ∉ fds) as Hn by (apply Hj; by exists (S n)).
    split_and!; [rewrite Ej; do 2 f_equal; simpl; lia|by intros ?%Hsub|by apply submseteq_length|by apply Hr].
Qed.

(** And when the client [fd] was added before, unless it did not fit. *)
Lemma broadcast_joined fds fds1 kept cells fd (w w' : tcp_world E) n1 :
  tw_joining w = Some (0%nat, fd) -> tw_joining w' = None -> fd ∉ fds -> delivered n1 = delivered (tw_net w) ->
  (fds1 = fds \/ fds1 = fds ++ [fd]) -> (generous -> Z.of_nat (length fds) < 2 ^ 58 -> fds1 = fds ++ [fd]) ->
  broadcast cells fds1 kept n1 (tw_net w') -> handed fds kept [cells] w w'.
Proof.
  intros Ej Ej' Hfd Ed Hf1 Hg1 [Hs Hk _ Hr Hl]. assert (forall x, x ∈ kept -> x ∈ fds1) as Hsub by (intros x Hx; by eapply elem_of_submseteq).
  assert (concat [cells] = cells) as Ec by (simpl; apply app_nil_r).
  assert (forall x, sent_to x n1 = sent_to x (tw_net w)) as Es by (intros x; unfold sent_to; by rewrite Ed).
  assert (forall x, x ∈ fds -> x ∈ fds1) as Hin by (intros x Hx; destruct Hf1 as [->| ->]; [done|apply elem_of_app; by left]).
  assert (forall x, x ∈ fds1 -> x ∈ fds \/ x = fd) as Hout.
  { intros x Hx. destruct Hf1 as [->| ->]; [by left|]. apply elem_of_app in Hx as [?|?%list_elem_of_singleton]; [by left|by right]. }
  split_and!.
  - intros x Hx Hre. specialize (Hl x (Hin x Hx) Hre). split; [done|]. by rewrite Ec, (Hk x Hl), Es.
  - intros x Hx. destruct (Hout x (Hsub x Hx)) as [?| ->]; [by left|]. right. by exists 0%nat.
  - intros x Hx Hj. rewrite (Hr x), Es; [done|]. intros [?| ->]%Hout; [done|]. apply Hj. by exists 0%nat.
  - unfold joined. rewrite Ej, decide_False by (simpl; lia). split; [done|]. intros Hg Hlen Hre. rewrite drop_0, Ec.
    assert (fd ∈ kept) as Hke by (apply Hl; [rewrite (Hg1 Hg Hlen); apply elem_of_app; right; by left|done]). split; [done|]. by rewrite (Hk fd Hke), Es.
Qed.

(** The listener after the flush callback. *)
Definition flushed_to (server' : HT_TCPServer) (data : list memval) w w' : Prop :=
  tw_listener w' = tl_set_flushed true (tl_set_server (Some server') (tw_listener w)) /\ tw_log w' = tw_log w ++ [data].

Lemma f_flush_spec w server fds data :
  _tcp_server (tw_listener w) = Some (Some server) -> server_rep (tw_net w) server fds -> (forall fd, joins w fd -> fd ∉ fds) ->
  Z.of_nat (length data) < 2 ^ 63 ->
  wp (ht_tcp_listener_f_flush data) (fun _ w' => exists server' fds', flushed_to server' data w w' /\
    server_post (tw_net w) server fds' (tw_net w') server' /\ handed fds fds' [data] w w') w.
Proof.
  intros Es R Hj Hlen. unfold ht_tcp_listener_f_flush, field. apply wp_bind, wp_bind, wp_gets. eapply wp_some; [exact Es|]. rewrite some_bind.
  apply wp_bind. unfold add_joining. apply wp_bind, wp_gets. destruct (tw_joining w) as [[[|n] fd]|] eqn:Ej.
  - assert (fd ∉ fds) as Hfd by (apply Hj; by exists 0%nat). apply wp_bind, wp_modify, wp_zoom.
    eapply wp_mono; [by apply (add_client_spec (tw_net w) server fds fd)|]. intros server1 n1 (Ed&fds1&Hf1&Hg1&P1). cbn beta.
    apply wp_bind, wp_zoom. eapply wp_mono; [apply (server_write_spec _ server1 fds1); [by destruct P1|done]|].
    intros server2 n2 (kept&Hbc&P2). cbn beta. unfold set_listener. wp_steps. exists server2, kept. split; [done|].
    split; [by eapply server_post_trans|]. by eapply (broadcast_joined fds fds1 kept data fd).
  - apply wp_bind, wp_modify, wp_ret, wp_bind, wp_zoom. eapply wp_mono; [by apply (server_write_spec (tw_net w) server fds)|].
    intros server2 n2 (kept&Hbc&P2). cbn beta. unfold set_listener. wp_steps. exists server2, kept. split; [done|]. split; [done|].
    apply broadcast_handed; [done|done|by rewrite Ej].
  - apply wp_ret, wp_bind, wp_zoom. eapply wp_mono; [by apply (server_write_spec (tw_net w) server fds)|].
    intros server2 n2 (kept&Hbc&P2). cbn beta. unfold set_listener. wp_steps. exists server2, kept. split; [done|]. split; [done|].
    apply broadcast_handed; [done|done|by rewrite Ej].
Qed.

(** The clients, since [w0]: the server has changed its bag only. *)
Definition since w0 (server0 : HT_TCPServer) (fds0 : list Z) (new : list (list memval)) w : Prop :=
  tw_log w = tw_log w0 ++ new /\
  (let l := tl_set_server (default None (_tcp_server (tw_listener w))) (tw_listener w0) in
   tw_listener w = if decide (new = []) then l else tl_set_flushed true l) /\
  exists server fds, _tcp_server (tw_listener w) = Some (Some server) /\ server_post (tw_net w0) server0 fds (tw_net w) server /\
    handed fds0 fds new w0 w /\ (forall fd, joins w fd -> fd ∉ fds).

(** The listener as a client of its buffer. *)
#[refine] Definition tcp_sink w0 (server0 : HT_TCPServer) (fds0 : list Z) : FlushCallback (tcp_world E) := {|
  flush_callback := ht_tcp_listener_f_flush;
  chunks := tw_log;
  sink_ok w := exists new, since w0 server0 fds0 new w
|}.
Proof.
  intros cells w (new&Hlog&El&server&fds&Es&Post&Hh&Hj) Hlen.
  eapply wp_mono; [apply (f_flush_spec w server fds); [done|by destruct Post|done|done]|].
  intros _ w1 (server1&fds1&[El1 Elog1]&Post1&Hh1). split; [done|]. exists (new ++ [cells]).
  split; [by rewrite Elog1, Hlog, <- app_assoc|]. split.
  { cbv zeta in *. rewrite decide_False by (by intros [_ ?]%app_nil). rewrite El1, El. simpl. by destruct (decide (new = [])). }
  exists server1, fds1. split; [by rewrite El1|]. split; [by eapply server_post_trans|]. split; [by eapply handed_trans|].
  intros fd Hf. destruct Hh1 as (_&_&_&J). by apply (joined_joins _ _ _ _ _ fd J).
Defined.

(** The clients of a server. *)
Definition client_list (server : HT_TCPServer) : list Z :=
  match client_sock_fd server with Some b => omap id (take (Z.to_nat (size b)) (cells b)) | None => [] end.

Lemma client_list_rep (n : net_state E) server fds : server_rep n server fds -> client_list server = fds.
Proof.
  intros [(b&Eb&[_ _ Hs Hc _ _ _ _]&_) _ _ _ _]. unfold client_list. rewrite Eb, Hs, Nat2Z.id, Hc. clear.
  induction fds as [|fd fds IH]; [done|]. by f_equal/=.
Qed.

Definition ht_tcp_listener_flush : ST (tcp_world E) () :=
  w ← get;
  server ← field _tcp_server;
  buffer ← field _buffer;
  let server0 := default (TCPServer NULL NULL None NULL 0 NULL NULL) server in
  buffer ← ht_listener_buffer_flush (H0 := tcp_sink w server0 (client_list server0)) buffer;
  set_listener (tl_set_buffer buffer).

Definition ht_tcp_listener_metadata_pusher (e : list memval) (serialized : bool) : ST (tcp_world E) () :=
  require serialized;;
  m ← field _push_action_mutex;
  sys_op (ht_mutex_lock m);;
  server ← field _tcp_server;
  fd ← field _last_client_sock_fd;
  net_op (ht_tcp_server_write_to_socket fd e);;
  sys_op (ht_mutex_unlock m).

Fixpoint push_metadata (batches : list (list memval * bool)) : ST (tcp_world E) () :=
  match batches with
  | [] => mret ()
  | b :: batches => ht_tcp_listener_metadata_pusher b.1 b.2;; push_metadata batches
  end.

(** The addresses of the pusher and of ht_tcp_listener_client_connected,
    _callback and _destroy. *)
Definition at_metadata_pusher : ptr := 1011.
Definition at_client_connected : ptr := 1012.
Definition at_tcp_callback : ptr := 1013.
Definition at_tcp_destroy : ptr := 1014.

(** The calls of the pusher are recorded first and then made, in order. *)
Definition ht_tcp_listener_client_connected (sock_fd : Z) : ST (tcp_world E) () :=
  set_listener (tl_set_last sock_fd);;
  self ← gets (fun w => tl_self (tw_listener w));
  batches ← sys_op (record_metadata at_metadata_pusher self);
  push_metadata batches;;
  '(callback, user_data) ← field _client_connected_callback;
  if decide (callback <> NULL) then sys_op (modify (set_env (run_client_connected callback sock_fd user_data)))
  else mret ().

Definition ht_tcp_listener_push_events (events : list memval) (serialized : bool) : ST (tcp_world E) () :=
  m ← field _push_action_mutex;
  sys_op (ht_mutex_lock m);;
  stopped ← _ht_tcp_listener_is_stopped;
  (if (stopped : bool) then mret ()
   else
     server ← field _tcp_server;
     server0 ← some_or_undef server;
     if negb (ht_tcp_server_is_running server0) then mret ()
     else
       w ← get;
       buffer ← field _buffer;
       buffer ← (if serialized
                 then ht_listener_buffer_process_serialized_events (H0 := tcp_sink w server0 (client_list server0)) buffer events
                 else ht_listener_buffer_process_unserialized_events (H0 := tcp_sink w server0 (client_list server0))
                        (klasses (net_sys (tw_net w))) buffer events);
       set_listener (tl_set_buffer buffer);;
       flushed ← field _was_flushed;
       if (flushed : bool) then ht_tcp_listener_flush;; set_listener (tl_set_flushed false) else mret ());;
  sys_op (ht_mutex_unlock m).

(** The guard has the cases the other way round, and the mutex is unlocked
    twice at the end. *)
Definition ht_tcp_listener_stop : ST (tcp_world E) () :=
  m ← field _push_action_mutex;
  sys_op (ht_mutex_lock m);;
  stopped ← _ht_tcp_listener_is_stopped;
  (if negb stopped then sys_op (ht_mutex_unlock m) else mret ());;
  ht_tcp_listener_flush;;
  server ← field _tcp_server;
  server ← some_or_undef server;
  server ← net_op (ht_tcp_server_stop server);
  buffer ← field _buffer;
  net_op (heap_op (ht_listener_buffer_deinit buffer));;
  net_op (ht_tcp_server_destroy server);;
  set_listener (tl_set_server None);;
  sys_op (ht_mutex_unlock m);;
  sys_op (ht_mutex_unlock m).

Definition ht_tcp_listener_destroy : ST (tcp_world E) () :=
  stopped ← _ht_tcp_listener_is_stopped;
  (if negb stopped then ht_tcp_listener_stop else mret ());;
  m ← field _push_action_mutex;
  sys_op (ht_mutex_destroy m);;
  self ← gets (fun w => tl_self (tw_listener w));
  net_op (heap_op (ht_free self)).

Definition ht_tcp_listener_set_on_client_connected_callback (callback user_data : ptr) : ST (tcp_world E) () :=
  set_listener (tl_set_callback (callback, user_data)).

Definition ht_tcp_listener_init (port buffer_size : Z) : ST (tcp_world E) HT_ErrorCode :=
  r ← net_op (heap_op (ht_listener_buffer_init buffer_size));
  match r with
  | inl error_code => mret error_code
  | inr buffer =>
    set_listener (tl_set_buffer buffer);;
    set_listener (tl_set_last 0);;
    set_listener (tl_set_flushed false);;
    m ← sys_op ht_mutex_create;
    set_listener (tl_set_mutex m);;
    server ← net_op ht_tcp_server_create;
    set_listener (tl_set_server (Some server));;
    self ← gets (fun w => tl_self (tw_listener w));
    '(ok, server) ← net_op (ht_tcp_server_start server port at_client_connected self);
    set_listener (tl_set_server (Some server));;
    mret (if (ok : bool) then HT_ERR_OK else HT_ERR_CANT_START_TCP_SERVER)
  end.

(** The world has no listener before; the result is the error code and
    whether there is one. *)
Definition ht_tcp_listener_create (port buffer_size : Z) : ST (tcp_world E) (HT_ErrorCode * bool) :=
  listener ← net_op (heap_op (ht_alloc sizeof_HT_TCPListener));
  if decide (listener = NULL) then mret (HT_ERR_OUT_OF_MEMORY, false)
  else
    set_listener (fun _ => TCPListener listener None None None None None None);;
    error_code ← ht_tcp_listener_init port buffer_size;
    if decide (error_code <> HT_ERR_OK) then ht_tcp_listener_destroy;; mret (error_code, false)
    else mret (error_code, true).

Definition ht_tcp_listener_register (t : HT_Timeline) (port buffer_size : Z) : ST (tcp_world E) (HT_ErrorCode * bool) :=
  '(err, ok) ← ht_tcp_listener_create port buffer_size;
  if negb ok then mret (err, false)
  else
    self ← gets (fun w => tl_self (tw_listener w));
    err ← sys_op (ht_timeline_register_listener_full t at_tcp_callback self at_tcp_destroy);
    if decide (err <> HT_ERR_OK) then ht_tcp_listener_destroy;; mret (err, false)
    else mret (err, true).

(** An iteration of the accepting thread during which nothing is pushed. *)
Definition tcp_listener_accept : ST (tcp_world E) () :=
  server ← field _tcp_server;
  server ← some_or_undef server;
  server ← accept_client server ht_tcp_listener_client_connected;
  set_listener (tl_set_server (Some server)).

(** One that adds its client after [n] more flushes of the listener. *)
Definition tcp_listener_greet (n : nat) : ST (tcp_world E) () :=
  server ← field _tcp_server;
  server ← some_or_undef server;
  client ← greet_client server ht_tcp_listener_client_connected;
  match client with Some fd => set_joining (Some (n, fd)) | None => mret () end.

(** ** What a running listener promises *)

(** A listener with the clients [fds] and [content] in its buffer. *)
Record tl_rep w (fds : list Z) (content : list memval) : Prop := {
  tr_mutex : exists m, _push_action_mutex (tw_listener w) = Some m /\ mutexes (net_sys (tw_net w)) !! m = Some false /\
    forall server, _tcp_server (tw_listener w) = Some (Some server) -> m <> client_mutex server;
  tr_server : exists server, _tcp_server (tw_listener w) = Some (Some server) /\ server_rep (tw_net w) server fds /\
    ht_tcp_server_is_running server = true;
  tr_buffer : exists b, _buffer (tw_listener w) = Some b /\ lb_rep b content;
  tr_flushed : _was_flushed (tw_listener w) = Some false;
  tr_joining : forall fd, joins w fd -> fd ∉ fds
}.

Definition buffer_size w : Z := match _buffer (tw_listener w) with Some b => max_size b | None => 0 end.

(** Nothing but the server's bag, the buffer and the sockets changes. *)
Record tl_same w w' : Prop := {
  ts_step : net_step (tw_net w) (tw_net w');
  ts_size : buffer_size w' = buffer_size w;
  ts_mutex : _push_action_mutex (tw_listener w') = _push_action_mutex (tw_listener w);
  ts_callback : _client_connected_callback (tw_listener w') = _client_connected_callback (tw_listener w);
  ts_self : tl_self (tw_listener w') = tl_self (tw_listener w)
}.

Lemma tl_same_trans w1 w2 w3 : tl_same w1 w2 -> tl_same w2 w3 -> tl_same w1 w3.
Proof. intros [] []. split; [by eapply net_step_trans|congruence..]. Qed.

(** Another mutex is locked or unlocked. *)
Definition with_mutex (m : ptr) (held : bool) (n : net_state E) : net_state E :=
  update (set_mutexes <[m := held]> (net_sys n)) n.

Lemma server_rep_mutex (n : net_state E) server fds m held :
  server_rep n server fds -> m <> client_mutex server -> server_rep (with_mutex m held n) server fds.
Proof. intros [R1 R2 R3 R4 R5] Hm. split; try done. simpl. by rewrite lookup_insert_ne. Qed.

Lemma since_start w server fds :
  _tcp_server (tw_listener w) = Some (Some server) -> server_rep (tw_net w) server fds -> (forall fd, joins w fd -> fd ∉ fds) ->
  since w server fds [] w.
Proof.
  intros Es R Hj. split; [by rewrite app_nil_r|]. split.
  { cbv zeta. rewrite decide_True, Es by done. simpl. destruct (tw_listener w). simpl in *. by subst. }
  exists server, fds. split_and!; try done. by apply handed_refl.
Qed.

(** The flush that ends a push hands out what is left. *)
Lemma tcp_flush_spec w server fds b content :
  _tcp_server (tw_listener w) = Some (Some server) -> server_rep (tw_net w) server fds -> (forall fd, joins w fd -> fd ∉ fds) ->
  _buffer (tw_listener w) = Some b -> lb_rep b content ->
  wp ht_tcp_listener_flush (fun _ w' => exists b' w1, since w server fds [content] w1 /\ lb_rep b' [] /\ max_size b' = max_size b /\
    w' = TcpWorld (tw_net w1) (tl_set_buffer b' (tw_listener w1)) (tw_log w1) (tw_joining w1)) w.
Proof.
  intros Es R Hj Eb Rb. unfold ht_tcp_listener_flush, field. apply wp_bind, wp_get, wp_bind, wp_bind, wp_gets. eapply wp_some; [exact Es|].
  apply wp_bind, wp_bind, wp_gets. eapply wp_some; [exact Eb|]. cbn [default from_option id]. rewrite (client_list_rep _ _ _ R).
  eapply wp_call; [apply (flush_spec b content); [done|]; exists []; by apply since_start|].
  intros b1 w1 (Rb1&_&Hm1&Hch&new&Hs). apply wp_modify. exists b1, w1. split; [|done].
  pose proof Hs as [Hlog _]. cbn [chunks tcp_sink] in Hch. rewrite Hlog in Hch. apply (inj (app (tw_log w))) in Hch. by subst new.
Qed.

(** The server after some flushes. *)
Lemma since_done w server fds new w1 :
  since w server fds new w1 -> exists server1 fds1, _tcp_server (tw_listener w1) = Some (Some server1) /\
    server_post (tw_net w) server fds1 (tw_net w1) server1 /\ handed fds fds1 new w w1 /\ (forall fd, joins w1 fd -> fd ∉ fds1) /\
    _push_action_mutex (tw_listener w1) = _push_action_mutex (tw_listener w) /\
    _buffer (tw_listener w1) = _buffer (tw_listener w) /\ tl_self (tw_listener w1) = tl_self (tw_listener w) /\
    _client_connected_callback (tw_listener w1) = _client_connected_callback (tw_listener w) /\
    _was_flushed (tw_listener w1) = if decide (new = []) then _was_flushed (tw_listener w) else Some true.
Proof.
  intros (_&El&server1&fds1&Es&Post&T1&T2). exists server1, fds1. cbv zeta in El. rewrite Es in El.
  split; [done|]. split; [done|]. split; [done|]. split; [done|]. rewrite El. by destruct (decide (new = [])).
Qed.

(** A push keeps everything in the buffer, or hands everything out. *)
Definition push_result (content stream content' x : list memval) : Prop :=
  x = [] /\ content' = content ++ stream \/ x = content ++ stream /\ content' = [].

Lemma push_end w m fds content w0 fds' x content' w2 :
  tl_rep w fds content -> _push_action_mutex (tw_listener w) = Some m ->
  w0 = TcpWorld (with_mutex m true (tw_net w)) (tw_listener w) (tw_log w) (tw_joining w) ->
  (exists server server2, _tcp_server (tw_listener w) = Some (Some server) /\ _tcp_server (tw_listener w2) = Some (Some server2) /\
    server_post (tw_net w0) server fds' (tw_net w2) server2) -> handed fds fds' x w0 w2 -> (forall fd, joins w2 fd -> fd ∉ fds') ->
  (exists b b2, _buffer (tw_listener w) = Some b /\ _buffer (tw_listener w2) = Some b2 /\ lb_rep b2 content' /\ max_size b2 = max_size b) ->
  _push_action_mutex (tw_listener w2) = Some m -> _was_flushed (tw_listener w2) = Some false ->
  tl_self (tw_listener w2) = tl_self (tw_listener w) ->
  _client_connected_callback (tw_listener w2) = _client_connected_callback (tw_listener w) ->
  wp (sys_op (ht_mutex_unlock m)) (fun _ w' => tl_rep w' fds' content' /\ tl_same w w' /\ tw_log w' = tw_log w2 /\ handed fds fds' x w w') w2.
Proof.
  intros [(m'&Em&Hm&Hne) (server'&Es&R&Hrun) _ _ _] Em' -> (server&server2&Es'&Es2&Post) Hh Hj2 (b&b2&Eb&Eb2&Rb2&Hmax) Em2 Hfl Hself Hcb.
  rewrite Em in Em'. injection Em' as ->. rewrite Es in Es'. injection Es' as ->. destruct Post as (R2&(_&Hfd&Hcm)&St&_).
  apply wp_zoom, wp_zoom. apply unlock_spec; [simpl; rewrite (ns_mutexes _ _ St); simpl; apply lookup_insert_eq|].
  assert (m <> client_mutex server) as Hm1 by (by apply Hne).
  split_and!.
  - split; simpl.
    + exists m. split; [done|]. split; [apply lookup_insert_eq|]. intros s0 [= <-]%(eq_trans (eq_sym Es2)). by rewrite Hcm.
    + exists server2. split; [done|]. split; [apply (server_rep_mutex _ server2 fds' m false R2); by rewrite Hcm|].
      unfold ht_tcp_server_is_running in *. by rewrite Hfd.
    + by exists b2.
    + done.
    + exact Hj2.
  - split; simpl; try done; [|unfold buffer_size; simpl; by rewrite Eb, Eb2|congruence]. destruct St as [S1 S2 S3 S4 S5 S6]. split; simpl; try done.
    rewrite S1. simpl. rewrite insert_insert_eq, insert_id; done.
  - done.
  - exact Hh.
Qed.

Lemma push_events_spec w fds content b :
  tl_rep w fds content -> batch_ok (klasses (net_sys (tw_net w))) (buffer_size w) b ->
  wp (ht_tcp_listener_push_events (batch_cells b).1 (batch_cells b).2) (fun _ w' => exists fds' content' x,
    tl_rep w' fds' content' /\ tl_same w w' /\ tw_log w' = tw_log w ++ x /\ handed fds fds' x w w' /\
    push_result content (batch_stream b) content' (concat x)) w.
Proof.
  intros R Hb. pose proof R as [(m&Em&Hm&Hne) (server&Es&Rs&Hrun) (b0&Eb&Rb) Hfl Hj]. unfold buffer_size in Hb. rewrite Eb in Hb.
  unfold ht_tcp_listener_push_events. apply wp_bind. unfold field at 1. apply wp_bind, wp_gets. eapply wp_some; [exact Em|].
  apply wp_bind, wp_zoom, wp_zoom, lock_spec; [done|].
  set (w0 := TcpWorld (with_mutex m true (tw_net w)) (tw_listener w) (tw_log w) (tw_joining w)).
  change (update _ w) with w0. assert (server_rep (tw_net w0) server fds) as Rs0 by (apply server_rep_mutex; [done|by apply Hne]).
  apply wp_bind. unfold _ht_tcp_listener_is_stopped, field at 1. apply wp_bind, wp_bind, wp_gets. eapply wp_some; [exact Es|]. apply wp_ret.
  apply wp_bind, wp_bind. unfold field at 1. apply wp_bind, wp_gets. eapply wp_some; [exact Es|]. rewrite some_bind, Hrun. cbn [negb].
  apply wp_bind, wp_get. apply wp_bind. unfold field at 1. apply wp_bind, wp_gets. eapply wp_some; [exact Eb|].
  rewrite (client_list_rep _ _ _ Rs0). set (FS := tcp_sink w0 server fds).
  match goal with |- wp (?mm ≫= _) _ _ =>
    replace mm with (process (H0 := FS) (klasses (net_sys (tw_net w0))) b0 b) by (by destruct b) end.
  eapply wp_call; [apply (process_chunks _ b0 content); [done|exists []; by apply since_start|done]|].
  intros b1 w1 (c1&new&Rb1&[new' Hsin]&Hmax&Hch&Hcat). cbn in Hch. pose proof Hsin as [Hlog _]. rewrite Hlog in Hch. apply (inj (app (tw_log w0))) in Hch. subst new'.
  destruct (since_done _ _ _ _ _ Hsin) as (server1&fds1&Es1&Post1&Hh1&Hj1&Em1&Eb1&Eself1&Ecb1&Ef1).
  apply wp_bind, wp_modify. apply wp_bind. unfold field at 1. apply wp_bind, wp_gets.
  set (w2 := TcpWorld _ _ _ _). change (_was_flushed (tw_listener w0)) with (_was_flushed (tw_listener w)) in Ef1. rewrite Hfl in Ef1.
  destruct (decide (new = [])) as [->|Hnew].
  - eapply wp_some; [exact Ef1|]. apply wp_ret.
    eapply wp_mono; [apply (push_end w m fds content w0 fds1 [] (content ++ batch_stream b) w2); try done|].
    + by exists server, server1.
    + exists b0, b1. simpl in Hcat. rewrite <- Hcat. by split_and!.
    + simpl. by rewrite Em1.
    + intros _ w' (R'&S'&L'&H'). exists fds1, (content ++ batch_stream b), []. split_and!; try done; [by rewrite L'|by left].
  - eapply wp_some; [exact Ef1|]. apply wp_bind.
    assert (server_rep (tw_net w2) server1 fds1) as Rs2 by (by destruct Post1).
    eapply wp_mono; [by apply (tcp_flush_spec w2 server1 fds1 b1 c1)|]. intros _ w4 (b3&w3&Hsin3&Rb3&Hmax3&->). apply wp_modify.
    pose proof Hsin3 as [Hlog3 _]. destruct (since_done _ _ _ _ _ Hsin3) as (server3&fds3&Es3&Post3&Hh3&Hj3&Em3&_&Eself3&Ecb3&_).
    eapply wp_mono; [apply (push_end w m fds content w0 fds3 (new ++ [c1]) []); try done; simpl|].
    + exists server, server3. split; [done|]. split; [done|]. by eapply server_post_trans.
    + exact (handed_trans _ _ _ _ _ _ _ _ Hh1 Hh3).
    + exists b0, b3. split_and!; try done. by rewrite Hmax3.
    + by rewrite Em3, <- Em.
    + by rewrite Eself3.
    + by rewrite Ecb3.
    + intros _ w' (R'&S'&L'&H'). exists fds3, [], (new ++ [c1]). split_and!; try done.
      * rewrite L'. simpl. rewrite Hlog3. simpl. by rewrite Hlog, <- app_assoc.
      * right. split; [|done]. rewrite concat_app, <- Hcat. simpl. by rewrite app_nil_r.
Qed.

(** ** A client connects, and batches are pushed *)

Fixpoint pushes (bs : list batch) : ST (tcp_world E) () :=
  match bs with
  | [] => mret ()
  | b :: bs => ht_tcp_listener_push_events (batch_cells b).1 (batch_cells b).2;; pushes bs
  end.

(** [x] is nothing, or the buffered bytes and whole batches. *)
Definition whole_batches (content : list memval) (bs : list batch) (x : list memval) : Prop :=
  x = [] \/ exists k, x = content ++ (take k bs ≫= batch_stream).

Lemma push_result_batches content b c1 x1 bs x2 content' :
  push_result content (batch_stream b) c1 x1 -> whole_batches c1 bs x2 -> x2 ++ content' = c1 ++ (bs ≫= batch_stream) ->
  whole_batches content (b :: bs) (x1 ++ x2) /\ (x1 ++ x2) ++ content' = content ++ ((b :: bs) ≫= batch_stream).
Proof.
  intros P W Ex. rewrite bind_cons. destruct P as [[-> ->]|[-> ->]]; simpl in *.
  - rewrite Ex, <- app_assoc. split; [|done]. destruct W as [->|[k ->]]; [by left|]. right. exists (S k). simpl. by rewrite <- app_assoc.
  - rewrite <- !app_assoc, Ex. split; [|done]. right. destruct W as [->|[k ->]]; [exists 1%nat|exists (S k)]; simpl; by rewrite ?take_0, ?app_nil_r.
Qed.

Lemma pushes_spec bs w fds content :
  tl_rep w fds content -> Forall (batch_ok (klasses (net_sys (tw_net w))) (buffer_size w)) bs ->
  wp (pushes bs) (fun _ w' => exists fds' content' x, tl_rep w' fds' content' /\ tl_same w w' /\ tw_log w' = tw_log w ++ x /\ handed fds fds' x w w' /\
    whole_batches content bs (concat x) /\ concat x ++ content' = content ++ (bs ≫= batch_stream)) w.
Proof.
  revert w fds content. induction bs as [|b bs IH]; intros w fds content R HF; simpl.
  - apply wp_ret. exists fds, content, []. split_and!; try done; [by rewrite app_nil_r|apply handed_refl; by destruct R|by left|by rewrite app_nil_r].
  - apply Forall_cons in HF as [Hb HF]. eapply wp_call; [by apply push_events_spec|]. intros _ w1 (fds1&c1&x1&R1&S1&L1&T1&P1).
    eapply wp_mono; [apply (IH w1 fds1 c1 R1)|].
    { by rewrite (ts_size _ _ S1), (ns_klasses _ _ (ts_step _ _ S1)). }
    intros _ w2 (fds2&c2&x2&R2&S2&L2&T2&W2&E2). destruct (push_result_batches _ _ _ _ _ _ _ P1 W2 E2) as [W E0].
    exists fds2, c2, (x1 ++ x2). rewrite concat_app. split_and!; try done; [by eapply tl_same_trans|by rewrite L2, L1, app_assoc|by eapply handed_trans].
Qed.

(** The metadata goes to a client whose connection does not break. *)
Lemma push_metadata_sent batches w m server fd :
  Forall small_batch batches -> reliable fd -> _push_action_mutex (tw_listener w) = Some m ->
  mutexes (net_sys (tw_net w)) !! m = Some false -> _tcp_server (tw_listener w) = Some server -> _last_client_sock_fd (tw_listener w) = Some fd ->
  wp (push_metadata batches) (fun _ w' => tw_listener w' = tw_listener w /\ net_sys (tw_net w') = net_sys (tw_net w) /\
    tw_log w' = tw_log w /\ tw_joining w' = tw_joining w /\
    sent_to fd (tw_net w') = sent_to fd (tw_net w) ++ concat batches.*1) w.
Proof.
  revert w. induction batches as [|[e ser] batches IH]; intros w HF Hrel Em Hm Es El; simpl.
  - apply wp_ret. by rewrite app_nil_r.
  - apply Forall_cons in HF as [[Hser Hsm] HF]. simpl in Hser, Hsm. subst ser. apply wp_bind. unfold ht_tcp_listener_metadata_pusher, require.
    rewrite ret_bind. apply wp_bind. unfold field at 1. apply wp_bind, wp_gets. eapply wp_some; [exact Em|].
    apply wp_bind, wp_zoom, wp_zoom, lock_spec; [done|]. apply wp_bind. unfold field at 1. apply wp_bind, wp_gets. eapply wp_some; [exact Es|].
    apply wp_bind. unfold field at 1. apply wp_bind, wp_gets. eapply wp_some; [exact El|]. apply wp_bind, wp_zoom.
    eapply wp_mono; [apply write_to_socket_spec; unfold REGISTRY_LISETNER_BUFF_SIZE in Hsm; lia|].
    intros ok n1 [Esys [(p&_&Hp&Hs) [_ Hok]]]. assert (p = e) as -> by (by apply Hp, Hok). cbn beta.
    apply wp_zoom, wp_zoom, unlock_spec; [simpl; rewrite Esys; apply lookup_insert_eq|].
    set (w1 := update _ _).
    assert (net_sys (tw_net w1) = net_sys (tw_net w)) as Ew1.
    { subst w1. simpl. rewrite Esys. simpl. by apply relock_id. }
    eapply wp_mono; [apply (IH w1); try done; by rewrite Ew1|]. intros _ w2 (F1&F2&F4&F5&F3). split_and!; [done|by rewrite F2|done|done|].
    rewrite F3. change (sent_to fd (tw_net w1)) with (sent_to fd n1). rewrite Hs. change (sent_to fd _) with (sent_to fd (tw_net w)). by rewrite <- app_assoc.
Qed.

Lemma server_rep_mono (n n' : net_state E) server fds :
  sheap (net_sys n') = sheap (net_sys n) -> mutexes (net_sys n') = mutexes (net_sys n) -> server_rep n server fds -> server_rep n' server fds.
Proof. intros Eh Em [R1 R2 R3 R4 R5]. split; unfold live in *; by rewrite ?Eh, ?Em. Qed.

(** The callback of the accepting thread: the metadata goes to the new client
    only. *)
Lemma client_connected_spec w m server fd K1 K2 K3 K4 ps c :
  reliable fd -> _push_action_mutex (tw_listener w) = Some m -> mutexes (net_sys (tw_net w)) !! m = Some false ->
  _tcp_server (tw_listener w) = Some server -> _client_connected_callback (tw_listener w) = Some c ->
  metadata_ready (net_sys (tw_net w)) K1 K2 K3 K4 ps ->
  wp (ht_tcp_listener_client_connected fd) (fun _ w' => exists meta,
    metadata_events (net_sys (tw_net w)) ps meta /\ Forall (pushed_ok (klasses (net_sys (tw_net w)))) meta /\
    same_objects (net_sys (tw_net w)) (net_sys (tw_net w')) /\ tw_listener w' = tl_set_last fd (tw_listener w) /\
    tw_log w' = tw_log w /\ tw_joining w' = tw_joining w /\
    sent_to fd (tw_net w') = sent_to fd (tw_net w) ++ wire_cells meta) w.
Proof.
  intros Hrel Em Hm Es Ec MR. unfold ht_tcp_listener_client_connected. apply wp_bind, wp_modify, wp_bind, wp_gets.
  apply wp_bind, wp_zoom, wp_zoom. eapply wp_mono; [by eapply record_metadata_spec|].
  intros batches s1 (meta&Hev&Hok&(So1&So2&So3&So4&So5)&Hsm&Hcat). cbn beta. cbn in So1, So2, So3, So4, So5.
  eapply wp_call; [eapply (push_metadata_sent batches _ m server fd); try done; simpl; by rewrite So2|].
  intros _ w2 (E1&E2&E4&E5&E3). simpl in E1, E2, E3, E4, E5. apply wp_bind. unfold field at 1. apply wp_bind, wp_gets. rewrite E1. eapply wp_some; [exact Ec|].
  destruct c as [cb ud].
  assert (sent_to fd (tw_net w2) = sent_to fd (tw_net w) ++ wire_cells meta) as E3' by (rewrite E3, Hcat; done).
  destruct (decide (cb <> NULL)).
  - apply wp_zoom, wp_zoom, wp_modify. exists meta. unfold same_objects. simpl. rewrite E2. by split_and!.
  - apply wp_ret. exists meta. unfold same_objects. rewrite E2. by split_and!.
Qed.

(** What the accepting thread needs to serve the client [fd]. *)
Record accepts w (fds : list Z) (fd : Z) : Prop := {
  ac_memory : generous;
  ac_room : Z.of_nat (length fds) < 2 ^ 58;
  ac_fd : forall server, _tcp_server (tw_listener w) = Some (Some server) -> os_accept (net_calls (tw_net w)) (server_sock_fd server) = fd;
  ac_valid : 0 <= fd;
  ac_new : fd ∉ fds;
  ac_reliable : reliable fd;
  ac_callback : is_Some (_client_connected_callback (tw_listener w));
  ac_idle : tw_joining w = None
}.

(** The greeting. *)
Lemma greet_spec w fds content fd server K1 K2 K3 K4 ps :
  tl_rep w fds content -> accepts w fds fd -> metadata_ready (net_sys (tw_net w)) K1 K2 K3 K4 ps -> _tcp_server (tw_listener w) = Some (Some server) ->
  wp (greet_client server ht_tcp_listener_client_connected) (fun o w' => o = Some fd /\ exists meta,
    metadata_events (net_sys (tw_net w)) ps meta /\ Forall (pushed_ok (klasses (net_sys (tw_net w)))) meta /\
    same_objects (net_sys (tw_net w)) (net_sys (tw_net w')) /\ tw_listener w' = tl_set_last fd (tw_listener w) /\
    tw_log w' = tw_log w /\ tw_joining w' = None /\ sent_to fd (tw_net w') = sent_to fd (tw_net w) ++ wire_cells meta) w.
Proof.
  intros R [Hgen Hroom Hfd Hpos Hnew Hrel [c Ec] Hidle] MR Es. pose proof R as [(m&Em&Hm&Hne) (server'&Es'&Rs&Hrun) _ _ _].
  rewrite Es in Es'. injection Es' as <-. unfold greet_client. rewrite Hrun. apply wp_bind, wp_zoom. unfold open_socket. apply wp_bind.
  unfold wp at 1, syscall. cbn [view tcp_lens]. rewrite (Hfd server Es). apply wp_bind, wp_modify, wp_ret. rewrite decide_True by lia.
  apply wp_bind. eapply wp_mono; [eapply (client_connected_spec _ m (Some server) fd K1 K2 K3 K4 ps c); done|].
  intros _ w1 (meta&Hev&Hok&So&El&Elog&Ej&Hsent). apply wp_ret. split; [done|]. exists meta. split_and!; try done. by rewrite Ej.
Qed.

Lemma accept_spec w fds content fd K1 K2 K3 K4 ps :
  tl_rep w fds content -> accepts w fds fd -> metadata_ready (net_sys (tw_net w)) K1 K2 K3 K4 ps ->
  wp tcp_listener_accept (fun _ w' => exists meta,
    metadata_events (net_sys (tw_net w)) ps meta /\ Forall (pushed_ok (klasses (net_sys (tw_net w)))) meta /\
    tl_rep w' (fds ++ [fd]) content /\ klasses (net_sys (tw_net w')) = klasses (net_sys (tw_net w)) /\ buffer_size w' = buffer_size w /\
    sent_to fd (tw_net w') = sent_to fd (tw_net w) ++ wire_cells meta) w.
Proof.
  intros R A MR. pose proof A as [Hgen Hroom _ _ Hnew _ _ _]. pose proof R as [(m&Em&Hm&Hne) (server&Es&Rs&Hrun) (b&Eb&Rb) Hfl _].
  unfold tcp_listener_accept. apply wp_bind. unfold field at 1. apply wp_bind, wp_gets. eapply wp_some; [exact Es|]. rewrite some_bind.
  apply wp_bind. unfold accept_client. eapply wp_call; [by eapply greet_spec|].
  intros o w1 (->&meta&Hev&Hok&(So1&So2&So3&So4&So5)&El&_&Ej&Hsent). apply wp_zoom.
  assert (server_rep (tw_net w1) server fds) as Rs1 by (by eapply server_rep_mono).
  eapply wp_mono; [by apply (add_client_spec (tw_net w1) server fds fd)|]. intros server2 n2 (Ed&fds2&_&Hgr&(R2&(_&Hfd2&Hcm2)&St2&_)).
  rewrite (Hgr Hgen Hroom) in R2. apply wp_modify. exists meta. simpl. rewrite El. split_and!; try done.
  - split; simpl.
    + exists m. split; [done|]. split; [rewrite (ns_mutexes _ _ St2), So2; done|]. intros s0 [= <-]. rewrite Hcm2. by apply Hne.
    + exists server2. split; [done|]. split; [done|]. unfold ht_tcp_server_is_running in *. by rewrite Hfd2.
    + by exists b.
    + done.
    + intros fd' [n' E']. simpl in E'. congruence.
  - by rewrite (ns_klasses _ _ St2).
  - unfold sent_to in *. by rewrite Ed, Hsent.
Qed.

Lemma greeting_spec w fds content fd n K1 K2 K3 K4 ps :
  tl_rep w fds content -> accepts w fds fd -> metadata_ready (net_sys (tw_net w)) K1 K2 K3 K4 ps ->
  wp (tcp_listener_greet n) (fun _ w' => exists meta,
    metadata_events (net_sys (tw_net w)) ps meta /\ Forall (pushed_ok (klasses (net_sys (tw_net w)))) meta /\
    tl_rep w' fds content /\ klasses (net_sys (tw_net w')) = klasses (net_sys (tw_net w)) /\ buffer_size w' = buffer_size w /\
    tw_log w' = tw_log w /\ tw_joining w' = Some (n, fd) /\ sent_to fd (tw_net w') = sent_to fd (tw_net w) ++ wire_cells meta) w.
Proof.
  intros R A MR. pose proof A as [Hgen Hroom _ _ Hnew _ _ _]. pose proof R as [(m&Em&Hm&Hne) (server&Es&Rs&Hrun) (b&Eb&Rb) Hfl _].
  unfold tcp_listener_greet. apply wp_bind. unfold field at 1. apply wp_bind, wp_gets. eapply wp_some; [exact Es|]. rewrite some_bind.
  eapply wp_call; [by eapply greet_spec|]. intros o w1 (->&meta&Hev&Hok&(So1&So2&So3&So4&So5)&El&Elog&_&Hsent). apply wp_modify.
  assert (server_rep (tw_net w1) server fds) as Rs1 by (by eapply server_rep_mono). exists meta. unfold buffer_size. simpl. rewrite El. split_and!; try done.
  split; simpl; rewrite ?El.
  - exists m. split; [done|]. split; [by rewrite So2|]. done.
  - by exists server.
  - by exists b.
  - done.
  - intros fd' [n' E']. injection E' as _ <-. done.
Qed.

(** A client connects, and batches are pushed. *)
Lemma client_trace_spec w fds content fd bs K1 K2 K3 K4 ps :
  tl_rep w fds content -> accepts w fds fd -> metadata_ready (net_sys (tw_net w)) K1 K2 K3 K4 ps ->
  Forall (batch_ok (klasses (net_sys (tw_net w))) (buffer_size w)) bs ->
  wp (tcp_listener_accept;; pushes bs) (fun _ w' => exists meta fds' content' x,
    metadata_events (net_sys (tw_net w)) ps meta /\ Forall (pushed_ok (klasses (net_sys (tw_net w)))) meta /\
    tl_rep w' fds' content' /\ fd ∈ fds' /\ sent_to fd (tw_net w') = sent_to fd (tw_net w) ++ wire_cells meta ++ x /\
    whole_batches content bs x /\ x ++ content' = content ++ (bs ≫= batch_stream)) w.
Proof.
  intros R A MR HF. eapply wp_call; [by eapply accept_spec|]. intros _ w1 (meta&Hev&Hok&R1&Ek&Esz&Hs).
  eapply wp_mono; [apply (pushes_spec bs w1 (fds ++ [fd]) content R1); by rewrite Ek, Esz|].
  intros _ w2 (fds2&c2&x&R2&_&_&(T1&_)&W&Ex). destruct (T1 fd) as [Hin Hs2]; [apply elem_of_app; right; by left|apply A|].
  exists meta, fds2, c2, (concat x). split_and!; try done. by rewrite Hs2, Hs, app_assoc.
Qed.

(** The same when the client is added after [n] flushes. *)
Lemma late_client_spec w fds content fd bs n K1 K2 K3 K4 ps :
  tl_rep w fds content -> accepts w fds fd -> metadata_ready (net_sys (tw_net w)) K1 K2 K3 K4 ps ->
  Forall (batch_ok (klasses (net_sys (tw_net w))) (buffer_size w)) bs ->
  wp (tcp_listener_greet n;; pushes bs) (fun _ w' => exists meta fds' content' x,
    metadata_events (net_sys (tw_net w)) ps meta /\ Forall (pushed_ok (klasses (net_sys (tw_net w)))) meta /\
    tl_rep w' fds' content' /\ tw_log w' = tw_log w ++ x /\ concat x ++ content' = content ++ (bs ≫= batch_stream) /\
    sent_to fd (tw_net w') = sent_to fd (tw_net w) ++ wire_cells meta ++ concat (drop n x) /\ (fd ∈ fds' <-> (n < length x)%nat)) w.
Proof.
  intros R A MR HF. eapply wp_call; [by eapply (greeting_spec w fds content fd n)|]. intros _ w1 (meta&Hev&Hok&R1&Ek&Esz&Elog&Ej&Hs).
  eapply wp_mono; [apply (pushes_spec bs w1 fds content R1); by rewrite Ek, Esz|].
  intros _ w2 (fds2&c2&x&R2&_&L2&(_&_&_&J)&_&Ex). unfold joined in J. rewrite Ej in J.
  exists meta, fds2, c2, x. split_and!; try done; [by rewrite L2, Elog| |]; destruct (decide (length x <= n)%nat) as [Hx|Hx].
  - destruct J as (_&_&_&->). by rewrite Hs, drop_ge, !app_nil_r by lia.
  - destruct J as [_ [_ ->]]; [apply A|apply A|apply A|]. by rewrite Hs, <- !app_assoc.
  - destruct J as (_&Hn&_). split; [done|lia].
  - destruct J as [_ [Hin _]]; [apply A|apply A|apply A|]. split; [lia|done].
Qed.

(** C13: a client gets a trace.  A client that connects to a running listener
    is first sent the complete metadata, and from the moment its socket is added
    to those of the server everything that the listener flushes: no byte is lost,
    repeated or reordered, whatever happens to the other clients.  If it is added
    while nothing is pushed, it is sent what was still in the buffer and the
    batches that are pushed then, and every time it has received something, it has
    received whole batches, the rest being in the buffer.  The accepting
    thread may as well add it between two flushes of one push: it is then sent the
    flushes that follow, which may start inside a batch.  (The client's
    connection does not break, memory is not refused, and the listener's callback
    has been set.) *)
Theorem tcp_client_gets_trace w fds content fd bs K1 K2 K3 K4 ps :
  tl_rep w fds content -> accepts w fds fd -> metadata_ready (net_sys (tw_net w)) K1 K2 K3 K4 ps ->
  Forall (batch_ok (klasses (net_sys (tw_net w))) (buffer_size w)) bs ->
  wp (tcp_listener_accept;; pushes bs) (fun _ w' => exists meta fds' content' x,
    metadata_events (net_sys (tw_net w)) ps meta /\ Forall (pushed_ok (klasses (net_sys (tw_net w)))) meta /\
    tl_rep w' fds' content' /\ fd ∈ fds' /\ sent_to fd (tw_net w') = sent_to fd (tw_net w) ++ wire_cells meta ++ x /\
    whole_batches content bs x /\ x ++ content' = content ++ (bs ≫= batch_stream)) w /\
  forall n, wp (tcp_listener_greet n;; pushes bs) (fun _ w' => exists meta fds' content' x,
    metadata_events (net_sys (tw_net w)) ps meta /\ Forall (pushed_ok (klasses (net_sys (tw_net w)))) meta /\
    tl_rep w' fds' content' /\ tw_log w' = tw_log w ++ x /\ concat x ++ content' = content ++ (bs ≫= batch_stream) /\
    sent_to fd (tw_net w') = sent_to fd (tw_net w) ++ wire_cells meta ++ concat (drop n x) /\ (fd ∈ fds' <-> (n < length x)%nat)) w.
Proof. intros R A MR HF. split; [by eapply client_trace_spec|]. intros n. by eapply late_client_spec. Qed.

(** ** A listener is created *)

(** A new listener, whose callback is not set; what there was before is as it
    was. *)
Record created_listener w (n : Z) w' : Prop := {
  cl_rep : tl_rep w' [] [];
  cl_size : buffer_size w' = n;
  cl_callback : _client_connected_callback (tw_listener w') = None;
  cl_env : net_env (tw_net w) (tw_net w');
  cl_live : forall r, is_Some (live (tw_net w) !! r) -> live (tw_net w') !! r = live (tw_net w) !! r;
  cl_mutexes : forall m, is_Some (mutexes (net_sys (tw_net w)) !! m) -> mutexes (net_sys (tw_net w')) !! m = mutexes (net_sys (tw_net w)) !! m;
  cl_sent : delivered (tw_net w') = delivered (tw_net w);
  cl_joining : tw_joining w' = tw_joining w
}.

Lemma fresh_kept (l : gmap ptr Z) p n r : l !! p = None -> is_Some (l !! r) -> <[p := n]> l !! r = l !! r.
Proof. intros Hp [x Hr]. apply lookup_insert_ne. intros ->. congruence. Qed.

Lemma listener_create_spec port n w :
  generous -> listening -> 0 < n < 2 ^ 63 -> sys_wf (net_sys (tw_net w)) ->
  wp (ht_tcp_listener_create port n) (fun r w' => r = (HT_ERR_OK, true) /\ created_listener w n w') w.
Proof.
  intros Hg Hl Hn [Hwf _]. assert (server_memory) as G by (split_and!; by apply Hg). unfold ht_tcp_listener_create.
  apply wp_bind, wp_zoom, wp_zoom, wp_zoom, ht_alloc_granted; [by apply Hg|]. intros p h1 Hp _ Hf1 (E1&_&_). rewrite decide_False by done.
  apply wp_bind, wp_modify. unfold ht_tcp_listener_init. apply wp_bind, wp_bind, wp_zoom, wp_zoom, wp_zoom.
  unfold ht_listener_buffer_init. rewrite decide_False by lia. apply wp_bind, ht_alloc_granted; [apply Hg; lia|]. intros d h2 Hd _ Hf2 (E2&_&_).
  rewrite decide_False by done. apply wp_ret. apply wp_bind, wp_modify, wp_bind, wp_modify, wp_bind, wp_modify.
  apply wp_bind, wp_zoom, wp_zoom. unfold ht_mutex_create. apply wp_bind, wp_zoom, ht_alloc_granted; [by apply Hg|]. intros m h3 Hm _ Hf3 (E3&_&_).
  rewrite decide_False by done. apply wp_bind, wp_modify, wp_ret, wp_bind, wp_modify.
  cbn in Hf1, E1, Hf2, E2, Hf3, E3. fold (live (tw_net w)) in *. rewrite E1 in Hf2, E2. rewrite E2 in Hf3, E3.
  apply wp_bind, wp_zoom.
  match goal with |- wp ht_tcp_server_create _ ?n0 => set (n3 := n0);
    assert (L3 : live n3 = blocks h3) by reflexivity; assert (D3 : delivered n3 = delivered (tw_net w)) by reflexivity;
    assert (M3 : mutexes (net_sys n3) = <[m := false]> (mutexes (net_sys (tw_net w)))) by reflexivity;
    assert (N3 : net_env (tw_net w) n3) by (by split) end. clearbody n3.
  eapply wp_mono; [by apply server_create_spec|]. intros server n4 (R4&Hfd4&Ht4&F4&D4&N4&M4&Hfr4). cbn beta.
  apply wp_bind, wp_modify, wp_bind, wp_gets, wp_bind, wp_zoom.
  match goal with |- wp _ _ ?n0 => change n0 with n4 end. eapply wp_mono; [by apply server_start_spec|].
  intros [ok server5] n5 (L5&R5&Hok). rewrite (Hok Hl) in *. destruct (R5 eq_refl) as [R5' Hrun]. destruct L5 as (_&_&Em5&S5&F5&D5).
  apply wp_bind, wp_modify, wp_ret. rewrite decide_False by tauto. apply wp_ret. split; [done|].
  pose proof (frame_trans _ _ _ _ _ _ F4 F5) as [F _]. rewrite L3 in F, Hfr4.
  assert (forall r, is_Some (live (tw_net w) !! r) -> live n5 !! r = live (tw_net w) !! r) as Hlive.
  { intros r Hr. assert (blocks h3 !! r = live (tw_net w) !! r) as E0.
    { rewrite E3. pose proof (fresh_kept _ p sizeof_HT_TCPListener r Hf1 Hr) as A1.
      pose proof (fresh_kept _ d n r Hf2 (eq_ind_r is_Some Hr A1)) as A2. rewrite <- A1, <- A2. apply fresh_kept; [done|]. by rewrite A2, A1. }
    destruct (F r) as [_ ->]; [apply not_elem_of_nil|rewrite E0; done|]. done. }
  assert (client_mutex server5 <> m) as Hne.
  { rewrite Em5. intros <-. by rewrite E3, lookup_insert_eq in Hfr4. }
  split; cbn.
  - split; cbn.
    + exists m. split; [done|]. split; [|intros s0 [= <-]; done]. rewrite (ns_mutexes _ _ S5), M4, M3, <- Em5. rewrite lookup_insert_ne by done. apply lookup_insert_eq.
    + by exists server5.
    + eexists. split; [done|]. split; simpl; rewrite ?length_replicate; try done; lia.
    + done.
    + intros fd _. apply not_elem_of_nil.
  - done.
  - done.
  - eapply (net_env_trans _ n4); [|by apply net_step_env]. by eapply net_env_trans.
  - exact Hlive.
  - intros m' Hm'. rewrite (ns_mutexes _ _ S5), M4, M3. pose proof (Hwf _ Hm') as Hb. fold (live (tw_net w)) in Hb.
    rewrite !lookup_insert_ne; [done| |].
    + intros <-. destruct Hb as [x Hb].
      apply lookup_insert_None in Hf3 as [[Hf3 _]%lookup_insert_None _]. congruence.
    + intros Hz. rewrite <- Hz in Hb. rewrite E3 in Hfr4. destruct Hb as [x Hb].
      apply lookup_insert_None in Hfr4 as [[[Hfr4 _]%lookup_insert_None _]%lookup_insert_None _]. congruence.
  - by rewrite D5, D4.
  - done.
Qed.

(** ** Stopping *)

(** The mutex [m] is not held. *)
Definition not_held (m : ptr) (n : net_state E) : Prop := mutexes (net_sys n) !! m <> Some true.

Definition keeps_mutexes {A} (p : ST (net_state E) A) : Prop :=
  forall n, wlp p (fun _ n' => mutexes (net_sys n') = mutexes (net_sys n)) n.

Lemma keeps_bind_mutexes {A B} (p : ST (net_state E) A) (f : A -> ST (net_state E) B) :
  keeps_mutexes p -> (forall a, keeps_mutexes (f a)) -> keeps_mutexes (p ≫= f).
Proof.
  intros Hp Hf n. apply wlp_bind. eapply wlp_mono; [apply Hp|]. intros a n1 E1. eapply wlp_mono; [apply Hf|]. intros b n2 E2. congruence.
Qed.

Lemma keeps_heap {A} (p : ST heap A) : keeps_mutexes (heap_op p).
Proof. intros n. unfold wlp, heap_op, zoom. simpl. by destruct (p (sheap (net_sys n))) as [[??]| |]. Qed.

Lemma keeps_ret_mutexes {A} (a : A) : keeps_mutexes (mret a).
Proof. by intros n. Qed.

Lemma keeps_some {A} (o : option A) : keeps_mutexes (some_or_undef o).
Proof. intros n. by destruct o. Qed.

Lemma keeps_send_loop fuel fd buffer sent : keeps_mutexes (send_loop fuel fd buffer sent).
Proof.
  revert sent. induction fuel as [|fuel IH]; intros sent; [by intros n|]. cbn [send_loop]. case_decide; [|apply keeps_ret_mutexes].
  apply keeps_bind_mutexes; [by intros n|]. intros k. case_decide; [apply keeps_ret_mutexes|apply IH].
Qed.

Lemma keeps_write_to_socket fd buffer : keeps_mutexes (ht_tcp_server_write_to_socket fd buffer).
Proof. unfold ht_tcp_server_write_to_socket. case_decide; [apply keeps_ret_mutexes|apply keeps_send_loop]. Qed.

Lemma keeps_write_loop fuel buffer b i : keeps_mutexes (write_loop fuel buffer b i).
Proof.
  revert b i. induction fuel as [|fuel IH]; intros b i; [by intros n|]. cbn [write_loop]. case_decide; [|apply keeps_ret_mutexes].
  apply keeps_bind_mutexes; [apply keeps_some|]. intros fd. apply keeps_bind_mutexes; [apply keeps_write_to_socket|].
  intros []; [apply IH|]. apply keeps_bind_mutexes; [apply keeps_heap|]. intros b'. apply IH.
Qed.

Lemma wlp_lock m0 (n : net_state E) : wlp (zoom (ht_mutex_lock m0)) (fun _ n' => mutexes (net_sys n') = <[m0 := true]> (mutexes (net_sys n))) n.
Proof. unfold wlp, zoom, ht_mutex_lock, mbind, st_bind, get, require. simpl. by destruct (bool_decide _). Qed.

Lemma wlp_unlock m0 (n : net_state E) :
  wlp (zoom (ht_mutex_unlock m0)) (fun _ n' => mutexes (net_sys n') = <[m0 := false]> (mutexes (net_sys n)) /\ mutexes (net_sys n) !! m0 = Some true) n.
Proof. unfold wlp, zoom, ht_mutex_unlock, mbind, st_bind, get, require. simpl. by destruct (bool_decide _) eqn:E1; [apply bool_decide_eq_true in E1|]. Qed.

(** After a critical section neither its mutex nor another one is held. *)
Lemma not_held_critical m m0 (n n1 n2 n3 : net_state E) :
  not_held m n -> mutexes (net_sys n1) = <[m0 := true]> (mutexes (net_sys n)) -> mutexes (net_sys n2) = mutexes (net_sys n1) ->
  mutexes (net_sys n3) = <[m0 := false]> (mutexes (net_sys n2)) -> not_held m n3.
Proof.
  intros Hm E1 E2 E3. unfold not_held in *. rewrite E3, E2, E1.
  destruct (decide (m = m0)) as [->|Hne]; [by rewrite lookup_insert_eq|]. by rewrite !lookup_insert_ne.
Qed.

Lemma server_write_not_held m server buffer n :
  not_held m n -> wlp (ht_tcp_server_write server buffer) (fun _ n' => not_held m n') n.
Proof.
  intros Hm. unfold ht_tcp_server_write. apply wlp_bind. eapply wlp_mono; [apply wlp_lock|]. intros ? n1 E1.
  apply wlp_bind. eapply wlp_mono; [apply keeps_some|]. intros b n2 E2. apply wlp_bind. eapply wlp_mono; [apply keeps_write_loop|]. intros b' n3 E3.
  apply wlp_bind. eapply wlp_mono; [apply wlp_unlock|]. intros _ n4 [E4 _]. apply wlp_ret. apply (not_held_critical m (client_mutex server) n n1 n3 n4); [done|done|congruence|done].
Qed.

Lemma add_client_not_held m server fd n :
  not_held m n -> wlp (add_client server fd) (fun _ n' => not_held m n') n.
Proof.
  intros Hm. unfold add_client. apply wlp_bind. eapply wlp_mono; [apply wlp_lock|]. intros ? n1 E1.
  apply wlp_bind. eapply wlp_mono; [apply keeps_some|]. intros b n2 E2. apply wlp_bind. eapply wlp_mono; [apply keeps_heap|]. intros [err b'] n3 E3.
  apply wlp_bind. eapply wlp_mono; [apply wlp_unlock|]. intros _ n4 [E4 _]. apply wlp_ret. apply (not_held_critical m (client_mutex server) n n1 n3 n4); [done|done|congruence|done].
Qed.

Lemma server_stop_not_held m server n :
  not_held m n -> wlp (ht_tcp_server_stop server) (fun _ n' => not_held m n') n.
Proof.
  intros Hm. unfold ht_tcp_server_stop. destruct (negb _); [by apply wlp_ret|]. apply wlp_bind. eapply wlp_mono; [apply wlp_lock|]. intros ? n1 E1.
  apply wlp_bind. eapply wlp_mono; [apply keeps_some|]. intros b n2 E2. apply wlp_bind. eapply wlp_mono; [apply keeps_heap|]. intros b' n3 E3.
  apply wlp_bind. eapply wlp_mono; [apply wlp_unlock|]. intros _ n4 [E4 _].
  assert (not_held m n4) as Hm4 by (apply (not_held_critical m (client_mutex server) n n1 n3 n4); [done|done|congruence|done]). cbv zeta.
  apply wlp_bind. unfold wlp at 1, shutdown, modify. set (n4' := set_descriptors _ n4). change (not_held m n4') in Hm4. clearbody n4'.
  case_decide; [|by apply wlp_ret]. apply wlp_bind. eapply wlp_mono; [apply keeps_heap|]. intros ? n5 E5. apply wlp_ret. unfold not_held. by rewrite E5.
Qed.

Lemma server_destroy_not_held m server n :
  not_held m n -> wlp (ht_tcp_server_destroy server) (fun _ n' => not_held m n') n.
Proof.
  intros Hm. unfold ht_tcp_server_destroy. apply wlp_bind. eapply wlp_mono; [by apply server_stop_not_held|]. intros server1 n1 Hm1.
  apply wlp_bind. eapply wlp_mono; [apply keeps_some|]. intros b n2 E2. apply wlp_bind. eapply wlp_mono; [apply keeps_heap|]. intros b' n3 E3.
  apply wlp_bind. eapply (wlp_mono _ (fun _ n' => mutexes (net_sys n') = delete (client_mutex server1) (mutexes (net_sys n3)))).
  { unfold wlp, zoom, ht_mutex_destroy, mbind, st_bind, get, require. simpl. destruct (bool_decide _); [|done]. cbn.
    unfold zoom. cbn. by destruct (ht_free _ _) as [[??]| |]. }
  intros ? n4 E4. eapply wlp_mono; [apply keeps_heap|]. intros ? n5 E5. unfold not_held in *. rewrite E5, E4, E3, E2.
  destruct (decide (m = client_mutex server1)) as [->|Hne]; [by rewrite lookup_delete_eq|]. by rewrite lookup_delete_ne.
Qed.

Lemma wlp_zoom_net {A} (p : ST (net_state E) A) (Q : A -> tcp_world E -> Prop) w :
  wlp p (fun a n => Q a (TcpWorld n (tw_listener w) (tw_log w) (tw_joining w))) (tw_net w) -> wlp (net_op p) Q w.
Proof. unfold wlp, net_op, zoom. simpl. by destruct (p (tw_net w)) as [[??]| |]. Qed.

Lemma wlp_some {S A} (o : option A) (Q : A -> S -> Prop) st : (forall a, o = Some a -> Q a st) -> wlp (some_or_undef o) Q st.
Proof. intros HQ. destruct o; [by apply HQ|done]. Qed.

Lemma wlp_field {A} (f : HT_TCPListener -> option A) (Q : A -> tcp_world E -> Prop) w :
  (forall a, f (tw_listener w) = Some a -> Q a w) -> wlp (field f) Q w.
Proof. intros HQ. unfold field. apply wlp_bind. by apply wlp_some. Qed.

Lemma add_joining_not_held m server w : not_held m (tw_net w) -> wlp (add_joining server) (fun _ w' => not_held m (tw_net w')) w.
Proof.
  intros Hm. unfold add_joining. apply wlp_bind. unfold wlp at 1, gets. destruct (tw_joining w) as [[[|n] fd]|]; [| |by apply wlp_ret].
  - apply wlp_bind. unfold wlp at 1, set_joining, modify. apply wlp_zoom_net. eapply wlp_mono; [by apply (add_client_not_held m)|]. done.
  - apply wlp_bind. unfold wlp at 1, set_joining, modify. by apply wlp_ret.
Qed.

(** The flush callback needs a server. *)
Lemma f_flush_not_held m cells w : not_held m (tw_net w) ->
  wlp (ht_tcp_listener_f_flush cells) (fun _ w' => not_held m (tw_net w') /\ (exists server, _tcp_server (tw_listener w') = Some (Some server)) /\
    exists server, _tcp_server (tw_listener w) = Some (Some server)) w.
Proof.
  intros Hm. unfold ht_tcp_listener_f_flush. apply wlp_bind, wlp_field. intros o Es. apply wlp_bind, wlp_some. intros server ->.
  apply wlp_bind. eapply wlp_mono; [by apply (add_joining_not_held m)|]. intros server1 w1 Hm1.
  apply wlp_bind, wlp_zoom_net. eapply wlp_mono; [by apply (server_write_not_held m)|]. intros server' n' Hm'. cbn beta.
  apply wlp_bind. unfold wlp at 1, set_listener, modify. apply wlp_bind. unfold wlp at 1. unfold wlp. cbn. split; [done|]. split; [by exists server'|by exists server].
Qed.

Lemma flush_not_held m w : not_held m (tw_net w) ->
  wlp ht_tcp_listener_flush (fun _ w' => not_held m (tw_net w') /\ (exists server, _tcp_server (tw_listener w') = Some (Some server)) /\
    exists server, _tcp_server (tw_listener w) = Some (Some server)) w.
Proof.
  intros Hm. unfold ht_tcp_listener_flush. apply wlp_bind. unfold wlp at 1, get. apply wlp_bind, wlp_field. intros o _.
  apply wlp_bind, wlp_field. intros b _. cbv zeta. apply wlp_bind. unfold ht_listener_buffer_flush. apply wlp_bind, wlp_some. intros cells _.
  apply wlp_bind. eapply wlp_mono; [by apply (f_flush_not_held m)|]. intros ? w1 HP. by apply wlp_ret.
Qed.

Lemma stop_never_returns w : wlp ht_tcp_listener_stop (fun _ _ => False) w.
Proof.
  unfold ht_tcp_listener_stop. apply wlp_bind, wlp_field. intros m _. apply wlp_bind, wlp_zoom_net. eapply wlp_mono; [apply wlp_lock|].
  intros ? n1 _. cbn beta. set (w1 := TcpWorld n1 _ _ _). apply wlp_bind. unfold _ht_tcp_listener_is_stopped.
  apply wlp_bind, wlp_field. intros o Es. apply wlp_ret. destruct o as [server|].
  2: { cbn [negb]. apply wlp_bind, wlp_ret, wlp_bind. unfold ht_tcp_listener_flush. apply wlp_bind. unfold wlp at 1, get.
       apply wlp_bind, wlp_field. intros o _. apply wlp_bind, wlp_field. intros b _. cbv zeta. apply wlp_bind. unfold ht_listener_buffer_flush.
       apply wlp_bind, wlp_some. intros cells _. apply wlp_bind. cbn [flush_callback tcp_sink]. unfold ht_tcp_listener_f_flush.
       apply wlp_bind, wlp_field. intros o' Es'. rewrite Es in Es'. injection Es' as <-. by apply wlp_bind, wlp_some. }
  cbn [negb]. apply wlp_bind, wlp_zoom_net. eapply wlp_mono; [apply wlp_unlock|]. intros ? n2 [E2 _]. cbn beta.
  assert (not_held m n2) as Hm by (unfold not_held; by rewrite E2, lookup_insert_eq).
  apply wlp_bind. eapply wlp_mono; [by apply (flush_not_held m)|]. intros ? w3 [Hm3 _].
  apply wlp_bind, wlp_field. intros o _. apply wlp_bind, wlp_some. intros server3 _.
  apply wlp_bind, wlp_zoom_net. eapply wlp_mono; [by apply (server_stop_not_held m)|]. intros server4 n4 Hm4. cbn beta.
  apply wlp_bind, wlp_field. intros b _. apply wlp_bind, wlp_zoom_net. eapply wlp_mono; [apply keeps_heap|]. intros ? n5 E5. cbn beta.
  apply wlp_bind, wlp_zoom_net. eapply wlp_mono; [apply (server_destroy_not_held m)|]; [unfold not_held; cbn in *; by rewrite E5|]. intros ? n6 Hm6. cbn beta.
  apply wlp_bind. unfold wlp at 1, set_listener, modify. apply wlp_bind, wlp_zoom_net. eapply wlp_mono; [apply wlp_unlock|].
  intros ? n7 [_ E7]. by destruct Hm6.
Qed.

Lemma push_metadata_listener batches w : wlp (push_metadata batches) (fun _ w' => tw_listener w' = tw_listener w) w.
Proof.
  revert w. induction batches as [|b batches IH]; intros w; [by apply wlp_ret|]. cbn [push_metadata]. apply wlp_bind.
  eapply (wlp_mono _ (fun _ w' => tw_listener w' = tw_listener w)).
  - unfold ht_tcp_listener_metadata_pusher, require. destruct b.2; [|done]. apply wlp_bind, wlp_ret.
    apply wlp_bind, wlp_field. intros m _. apply wlp_bind, wlp_zoom_net, wlp_any. intros _ n1.
    apply wlp_bind, wlp_field. intros server _. apply wlp_bind, wlp_field. intros fd _. apply wlp_bind, wlp_zoom_net, wlp_any. intros _ n2.
    apply wlp_zoom_net, wlp_any. done.
  - intros ? w1 E1. eapply wlp_mono; [apply IH|]. intros ? w2 E2. cbn beta in *. congruence.
Qed.

Lemma unset_callback_never_returns w fd :
  _client_connected_callback (tw_listener w) = None -> wlp (ht_tcp_listener_client_connected fd) (fun _ _ => False) w.
Proof.
  intros Ec. unfold ht_tcp_listener_client_connected. apply wlp_bind. unfold wlp at 1, set_listener, modify. apply wlp_bind. unfold wlp at 1, gets.
  apply wlp_bind, wlp_zoom_net, wlp_any. intros batches n1. cbn beta. apply wlp_bind. eapply wlp_mono; [apply push_metadata_listener|].
  intros ? w2 E2. apply wlp_bind, wlp_field. intros c Ec'. rewrite E2 in Ec'. cbn in Ec'. congruence.
Qed.

Lemma wlp_false {A} (p : ST (tcp_world E) A) w a w' : wlp p (fun _ _ => False) w -> p w <> Done (a, w').
Proof. unfold wlp. intros W E1. by rewrite E1 in W. Qed.

(** C36: ways in which the listener is undefined.  ht_tcp_listener_stop
    releases its mutex when the listener is running, where it means to when it
    is already stopped, and unlocks it twice more at the end; on a stopped
    listener it goes on with a server that is gone.  So no call of it ever
    returns in a defined way, in any state, and neither does a call of
    ht_tcp_listener_destroy on a listener that has a server, or whose server
    was not set yet: this includes the timeline that destroys its listeners
    and the error paths of ht_tcp_listener_create.  And a client that
    connects before the callback for it has been set makes the listener read
    an uninitialised pointer. *)
Theorem tcp_listener_undefined w fd a w' :
  ht_tcp_listener_stop w <> Done (a, w') /\
  (_tcp_server (tw_listener w) <> Some None -> ht_tcp_listener_destroy w <> Done (a, w')) /\
  (_client_connected_callback (tw_listener w) = None -> ht_tcp_listener_client_connected fd w <> Done (a, w')).
Proof.
  split; [apply wlp_false, stop_never_returns|]. split; [|intros Ec; by apply wlp_false, unset_callback_never_returns].
  intros Hn. apply wlp_false. unfold ht_tcp_listener_destroy, _ht_tcp_listener_is_stopped. apply wlp_bind, wlp_bind, wlp_field.
  intros [server|] Es; [|done]. apply wlp_ret. apply wlp_bind. eapply wlp_mono; [apply stop_never_returns|]. done.
Qed.

End tcp_listener.

(** ** A listener and its first client *)

Section samples.

#[local] Existing Instance always_granted.
#[local] Existing Instance log_host.
#[local] Existing Instance little_endian.

(** Every client has the socket 5, and takes 100 bytes at a time. *)
#[refine, local] Instance one_client : Sockets := {
  os_socket _ := 3;
  os_setsockopt _ _ := 0;
  os_bind _ _ _ := 0;
  os_listen _ _ := 0;
  os_accept _ _ := 5;
  os_send _ _ len := Z.min 100 (Z.of_nat len)
}.
Proof. intros n fd len. lia. Defined.

#[local] Instance silent_client : ClientHost (list call) := {| run_client_connected _ _ _ e := e |}.

Definition before_listener : tcp_world (list call) :=
  TcpWorld (Net ready_sys ∅ 0 ∅) (TCPListener NULL None None None None None None) [] None.

Definition sample_pushes : list batch := [Serialized (Byte <$> [1; 2; 3]); Serialized (Byte <$> [4; 5]); Serialized (Byte <$> [6])].

Lemma ready_sys_wf : sys_wf ready_sys.
Proof.
  split; [apply (iw_mutexes _ sample_io_wf)|]. intros p [x Hp]. revert p x Hp. apply map_Forall_lookup, (bool_decide_unpack _). by vm_compute.
Qed.

Lemma sample_listener : exists w, created_listener before_listener 4 w.
Proof.
  destruct (wp_inv _ _ _ (listener_create_spec 8765 4 before_listener always_generous
    ltac:(by intros n fd port) ltac:(lia) ready_sys_wf)) as (?&w&_&_&C).
  by exists w.
Qed.

(** A batch of six bytes goes through a buffer of four in two flushes; the
    client that is added between them gets the end of it. *)
Definition after_late_join : tcp_world (list call) :=
  match ht_tcp_listener_create 8765 4 before_listener with
  | Done (_, w) => match (ht_tcp_listener_set_on_client_connected_callback NULL NULL;; tcp_listener_greet 1;;
                          pushes [Serialized (Byte <$> [1; 2; 3; 4; 5; 6])]) w with Done (_, w) => w | _ => w end
  | _ => before_listener
  end.

Lemma late_client_starts_inside :
  tw_log after_late_join = [Byte <$> [1; 2; 3; 4]; Byte <$> [5; 6]] /\
  drop (length (sent_to 5 (tw_net after_late_join)) - 2) (sent_to 5 (tw_net after_late_join)) = Byte <$> [5; 6].
Proof. split; vm_compute; reflexivity. Qed.

Lemma tcp_client_gets_trace_witness : exists w, tl_rep w [] [] /\
  wp (tcp_listener_accept;; pushes sample_pushes) (fun _ w' => exists meta fds' content' x,
    metadata_events (net_sys (tw_net w)) [1; 2; 3; 4; 5; 6; 7; 8; 9] meta /\ Forall (pushed_ok (klasses (net_sys (tw_net w)))) meta /\
    tl_rep w' fds' content' /\ 5 ∈ fds' /\ sent_to 5 (tw_net w') = sent_to 5 (tw_net w) ++ wire_cells meta ++ x /\
    whole_batches [] sample_pushes x /\ x ++ content' = [] ++ (sample_pushes ≫= batch_stream)) w /\
  forall n, wp (tcp_listener_greet n;; pushes sample_pushes) (fun _ w' => exists meta fds' content' x,
    metadata_events (net_sys (tw_net w)) [1; 2; 3; 4; 5; 6; 7; 8; 9] meta /\ Forall (pushed_ok (klasses (net_sys (tw_net w)))) meta /\
    tl_rep w' fds' content' /\ tw_log w' = tw_log w ++ x /\ concat x ++ content' = [] ++ (sample_pushes ≫= batch_stream) /\
    sent_to 5 (tw_net w') = sent_to 5 (tw_net w) ++ wire_cells meta ++ concat (drop n x) /\ (5 ∈ fds' <-> (n < length x)%nat)) w.
Proof.
  destruct sample_listener as [w0 [R Hsz _ [Ek _ Er _ _] Hlive Hmx _ Hidle]].
  set (w := TcpWorld (tw_net w0) (tl_set_callback (NULL, NULL) (tw_listener w0)) (tw_log w0) (tw_joining w0)).
  assert (tl_rep w [] []) as Rw by (by destruct R; split). exists w. split; [exact Rw|].
  apply (tcp_client_gets_trace w [] [] 5 sample_pushes (registered HT_EndiannessInfoEvent 0)
           (registered HT_EventKlassInfoEvent 2) (registered HT_EventKlassFieldInfoEvent 3) (registered HT_SystemInfoEvent 8)).
  - exact Rw.
  - split; try done; [exact always_generous|apply not_elem_of_nil|intros n len Hlen; simpl; lia].
  - eapply (metadata_ready_mono ready_sys); [exact ready_sys_metadata|done..].
  - repeat constructor.
Defined.

(** A listener that was just created. *)
Definition new_listener : tcp_world (list call) :=
  match ht_tcp_listener_create 8765 4 before_listener with Done (_, w) => w | _ => before_listener end.

Lemma tcp_listener_undefined_witness :
  ht_tcp_listener_stop new_listener <> Done (tt, new_listener) /\ ht_tcp_listener_destroy new_listener <> Done (tt, new_listener) /\
  ht_tcp_listener_client_connected 5 new_listener <> Done (tt, new_listener).
Proof.
  destruct (tcp_listener_undefined new_listener 5 tt new_listener) as (H1&H2&H3). split; [exact H1|]. split; [apply H2|apply H3].
  - vm_compute. discriminate.
  - vm_compute. reflexivity.
Defined.

End samples.
