(* ===== verification/Features.v ===== *)
(** The features of timelines that the library comes with: the call stack
    (lib/feature_callstack.c) and the cached strings
    (lib/feature_cached_string.c), the functions that HT_FEATURE_DEFINE
    generates for them (feature.h), and the identifiers of threads
    (lib/thread.c).

    The objects of features are reached through the pointers that timelines
    hold, so they live in stores, next to the rest of the process. *)
From S2P Require Import Prelude Alloc BaseTypes Bag HashMap Memory Stack Events Listeners Registry Timeline.

#[local] Open Scope Z_scope.

Record HT_FeatureCachedString := CachedString {
  fcs_lock : ptr;
  dynamic_hashes : HT_HashMap;
  static_hashes : HT_HashMap
}.

(** [c_strings]: the C strings of the process, by address.  [callstack_id]
    and [cached_string_id] are the field id of the two static feature
    klasses; [thread_ids] is the thread-local variable of
    ht_thread_get_current_thread_id, [running] the thread that runs. *)
Record fenv (E : Type) := Fenv {
  host_env : E;
  callstacks : gmap ptr (HT_Stack memval);
  cached_strings : gmap ptr HT_FeatureCachedString;
  c_strings : gmap ptr (list Z);
  callstack_id : Z;
  cached_string_id : Z;
  _ht_current_thread_id : Z;
  thread_ids : gmap Z Z;
  running : Z
}.
Arguments Fenv {E} _ _ _ _ _ _ _ _ _.
Arguments host_env {E} _.
Arguments callstacks {E} _.
Arguments cached_strings {E} _.
Arguments c_strings {E} _.
Arguments callstack_id {E} _.
Arguments cached_string_id {E} _.
Arguments _ht_current_thread_id {E} _.
Arguments thread_ids {E} _.
Arguments running {E} _.

Definition set_host {E} (f : E -> E) (e : fenv E) : fenv E :=
  Fenv (f (host_env e)) (callstacks e) (cached_strings e) (c_strings e) (callstack_id e) (cached_string_id e)
       (_ht_current_thread_id e) (thread_ids e) (running e).
Definition set_callstacks {E} f (e : fenv E) : fenv E :=
  Fenv (host_env e) (f (callstacks e)) (cached_strings e) (c_strings e) (callstack_id e) (cached_string_id e)
       (_ht_current_thread_id e) (thread_ids e) (running e).
Definition set_cached_strings {E} f (e : fenv E) : fenv E :=
  Fenv (host_env e) (callstacks e) (f (cached_strings e)) (c_strings e) (callstack_id e) (cached_string_id e)
       (_ht_current_thread_id e) (thread_ids e) (running e).
Definition set_c_strings {E} f (e : fenv E) : fenv E :=
  Fenv (host_env e) (callstacks e) (cached_strings e) (f (c_strings e)) (callstack_id e) (cached_string_id e)
       (_ht_current_thread_id e) (thread_ids e) (running e).
Definition set_thread_ids {E} counter ids (e : fenv E) : fenv E :=
  Fenv (host_env e) (callstacks e) (cached_strings e) (c_strings e) (callstack_id e) (cached_string_id e)
       counter ids (running e).

(** Listeners and the clock do not touch the features. *)
#[export] Instance fenv_host {E} `{Host E} : Host (fenv E) := {
  run_listener cb events ser ud := set_host (run_listener cb events ser ud);
  run_destroy cb ud := set_host (run_destroy cb ud);
  read_clock e := let '(t, h) := read_clock (host_env e) in (t, set_host (fun _ => h) e)
}.

(** The destroy functions of the two klasses. *)
Definition at_ht_feature_callstack_destroy : ptr := 1.
Definition at_ht_feature_cached_string_destroy : ptr := 2.

Definition sizeof_HT_FeatureCallstack : Z := 72.
Definition sizeof_HT_FeatureCachedString : Z := 65552.

Section features.
  Context `{Malloc} `{Platform} {E : Type} `{Host E}.
  Implicit Types (s : sys (fenv E)) (t : HT_Timeline).

(** ** Threads *)

Definition ht_thread_get_current_thread_id : ST (sys (fenv E)) Z :=
  e ← gets senv;
  let thread_id := default 0 (thread_ids e !! running e) in
  if decide (thread_id = 0) then
    let thread_id := u32 (_ht_current_thread_id e + 1) in
    modify (set_env (set_thread_ids thread_id (<[running e := thread_id]> (thread_ids e))));;
    mret thread_id
  else mret thread_id.

(** ** The klasses and objects of HT_FEATURE_DEFINE *)

Definition HT_FeatureCallstack_get_class : ST (sys (fenv E)) HT_FeatureKlass :=
  e ← gets senv; mret (FeatureKlass at_ht_feature_callstack_destroy (callstack_id e)).

Definition HT_FeatureCachedString_get_class : ST (sys (fenv E)) HT_FeatureKlass :=
  e ← gets senv; mret (FeatureKlass at_ht_feature_cached_string_destroy (cached_string_id e)).

(** TYPE_NAME_from_timeline; a null pointer when the feature is not
    enabled. *)
Definition HT_FeatureCallstack_from_timeline t : ST (sys (fenv E)) ptr :=
  klass ← HT_FeatureCallstack_get_class;
  slot ← some_or_undef (ht_timeline_get_feature t klass);
  mret (match slot with Some f => fself f | None => NULL end).

Definition HT_FeatureCachedString_from_timeline t : ST (sys (fenv E)) ptr :=
  klass ← HT_FeatureCachedString_get_class;
  slot ← some_or_undef (ht_timeline_get_feature t klass);
  mret (match slot with Some f => fself f | None => NULL end).

Definition load_callstack (p : ptr) : ST (sys (fenv E)) (HT_Stack memval) :=
  e ← gets senv; some_or_undef (callstacks e !! p).
Definition store_callstack (p : ptr) (st : HT_Stack memval) : ST (sys (fenv E)) () :=
  modify (set_env (set_callstacks <[p := st]>)).
Definition load_cached_string (p : ptr) : ST (sys (fenv E)) HT_FeatureCachedString :=
  e ← gets senv; some_or_undef (cached_strings e !! p).
Definition store_cached_string (p : ptr) (f : HT_FeatureCachedString) : ST (sys (fenv E)) () :=
  modify (set_env (set_cached_strings <[p := f]>)).
Definition load_string (p : ptr) : ST (sys (fenv E)) (list Z) :=
  e ← gets senv; some_or_undef (c_strings e !! p).

(** ** Creation and destruction *)

Definition ht_feature_callstack_create : ST (sys (fenv E)) (HT_ErrorCode * option HT_Feature) :=
  klass ← HT_FeatureCallstack_get_class;
  feature ← zoom (ht_alloc sizeof_HT_FeatureCallstack);
  if decide (feature = NULL) then mret (HT_ERR_OUT_OF_MEMORY, None)
  else
    r ← zoom (ht_stack_init Indet 1024 32);
    match r with
    | inl error_code => zoom (ht_free feature);; mret (error_code, None)
    | inr stack => store_callstack feature stack;; mret (HT_ERR_OK, Some (Feature feature klass))
    end.

Definition ht_feature_callstack_destroy (feature : HT_Feature) : ST (sys (fenv E)) () :=
  stack ← load_callstack (fself feature);
  zoom (ht_stack_deinit stack);;
  modify (set_env (set_callstacks (delete (fself feature))));;
  zoom (ht_free (fself feature)).

Definition ht_feature_cached_string_create (thread_safe : bool)
    : ST (sys (fenv E)) (HT_ErrorCode * option HT_Feature) :=
  klass ← HT_FeatureCachedString_get_class;
  feature ← zoom (ht_alloc sizeof_HT_FeatureCachedString);
  if decide (feature = NULL) then mret (HT_ERR_OUT_OF_MEMORY, None)
  else
    r ← zoom ht_hash_map_init;
    match r with
    | inl error_code => zoom (ht_free feature);; mret (error_code, None)
    | inr static =>
        r ← zoom ht_hash_map_init;
        match r with
        | inl error_code => zoom (ht_hash_map_deinit static);; zoom (ht_free feature);; mret (error_code, None)
        | inr dynamic =>
            lock ← (if thread_safe then ht_mutex_create else mret NULL);
            if decide (thread_safe = true /\ lock = NULL) then
              zoom (ht_hash_map_deinit dynamic);; zoom (ht_hash_map_deinit static);;
              zoom (ht_free feature);; mret (HT_ERR_UNKNOWN, None)
            else
              store_cached_string feature (CachedString lock dynamic static);;
              mret (HT_ERR_OK, Some (Feature feature klass))
        end
    end.

(** The callback of the iteration over the dynamic labels: it frees the
    label. *)
Definition ht_feature_cached_string_destry_dynamic_labels (key : Z) (value : ptr) : ST (sys (fenv E)) bool :=
  modify (set_env (set_c_strings (delete value)));;
  zoom (ht_free value);;
  mret true.

Definition ht_feature_cached_string_destroy (f : HT_Feature) : ST (sys (fenv E)) () :=
  feature ← load_cached_string (fself f);
  ht_hash_map_for_each (dynamic_hashes feature) ht_feature_cached_string_destry_dynamic_labels;;
  zoom (ht_hash_map_deinit (dynamic_hashes feature));;
  zoom (ht_hash_map_deinit (static_hashes feature));;
  (if decide (fcs_lock feature <> NULL) then ht_mutex_destroy (fcs_lock feature) else mret ());;
  modify (set_env (set_cached_strings (delete (fself f))));;
  zoom (ht_free (fself f)).

(** feature->klass->destroy(feature), for the two features of the library;
    the features of others are destroyed by the host. *)
#[export] Instance fenv_features : FeatureOps (fenv E) := {
  destroy_feature f :=
    if decide (fk_destroy (fklass f) = at_ht_feature_callstack_destroy) then ht_feature_callstack_destroy f
    else if decide (fk_destroy (fklass f) = at_ht_feature_cached_string_destroy) then ht_feature_cached_string_destroy f
    else modify (set_env (run_destroy (fk_destroy (fklass f)) (fself f)))
}.

Definition ht_feature_callstack_enable t : ST (sys (fenv E)) (HT_ErrorCode * HT_Timeline) :=
  '(error_code, feature) ← ht_feature_callstack_create;
  match feature with
  | None => mret (error_code, t)
  | Some feature => ht_timeline_set_feature t feature
  end.

Definition ht_feature_cached_string_enable t (thread_safe : bool) : ST (sys (fenv E)) (HT_ErrorCode * HT_Timeline) :=
  '(error_code, feature) ← ht_feature_cached_string_create thread_safe;
  match feature with
  | None => mret (error_code, t)
  | Some feature => ht_timeline_set_feature t feature
  end.

(** ** What the features share *)

Definition pushed_of (ks : klass_store) (v : cval) : pushed :=
  Pushed v (default (klass_instance HT_Event) (event_klass ks v)) (default [] (wire ks v)).

(** A klass of the library, as ht_init registers it. *)
Definition klass_ready (ks : klass_store) (at_klass : ptr) (t : ctype) : Prop :=
  exists id, ks !! at_klass = Some (EventKlass (Some (get_type_info t)) t id).

Lemma pushed_of_ok ks v k bs : event_ok ks v k bs -> pushed_of ks v = Pushed v k bs.
Proof. intros [Hk _ _ _ Hw _]. unfold pushed_of, wire. by rewrite Hk; simpl; rewrite Hw. Qed.

(** A timeline is untouched by what happens to blocks that are not its
    container's. *)
Lemma tl_ready_move s s' t es evs :
  klasses s' = klasses s -> mutexes s' = mutexes s -> containers s' = containers s ->
  (forall c q, containers s !! tlisteners t = Some c -> q ∈ cont_ptrs (tlisteners t) c ->
     blocks (sheap s') !! q = blocks (sheap s) !! q) ->
  tl_ready s t es evs -> tl_ready s' t es evs.
Proof.
  intros Ek Em Ec Eb [[Hl Hx Hu Hc He [c CR]] Hlock]. split; [|by rewrite Em, Ec]. split; try done; [by rewrite Ek|].
  exists c. pose proof (cr_lookup _ _ _ _ CR) as Hlk.
  assert (Hq : forall q, q ∈ cont_ptrs (tlisteners t) c -> blocks (sheap s') !! q = blocks (sheap s) !! q) by eauto.
  unfold cont_ptrs in Hq. destruct CR as [? R ? Hlive ? ?].
  assert (Hall := fun q => Hq q). rewrite <- Forall_forall in Hq. apply Forall_cons in Hq as [E1 [E2 [E3 _]%Forall_cons]%Forall_cons].
  split; rewrite ?Em, ?Ec; try done.
  - eapply rep_live_mono; [|exact R]. done.
  - apply Forall_cons in Hlive as [[? ?] [[? ?] _]%Forall_cons]. repeat constructor; rewrite ?E1, ?E3; done.
Qed.

Lemma cont_keep s t es evs P P' live' :
  tl_ready s t es evs -> frame P P' (blocks (sheap s)) live' ->
  (forall c q, containers s !! tlisteners t = Some c -> q ∈ cont_ptrs (tlisteners t) c -> q ∉ P) ->
  forall c q, containers s !! tlisteners t = Some c -> q ∈ cont_ptrs (tlisteners t) c ->
    (q ∉ P') /\ live' !! q = blocks (sheap s) !! q.
Proof.
  intros [TR _] Hfr Hdisj c q Hc Hq. destruct (tl_cont _ _ _ _ TR) as [c' CR].
  pose proof (cr_lookup _ _ _ _ CR) as Hc'. rewrite Hc in Hc'. injection Hc' as <-.
  pose proof (cont_live _ _ _ _ CR) as HF. rewrite Forall_forall in HF. apply (proj1 Hfr); [by eapply Hdisj|by apply HF].
Qed.

(** Reading the clock, as the reference does. *)
Lemma clock_spec s (Q : Z -> sys (fenv E) -> Prop) :
  (let '(now, env) := read_clock (host_env (senv s)) in Q now (set_env (set_host (fun _ => env)) s)) ->
  wp get_timestamp Q s.
Proof. unfold get_timestamp, wp. simpl. by destruct (read_clock (host_env (senv s))) as [now env]. Qed.

Lemma deliver_host es ser out (e : fenv E) : deliver es ser out e = set_host (deliver es ser out) e.
Proof.
  unfold deliver, deliver_all. generalize ((fun b => (cells_of ser b, ser)) <$> out). intros l. revert e.
  induction l as [|[ev b] l IH]; intros e; simpl; [by destruct e|]. rewrite IH.
  enough (forall es (e : fenv E), notify_env es ev b e = set_host (notify_env es ev b) e) as -> by (by destruct e).
  clear. intros es. unfold notify_env. induction es as [|x es IH]; intros e; simpl; [by destruct e|]. rewrite IH. by destruct e.
Qed.

Lemma tl_owned_frame s s' t t' c P P' :
  tl_owned s t c -> mutexes s' = mutexes s -> containers s' = containers s ->
  tself t' = tself t -> tbuffer t' = tbuffer t -> locking_policy t' = locking_policy t -> tlisteners t' = tlisteners t ->
  frame P P' (blocks (sheap s)) (blocks (sheap s')) ->
  Forall (fun q => is_Some (blocks (sheap s) !! q) /\ q ∉ P) (tl_ptrs t c) ->
  tl_owned s' t' c /\ tl_ptrs t' c = tl_ptrs t c /\ Forall (fun q => is_Some (blocks (sheap s') !! q) /\ q ∉ P') (tl_ptrs t c).
Proof.
  intros [Hnn Hlk Hnd Hc Hrc] Em Ec Es Eb El Et Hfr HF.
  assert (Ep : tl_ptrs t' c = tl_ptrs t c) by (unfold tl_ptrs; by rewrite Es, Eb, El, Et).
  assert (HF' : Forall (fun q => blocks (sheap s') !! q = blocks (sheap s) !! q /\ q ∉ P') (tl_ptrs t c)).
  { eapply Forall_impl; [exact HF|]. intros q [Hl Hn]. destruct (proj1 Hfr q Hn Hl). done. }
  split_and!; [|done|].
  - rewrite Forall_forall in HF'.
    assert (Hk : forall q, q ∈ tl_ptrs t c -> blocks (sheap s') !! q = blocks (sheap s) !! q) by (intros q Hq; by apply HF').
    split; rewrite ?Ep, ?Es, ?Eb, ?El, ?Et, ?Em, ?Ec; try done.
    + apply Forall_cons in Hnn as [[? ?] [[? ?] _]%Forall_cons]. unfold tl_ptrs in Hk.
      repeat constructor; try done; rewrite Hk; try done; rewrite !elem_of_cons; tauto.
    + intros Hp. destruct (Hlk Hp) as [Hl Hm]. split; [|done]. rewrite Hk; [done|].
      unfold tl_ptrs. rewrite decide_False by done. do 2 right. left.
  - apply Forall_forall. intros q Hq. rewrite Forall_forall in HF, HF'. destruct (HF q Hq), (HF' q Hq) as [-> ?]. done.
Qed.

Lemma tl_ptrs_live s t c es evs : tl_ready s t es evs -> tl_owned s t c ->
  Forall (fun q => is_Some (blocks (sheap s) !! q)) (tl_ptrs t c).
Proof.
  intros [TR _] [Hnn Hlk _ Hc _]. destruct (tl_cont _ _ _ _ TR) as [c' CR].
  pose proof (cr_lookup _ _ _ _ CR) as Hc'. rewrite Hc in Hc'. injection Hc' as <-.
  apply Forall_cons in Hnn as [[? ?] [[? ?] _]%Forall_cons]. unfold tl_ptrs. repeat (apply Forall_cons; split; [done|]).
  apply Forall_app. split; [|by eapply cont_live]. case_decide as Hp; [constructor|]. apply Forall_singleton. by apply Hlk.
Qed.

Lemma destroy_env_host es (e : fenv E) : destroy_env es e = set_host (destroy_env es) e.
Proof.
  unfold destroy_env. revert e. induction es as [|x es IH]; intros e; simpl; [by destruct e|]. rewrite IH.
  case_decide; by destruct e.
Qed.

End features.
