(* ===== verification/Callstack.v ===== *)
(** The call stack feature (lib/feature_callstack.c, lib/scoped_tracepoint.c):
    the calls of a program, opened and closed like brackets, are reported as
    events with their durations.

    The reference is a list of open calls; it has no stack in memory, no
    timeline buffer in memory and no feature object. *)
From S2P Require Import Prelude Alloc BaseTypes Bag HashMap Memory Stack Events Listeners Registry Timeline Features.

#[local] Open Scope Z_scope.

(** HT_EVENT(event)->timestamp. *)
Fixpoint event_timestamp (v : cval) : option Z :=
  match v with
  | VEvent _ timestamp _ => Some timestamp
  | VStruct (v :: _) => event_timestamp v
  | _ => None
  end.

(** event->duration = ..., event->thread_id = ... for the
    HT_CallstackBaseEvent an event starts with. *)
Fixpoint set_call (duration thread_id : Z) (v : cval) : cval :=
  match v with
  | VStruct [VEvent k ts id; VScalar _; VScalar _] => VStruct [VEvent k ts id; VScalar duration; VScalar thread_id]
  | VStruct (v :: vs) => VStruct (set_call duration thread_id v :: vs)
  | v => v
  end.

Definition set_contents {V} (c : list V) (st : HT_Stack V) : HT_Stack V :=
  Stack (sizes_stack st) (sdata st) c (ssize st) (smin_capacity st) (scapacity st).

Section callstack.
  Context `{Malloc} `{Platform} {E : Type} `{Host E}.
  (** What the fields of an event hold before they are set. *)
  Context (garbage : Z).
  Implicit Types (s : sys (fenv E)) (t : HT_Timeline).

(** The error of ht_stack_push is ignored. *)
Definition ht_feature_callstack_start t (event : cval) : ST (sys (fenv E)) () :=
  f ← HT_FeatureCallstack_from_timeline t;
  event ← ht_timeline_init_event t event;
  stack ← load_callstack f;
  ks ← gets klasses;
  size ← some_or_undef (klass_size ks event);
  '(_, stack) ← zoom (ht_stack_push Indet stack (object_cells event size));
  store_callstack f stack.

(** The event is completed in place, on the stack, and pushed from there. *)
Definition ht_feature_callstack_stop t : ST (sys (fenv E)) HT_Timeline :=
  f ← HT_FeatureCallstack_from_timeline t;
  stack ← load_callstack f;
  top ← some_or_undef (ht_stack_top stack);
  event ← some_or_undef (load_event (contents stack) top);
  now ← get_timestamp;
  timestamp ← some_or_undef (event_timestamp event);
  thread_id ← ht_thread_get_current_thread_id;
  let event := set_call (u64 (now - timestamp)) thread_id event in
  ks ← gets klasses;
  size ← some_or_undef (klass_size ks event);
  cells ← some_or_undef (mem_write (contents stack) top (object_cells event size));
  store_callstack f (set_contents cells stack);;
  t ← ht_timeline_push_event t event;
  stack ← load_callstack f;
  stack ← zoom (ht_stack_pop Indet stack);
  store_callstack f stack;;
  mret t.

Definition ht_feature_callstack_start_int t (label : Z) : ST (sys (fenv E)) () :=
  ht_feature_callstack_start t
    (VStruct [VStruct [VEvent at_HT_CallstackIntEvent garbage garbage; VScalar garbage; VScalar garbage]; VScalar label]).

Definition ht_feature_callstack_start_string t (label : list Z) : ST (sys (fenv E)) () :=
  ht_feature_callstack_start t
    (VStruct [VStruct [VEvent at_HT_CallstackStringEvent garbage garbage; VScalar garbage; VScalar garbage]; VStr (Some label)]).

(** scoped_tracepoint.c: what a scoped tracepoint does at the start and at
    the end of its scope. *)
Definition _ht_callstack_timeline_int_start_and_ret t (l : Z) : ST (sys (fenv E)) HT_Timeline :=
  ht_feature_callstack_start_int t l;; mret t.
Definition _ht_callstack_timeline_string_start_and_ret t (l : list Z) : ST (sys (fenv E)) HT_Timeline :=
  ht_feature_callstack_start_string t l;; mret t.
Definition _ht_callstack_timeline_scoped_cleanup t : ST (sys (fenv E)) HT_Timeline :=
  ht_feature_callstack_stop t.

(** ** A program and its calls *)

Inductive call_label := IntLabel (l : Z) | StringLabel (l : list Z).
Inductive call_op := Start (l : call_label) | Stop.

Fixpoint callstack_run (ops : list call_op) t : ST (sys (fenv E)) HT_Timeline :=
  match ops with
  | [] => mret t
  | Start (IntLabel l) :: ops => t ← _ht_callstack_timeline_int_start_and_ret t l; callstack_run ops t
  | Start (StringLabel l) :: ops => t ← _ht_callstack_timeline_string_start_and_ret t l; callstack_run ops t
  | Stop :: ops => t ← _ht_callstack_timeline_scoped_cleanup t; callstack_run ops t
  end.

(** ** The reference *)

(** The event of a call. *)
Definition call_value (l : call_label) (start id duration thread : Z) : cval :=
  match l with
  | IntLabel l =>
      VStruct [VStruct [VEvent at_HT_CallstackIntEvent start id; VScalar duration; VScalar thread]; VScalar l]
  | StringLabel l =>
      VStruct [VStruct [VEvent at_HT_CallstackStringEvent start id; VScalar duration; VScalar thread]; VStr (Some l)]
  end.

Record open_call := OpenCall { oc_label : call_label; oc_start : Z; oc_id : Z }.
Record closed_call := Call { c_label : call_label; c_start : Z; c_stop : Z; c_id : Z }.

Definition call_event (ks : klass_store) (thread : Z) (c : closed_call) : pushed :=
  pushed_of ks (call_value (c_label c) (c_start c) (c_id c) (u64 (c_stop c - c_start c)) thread).

Record ref_state := RefState {
  r_env : E;                  (* the host *)
  r_next : Z;                 (* the next event identifier *)
  r_open : list open_call;    (* the innermost first *)
  r_buf : list pushed;        (* what the timeline has buffered *)
  r_calls : list closed_call; (* the calls reported so far *)
  r_out : list (list pushed)  (* the batches handed to the listeners so far *)
}.

Section reference.
  Context (ks : klass_store) (es : list HT_TimelineListenerEntry) (ser : bool) (cap thread : Z).

Definition ref_start (l : call_label) (r : ref_state) : ref_state :=
  let '(now, env) := read_clock (r_env r) in
  RefState env (u64 (r_next r + 1)) (OpenCall l now (r_next r) :: r_open r) (r_buf r) (r_calls r) (r_out r).

Definition ref_stop (r : ref_state) : ref_state :=
  match r_open r with
  | [] => r
  | o :: opened =>
      let '(now, env) := read_clock (r_env r) in
      let c := Call (oc_label o) (oc_start o) now (oc_id o) in
      let '(out, buf) := push_ref ser cap (r_buf r) (call_event ks thread c) in
      RefState (deliver es ser out env) (r_next r) opened buf (r_calls r ++ [c]) (r_out r ++ out)
  end.

Definition ref_step (r : ref_state) (op : call_op) : ref_state :=
  match op with Start l => ref_start l r | Stop => ref_stop r end.

End reference.

(** ** The events of calls *)

(** The klasses of calls, as ht_init registers them. *)
Definition call_klasses (ks : klass_store) : Prop :=
  klass_ready ks at_HT_CallstackIntEvent HT_CallstackIntEvent /\
  klass_ready ks at_HT_CallstackStringEvent HT_CallstackStringEvent.

(** A label whose event can be pushed to a timeline of [cap] bytes. *)
Definition label_ok (cap : Z) (l : call_label) : Prop :=
  match l with
  | IntLabel _ => True
  | StringLabel l => Z.of_nat (length l) < 2 ^ 62 /\ (Z.of_nat (length l) <= 95 \/ Z.of_nat (length l) + 33 <= cap \/ generous)
  end.

Lemma call_value_ok cap ks l start id duration thread :
  call_klasses ks -> label_ok cap l ->
  exists k bs, event_ok ks (call_value l start id duration thread) k bs /\ sizeof (ktype k) = 48 /\
    Z.of_nat (length bs) = match l with IntLabel _ => 40 | StringLabel l => Z.of_nat (length l) + 33 end.
Proof.
  intros [[ki Hi] [kz Hz]] Hl.
  assert (Hw : forall p T id', ks !! p = Some (EventKlass (Some (get_type_info T)) T id') ->
    HT_EVENT_GET_KLASS (call_value l start id duration thread) = Some p -> event_struct T = true -> wf_ctype T = true -> sizeof T = 48 ->
    (exists bs, encode ks T (call_value l start id duration thread) = Some bs /\
      Z.of_nat (length bs) = match l with IntLabel _ => 40 | StringLabel l => Z.of_nat (length l) + 33 end) ->
    exists k bs, event_ok ks (call_value l start id duration thread) k bs /\ sizeof (ktype k) = 48 /\
      Z.of_nat (length bs) = match l with IntLabel _ => 40 | StringLabel l => Z.of_nat (length l) + 33 end).
  { intros p T id' Hk He Hst Hwf Hsz (bs&Hbs&Hlen). exists (EventKlass (Some (get_type_info T)) T id'), bs. split; [|done].
    split; simpl; try done; [unfold event_klass; by rewrite He; simpl|]. destruct l; simpl in Hl; lia. }
  destruct l as [l|l]; [apply (Hw _ _ _ Hi)|apply (Hw _ _ _ Hz)]; try reflexivity.
  all: eexists; split; [simpl; rewrite ?Hi, ?Hz; reflexivity|].
  all: rewrite ?length_app, ?length_native_bytes; simpl; rewrite ?length_app, ?length_native_bytes; simpl; lia.
Qed.

Lemma call_pushed_ok cap ks ser l start id duration thread :
  call_klasses ks -> label_ok cap l ->
  let e := pushed_of ks (call_value l start id duration thread) in
  pushed_ok ks e /\ pushable_at cap ser e /\ pv e = call_value l start id duration thread /\ psize e = 48.
Proof.
  intros Hk Hl. destruct (call_value_ok cap ks l start id duration thread Hk Hl) as (k&bs&Hok&Hs&Hlen).
  rewrite (pushed_of_ok _ _ _ _ Hok). split_and!; try done. unfold pushable_at, event_size, event_cells.
  split.
  - destruct ser; [rewrite length_fmap|rewrite length_object_cells by (unfold psize; simpl; lia); unfold psize]; simpl in *; [|lia].
    destruct l; simpl in *; lia.
  - intros _. rewrite length_fmap. simpl. rewrite Hlen. destruct l as [l|l]; [lia|]. destruct Hl as (Hb&[Hl|[Hl|Hg]]); [lia|lia|].
    right. right. apply Hg. lia.
Qed.

(** ** The implementation follows the reference *)

(** What the next call of ht_thread_get_current_thread_id gives. *)
Definition thread_of (e : fenv E) : Z :=
  let id := default 0 (thread_ids e !! running e) in
  if decide (id = 0) then u32 (_ht_current_thread_id e + 1) else id.

Lemma thread_id_spec s (Q : Z -> sys (fenv E) -> Prop) :
  thread_of (senv s) <> 0 ->
  (forall counter ids, let s' := set_env (set_thread_ids counter ids) s in
     thread_of (senv s') = thread_of (senv s) -> Q (thread_of (senv s)) s') ->
  wp ht_thread_get_current_thread_id Q s.
Proof.
  intros Hz HQ. unfold ht_thread_get_current_thread_id. apply wp_bind, wp_gets.
  unfold thread_of in *. destruct (decide (default 0 (thread_ids (senv s) !! running (senv s)) = 0)) as [E0|E0]; [|].
  - wp_steps. apply HQ. simpl. rewrite lookup_insert_eq. simpl. by rewrite decide_False by done.
  - apply wp_ret. specialize (HQ (_ht_current_thread_id (senv s)) (thread_ids (senv s))). destruct s as [?????? []]. apply HQ.
    simpl in *. by rewrite decide_False by done.
Qed.

Definition open_cells (o : open_call) : list memval :=
  object_cells (call_value (oc_label o) (oc_start o) (oc_id o) garbage garbage) 48.

(** The state of timeline, feature object and stack in memory stands for
    the state [r] of the reference. *)
Record cs_rep s t es thread (f : ptr) (st : HT_Stack memval) (r : ref_state) : Prop := {
  cs_tl : tl_ready s t es (r_buf r);
  cs_slot : exists k, features t !! Z.to_nat (callstack_id (senv s)) = Some (Some (Feature f k));
  cs_obj : callstacks (senv s) !! f = Some st;
  cs_stack : stack_rep st (reverse (open_cells <$> r_open r)) (blocks (sheap s));
  cs_mins : smin_capacity st = 1024 /\ min_capacity (sizes_stack st) = 32;
  cs_disj : forall c q, containers s !! tlisteners t = Some c -> q ∈ cont_ptrs (tlisteners t) c -> q ∉ stack_ptrs st;
  cs_env : host_env (senv s) = r_env r;
  cs_next : current_identifier s = r_next r;
  cs_thread : thread_of (senv s) = thread /\ thread <> 0;
  cs_klasses : call_klasses (klasses s);
  cs_labels : Forall (fun o => label_ok (buffer_capacity t) (oc_label o)) (r_open r)
}.

Lemma length_open_cells opened : length (concat (reverse (open_cells <$> opened))) = (48 * length opened)%nat.
Proof.
  induction opened as [|o opened IH]; [done|]. rewrite fmap_cons, reverse_cons, concat_app, length_app, IH. cbn [concat].
  rewrite app_nil_r. unfold open_cells, object_cells. rewrite length_fmap, length_seq. cbn [length]. lia.
Qed.

(** Up to 21 calls may be open before the stack needs more memory. *)
Definition may_open (depth : nat) : Prop := (depth < 21)%nat \/ generous /\ Z.of_nat depth < 2 ^ 50.

Lemma may_open_room s t es thread f st r o :
  cs_rep s t es thread f st r -> may_open (length (r_open r)) -> push_room st (reverse (open_cells <$> r_open r)) (open_cells o).
Proof.
  intros [_ _ _ SR [Hm Hb] _ _ _ _ _ _] Hd. pose proof (sr_size _ _ _ SR) as Hs. rewrite length_open_cells in Hs.
  assert (Hc : 1024 <= scapacity st).
  { destruct (sr_pow _ _ _ SR) as (k&Hk&->). assert (0 < 2 ^ k) by (apply Z.pow_pos_nonneg; lia). nia. }
  pose proof (rep_min (sr_sizes _ _ _ SR)) as Hmin. pose proof (rep_size (sr_sizes _ _ _ SR)) as Hn.
  rewrite length_offsets, length_reverse, length_fmap in Hn.
  assert (length (open_cells o) = 48%nat) as Ho by (unfold open_cells, object_cells; by rewrite length_fmap, length_seq).
  unfold push_room. rewrite Ho, length_reverse, length_fmap. destruct Hd as [Hd|[Hg Hd]]; [left; lia|right; split; [done|lia]].
Qed.

(** What else a step may change: the blocks of the stack, nothing more. *)
Record cs_step (st st' : HT_Stack memval) (f : ptr) s s' : Prop := {
  step_mutexes : mutexes s' = mutexes s;
  step_containers : containers s' = containers s;
  step_klasses : klasses s' = klasses s;
  step_registry : registry s' = registry s;
  step_stacks : delete f (callstacks (senv s')) = delete f (callstacks (senv s));
  step_cached : cached_strings (senv s') = cached_strings (senv s);
  step_strings : c_strings (senv s') = c_strings (senv s);
  step_ids : callstack_id (senv s') = callstack_id (senv s) /\ cached_string_id (senv s') = cached_string_id (senv s);
  step_frame : frame (stack_ptrs st) (stack_ptrs st') (blocks (sheap s)) (blocks (sheap s'))
}.

Lemma cs_step_trans st1 st2 st3 f s1 s2 s3 : cs_step st1 st2 f s1 s2 -> cs_step st2 st3 f s2 s3 -> cs_step st1 st3 f s1 s3.
Proof. intros [???????[??]] [???????[??]]. split; try congruence; [split; congruence|]. by eapply frame_trans. Qed.

Lemma from_timeline_spec s t es thread f st r (Q : ptr -> sys (fenv E) -> Prop) :
  cs_rep s t es thread f st r -> Q f s -> wp (HT_FeatureCallstack_from_timeline t) Q s.
Proof.
  intros [_ [k Hs] _ _ _ _ _ _ _ _ _] HQ. unfold HT_FeatureCallstack_from_timeline, HT_FeatureCallstack_get_class. wp_steps.
  unfold ht_timeline_get_feature. simpl. eapply wp_some; [exact Hs|]. by wp_steps.
Qed.

Lemma load_callstack_spec s f st (Q : HT_Stack memval -> sys (fenv E) -> Prop) :
  callstacks (senv s) !! f = Some st -> Q st s -> wp (load_callstack f) Q s.
Proof. intros Hf HQ. unfold load_callstack. wp_steps. by eapply wp_some. Qed.

Lemma set_stamp_call l ts id ts' id' d th : set_stamp ts' id' (call_value l ts id d th) = call_value l ts' id' d th.
Proof. by destruct l. Qed.

Lemma set_call_call l ts id d th d' th' : set_call d' th' (call_value l ts id d th) = call_value l ts id d' th'.
Proof. by destruct l. Qed.

Lemma timestamp_call l ts id d th : event_timestamp (call_value l ts id d th) = Some ts.
Proof. by destruct l. Qed.

Lemma klass_size_call cap ks l ts id d th :
  call_klasses ks -> label_ok cap l -> klass_size ks (call_value l ts id d th) = Some 48.
Proof.
  intros Hk Hl. destruct (call_value_ok cap ks l ts id d th Hk Hl) as (k&bs&Hok&<-&_). by eapply klass_size_ok.
Qed.

Lemma callstack_start_spec l t es thread f st r s :
  cs_rep s t es thread f st r -> label_ok (buffer_capacity t) l -> may_open (length (r_open r)) ->
  wp (ht_feature_callstack_start t (call_value l garbage garbage garbage garbage)) (fun _ s' =>
    exists st', cs_rep s' t es thread f st' (ref_start l r) /\ cs_step st st' f s s') s.
Proof.
  intros CR Hl Hd. pose proof CR as [TR Hslot Hobj SR [Hm Hb] Hdisj He Hid [Hth Hth0] Hk Hls].
  unfold ht_feature_callstack_start. apply wp_bind, (from_timeline_spec s t es thread f st r); [done|].
  unfold ht_timeline_init_event. apply wp_bind, wp_bind, clock_spec. rewrite He. unfold ref_start.
  destruct (read_clock (r_env r)) as [now env].
  apply wp_bind. unfold ht_event_id_provider_next, wp at 1. simpl. rewrite Hid, set_stamp_call.
  set (s1 := Sys _ _ _ _ _ _ _). apply wp_bind, (load_callstack_spec s1 f st); [done|].
  apply wp_bind, wp_gets. rewrite (klass_size_call (buffer_capacity t)), some_bind by done.
  set (o := OpenCall l now (r_next r)). change (object_cells _ 48) with (open_cells o).
  apply wp_bind, wp_zoom. eapply wp_mono; [apply wp_and; [apply wp_and|]; 
    [apply (stack_push_spec Indet st (reverse (open_cells <$> r_open r)) (open_cells o)); [done|]|by apply (stack_push_ok Indet st (reverse (open_cells <$> r_open r)) (open_cells o)), (may_open_room s t es thread f)|apply stack_push_mins]|].
  { pose proof (may_open_room _ _ _ _ _ _ _ o CR Hd) as [[? _]|(_&?&_)]; pose proof (sr_max _ _ _ SR); lia. }
  intros [err st'] h (((Hfr&_&Hrep)&Hok)&[Hm1 Hb1]). simpl in Hok, Hm1, Hb1. subst err. unfold store_callstack. wp_steps.
  exists st'. simpl in Hfr, Hrep. split.
  - split; simpl; try done.
    + eapply tl_ready_move; [..|exact TR]; try done. simpl. intros c q Hc Hq. by eapply (cont_keep s t es).
    + by rewrite lookup_insert_eq.
    + by rewrite reverse_cons.
    + by rewrite Hm1, Hb1.
    + intros c q Hc Hq. by eapply (cont_keep s t es).
    + by constructor.
  - split; simpl; try done. by rewrite delete_insert_eq.
Qed.

Lemma callstack_stop_spec t es thread f st r s :
  cs_rep s t es thread f st r -> r_open r <> [] ->
  wp (ht_feature_callstack_stop t) (fun t' s' => exists st',
    same_timeline t t' /\
    cs_rep s' t' es thread f st' (ref_stop (klasses s) es (serialize_events t) (buffer_capacity t) thread r) /\
    cs_step st st' f s s') s.
Proof.
  intros CR Hne. pose proof CR as [TR Hslot Hobj SR [Hm Hb] Hdisj He Hid [Hth Hth0] Hk Hls].
  destruct (r_open r) as [|o opened] eqn:Eo; [done|]. clear Hne. apply Forall_cons in Hls as [Hl Hls].
  rewrite fmap_cons, reverse_cons in SR.
  unfold ht_feature_callstack_stop. apply wp_bind, (from_timeline_spec s t es thread f st r); [done|].
  apply wp_bind, (load_callstack_spec s f st); [done|].
  destruct (read_clock (r_env r)) as [now env] eqn:Ec.
  set (v := call_value (oc_label o) (oc_start o) (oc_id o) (u64 (now - oc_start o)) thread).
  destruct (stack_overwrite st (reverse (open_cells <$> opened)) (open_cells o) (object_cells v 48) _ SR) as (top&cells&->&Htop&Hw&SR1).
  { unfold open_cells, object_cells. by rewrite !length_fmap. }
  rewrite some_bind.
  assert (Hload : load_event (contents st) top = Some (call_value (oc_label o) (oc_start o) (oc_id o) garbage garbage)).
  { pose proof (sr_prefix _ _ _ SR) as Hp. rewrite concat_app in Hp. cbn [concat] in Hp. rewrite app_nil_r in Hp.
    rewrite <- (take_drop (length (concat (reverse (open_cells <$> opened)) ++ open_cells o)) (contents st)), Hp, <- app_assoc, Htop.
    by apply load_object. }
  rewrite Hload, some_bind. apply wp_bind, clock_spec. rewrite He, Ec, timestamp_call, some_bind.
  apply wp_bind, thread_id_spec; [by rewrite <- Hth in Hth0|]. intros counter ids s1 Hth1.
  change (thread_of (senv (set_env (set_host (fun _ => env)) s))) with (thread_of (senv s)) in Hth1 |- *. rewrite Hth in Hth1 |- *.
  rewrite set_call_call. fold v. cbn zeta. apply wp_bind, wp_gets.
  assert (Hsz : klass_size (klasses s1) v = Some 48) by (by apply (klass_size_call (buffer_capacity t))).
  rewrite Hsz, some_bind, Hw, some_bind. unfold store_callstack.
  apply wp_bind, wp_modify. set (s2 := set_env _ s1).
  assert (TR2 : tl_ready s2 t es (r_buf r)) by (by eapply tl_ready_move; [..|exact TR]).
  destruct (call_pushed_ok (buffer_capacity t) (klasses s) (serialize_events t) (oc_label o) (oc_start o) (oc_id o) (u64 (now - oc_start o)) thread)
    as (Hpok&Hpush&Hpv&_); [done|done|]. fold v in Hpok, Hpush, Hpv.
  eapply wp_call; [rewrite <- Hpv; by apply (push_event_spec t es (r_buf r) (pushed_of (klasses s) v) s2)|].
  intros t3 s3. unfold ref_stop. rewrite Eo, Ec. unfold call_event. cbn [c_label c_start c_stop c_id]. fold v.
  destruct (push_ref _ _ (r_buf r) _) as [out buf]. intros (Hsame&TR3&[Eb3 Em3 Ec3 Ek3 Er3 Ei3 Ee3]).
  rewrite deliver_host in Ee3. set (st2 := set_contents cells st) in *.
  assert (Hst3 : callstacks (senv s3) !! f = Some st2) by (rewrite Ee3; simpl; apply lookup_insert_eq).
  apply wp_bind, (load_callstack_spec s3 f st2); [done|].
  apply wp_bind, wp_zoom. eapply wp_mono; [apply wp_and; [apply (stack_pop_spec Indet st2 (reverse (open_cells <$> opened)) (object_cells v 48))|apply stack_pop_mins]|].
  { simpl. rewrite Eb3. exact SR1. }
  intros st' h ((Hfr&_&SR')&[Hm' Hb']). wp_steps. exists st'. simpl in Hfr, SR', Hm', Hb'. rewrite Eb3 in Hfr. split; [done|].
  assert (Hdisj3 : forall c q, containers s3 !! tlisteners t3 = Some c -> q ∈ cont_ptrs (tlisteners t3) c -> q ∉ stack_ptrs st2).
  { intros c q. rewrite Ec3, (st_listeners _ _ Hsame). apply Hdisj. }
  assert (Hfr3 : frame (stack_ptrs st2) (stack_ptrs st') (blocks (sheap s3)) (blocks h)) by (by rewrite Eb3).
  split.
  - split; simpl; try done.
    + eapply tl_ready_move; [..|exact TR3]; try done. simpl. intros c q Hc Hq. by eapply (cont_keep s3 t3 es).
    + rewrite Ee3. simpl. by rewrite (st_features _ _ Hsame).
    + apply lookup_insert_eq.
    + by rewrite Hm', Hb'.
    + intros c q Hc Hq. by eapply (cont_keep s3 t3 es).
    + rewrite Ee3. done.
    + by rewrite Ei3.
    + rewrite Ee3. done.
    + by rewrite Ek3.
    + by rewrite (st_cap _ _ Hsame).
  - split; simpl; try done; rewrite ?Ee3; simpl; try done. by rewrite delete_insert_eq, delete_insert_eq.
Qed.

Fixpoint brackets (cap : Z) (depth : nat) (ops : list call_op) : Prop :=
  match ops with
  | [] => True
  | Start l :: ops => label_ok cap l /\ may_open depth /\ brackets cap (S depth) ops
  | Stop :: ops => match depth with O => False | S depth => brackets cap depth ops end
  end.

Lemma callstack_run_spec ops t es thread f st r s :
  cs_rep s t es thread f st r -> brackets (buffer_capacity t) (length (r_open r)) ops ->
  wp (callstack_run ops t) (fun t' s' => exists st', same_timeline t t' /\
    cs_rep s' t' es thread f st'
      (foldl (ref_step (klasses s) es (serialize_events t) (buffer_capacity t) thread) r ops) /\
    cs_step st st' f s s') s.
Proof.
  revert t st r s. induction ops as [|[l|] ops IH]; intros t st r s CR Hbr; simpl in *.
  - apply wp_ret. exists st. split_and!; try done.
  - destruct Hbr as (Hl&Hd&Hbr).
    assert (Hst : wp (ht_feature_callstack_start t (call_value l garbage garbage garbage garbage);; callstack_run ops t)
      (fun t' s' => exists st', same_timeline t t' /\ cs_rep s' t' es thread f st'
        (foldl (ref_step (klasses s) es (serialize_events t) (buffer_capacity t) thread) (ref_start l r) ops) /\ cs_step st st' f s s') s).
    { eapply wp_call; [by apply (callstack_start_spec l t es thread f st r)|]. intros _ s1 (st1&CR1&St1).
      eapply wp_mono; [apply (IH t st1 _ s1 CR1)|].
      - unfold ref_start in *. by destruct (read_clock (r_env r)).
      - intros t2 s2 (st2&Hsame&CR2&St2). exists st2. rewrite (step_klasses _ _ _ _ _ St1) in CR2.
        split_and!; [done|done|by eapply cs_step_trans]. }
    apply wp_bind_inv in Hst. destruct l; apply wp_bind, wp_bind; (eapply wp_mono; [exact Hst|]); intros [] s1 Hrun; by apply wp_ret.
  - destruct (r_open r) as [|o opened] eqn:Eo; [done|]. unfold _ht_callstack_timeline_scoped_cleanup.
    eapply wp_call; [apply (callstack_stop_spec t es thread f st r); [done|by rewrite Eo]|]. intros t1 s1 (st1&Hsame&CR1&St1).
    eapply wp_mono; [apply (IH t1 st1 _ s1 CR1)|].
    + rewrite (st_cap _ _ Hsame). unfold ref_stop. rewrite Eo. destruct (read_clock (r_env r)). by destruct (push_ref _ _ _ _).
    + intros t2 s2 (st2&Hs2&CR2&St2). exists st2. rewrite (step_klasses _ _ _ _ _ St1), (st_ser _ _ Hsame), (st_cap _ _ Hsame) in CR2.
      split_and!; [by eapply same_timeline_trans|done|by eapply cs_step_trans].
Qed.

(** ** Enabling the feature *)

Definition stack_owned (f : ptr) (st : HT_Stack memval) : list ptr := f :: stack_ptrs st.

Lemma callstack_create_spec s :
  wp ht_feature_callstack_create (fun '(err, o) s' =>
    mutexes s' = mutexes s /\ containers s' = containers s /\ klasses s' = klasses s /\ registry s' = registry s /\
    current_identifier s' = current_identifier s /\
    match o with
    | None => err = HT_ERR_OUT_OF_MEMORY /\ blocks (sheap s') = blocks (sheap s) /\ senv s' = senv s
    | Some feature => err = HT_ERR_OK /\ fklass feature = FeatureKlass at_ht_feature_callstack_destroy (callstack_id (senv s)) /\
        exists st, senv s' = set_callstacks <[fself feature := st]> (senv s) /\
          fself feature <> NULL /\ NoDup (stack_owned (fself feature) st) /\ is_Some (blocks (sheap s') !! fself feature) /\
          stack_rep st [] (blocks (sheap s')) /\ smin_capacity st = 1024 /\ min_capacity (sizes_stack st) = 32 /\
          frame [] (stack_owned (fself feature) st) (blocks (sheap s)) (blocks (sheap s'))
    end) s.
Proof.
  unfold ht_feature_callstack_create, HT_FeatureCallstack_get_class. wp_steps.
  apply ht_alloc_spec.
  { intros h (Eh&_&_). rewrite decide_True by done. wp_steps. by split_and!. }
  intros p h1 Hp _ Hfree (E1&_&_). rewrite decide_False by done. apply wp_bind, wp_zoom. simpl in *.
  eapply wp_mono; [apply wp_and; [apply stack_init_spec; lia|apply stack_init_mins]|].
  intros [err|st] h2 [[_ Hr] Hmins]; cbn beta iota in *.
  - destruct Hr as [-> E2]. wp_steps. apply (ht_free_spec p sizeof_HT_FeatureCallstack); [done|simpl; by rewrite E2, E1, lookup_insert_eq|].
    intros h3 (E3&_&_). wp_steps. simpl in *. split_and!; try done. by rewrite E3, E2, E1, delete_insert_id.
  - destruct Hr as [SR Hfr]. unfold store_callstack. wp_steps. simpl in *. split_and!; try done.
    destruct (frame_nil_keep _ _ _ p Hfr) as [Hpin Hpl]; [rewrite E1, lookup_insert_eq; eauto|].
    exists st. split_and!; try done.
    + apply NoDup_cons. split; [done|]. unfold stack_ptrs. apply NoDup_cons. split; [|apply NoDup_singleton].
      rewrite list_elem_of_singleton. apply (sr_disj _ _ _ SR).
    + rewrite Hpl, E1, lookup_insert_eq. eauto.
    + tauto.
    + tauto.
    + apply (frame_trans _ [p] _ _ (blocks h1)); [rewrite E1; by apply frame_insert|].
      unfold stack_owned. apply (frame_keep [p] [] (stack_ptrs st)); [done|]. apply Forall_singleton. rewrite E1, lookup_insert_eq.
      split; [eauto|apply not_elem_of_nil].
Qed.

(** The reference at the start. *)
Definition ref_init (env : E) (next : Z) : ref_state := RefState env next [] [] [] [].

Lemma callstack_enable_spec t es s :
  tl_ready s t es [] -> features t = no_features -> 0 <= callstack_id (senv s) < HT_TIMELINE_MAX_FEATURES ->
  thread_of (senv s) <> 0 -> call_klasses (klasses s) ->
  wp (ht_feature_callstack_enable t) (fun '(err, t') s' =>
    mutexes s' = mutexes s /\ containers s' = containers s /\ klasses s' = klasses s /\
    match err with
    | HT_ERR_OK => exists f st,
        t' = set_timeline_features (<[Z.to_nat (callstack_id (senv s)) :=
               Some (Feature f (FeatureKlass at_ht_feature_callstack_destroy (callstack_id (senv s))))]> no_features) t /\
        cs_rep s' t' es (thread_of (senv s)) f st (ref_init (host_env (senv s)) (current_identifier s)) /\
        senv s' = set_callstacks <[f := st]> (senv s) /\
        f <> NULL /\ NoDup (stack_owned f st) /\ is_Some (blocks (sheap s') !! f) /\
        frame [] (stack_owned f st) (blocks (sheap s)) (blocks (sheap s'))
    | _ => err = HT_ERR_OUT_OF_MEMORY /\ t' = t /\ blocks (sheap s') = blocks (sheap s) /\ senv s' = senv s
    end) s.
Proof.
  intros TR Hfe Hid Hth Hk. unfold ht_feature_callstack_enable. eapply wp_call; [apply callstack_create_spec|].
  intros [err [feature|]] s1 (Em&Ec&Ek&Er&Ei&Ho); cbn beta iota; [|destruct Ho as (->&Eb&Ee); wp_steps; by split_and!].
  destruct Ho as (->&Eklass&st&Ee&Hf&Hnd&Hlive&SR&Hm&Hb&Hfr). unfold ht_timeline_set_feature. rewrite Eklass, Hfe. cbn [fk_id].
  rewrite decide_False by (change HT_INVALID_FEATURE_ID with 4294967295; unfold HT_TIMELINE_MAX_FEATURES in *; lia).
  assert (Hslot : no_features !! Z.to_nat (callstack_id (senv s)) = Some None).
  { apply lookup_replicate. unfold HT_TIMELINE_MAX_FEATURES in *. split; [done|lia]. }
  rewrite Hslot, some_bind, ret_bind. cbn beta iota. rewrite decide_False, ret_bind by tauto. apply wp_ret.
  split_and!; try done. exists (fself feature), st. destruct feature as [f k]. simpl in Eklass. subst k. simpl in *.
  assert (Hkeep : forall c q, containers s !! tlisteners t = Some c -> q ∈ cont_ptrs (tlisteners t) c ->
    (q ∉ stack_owned f st) /\ blocks (sheap s1) !! q = blocks (sheap s) !! q).
  { apply (cont_keep s t es [] []); [done|done|]. intros c q _ _. apply not_elem_of_nil. }
  split_and!; try done. split; simpl; rewrite ?Ee; simpl; try done.
  - apply (tl_ready_move s); try done; [by intros c q Hc Hq; apply (Hkeep c q)|]. destruct TR as [[] ?]. by split; [split|].
  - exists (FeatureKlass at_ht_feature_callstack_destroy (callstack_id (senv s))). apply list_lookup_insert_eq.
    unfold no_features. rewrite length_replicate. unfold HT_TIMELINE_MAX_FEATURES in *. lia.
  - apply lookup_insert_eq.
  - intros c q Hc Hq. rewrite Ec in Hc. destruct (Hkeep c q Hc Hq) as [Hn _]. unfold stack_owned in Hn.
    rewrite not_elem_of_cons in Hn. tauto.
  - by rewrite Ek.
Qed.

(** ** The end of a timeline with the feature *)

Lemma destroy_callstack_end (e : fenv E) f st id live frames :
  callstacks e !! f = Some st -> 0 <= id < HT_TIMELINE_MAX_FEATURES -> f <> NULL -> NoDup (stack_owned f st) ->
  is_Some (live !! f) -> stack_rep st frames live ->
  features_end (<[Z.to_nat id := Some (Feature f (FeatureKlass at_ht_feature_callstack_destroy id))]> no_features)
    (stack_owned f st) [] live e (set_callstacks (delete f) e).
Proof.
  intros Hf Hid Hn Hnd Hlf SR. apply one_feature_end; [unfold HT_TIMELINE_MAX_FEATURES in *; lia|]. intros s Hs Hlive _.
  cbn [destroy_feature fenv_features fklass fk_destroy]. rewrite decide_True by done.
  unfold ht_feature_callstack_destroy. apply wp_bind, (load_callstack_spec s f st); [by rewrite Hs|].
  apply NoDup_cons in Hnd as [Hfin _].
  assert (Hff : is_Some (blocks (sheap s) !! f)) by (rewrite Hlive; [done|left]).
  apply wp_bind, wp_zoom. eapply wp_mono; [apply (stack_deinit_spec st frames)|].
  { destruct SR as [R ? ? Hl ? ? ? ? ? ? ?]. split; try done.
    - eapply rep_live_mono; [|exact R]. apply Hlive. right. left.
    - simpl. rewrite Hlive; [done|]. right. right. left. }
  intros _ h (_&Hfr). wp_steps. simpl in *. destruct (proj1 Hfr f Hfin Hff) as [_ Ef]. destruct Hff as [n Hff].
  apply (ht_free_spec f n); [done|simpl; by rewrite Ef|]. intros h2 (E2&_&_). simpl in *. rewrite Hs. split_and!; try done.
  apply (frame_trans _ [f] _ _ (blocks h)); [|rewrite E2; apply frame_delete].
  apply (frame_keep [f] (stack_ptrs st) []); [done|]. apply Forall_singleton. rewrite Hff. eauto.
Qed.

(** ** A traced thread

    The life of a timeline with listeners and the call stack feature, from
    its creation to its destruction. *)
Definition thread_body (ops : list call_op) t : ST (sys (fenv E)) HT_ErrorCode :=
  '(err, t) ← ht_feature_callstack_enable t;
  t ← (if decide (err = HT_ERR_OK) then callstack_run ops t else mret t);
  ht_timeline_destroy t;;
  mret err.

Definition traced_thread (cap : Z) (ts ser : bool) (rs : list registration) (ops : list call_op)
    : ST (sys (fenv E)) (HT_ErrorCode + list HT_ErrorCode) :=
  '(err, o) ← ht_timeline_create cap ts ser None;
  match o with
  | None => mret (inl err)
  | Some t =>
      errs ← timeline_register_all t rs;
      err ← thread_body ops t;
      mret (if decide (err = HT_ERR_OK) then inr errs else inl err)
  end.

(** The objects of features are live blocks. *)
Definition fenv_wf s : Prop := forall p, is_Some (callstacks (senv s) !! p) -> is_Some (blocks (sheap s) !! p).

Lemma thread_destroyed t c es thread f st r env s :
  cs_rep s t es thread f st r -> tl_owned s t c -> f <> NULL -> NoDup (stack_owned f st) -> is_Some (blocks (sheap s) !! f) ->
  Forall (fun q => q ∉ stack_owned f st) (tl_ptrs t c) -> 0 <= callstack_id (senv s) < HT_TIMELINE_MAX_FEATURES ->
  features t = <[Z.to_nat (callstack_id (senv s)) :=
     Some (Feature f (FeatureKlass at_ht_feature_callstack_destroy (callstack_id (senv s))))]> no_features ->
  env = destroy_env es (deliver es (serialize_events t) (if decide (r_buf r = []) then [] else [r_buf r]) (r_env r)) ->
  wp (ht_timeline_destroy t) (fun _ s' =>
    host_env (senv s') = env /\ callstacks (senv s') = delete f (callstacks (senv s)) /\
    cached_strings (senv s') = cached_strings (senv s) /\ c_strings (senv s') = c_strings (senv s) /\
    klasses s' = klasses s /\ containers s' = delete (tlisteners t) (containers s) /\
    mutexes s' = (if decide (locking_policy t = NULL) then delete (cmutex c) (mutexes s)
                  else delete (locking_policy t) (delete (cmutex c) (mutexes s))) /\
    frame (tl_ptrs t c ++ stack_owned f st) [] (blocks (sheap s)) (blocks (sheap s'))) s.
Proof.
  intros [TR _ Hobj SR _ _ He _ _ _ _] TO Hf Hnd Hlf Hdis Hid Hfe ->.
  eapply wp_mono; [eapply (timeline_destroy_spec t c es (r_buf r) (stack_owned f st) []); [done|done| |constructor|]|].
  - apply Forall_forall. intros q Hq. rewrite Forall_forall in Hdis. split; [|intros Hq2; by apply (Hdis q)].
    unfold stack_owned in Hq. apply elem_of_cons in Hq as [->|Hq]; [done|]. unfold stack_ptrs in Hq.
    apply elem_of_cons in Hq as [->|Hq]; [destruct (rep_live (sr_sizes _ _ _ SR)) as (?&?&_); eauto|].
    apply list_elem_of_singleton in Hq as ->. apply (sr_live _ _ _ SR).
  - rewrite Hfe, deliver_host, destroy_env_host.
    apply (destroy_callstack_end _ f st _ (blocks (sheap s)) (reverse (open_cells <$> r_open r))); done.
  - intros _ s' (Ee&Ek&Ec&Em&Hfr). rewrite Ee. simpl. rewrite He. by split_and!.
Qed.

(** What the timeline still holds at the end goes to the listeners before
    they are destroyed. *)
Definition ref_finish (es : list HT_TimelineListenerEntry) (ser : bool) (r : ref_state) : E :=
  destroy_env es (deliver es ser (if decide (r_buf r = []) then [] else [r_buf r]) (r_env r)).

(** The timeline with its listeners, then with the feature or not. *)
Lemma thread_body_spec t c es ops cap ser s :
  tl_ready s t es [] -> tl_owned s t c -> features t = no_features -> buffer_capacity t = cap -> serialize_events t = ser ->
  fenv_wf s -> call_klasses (klasses s) -> 0 <= callstack_id (senv s) < HT_TIMELINE_MAX_FEATURES ->
  thread_of (senv s) <> 0 -> brackets cap 0 ops ->
  wp (thread_body ops t) (fun err s' =>
    callstacks (senv s') = callstacks (senv s) /\ cached_strings (senv s') = cached_strings (senv s) /\
    c_strings (senv s') = c_strings (senv s) /\ klasses s' = klasses s /\
    containers s' = delete (tlisteners t) (containers s) /\
    mutexes s' = (if decide (locking_policy t = NULL) then delete (cmutex c) (mutexes s)
                  else delete (locking_policy t) (delete (cmutex c) (mutexes s))) /\
    frame (tl_ptrs t c) [] (blocks (sheap s)) (blocks (sheap s')) /\
    host_env (senv s') = if decide (err = HT_ERR_OK)
      then ref_finish es ser (foldl (ref_step (klasses s) es ser cap (thread_of (senv s)))
                                    (ref_init (host_env (senv s)) (current_identifier s)) ops)
      else destroy_env es (host_env (senv s))) s.
Proof.
  intros TR TO Hfe Hcap Hser Hwf Hk Hid Hth Hbr. unfold thread_body. eapply wp_call; [by apply (callstack_enable_spec t es)|].
  pose proof (tl_ptrs_live _ _ _ _ _ TR TO) as Hlive.
  intros [err t1] s1 (Em1&Ec1&Ek1&Hr). destruct (decide (err = HT_ERR_OK)) as [->|Hno].
  - destruct Hr as (f&st&->&CR&Ee1&Hf&Hnd&Hlf&Hfr1). set (t1 := set_timeline_features _ t) in *.
    assert (Hff : callstacks (senv s) !! f = None).
    { destruct (callstacks (senv s) !! f) eqn:Ef; [|done]. destruct (frame_nil_keep _ _ _ f Hfr1) as [Hn _].
      - apply Hwf. eauto.
      - exfalso. apply Hn. left. }
    destruct (tl_owned_frame s s1 t t1 c [] (stack_owned f st)) as (TO1&Ep1&HF1); try done.
    { eapply Forall_impl; [exact Hlive|]. intros q Hq. split; [done|apply not_elem_of_nil]. }
    eapply wp_call; [apply (callstack_run_spec ops t1 es (thread_of (senv s)) f st _ s1 CR)|]; [simpl; by rewrite Hcap|].
    intros t2 s2 (st2&Hsame&CR2&St). destruct St as [Em2 Ec2 Ek2 _ Es2 Eca2 Est2 [Eid2 _] Hfr2].
    change (serialize_events t1) with (serialize_events t) in CR2. change (buffer_capacity t1) with (buffer_capacity t) in CR2.
    rewrite Ek1, Hcap, Hser in CR2. set (rf := foldl _ _ ops) in *.
    apply NoDup_cons in Hnd as [Hfin Hnd].
    destruct (proj1 Hfr2 f Hfin Hlf) as [Hfin2 Hlf2].
    destruct (tl_owned_frame s1 s2 t1 t2 c (stack_ptrs st) (stack_ptrs st2)) as (TO2&Ep2&HF2); try done.
    1-4: by rewrite ?(st_self _ _ Hsame), ?(st_buffer _ _ Hsame), ?(st_lock _ _ Hsame), ?(st_listeners _ _ Hsame).
    { change (tl_ptrs t1 c) with (tl_ptrs t c). eapply Forall_impl; [exact HF1|]. intros q [Hq Hn]. split; [done|].
      unfold stack_owned in Hn. rewrite not_elem_of_cons in Hn. tauto. }
    change (tl_ptrs t1 c) with (tl_ptrs t c) in HF2, Ep2.
    assert (Eid : callstack_id (senv s2) = callstack_id (senv s)) by (by rewrite Eid2, Ee1).
    assert (Hnd2 : NoDup (stack_owned f st2)).
    { apply NoDup_cons. split; [done|]. unfold stack_ptrs. apply NoDup_cons. split; [|apply NoDup_singleton].
      rewrite list_elem_of_singleton. apply (sr_disj _ _ _ (cs_stack _ _ _ _ _ _ _ CR2)). }
    eapply wp_call; [apply (thread_destroyed t2 c es (thread_of (senv s)) f st2 rf (ref_finish es ser rf)); try done|].
    { by rewrite Hlf2. }
    { rewrite Ep2. apply Forall_forall. intros q Hq. rewrite Forall_forall in HF1, HF2. destruct (HF1 q Hq) as [_ Hn1], (HF2 q Hq) as [_ Hn2].
      unfold stack_owned in *. rewrite not_elem_of_cons in *. tauto. }
    { by rewrite Eid. }
    { by rewrite Eid, (st_features _ _ Hsame). }
    { unfold ref_finish. by rewrite (st_ser _ _ Hsame), <- Hser. }
    intros _ s3 (Eh3&Ecs3&Eca3&Est3&Ek3&Ec3&Em3&Hfr3). apply wp_ret. destruct (decide (HT_ERR_OK = HT_ERR_OK)) as [_|]; [|done].
    rewrite (st_lock _ _ Hsame), (st_listeners _ _ Hsame) in *. change (locking_policy t1) with (locking_policy t) in *.
    change (tlisteners t1) with (tlisteners t) in *.
    rewrite Ecs3, Es2, Ee1, Eca3, Eca2, Ee1, Est3, Est2, Ee1, Ek3, Ek2, Ek1, Ec3, Ec2, Ec1, Em3, Em2, Em1. split_and!; try done.
    + simpl. by apply delete_insert_id.
    + rewrite Ep2 in Hfr3. apply (frame_trans _ (tl_ptrs t c ++ stack_owned f st) _ _ (blocks (sheap s1))).
      * rewrite <- (app_nil_r (tl_ptrs t c)) at 1. apply frame_keep; [done|]. eapply Forall_impl; [exact Hlive|].
        intros q Hq. split; [done|apply not_elem_of_nil].
      * apply (frame_trans _ (tl_ptrs t c ++ stack_owned f st2) _ _ (blocks (sheap s2))); [|done].
        unfold stack_owned. apply (frame_perm ((f :: tl_ptrs t c) ++ stack_ptrs st) ((f :: tl_ptrs t c) ++ stack_ptrs st2)); [solve_Permutation..|].
        apply frame_keep; [done|]. apply Forall_cons. split; [done|]. eapply Forall_impl; [exact HF1|]. intros q [Hq Hn].
        unfold stack_owned in Hn. rewrite not_elem_of_cons in Hn. tauto.
  - assert (t1 = t /\ blocks (sheap s1) = blocks (sheap s) /\ senv s1 = senv s) as (->&Eb1&Ee1) by (by destruct err; destruct Hr as (?&?&?&?)).
    rewrite ret_bind.
    assert (TR1 : tl_ready s1 t es []) by (by apply (tl_ready_move s); [..|]; rewrite ?Eb1).
    assert (TO1 : tl_owned s1 t c) by (destruct TO; split; by rewrite ?Eb1, ?Em1, ?Ec1).
    eapply wp_call; [eapply (timeline_destroy_spec t c es [] [] []); [done|done|constructor|constructor|rewrite Hfe; apply no_features_end]|].
    intros _ s2 (Ee2&Ek2&Ec2&Em2&Hfr2). apply wp_ret. rewrite Ee1 in Ee2. destruct (decide (err = HT_ERR_OK)) as [|_]; [done|].
    unfold deliver, deliver_all in Ee2. simpl in Ee2. rewrite destroy_env_host in Ee2. rewrite app_nil_r, Eb1 in Hfr2.
    rewrite Ee2, Ek2, Ek1, Ec2, Ec1, Em2, Em1. simpl. by split_and!.
Qed.

(** ** What the reference promises *)

Definition ref_run (ks : klass_store) (es : list HT_TimelineListenerEntry) (ser : bool) (cap thread : Z)
    (ops : list call_op) (r : ref_state) : ref_state :=
  foldl (ref_step ks es ser cap thread) r ops.

(** All batches, the one at the end included. *)
Definition ref_batches (r : ref_state) : list (list pushed) :=
  r_out r ++ (if decide (r_buf r = []) then [] else [r_buf r]).

Lemma ref_run_stream ks es ser cap thread ops r :
  concat (r_out r) ++ r_buf r = call_event ks thread <$> r_calls r ->
  let r' := ref_run ks es ser cap thread ops r in concat (r_out r') ++ r_buf r' = call_event ks thread <$> r_calls r'.
Proof.
  revert r. induction ops as [|op ops IH]; intros r Hr; [done|]. apply (IH (ref_step ks es ser cap thread r op)). clear IH.
  destruct op as [l|]; simpl.
  - unfold ref_start. by destruct (read_clock (r_env r)).
  - unfold ref_stop. destruct (r_open r) as [|o opened]; [done|]. destruct (read_clock (r_env r)) as [now env].
    set (e := call_event _ _ _). pose proof (push_ref_stream ser cap (r_buf r) e) as Hp.
    destruct (push_ref ser cap (r_buf r) e) as [out buf]. simpl in *. rewrite concat_app, <- app_assoc, Hp, app_assoc, Hr, fmap_app. done.
Qed.

(** The labels of the calls of [ops] in the order in which they are closed,
    by matching brackets. *)
Fixpoint closed_labels (opened : list call_label) (ops : list call_op) : list call_label :=
  match ops with
  | [] => []
  | Start l :: ops => closed_labels (l :: opened) ops
  | Stop :: ops =>
      match opened with
      | [] => closed_labels [] ops
      | l :: opened => l :: closed_labels opened ops
      end
  end.

Lemma ref_run_labels ks es ser cap thread ops r :
  c_label <$> r_calls (ref_run ks es ser cap thread ops r) =
    (c_label <$> r_calls r) ++ closed_labels (oc_label <$> r_open r) ops.
Proof.
  revert r. induction ops as [|op ops IH]; intros r; simpl; [by rewrite app_nil_r|]. unfold ref_run in *. simpl. rewrite IH. clear IH.
  destruct op as [l|]; simpl.
  - unfold ref_start. by destruct (read_clock (r_env r)).
  - unfold ref_stop. destruct (r_open r) as [|o opened] eqn:Eo; simpl; [by rewrite Eo|]. destruct (read_clock (r_env r)) as [now env].
    destruct (push_ref _ _ _ _) as [out buf]. simpl. rewrite fmap_app, <- app_assoc. done.
Qed.

(** The life of a traced thread. *)
Lemma traced_thread_spec cap ts ser rs ops s :
  sys_wf s -> fenv_wf s -> call_klasses (klasses s) -> 0 <= callstack_id (senv s) < HT_TIMELINE_MAX_FEATURES ->
  thread_of (senv s) <> 0 -> 0 <= cap -> (length rs <= 16)%nat -> brackets cap 0 ops ->
  wp (traced_thread cap ts ser rs ops) (fun res s' =>
    blocks (sheap s') = blocks (sheap s) /\ mutexes s' = mutexes s /\ containers s' = containers s /\
    callstacks (senv s') = callstacks (senv s) /\
    match res with
    | inl _ => host_env (senv s') = host_env (senv s) \/ host_env (senv s') = destroy_env (entry_of <$> rs) (host_env (senv s))
    | inr errs => Forall (fun e => e = HT_ERR_OK) errs /\ exists next,
        let r := ref_run (klasses s) (entry_of <$> rs) ser cap (thread_of (senv s)) ops (ref_init (host_env (senv s)) next) in
        host_env (senv s') = ref_finish (entry_of <$> rs) ser r /\
        concat (ref_batches r) = call_event (klasses s) (thread_of (senv s)) <$> r_calls r /\
        c_label <$> r_calls r = closed_labels [] ops
    end) s.
Proof.
  intros Hwf Hfw Hk Hid Hth Hcap Hn Hbr. unfold traced_thread. eapply wp_call; [by apply timeline_create_spec|].
  intros [err [t|]] s1 (Ee1&Ek1&_&Ht); [|apply wp_ret; destruct Ht as (?&?&?); rewrite Ee1; split_and!; auto].
  destruct Ht as (_&Ecap&Eser&Efeat&c&TR&TO&Hc16&Hl16&Hfr&Em1&Ec1).
  destruct (new_objects s t c _ Hwf (to_nodup _ _ _ TO) Hfr) as (Hcm&Hct&Hlk).
  eapply wp_call; [by apply (tl_register t c rs s1)|]. intros errs s2 (HFe&b&->&Eptrs&TR2&TO2).
  eapply wp_call; [apply (thread_body_spec t (set_entries b c) (entry_of <$> rs) ops cap ser); try done; simpl; rewrite ?Ee1, ?Ek1; try done|].
  { intros p Hp. simpl in *. rewrite Ee1 in Hp. destruct (frame_nil_keep _ _ _ p Hfr (Hfw p Hp)) as [_ ->]. by apply Hfw. }
  intros err' s3 (Ecs3&_&_&_&Ec3&Em3&Hfr3&Eh3). apply wp_ret. simpl in *. rewrite Ec3, Em3, Em1, Ec1, Ecs3, Ee1. split_and!; try done.
  - apply frame_nil. eapply frame_trans; [exact Hfr|]. by rewrite <- Eptrs.
  - by apply lock_entry_undo.
  - by rewrite insert_insert_eq, delete_insert_id.
  - rewrite Ee1, Ek1 in Eh3. case_decide as Hok; [|by right]. split; [done|]. exists (current_identifier s1).
    set (r0 := ref_init _ _) in *. cbn zeta.
    pose proof (ref_run_stream (klasses s) (entry_of <$> rs) ser cap (thread_of (senv s)) ops r0 eq_refl) as Hst.
    pose proof (ref_run_labels (klasses s) (entry_of <$> rs) ser cap (thread_of (senv s)) ops r0) as Hl.
    split_and!; try done. unfold ref_batches. rewrite concat_app, <- Hst. f_equal. clear. set (b := r_buf _). destruct (decide (b = [])) as [->|]; [done|apply app_nil_r].
Qed.

(** C11: calls are reported.  A thread creates a timeline with up to 16
    listeners, enables the call stack, opens and closes calls (up to 21 at a
    time, or any number if memory never runs out), and destroys the timeline.
    Then the listeners have been given, in batches and interleaved with the
    readings of the clock as in the reference, exactly one event for every
    call that was closed, in the order of closing, with the label that was
    given at the matching start, the time of the start, the duration up to the stop and
    the identifier of the thread; every object is released.  If memory is
    refused at the beginning, nothing is reported. *)
Theorem calls_are_reported cap ts ser rs ops s :
  sys_wf s -> fenv_wf s -> call_klasses (klasses s) -> 0 <= callstack_id (senv s) < HT_TIMELINE_MAX_FEATURES ->
  thread_of (senv s) <> 0 -> 0 <= cap -> (length rs <= 16)%nat -> brackets cap 0 ops ->
  wp (traced_thread cap ts ser rs ops) (fun res s' =>
    blocks (sheap s') = blocks (sheap s) /\ mutexes s' = mutexes s /\ containers s' = containers s /\
    callstacks (senv s') = callstacks (senv s) /\
    match res with
    | inl _ => host_env (senv s') = host_env (senv s) \/ host_env (senv s') = destroy_env (entry_of <$> rs) (host_env (senv s))
    | inr errs => Forall (fun e => e = HT_ERR_OK) errs /\ exists next,
        let r := ref_run (klasses s) (entry_of <$> rs) ser cap (thread_of (senv s)) ops (ref_init (host_env (senv s)) next) in
        host_env (senv s') = ref_finish (entry_of <$> rs) ser r /\
        concat (ref_batches r) = call_event (klasses s) (thread_of (senv s)) <$> r_calls r /\
        c_label <$> r_calls r = closed_labels [] ops
    end) s.
Proof. apply traced_thread_spec. Qed.

End callstack.

(** A clock that does not go back, whatever the listeners do. *)
Class MonotonicClock (E : Type) `{Host E} := {
  time_of : E -> Z;
  clock_reads e : time_of e <= (read_clock e).1 <= time_of (read_clock e).2;
  clock_listens cb events ser ud e : time_of e <= time_of (run_listener cb events ser ud e)
}.

Section nesting.
  Context `{Platform} {E : Type} `{MonotonicClock E}.

(** [c] ended before [d] began, or took place during [d]. *)
Definition before_or_inside (c d : closed_call) : Prop :=
  c_stop c <= c_start d \/ (c_start d <= c_start c /\ c_stop c <= c_stop d).

Fixpoint calls_nested (calls : list closed_call) : Prop :=
  match calls with
  | [] => True
  | c :: calls => c_start c <= c_stop c /\ Forall (before_or_inside c) calls /\ calls_nested calls
  end.

Lemma calls_nested_snoc calls d :
  calls_nested calls -> c_start d <= c_stop d -> Forall (fun c => before_or_inside c d) calls -> calls_nested (calls ++ [d]).
Proof.
  intros Hc Hd HF. induction calls as [|c calls IH]; simpl; [by split_and!|].
  destruct Hc as (?&?&?). apply Forall_cons in HF as [? ?]. split_and!; [done| |by apply IH]. apply Forall_app. by split; [|constructor].
Qed.

Lemma deliver_time es ser out (env : E) : time_of env <= time_of (deliver es ser out env).
Proof.
  unfold deliver, deliver_all, notify_env. generalize ((fun b => (cells_of ser b, ser)) <$> out). intros l. revert env.
  induction l as [|[ev b] l IH]; intros env; simpl; [lia|]. etransitivity; [|apply IH]. clear IH. revert env.
  induction es as [|e es IH]; intros env; simpl; [lia|]. etransitivity; [apply (clock_listens (ecallback e) ev b (euser_data e))|apply IH].
Qed.

(** The invariant: open calls began one after the other, and every closed
    call ended before an open one began or took place during it. *)
Fixpoint opened_in_order (now : Z) (opened : list open_call) : Prop :=
  match opened with
  | [] => True
  | o :: opened => oc_start o <= now /\ opened_in_order (oc_start o) opened
  end.

Record ref_nested (r : ref_state (E := E)) : Prop := {
  rn_calls : calls_nested (r_calls r);
  rn_past : Forall (fun c => c_stop c <= time_of (r_env r)) (r_calls r);
  rn_open : opened_in_order (time_of (r_env r)) (r_open r);
  rn_cross : Forall (fun c => Forall (fun o => c_stop c <= oc_start o \/ oc_start o <= c_start c) (r_open r)) (r_calls r)
}.

Lemma opened_in_order_mono now now' opened : now <= now' -> opened_in_order now opened -> opened_in_order now' opened.
Proof. destruct opened; simpl; [done|]. intros ? [? ?]. split; [lia|done]. Qed.

Lemma opened_before now opened : opened_in_order now opened -> Forall (fun o => oc_start o <= now) opened.
Proof.
  revert now. induction opened as [|o opened IH]; intros now; [constructor|]. intros [Ho Hr]. constructor; [done|].
  eapply Forall_impl; [by apply IH|]. simpl. lia.
Qed.

Lemma ref_nested_step ks es ser cap thread op r : ref_nested r -> ref_nested (ref_step ks es ser cap thread r op).
Proof.
  intros [Hc Hp Ho Hx]. destruct op as [l|]; simpl.
  - unfold ref_start. pose proof (clock_reads (r_env r)) as Ht. destruct (read_clock (r_env r)) as [now env]. simpl in Ht. split; simpl.
    + done.
    + eapply Forall_impl; [exact Hp|]. simpl. lia.
    + split; [lia|]. eapply opened_in_order_mono; [|done]. lia.
    + rewrite Forall_forall in Hp, Hx. apply Forall_forall. intros c Hin. constructor; [|by apply Hx]. left. simpl. specialize (Hp c Hin). lia.
  - unfold ref_stop. destruct (r_open r) as [|o opened] eqn:Eo; [split; try done; by rewrite Eo|].
    pose proof (clock_reads (r_env r)) as Ht. destruct (read_clock (r_env r)) as [now env]. simpl in Ht.
    set (c := Call _ _ _ _). destruct (push_ref _ _ _ _) as [out buf]. pose proof (deliver_time es ser out env) as Hd.
    destruct Ho as [Ho Hos]. rewrite Forall_forall in Hp, Hx. split; simpl.
    + apply calls_nested_snoc; [done|simpl; lia|]. apply Forall_forall. intros d Hin. specialize (Hp d Hin). specialize (Hx d Hin).
      apply Forall_cons in Hx as [[Hx|Hx] _]; unfold before_or_inside; simpl; [by left|right; lia].
    + apply Forall_app. split; [|constructor; [simpl; lia|constructor]]. apply Forall_forall. intros d Hin. specialize (Hp d Hin). lia.
    + eapply opened_in_order_mono; [|done]. lia.
    + apply Forall_app. split; [|constructor; [|constructor]].
      * apply Forall_forall. intros d Hin. specialize (Hx d Hin). by apply Forall_cons in Hx as [_ Hx].
      * eapply Forall_impl; [by apply opened_before|]. simpl. auto.
Qed.

Lemma calls_nested_run ks es ser cap thread ops (env : E) next :
  calls_nested (r_calls (ref_run ks es ser cap thread ops (ref_init env next))).
Proof.
  apply rn_calls. unfold ref_run. generalize (ref_init env next), (ltac:(by split) : ref_nested (ref_init env next)).
  induction ops as [|op ops IH]; intros r Hr; simpl; [done|]. by apply IH, ref_nested_step.
Qed.

(** C22: the calls that are reported nest.  A thread creates a timeline, enables
    the call stack, opens and closes calls and destroys the timeline, as above,
    under a clock that does not go back.  Then the events that its listeners
    were given are those of calls that nest: of two calls reported one after the
    other the first ended before the second began, or took place during it; no
    two calls overlap otherwise, and none ends before it begins. *)
Theorem reported_calls_nest `{Malloc} garbage cap ts ser rs ops (s : sys (fenv E)) :
  sys_wf s -> fenv_wf s -> call_klasses (klasses s) -> 0 <= callstack_id (senv s) < HT_TIMELINE_MAX_FEATURES ->
  thread_of (senv s) <> 0 -> 0 <= cap -> (length rs <= 16)%nat -> brackets cap 0 ops ->
  wp (traced_thread garbage cap ts ser rs ops) (fun res s' =>
    match res with
    | inl _ => host_env (senv s') = host_env (senv s) \/ host_env (senv s') = destroy_env (entry_of <$> rs) (host_env (senv s))
    | inr _ => exists next,
        let r := ref_run (klasses s) (entry_of <$> rs) ser cap (thread_of (senv s)) ops (ref_init (host_env (senv s)) next) in
        host_env (senv s') = ref_finish (entry_of <$> rs) ser r /\
        concat (ref_batches r) = call_event (klasses s) (thread_of (senv s)) <$> r_calls r /\
        c_label <$> r_calls r = closed_labels [] ops /\ calls_nested (r_calls r)
    end) s.
Proof.
  intros Hwf Hfw Hk Hid Hth Hcap Hn Hbr. eapply wp_mono; [by apply traced_thread_spec|].
  intros [err|errs] s' (_&_&_&_&Hr); [done|]. destruct Hr as (_&next&E1&E2&E3). exists next. split_and!; [exact E1|exact E2|exact E3|apply calls_nested_run].
Qed.

End nesting.

(** ** A thread with three calls *)

(** A host in which reading the clock takes 10 ns and a listener 1 ns. *)
#[local] Instance ticking_host : Host Z := {
  run_listener _ _ _ _ := Z.succ;
  run_destroy _ _ e := e;
  read_clock e := (e, e + 10)
}.

Definition call_klass_store : klass_store :=
  {[at_HT_CallstackIntEvent := EventKlass (Some (get_type_info HT_CallstackIntEvent)) HT_CallstackIntEvent 5;
    at_HT_CallstackStringEvent := EventKlass (Some (get_type_info HT_CallstackStringEvent)) HT_CallstackStringEvent 6]}.

Definition thread_sys : sys (fenv Z) :=
  Sys empty_heap ∅ ∅ 0 call_klass_store static_registry (Fenv 1000 ∅ ∅ ∅ 1 0 0 ∅ 7).

Definition three_calls : list call_op :=
  [Start (StringLabel [109]); Start (IntLabel 1); Stop; Start (IntLabel 2); Stop; Stop].

Lemma calls_are_reported_witness :
  wp (traced_thread (H := always_granted) (H0 := {| endianness := HT_ENDIANNESS_LITTLE |}) 0 100 true true
        [Registration 100 1 NULL] three_calls) (fun res s' =>
    blocks (sheap s') = blocks (sheap thread_sys) /\ mutexes s' = mutexes thread_sys /\ containers s' = containers thread_sys /\
    callstacks (senv s') = callstacks (senv thread_sys) /\
    match res with
    | inl _ => host_env (senv s') = host_env (senv thread_sys) \/
        host_env (senv s') = destroy_env (entry_of <$> [Registration 100 1 NULL]) (host_env (senv thread_sys))
    | inr errs => Forall (fun e => e = HT_ERR_OK) errs /\ exists next,
        let r := ref_run (H0 := {| endianness := HT_ENDIANNESS_LITTLE |}) (klasses thread_sys) (entry_of <$> [Registration 100 1 NULL]) true 100
                   (thread_of (senv thread_sys)) three_calls (ref_init (host_env (senv thread_sys)) next) in
        host_env (senv s') = ref_finish (entry_of <$> [Registration 100 1 NULL]) true r /\
        concat (ref_batches r) = call_event (H0 := {| endianness := HT_ENDIANNESS_LITTLE |}) (klasses thread_sys) (thread_of (senv thread_sys)) <$> r_calls r /\
        c_label <$> r_calls r = closed_labels [] three_calls
    end) thread_sys.
Proof.
  apply (calls_are_reported (H := always_granted) (H0 := {| endianness := HT_ENDIANNESS_LITTLE |}) 0 100 true true
           [Registration 100 1 NULL] three_calls thread_sys).
  - split; intros p Hp; simpl in Hp; rewrite lookup_empty in Hp; by destruct Hp.
  - intros p [? Hp]. simpl in Hp. by rewrite lookup_empty in Hp.
  - split; eexists; reflexivity.
  - unfold HT_TIMELINE_MAX_FEATURES. simpl. lia.
  - done.
  - lia.
  - simpl. lia.
  - simpl. unfold may_open. split_and!; try done; try (left; lia); lia.
Defined.

#[local] Instance ticking_clock : MonotonicClock Z.
Proof. refine {| time_of := fun e : Z => e |}; simpl; lia. Defined.

Lemma reported_calls_nest_witness :
  wp (traced_thread (H := always_granted) (H0 := {| endianness := HT_ENDIANNESS_LITTLE |}) 0 100 true true
        [Registration 100 1 NULL] three_calls) (fun res s' =>
    match res with
    | inl _ => host_env (senv s') = host_env (senv thread_sys) \/
        host_env (senv s') = destroy_env (entry_of <$> [Registration 100 1 NULL]) (host_env (senv thread_sys))
    | inr _ => exists next,
        let r := ref_run (H0 := {| endianness := HT_ENDIANNESS_LITTLE |}) (klasses thread_sys) (entry_of <$> [Registration 100 1 NULL]) true 100
                   (thread_of (senv thread_sys)) three_calls (ref_init (host_env (senv thread_sys)) next) in
        host_env (senv s') = ref_finish (entry_of <$> [Registration 100 1 NULL]) true r /\
        concat (ref_batches r) = call_event (H0 := {| endianness := HT_ENDIANNESS_LITTLE |}) (klasses thread_sys) (thread_of (senv thread_sys)) <$> r_calls r /\
        c_label <$> r_calls r = closed_labels [] three_calls /\ calls_nested (r_calls r)
    end) thread_sys.
Proof.
  apply (reported_calls_nest (H := {| endianness := HT_ENDIANNESS_LITTLE |}) (H2 := always_granted) 0 100 true true [Registration 100 1 NULL] three_calls thread_sys).
  - split; intros p Hp; simpl in Hp; rewrite lookup_empty in Hp; by destruct Hp.
  - intros p [? Hp]. simpl in Hp. by rewrite lookup_empty in Hp.
  - split; eexists; reflexivity.
  - unfold HT_TIMELINE_MAX_FEATURES. simpl. lia.
  - done.
  - lia.
  - simpl. lia.
  - simpl. unfold may_open. split_and!; try done; try (left; lia); lia.
Defined.

(** A host that keeps the bytes its listeners are given. *)
#[local] Instance recording_host : Host (list memval) := {
  run_listener _ events _ _ e := e ++ events;
  run_destroy _ _ e := e;
  read_clock e := (0, e)
}.

Definition label_bytes (e : list memval) : list memval := drop 32 e.

(** A push that is refused memory is not noticed.  When the allocator
    refuses to enlarge the stack, the 22nd of the nested calls 1, 2, ... is not
    recorded, and the stop of that call reports the call around it, number
    21; with memory it reports number 22. *)
Theorem refused_call_unbalances :
  let run malloc := traced_thread (H := malloc) (H0 := {| endianness := HT_ENDIANNESS_LITTLE |}) 0 100 true true
    [Registration 100 1 NULL] ((Start ∘ IntLabel ∘ Z.of_nat <$> seq 1 22) ++ [Stop])
    (Sys empty_heap ∅ ∅ 0 call_klass_store static_registry (Fenv [] ∅ ∅ ∅ 1 0 0 ∅ 7)) in
  let reports n s := label_bytes (host_env (senv s)) = Byte <$> le_bytes 8 n in
  (match run (bump_malloc (fun _ bytes => bytes <? 2048)) with Done (inr [HT_ERR_OK], s) => reports 21 s | _ => False end) /\
  (match run always_granted with Done (inr [HT_ERR_OK], s) => reports 22 s | _ => False end).
Proof. split; vm_compute; reflexivity. Qed.
