(* ===== verification/CachedString.v ===== *)
(** Cached strings (lib/feature_cached_string.c): labels are pushed once, with
    a number that stands for them from then on; the number is the address of a
    literal, or the hash of a string that is copied.

    The reference is a pair of finite maps from numbers to labels. *)
From S2P Require Import Prelude Alloc BaseTypes Bag HashMap Memory Stack Events Listeners Registry Timeline Features.

#[local] Open Scope Z_scope.

(** Which of the two maps of the feature a function is given. *)
Inductive label_map := static_map | dynamic_map.

Definition map_of (which : label_map) (f : HT_FeatureCachedString) : HT_HashMap :=
  match which with static_map => static_hashes f | dynamic_map => dynamic_hashes f end.

Definition set_map (which : label_map) (m : HT_HashMap) (f : HT_FeatureCachedString) : HT_FeatureCachedString :=
  match which with
  | static_map => CachedString (fcs_lock f) (dynamic_hashes f) m
  | dynamic_map => CachedString (fcs_lock f) m (static_hashes f)
  end.

Section cached_string.
  Context `{Malloc} `{Platform} {E : Type} `{Host E}.
  Implicit Types (s : sys (fenv E)) (t : HT_Timeline).

Definition HT_FCS_LOCK_ (feature : HT_FeatureCachedString) : ST (sys (fenv E)) () :=
  if decide (fcs_lock feature <> NULL) then ht_mutex_lock (fcs_lock feature) else mret ().

Definition HT_FCS_UNLOCK_ (feature : HT_FeatureCachedString) : ST (sys (fenv E)) () :=
  if decide (fcs_lock feature <> NULL) then ht_mutex_unlock (fcs_lock feature) else mret ().

(** HT_TIMELINE_PUSH_EVENT(timeline, HT_StringMappingEvent, key, label). *)
Definition push_mapping t (key : Z) (label : ptr) : ST (sys (fenv E)) HT_Timeline :=
  l ← load_string label;
  HT_TIMELINE_PUSH_EVENT t at_HT_StringMappingEvent (fun base => VStruct [base; VScalar key; VStr (Some l)]).

(** The number, or 0, and the timeline. *)
Definition ht_feature_cached_string_add_mapping_ t (map : label_map) (hash : Z) (label : ptr)
    : ST (sys (fenv E)) (Z * HT_Timeline) :=
  p ← HT_FeatureCachedString_from_timeline t;
  require (bool_decide (p <> NULL));;
  f ← load_cached_string p;
  HT_FCS_LOCK_ f;;
  '(ret, error_code, m) ← zoom (ht_hash_map_insert (map_of map f) hash label);
  store_cached_string p (set_map map m f);;
  HT_FCS_UNLOCK_ f;;
  if decide (error_code <> HT_ERR_OK) then mret (0, t)
  else
    t ← (if decide (ret = NULL) then push_mapping t hash label else mret t);
    mret (hash, t).

(** A literal is known by its address. *)
Definition ht_feature_cached_string_add_mapping t (label : ptr) : ST (sys (fenv E)) (Z * HT_Timeline) :=
  p ← HT_FeatureCachedString_from_timeline t;
  require (bool_decide (p <> NULL));;
  ht_feature_cached_string_add_mapping_ t static_map label label.

(** The callback of the iterations; its user data is the timeline. *)
Definition ht_feature_cached_string_push_event (key : Z) (value : ptr) : ST (HT_Timeline * sys (fenv E)) bool := fun ts =>
  match push_mapping ts.1 key value ts.2 with
  | Done (t, s) => Done (true, (t, s))
  | Undef => Undef
  | NoFuel => NoFuel
  end.

(** An iteration over a map whose callback works on the timeline. *)
Definition over_timeline t (m : ST (HT_Timeline * sys (fenv E)) ()) : ST (sys (fenv E)) HT_Timeline := fun s =>
  match m (t, s) with
  | Done (_, (t', s')) => Done (t', s')
  | Undef => Undef
  | NoFuel => NoFuel
  end.

Definition ht_feature_cached_string_push_map t : ST (sys (fenv E)) HT_Timeline :=
  p ← HT_FeatureCachedString_from_timeline t;
  require (bool_decide (p <> NULL));;
  f ← load_cached_string p;
  HT_FCS_LOCK_ f;;
  t ← over_timeline t (ht_hash_map_for_each (static_hashes f) ht_feature_cached_string_push_event);
  t ← over_timeline t (ht_hash_map_for_each (dynamic_hashes f) ht_feature_cached_string_push_event);
  HT_FCS_UNLOCK_ f;;
  mret t.

(** A string is known by its hash, and copied when its hash is new.  The
    allocation is not tested; the result of [add_mapping_] is ignored. *)
Definition ht_feature_cached_string_add_mapping_dynamic t (label : ptr) : ST (sys (fenv E)) (Z * HT_Timeline) :=
  p ← HT_FeatureCachedString_from_timeline t;
  require (bool_decide (p <> NULL));;
  l ← load_string label;
  let hash_value := djb2_hash l in
  f ← load_cached_string p;
  HT_FCS_LOCK_ f;;
  value ← zoom (ht_hash_map_get_value (dynamic_hashes f) hash_value);
  HT_FCS_UNLOCK_ f;;
  if decide (value = NULL) then
    new_label ← zoom (ht_alloc (u64 (Z.of_nat (length l) + 1)));
    require (bool_decide (new_label <> NULL));;
    modify (set_env (set_c_strings <[new_label := l]>));;
    '(_, t) ← ht_feature_cached_string_add_mapping_ t dynamic_map hash_value new_label;
    mret (hash_value, t)
  else mret (hash_value, t).

(** ** A program and its labels *)

Inductive name_op := Static (label : ptr) | Dynamic (label : ptr) | PushMap.

Definition name_do (op : name_op) t : ST (sys (fenv E)) (list Z * HT_Timeline) :=
  match op with
  | Static label => '(k, t) ← ht_feature_cached_string_add_mapping t label; mret ([k], t)
  | Dynamic label => '(k, t) ← ht_feature_cached_string_add_mapping_dynamic t label; mret ([k], t)
  | PushMap => t ← ht_feature_cached_string_push_map t; mret ([], t)
  end.

(** The numbers the program gets, in order. *)
Fixpoint names_run (ops : list name_op) t : ST (sys (fenv E)) (list Z * HT_Timeline) :=
  match ops with
  | [] => mret ([], t)
  | op :: ops =>
      '(k, t) ← name_do op t;
      '(ks, t) ← names_run ops t;
      mret (k ++ ks, t)
  end.

(** ** The reference *)

(** A label that was pushed: when, with which identifier and number. *)
Record mapping := Mapping { m_time : Z; m_id : Z; m_key : Z; m_label : list Z }.

Definition mapping_value (m : mapping) : cval :=
  VStruct [VEvent at_HT_StringMappingEvent (m_time m) (m_id m); VScalar (m_key m); VStr (Some (m_label m))].

Definition mapping_event (ks : klass_store) (m : mapping) : pushed := pushed_of ks (mapping_value m).

Record name_state := NameState {
  n_env : E;                       (* the host *)
  n_next : Z;                      (* the next event identifier *)
  n_static : gmap Z (list Z);      (* the literals, by address *)
  n_dynamic : gmap Z (list Z);     (* the copies, by hash *)
  n_buf : list pushed;             (* what the timeline has buffered *)
  n_pushed : list mapping;         (* the labels pushed so far *)
  n_out : list (list pushed)       (* the batches handed to the listeners so far *)
}.

Section reference.
  Context (ks : klass_store) (es : list HT_TimelineListenerEntry) (ser : bool) (cap : Z) (strs : gmap ptr (list Z)).

Definition label_at (p : ptr) : list Z := default [] (strs !! p).

Definition n_push (r : name_state) (kl : Z * list Z) : name_state :=
  let '(now, env) := read_clock (n_env r) in
  let m := Mapping now (n_next r) kl.1 kl.2 in
  let '(out, buf) := push_ref ser cap (n_buf r) (mapping_event ks m) in
  NameState (deliver es ser out env) (u64 (n_next r + 1)) (n_static r) (n_dynamic r) buf (n_pushed r ++ [m]) (n_out r ++ out).

Definition n_set_static N (r : name_state) : name_state :=
  NameState (n_env r) (n_next r) N (n_dynamic r) (n_buf r) (n_pushed r) (n_out r).
Definition n_set_dynamic N (r : name_state) : name_state :=
  NameState (n_env r) (n_next r) (n_static r) N (n_buf r) (n_pushed r) (n_out r).

(** A number that is new is pushed with its label. *)
Definition n_add_static (p : ptr) (r : name_state) : name_state :=
  match n_static r !! p with
  | Some _ => r
  | None => n_push (n_set_static (<[p := label_at p]> (n_static r)) r) (p, label_at p)
  end.

Definition n_add_dynamic (p : ptr) (r : name_state) : name_state :=
  let h := djb2_hash (label_at p) in
  match n_dynamic r !! h with
  | Some _ => r
  | None => n_push (n_set_dynamic (<[h := label_at p]> (n_dynamic r)) r) (h, label_at p)
  end.

(** All labels are pushed again, in an order the code does not fix. *)
Inductive n_step : name_state -> name_op -> name_state -> Prop :=
| n_step_static p r : n_step r (Static p) (n_add_static p r)
| n_step_dynamic p r : n_step r (Dynamic p) (n_add_dynamic p r)
| n_step_push l1 l2 r : l1 ≡ₚ map_to_list (n_static r) -> l2 ≡ₚ map_to_list (n_dynamic r) ->
    n_step r PushMap (foldl n_push r (l1 ++ l2)).

Inductive n_run : name_state -> list name_op -> name_state -> Prop :=
| n_run_nil r : n_run r [] r
| n_run_cons r op r1 ops r2 : n_step r op r1 -> n_run r1 ops r2 -> n_run r (op :: ops) r2.

(** The number of a label and the label. *)
Definition op_name (op : name_op) : list (Z * list Z) :=
  match op with
  | Static p => [(p, label_at p)]
  | Dynamic p => [(djb2_hash (label_at p), label_at p)]
  | PushMap => []
  end.

End reference.

(** ** Pushing a label *)

Definition mapping_klass (ks : klass_store) : Prop := klass_ready ks at_HT_StringMappingEvent HT_StringMappingEvent.

Lemma mapping_pushed_ok cap ks ser m :
  generous -> mapping_klass ks -> Z.of_nat (length (m_label m)) < 2 ^ 62 ->
  pushed_ok ks (mapping_event ks m) /\ pushable_at cap ser (mapping_event ks m) /\ pv (mapping_event ks m) = mapping_value m.
Proof.
  intros Hg [id Hk] Hl.
  assert (exists bs, event_ok ks (mapping_value m) (EventKlass (Some (get_type_info HT_StringMappingEvent)) HT_StringMappingEvent id) bs /\
    Z.of_nat (length bs) = Z.of_nat (length (m_label m)) + 29) as (bs&Hok&Hlen).
  { eexists. split.
    - split; [unfold event_klass; simpl; by rewrite Hk|reflexivity..|simpl; rewrite Hk; reflexivity|].
      rewrite ?length_app, ?length_native_bytes; cbn [length]; rewrite ?length_app, ?length_native_bytes; cbn [length]; lia.
    - rewrite ?length_app, ?length_native_bytes; cbn [length]; rewrite ?length_app, ?length_native_bytes; cbn [length]; lia. }
  unfold mapping_event. rewrite (pushed_of_ok _ _ _ _ Hok). split_and!; try done. unfold pushable_at, event_size, event_cells. split.
  - set (e := Pushed _ _ _). assert (psize e = 40) as Hs by reflexivity.
    destruct ser; [rewrite length_fmap; simpl; lia|rewrite length_object_cells; lia].
  - intros _. right. right. rewrite length_fmap. apply Hg. simpl. lia.
Qed.

(** A step that only concerns the timeline and the host. *)
Record quiet s s' : Prop := {
  q_blocks : blocks (sheap s') = blocks (sheap s);
  q_mutexes : mutexes s' = mutexes s;
  q_containers : containers s' = containers s;
  q_klasses : klasses s' = klasses s;
  q_registry : registry s' = registry s;
  q_env : exists h, senv s' = set_host (fun _ => h) (senv s)
}.

Lemma quiet_refl s : quiet s s.
Proof. split; try done. exists (host_env (senv s)). by destruct (senv s). Qed.

Lemma quiet_trans s1 s2 s3 : quiet s1 s2 -> quiet s2 s3 -> quiet s1 s3.
Proof. intros [????? [h1 E1]] [????? [h2 E2]]. split; try congruence. exists h2. by rewrite E2, E1. Qed.

(** The timeline and the host are those of the reference. *)
Record follows s t es (r : name_state) : Prop := {
  fo_ready : tl_ready s t es (n_buf r);
  fo_env : host_env (senv s) = n_env r;
  fo_next : current_identifier s = n_next r
}.

Lemma push_mapping_spec t es r k q l s :
  generous -> mapping_klass (klasses s) -> follows s t es r -> c_strings (senv s) !! q = Some l -> Z.of_nat (length l) < 2 ^ 62 ->
  wp (push_mapping t k q) (fun t' s' => same_timeline t t' /\ quiet s s' /\
    follows s' t' es (n_push (klasses s) es (serialize_events t) (buffer_capacity t) r (k, l))) s.
Proof.
  intros Hg Hk [TR He Hn] Hq Hl. unfold push_mapping, load_string. apply wp_bind, wp_bind, wp_gets. eapply wp_some; [exact Hq|].
  unfold HT_TIMELINE_PUSH_EVENT. apply wp_bind, clock_spec. rewrite He. unfold n_push.
  destruct (read_clock (n_env r)) as [now env]. apply wp_bind. unfold ht_event_id_provider_next, wp at 1. simpl. rewrite Hn.
  set (s1 := Sys _ _ _ _ _ _ _). set (m := Mapping now (n_next r) k l). change (VStruct _) with (mapping_value m).
  destruct (mapping_pushed_ok (buffer_capacity t) (klasses s) (serialize_events t) m Hg Hk Hl) as (Hok&Hp&Hv).
  rewrite <- Hv. eapply wp_mono; [apply (push_event_spec t es (n_buf r) (mapping_event (klasses s) m) s1); [|done|done]|].
  { by eapply tl_ready_move; [..|exact TR]. }
  intros t' s'. destruct (push_ref _ _ (n_buf r) _) as [out buf]. intros (Hsame&TR'&[Eb Em Ec Ek Er Ei Ee]). rewrite deliver_host in Ee.
  split; [done|]. split; [|split; [done|by rewrite Ee|by rewrite Ei]]. split; try done. eexists. rewrite Ee. simpl. reflexivity.
Qed.

(** ** The feature's lock *)

Definition with_lock (f : HT_FeatureCachedString) (held : bool) s : sys (fenv E) :=
  if decide (fcs_lock f = NULL) then s else set_mutexes <[fcs_lock f := held]> s.

(** The lock is [held], if there is one. *)
Definition lock_is (f : HT_FeatureCachedString) (held : bool) s : Prop :=
  fcs_lock f <> NULL -> mutexes s !! fcs_lock f = Some held.

Lemma fcs_lock_spec f s (Q : () -> sys (fenv E) -> Prop) : lock_is f false s -> Q tt (with_lock f true s) -> wp (HT_FCS_LOCK_ f) Q s.
Proof.
  intros Hl HQ. unfold HT_FCS_LOCK_, with_lock in *. destruct (decide (fcs_lock f = NULL)) as [Hn|Hn].
  - rewrite decide_False by tauto. by apply wp_ret.
  - rewrite decide_True by done. apply lock_spec; [by apply Hl|done].
Qed.

Lemma fcs_unlock_spec f s (Q : () -> sys (fenv E) -> Prop) : lock_is f true s -> Q tt (with_lock f false s) -> wp (HT_FCS_UNLOCK_ f) Q s.
Proof.
  intros Hl HQ. unfold HT_FCS_UNLOCK_, with_lock in *. destruct (decide (fcs_lock f = NULL)) as [Hn|Hn].
  - rewrite decide_False by tauto. by apply wp_ret.
  - rewrite decide_True by done. apply unlock_spec; [by apply Hl|done].
Qed.

Lemma with_lock_held f b s : lock_is f b (with_lock f b s).
Proof. intros Hn. unfold with_lock. rewrite decide_False by done. apply lookup_insert_eq. Qed.

Lemma with_lock_rest f b s :
  sheap (with_lock f b s) = sheap s /\ containers (with_lock f b s) = containers s /\ klasses (with_lock f b s) = klasses s /\
  registry (with_lock f b s) = registry s /\ senv (with_lock f b s) = senv s /\
  current_identifier (with_lock f b s) = current_identifier s.
Proof. unfold with_lock. by case_decide. Qed.

(** Locking, and unlocking at the end, changes nothing. *)
Lemma with_lock_back f s s' : lock_is f false s -> mutexes s' = mutexes (with_lock f true s) -> mutexes (with_lock f false s') = mutexes s.
Proof.
  intros Hl Em. unfold with_lock, lock_is in *. case_decide as Hn; [done|]. simpl in *. rewrite Em, insert_insert_eq. by apply insert_id, Hl.
Qed.

(** The lock of the feature is not one of the timeline. *)
Definition lock_apart (f : HT_FeatureCachedString) s t : Prop :=
  fcs_lock f <> NULL -> fcs_lock f <> locking_policy t /\ forall c, containers s !! tlisteners t = Some c -> fcs_lock f <> cmutex c.

Lemma tl_ready_with_lock f b s t es evs : lock_apart f s t -> tl_ready s t es evs -> tl_ready (with_lock f b s) t es evs.
Proof.
  intros Ha [TR Hlock]. unfold with_lock, lock_apart in *. case_decide as Hn; [done|]. destruct (Ha Hn) as [Hp Hc]. split.
  - by apply tl_rep_mutex.
  - intros Hl. destruct (Hlock Hl) as [? ?]. split; [|done]. simpl. by rewrite lookup_insert_ne.
Qed.

Lemma follows_with_lock f b s t es r : lock_apart f s t -> follows s t es r -> follows (with_lock f b s) t es r.
Proof.
  intros Ha [TR He Hn]. destruct (with_lock_rest f b s) as (_&_&_&_&Ee&Ei). split; [by apply tl_ready_with_lock|by rewrite Ee|by rewrite Ei].
Qed.

(** What happens between the lock and the unlock. *)
Lemma quiet_unlock f s s' : lock_is f false s -> quiet (with_lock f true s) s' -> quiet s (with_lock f false s').
Proof.
  intros Hl [Eb Em Ec Ek Er Ee]. destruct (with_lock_rest f true s) as (E1&E2&E3&E4&E5&_), (with_lock_rest f false s') as (F1&F2&F3&F4&F5&_).
  split; [by rewrite F1, Eb, E1|by apply with_lock_back|by rewrite F2, Ec, E2|by rewrite F3, Ek, E3|by rewrite F4, Er, E4|].
  destruct Ee as [h Ee]. exists h. by rewrite F5, Ee, E5.
Qed.

(** ** The feature in memory *)

Definition lock_ptrs (f : HT_FeatureCachedString) : list ptr := if decide (fcs_lock f = NULL) then [] else [fcs_lock f].
Definition fcs_maps (f : HT_FeatureCachedString) : list ptr := map_ptrs (dynamic_hashes f) ++ map_ptrs (static_hashes f).
(** The blocks of the feature at [p], with the copies [L]. *)
Definition fcs_owned (p : ptr) (f : HT_FeatureCachedString) (L : list ptr) : list ptr := p :: lock_ptrs f ++ fcs_maps f ++ L.

(** The strings a map of pointers stands for. *)
Definition names_at (strs : gmap ptr (list Z)) (M : gmap Z ptr) : gmap Z (list Z) := label_at strs <$> M.
Definition valid_names (strs : gmap ptr (list Z)) (M : gmap Z ptr) : Prop :=
  map_Forall (fun _ q => q <> NULL /\ exists l, strs !! q = Some l /\ Z.of_nat (length l) < 2 ^ 62) M.

(** The object [f] at [p], whose maps hold [M1] (literals) and [M2] (copies),
    stands for the state [r] of the reference; [strs0] are the strings of
    the program. *)
Record fcs_rep s t es (strs0 : gmap ptr (list Z)) (p : ptr) (f : HT_FeatureCachedString) (M1 M2 : gmap Z ptr) (L : list ptr)
    (r : name_state) : Prop := {
  fr_follows : follows s t es r;
  fr_slot : exists k, features t !! Z.to_nat (cached_string_id (senv s)) = Some (Some (Feature p k));
  fr_nn : p <> NULL;
  fr_obj : cached_strings (senv s) !! p = Some f;
  fr_dyn : holds (dynamic_hashes f) M2 (blocks (sheap s));
  fr_stat : holds (static_hashes f) M1 (blocks (sheap s));
  fr_nodup : NoDup (fcs_owned p f L);
  fr_live : Forall (fun q => is_Some (blocks (sheap s) !! q)) (fcs_owned p f L);
  fr_lock : lock_is f false s;
  fr_apart : fcs_lock f <> NULL -> fcs_lock f <> locking_policy t;
  fr_cont : forall c q, containers s !! tlisteners t = Some c -> q ∈ cont_ptrs (tlisteners t) c -> q ∉ fcs_owned p f L;
  fr_strs : forall q, q ∉ L -> c_strings (senv s) !! q = strs0 !! q;
  fr_strs_live : forall q, is_Some (c_strings (senv s) !! q) -> is_Some (blocks (sheap s) !! q);
  fr_strs_own : forall q, q ∈ p :: lock_ptrs f ++ fcs_maps f -> c_strings (senv s) !! q = None;
  fr_copies : Forall (fun q => q <> NULL /\ strs0 !! q = None) L;
  fr_valid1 : valid_names (c_strings (senv s)) M1;
  fr_valid2 : valid_names (c_strings (senv s)) M2;
  fr_static : n_static r = names_at (c_strings (senv s)) M1;
  fr_dynamic : n_dynamic r = names_at (c_strings (senv s)) M2;
  fr_klass : mapping_klass (klasses s)
}.

Lemma fcs_lock_apart s t es strs0 p f M1 M2 L r : fcs_rep s t es strs0 p f M1 M2 L r -> lock_apart f s t.
Proof.
  intros R Hn. split; [by apply (fr_apart _ _ _ _ _ _ _ _ _ _ R)|]. intros c Hc Eq.
  apply (fr_cont _ _ _ _ _ _ _ _ _ _ R c (cmutex c) Hc).
  - unfold cont_ptrs. rewrite !elem_of_cons. tauto.
  - unfold fcs_owned, lock_ptrs. rewrite decide_False by done. rewrite elem_of_cons, elem_of_app, list_elem_of_singleton. auto.
Qed.

(** A step of timeline and host. *)
Lemma fcs_rep_quiet s t s' t' es strs0 p f M1 M2 L r r' :
  fcs_rep s t es strs0 p f M1 M2 L r -> quiet s s' -> same_timeline t t' -> follows s' t' es r' ->
  n_static r' = n_static r -> n_dynamic r' = n_dynamic r -> fcs_rep s' t' es strs0 p f M1 M2 L r'.
Proof.
  intros [_ ? ? ? ? ? ? ? Hl ? Hc ? ? ? ? ? ? ? ? ?] [Eb Em Ec Ek Er [h Ee]] Hsame Hf E1 E2.
  split; unfold lock_is in *; rewrite ?Eb, ?Em, ?Ec, ?Ek, ?Ee, ?E1, ?E2, ?(st_features _ _ Hsame), ?(st_listeners _ _ Hsame), ?(st_lock _ _ Hsame); done.
Qed.

Lemma fcs_from_timeline s t es strs0 p f M1 M2 L r (Q : ptr -> sys (fenv E) -> Prop) :
  fcs_rep s t es strs0 p f M1 M2 L r -> Q p s -> wp (HT_FeatureCachedString_from_timeline t) Q s.
Proof.
  intros R HQ. destruct (fr_slot _ _ _ _ _ _ _ _ _ _ R) as [k Hs].
  unfold HT_FeatureCachedString_from_timeline, HT_FeatureCachedString_get_class. wp_steps.
  unfold ht_timeline_get_feature. simpl. eapply wp_some; [exact Hs|]. by wp_steps.
Qed.

Lemma load_cached_spec s p f (Q : HT_FeatureCachedString -> sys (fenv E) -> Prop) :
  cached_strings (senv s) !! p = Some f -> Q f s -> wp (load_cached_string p) Q s.
Proof. intros Hf HQ. unfold load_cached_string. wp_steps. by eapply wp_some. Qed.

(** ** Pushing all labels *)

Abbreviation pushing s t es := (n_push (klasses s) es (serialize_events t) (buffer_capacity t)).

Lemma each_push_spec l t es r s :
  generous -> mapping_klass (klasses s) -> follows s t es r ->
  Forall (fun kq => exists x, c_strings (senv s) !! kq.2 = Some x /\ Z.of_nat (length x) < 2 ^ 62) l ->
  wp (each ht_feature_cached_string_push_event l) (fun ok ts => ok = true /\ same_timeline t ts.1 /\ quiet s ts.2 /\
    follows ts.2 ts.1 es (foldl (pushing s t es) r (prod_map id (label_at (c_strings (senv s))) <$> l))) (t, s).
Proof.
  intros Hg Hk Hf HF. revert t r s Hk Hf HF. induction l as [|[k q] l IH]; intros t r s Hk Hf HF; simpl.
  { split_and!; try done. apply quiet_refl. }
  apply Forall_cons in HF as [(x&Hx&Hl) HF]. simpl in Hx.
  apply wp_bind. pose proof (push_mapping_spec t es r k q x s Hg Hk Hf Hx Hl) as Hp.
  unfold wp in Hp. unfold wp at 1, ht_feature_cached_string_push_event. simpl.
  destruct (push_mapping t k q s) as [[t1 s1]| |]; [|done|done]. destruct Hp as (Hsame&Hq&Hf1).
  pose proof Hq as [_ _ _ Ek _ [h Ee]]. eapply wp_mono; [apply (IH t1 (pushing s t es r (k, x)) s1); [by rewrite Ek|exact Hf1|by rewrite Ee]|].
  - intros ok [t2 s2] (->&Hs2&Hq2&Hf2). simpl in *. split_and!; [done|by eapply same_timeline_trans|by eapply quiet_trans|].
    rewrite Ek, Ee, (st_ser _ _ Hsame), (st_cap _ _ Hsame) in Hf2. simpl in Hf2. unfold label_at at 1. by rewrite Hx.
Qed.

Lemma wp_eq {W A} (m1 m2 : ST W A) (Q : A -> W -> Prop) w : m1 w = m2 w -> wp m2 Q w -> wp m1 Q w.
Proof. unfold wp. by intros ->. Qed.

Lemma over_timeline_spec t (m : ST (HT_Timeline * sys (fenv E)) ()) (Q : HT_Timeline -> sys (fenv E) -> Prop) s :
  wp m (fun _ ts => Q ts.1 ts.2) (t, s) -> wp (over_timeline t m) Q s.
Proof. unfold wp, over_timeline. by destruct (m (t, s)) as [[[] [t' s']]| |]. Qed.

Lemma foldl_push_maps ks es ser cap l r :
  n_static (foldl (n_push ks es ser cap) r l) = n_static r /\ n_dynamic (foldl (n_push ks es ser cap) r l) = n_dynamic r.
Proof.
  revert r. induction l as [|kl l IH]; intros r; [done|]. simpl. destruct (IH (n_push ks es ser cap r kl)) as [-> ->].
  unfold n_push. destruct (read_clock (n_env r)). by destruct (push_ref _ _ _ _).
Qed.

(** An iteration over one of the maps. *)
Lemma for_each_push_spec m M t es r s :
  generous -> mapping_klass (klasses s) -> follows s t es r -> holds m M (blocks (sheap s)) -> valid_names (c_strings (senv s)) M ->
  wp (over_timeline t (ht_hash_map_for_each m ht_feature_cached_string_push_event)) (fun t' s' => same_timeline t t' /\ quiet s s' /\
    exists l, l ≡ₚ map_to_list (names_at (c_strings (senv s)) M) /\ follows s' t' es (foldl (pushing s t es) r l)) s.
Proof.
  intros Hg Hk Hf Hm Hv. destruct (holds_for_each _ _ _ Hm) as (l&Hl&Hloop). apply over_timeline_spec. apply (wp_eq _ _ _ _ (Hloop _ _ (t, s))).
  eapply wp_call; [apply (each_push_spec l t es r s Hg Hk Hf)|].
  - apply Forall_forall. intros [k q] Hin. rewrite Hl in Hin. apply elem_of_map_to_list in Hin. by destruct (Hv k q Hin) as [_ ?].
  - intros ok [t' s'] (_&Hsame&Hq&Hf'). apply wp_ret. split_and!; try done. eexists. split; [|exact Hf'].
    unfold names_at. rewrite map_to_list_fmap. by rewrite Hl.
Qed.

Lemma push_map_spec t es strs0 p f M1 M2 L r s :
  generous -> fcs_rep s t es strs0 p f M1 M2 L r ->
  wp (ht_feature_cached_string_push_map t) (fun t' s' => same_timeline t t' /\ quiet s s' /\ exists r',
    n_step (klasses s) es (serialize_events t) (buffer_capacity t) strs0 r PushMap r' /\
    fcs_rep s' t' es strs0 p f M1 M2 L r') s.
Proof.
  intros Hg R. pose proof R as [Hf _ Hp Hobj Hd Hs _ _ Hlock _ _ _ _ _ _ Hv1 Hv2 E1 E2 Hk]. pose proof (fcs_lock_apart _ _ _ _ _ _ _ _ _ _ R) as Ha.
  unfold ht_feature_cached_string_push_map. apply wp_bind, (fcs_from_timeline s t es strs0 p f M1 M2 L r); [done|].
  rewrite bool_decide_true by done. unfold require. rewrite ret_bind.
  apply wp_bind, (load_cached_spec s p f); [done|]. apply wp_bind, fcs_lock_spec; [done|].
  destruct (with_lock_rest f true s) as (H1'&H2'&H3'&H4'&H5'&_). set (s0 := with_lock f true s) in *.
  eapply wp_call; [apply (for_each_push_spec (static_hashes f) M1 t es r s0); try done|].
  { by rewrite H3'. } { by apply follows_with_lock. } { by rewrite H1'. } { by rewrite H5'. }
  intros t1 s1 (Hsame1&Hq1&l1&Hl1&Hf1). pose proof Hq1 as [Eb1 _ _ Ek1 _ [h1 Ee1]]. rewrite H5' in Hl1, Ee1. rewrite H3' in Hf1.
  eapply wp_call; [apply (for_each_push_spec (dynamic_hashes f) M2 t1 es (foldl (pushing s t es) r l1) s1); [done| |exact Hf1| |]|].
  { by rewrite Ek1, H3'. } { by rewrite Eb1, H1'. } { by rewrite Ee1. }
  intros t2 s2 (Hsame2&Hq2&l2&Hl2&Hf2). rewrite Ee1 in Hl2. simpl in Hl2. rewrite Ek1, H3', (st_ser _ _ Hsame1), (st_cap _ _ Hsame1), <- foldl_app in Hf2.
  pose proof (quiet_trans _ _ _ Hq1 Hq2) as Hq. pose proof (same_timeline_trans _ _ _ Hsame1 Hsame2) as Hsame.
  apply wp_bind, fcs_unlock_spec.
  { intros Hn. rewrite (q_mutexes _ _ Hq). by apply with_lock_held. }
  apply wp_ret. pose proof (quiet_unlock f s s2 Hlock Hq) as Hqs. split_and!; [done|done|].
  rewrite <- E1 in Hl1. rewrite <- E2 in Hl2.
  eexists. split; [by apply (n_step_push _ _ _ _ _ l1 l2)|].
  destruct (foldl_push_maps (klasses s) es (serialize_events t) (buffer_capacity t) (l1 ++ l2) r) as [Es Ed].
  eapply fcs_rep_quiet; [exact R|exact Hqs|exact Hsame| |done|done].
  apply follows_with_lock; [|done]. intros Hn. destruct (Ha Hn) as [Hlp Hcm]. rewrite (st_lock _ _ Hsame), (st_listeners _ _ Hsame).
  split; [done|]. intros c. rewrite (q_containers _ _ Hq), H2'. apply Hcm.
Qed.

(** ** Adding a label *)

Definition held_by (which : label_map) (M1 M2 : gmap Z ptr) : gmap Z ptr := match which with static_map => M1 | dynamic_map => M2 end.
Definition insert1 (which : label_map) (k : Z) (q : ptr) (M1 : gmap Z ptr) : gmap Z ptr :=
  match which with static_map => <[k := q]> M1 | dynamic_map => M1 end.
Definition insert2 (which : label_map) (k : Z) (q : ptr) (M2 : gmap Z ptr) : gmap Z ptr :=
  match which with static_map => M2 | dynamic_map => <[k := q]> M2 end.
Definition n_insert (which : label_map) (k : Z) (l : list Z) (r : name_state) : name_state :=
  match which with
  | static_map => n_set_static (<[k := l]> (n_static r)) r
  | dynamic_map => n_set_dynamic (<[k := l]> (n_dynamic r)) r
  end.

(** The blocks of the feature other than those of one map. *)
Definition other_map (which : label_map) (f : HT_FeatureCachedString) : HT_HashMap :=
  match which with static_map => dynamic_hashes f | dynamic_map => static_hashes f end.
Definition fcs_rest (which : label_map) (p : ptr) (f : HT_FeatureCachedString) (L : list ptr) : list ptr :=
  p :: lock_ptrs f ++ map_ptrs (other_map which f) ++ L.

Lemma fcs_owned_split which p f L : fcs_owned p f L ≡ₚ map_ptrs (map_of which f) ++ fcs_rest which p f L.
Proof. unfold fcs_owned, fcs_rest, fcs_maps. destruct which; simpl; solve_Permutation. Qed.

Lemma fcs_owned_set which p m f L : fcs_owned p (set_map which m f) L ≡ₚ map_ptrs m ++ fcs_rest which p f L.
Proof. rewrite (fcs_owned_split which). unfold fcs_rest. by destruct which. Qed.

Lemma fcs_hold which s t es strs0 p f M1 M2 L r :
  fcs_rep s t es strs0 p f M1 M2 L r -> holds (map_of which f) (held_by which M1 M2) (blocks (sheap s)).
Proof. intros []. by destruct which. Qed.

(** What a step may change: the blocks of the feature, and its object. *)
Record fcs_step p f L f' L' s s' : Prop := {
  fs_mutexes : mutexes s' = mutexes s;
  fs_containers : containers s' = containers s;
  fs_klasses : klasses s' = klasses s;
  fs_registry : registry s' = registry s;
  fs_stacks : callstacks (senv s') = callstacks (senv s);
  fs_objects : delete p (cached_strings (senv s')) = delete p (cached_strings (senv s));
  fs_ids : callstack_id (senv s') = callstack_id (senv s) /\ cached_string_id (senv s') = cached_string_id (senv s);
  fs_lock : fcs_lock f' = fcs_lock f;
  fs_frame : frame (fcs_owned p f L) (fcs_owned p f' L') (blocks (sheap s)) (blocks (sheap s'))
}.

Lemma fcs_step_trans p f1 L1 f2 L2 f3 L3 s1 s2 s3 :
  fcs_step p f1 L1 f2 L2 s1 s2 -> fcs_step p f2 L2 f3 L3 s2 s3 -> fcs_step p f1 L1 f3 L3 s1 s3.
Proof. intros [??????[??]??] [??????[??]??]. split; try congruence; [split; congruence|]. by eapply frame_trans. Qed.

Lemma quiet_step p f L s s' : quiet s s' -> fcs_step p f L f L s s'.
Proof. intros [Eb Em Ec Ek Er [h Ee]]. split; rewrite ?Ee; try done. rewrite Eb. apply frame_refl. Qed.

Lemma fcs_rep_insert which k q l m s s' t es strs0 p f M1 M2 L r :
  fcs_rep s t es strs0 p f M1 M2 L r ->
  frame (map_ptrs (map_of which f)) (map_ptrs m) (blocks (sheap s)) (blocks (sheap s')) ->
  holds m (<[k := q]> (held_by which M1 M2)) (blocks (sheap s')) ->
  q <> NULL -> c_strings (senv s) !! q = Some l -> Z.of_nat (length l) < 2 ^ 62 ->
  mutexes s' = mutexes s -> containers s' = containers s -> klasses s' = klasses s -> registry s' = registry s ->
  current_identifier s' = current_identifier s -> senv s' = set_cached_strings <[p := set_map which m f]> (senv s) ->
  fcs_rep s' t es strs0 p (set_map which m f) (insert1 which k q M1) (insert2 which k q M2) L (n_insert which k l r) /\
  fcs_step p f L (set_map which m f) L s s'.
Proof.
  intros R Hfr Hm Hqn Hq Hl Em Ec Ek Er Ei Ee.
  pose proof R as [[TR He Hn] Hslot Hp Hobj Hd Hs Hnd Hlive Hlock Hap Hcont Hstr Hsl Hso Hco Hv1 Hv2 E1 E2 Hk].
  rewrite (fcs_owned_split which) in Hnd, Hlive. apply NoDup_app in Hnd as (_&Hdisj&HndK). apply Forall_app in Hlive as [_ HliveK].
  set (K := fcs_rest which p f L) in *.
  assert (HF : Forall (fun x => is_Some (blocks (sheap s) !! x) /\ x ∉ map_ptrs (map_of which f)) K).
  { rewrite Forall_forall in HliveK |- *. intros x Hx. split; [by apply HliveK|]. intros Hx'. by apply (Hdisj x). }
  assert (Hkeep : forall x, x ∈ K -> (x ∉ map_ptrs m) /\ blocks (sheap s') !! x = blocks (sheap s) !! x).
  { intros x Hx. rewrite Forall_forall in HF. destruct (HF x Hx). by apply (proj1 Hfr). }
  assert (Hother : forall M, holds (other_map which f) M (blocks (sheap s)) -> holds (other_map which f) M (blocks (sheap s'))).
  { intros M Ho. eapply holds_frame; [exact Ho|]. intros x Hx. apply Hkeep. unfold K, fcs_rest. rewrite elem_of_cons, !elem_of_app. tauto. }
  assert (Hframe : frame (fcs_owned p f L) (fcs_owned p (set_map which m f) L) (blocks (sheap s)) (blocks (sheap s'))).
  { rewrite (fcs_owned_split which), fcs_owned_set. fold K. rewrite !(Permutation_app_comm _ K). by apply frame_keep. }
  assert (Elock : fcs_lock (set_map which m f) = fcs_lock f) by (by destruct which).
  split; [|split; rewrite ?Ee; try done; simpl; by rewrite delete_insert_eq].
  assert (Hckeep : forall c x, containers s !! tlisteners t = Some c -> x ∈ cont_ptrs (tlisteners t) c ->
    (x ∉ fcs_owned p (set_map which m f) L) /\ blocks (sheap s') !! x = blocks (sheap s) !! x).
  { by eapply (cont_keep s t es). }
  assert (Hskeep : forall x, is_Some (c_strings (senv s) !! x) -> (x ∉ map_ptrs m) /\ is_Some (blocks (sheap s') !! x)).
  { intros x Hx. destruct (decide (x ∈ map_ptrs (map_of which f))) as [Hin|Hin].
    - rewrite Hso in Hx; [by destruct Hx|]. unfold fcs_maps. rewrite elem_of_cons, !elem_of_app. destruct which; simpl in Hin; tauto.
    - destruct (proj1 Hfr x Hin (Hsl x Hx)) as [? Ex]. rewrite Ex. auto. }
  assert (Hval : valid_names (c_strings (senv s)) (<[k := q]> (held_by which M1 M2))).
  { apply map_Forall_insert_2; [split; [done|eauto]|]. by destruct which. }
  assert (Hnames : names_at (c_strings (senv s)) (<[k := q]> (held_by which M1 M2)) =
    <[k := l]> (names_at (c_strings (senv s)) (held_by which M1 M2))).
  { unfold names_at. rewrite fmap_insert. unfold label_at at 1. by rewrite Hq. }
  split; unfold lock_is in *; rewrite ?Em, ?Ec, ?Ek, ?Ee, ?Elock; simpl; try done.
  - split; [|rewrite Ee; by destruct which|rewrite Ei; by destruct which].
    assert (n_buf (n_insert which k l r) = n_buf r) as -> by (by destruct which).
    eapply tl_ready_move; [done|done|done| |exact TR]. intros c x Hc Hx. by apply (Hckeep c x).
  - apply lookup_insert_eq.
  - destruct which; [by apply Hother|done].
  - destruct which; [done|by apply Hother].
  - rewrite fcs_owned_set. apply NoDup_app. split_and!; [by eapply holds_nodup| |done]. intros x Hx Hx'. by apply (Hkeep x Hx').
  - rewrite fcs_owned_set. apply Forall_app. split; [apply Forall_forall; intros x; by eapply holds_live|].
    rewrite Forall_forall in HliveK |- *. intros x Hx. destruct (Hkeep x Hx) as [_ ->]. by apply HliveK.
  - intros c x Hc Hx. by apply (Hckeep c x).
  - intros x Hx. by apply Hskeep.
  - intros x Hx. destruct (c_strings (senv s) !! x) as [y|] eqn:Ey; [|done]. exfalso.
    destruct (Hskeep x) as [Hxm _]; [by rewrite Ey|]. assert (c_strings (senv s) !! x = None) as Ex; [|by rewrite Ey in Ex].
    apply Hso. unfold lock_ptrs, fcs_maps in *. rewrite elem_of_cons, !elem_of_app in *. destruct which; simpl in *; tauto.
  - by destruct which.
  - by destruct which.
  - destruct which; simpl in *; [by rewrite Hnames, E1|done].
  - destruct which; simpl in *; [done|by rewrite Hnames, E2].
Qed.

Lemma n_push_maps ks es ser cap r kl :
  n_static (n_push ks es ser cap r kl) = n_static r /\ n_dynamic (n_push ks es ser cap r kl) = n_dynamic r.
Proof. apply (foldl_push_maps ks es ser cap [kl]). Qed.

Lemma n_insert_id which k l r :
  match which with static_map => n_static r | dynamic_map => n_dynamic r end !! k = Some l -> n_insert which k l r = r.
Proof. intros Hk. destruct r, which; simpl in *; unfold n_set_static, n_set_dynamic; simpl; by rewrite insert_id. Qed.

(** The lookup of a number in the reference. *)
Lemma fcs_lookup which k s t es strs0 p f M1 M2 L r :
  fcs_rep s t es strs0 p f M1 M2 L r ->
  match which with static_map => n_static r | dynamic_map => n_dynamic r end !! k =
    label_at (c_strings (senv s)) <$> held_by which M1 M2 !! k.
Proof. intros R. destruct which; simpl; rewrite ?(fr_static _ _ _ _ _ _ _ _ _ _ R), ?(fr_dynamic _ _ _ _ _ _ _ _ _ _ R); apply lookup_fmap. Qed.

Lemma add_mapping_spec which k q l t es strs0 p f M1 M2 L r s :
  generous -> fcs_rep s t es strs0 p f M1 M2 L r -> Z.of_nat (base.size (held_by which M1 M2)) < 2 ^ 57 ->
  q <> NULL -> c_strings (senv s) !! q = Some l -> Z.of_nat (length l) < 2 ^ 62 ->
  held_by which M1 M2 !! k = None \/ held_by which M1 M2 !! k = Some q ->
  wp (ht_feature_cached_string_add_mapping_ t which k q) (fun '(key, t') s' => key = k /\ same_timeline t t' /\
    c_strings (senv s') = c_strings (senv s) /\ exists f',
    fcs_rep s' t' es strs0 p f' (insert1 which k q M1) (insert2 which k q M2) L
      (if decide (held_by which M1 M2 !! k = None) then pushing s t es (n_insert which k l r) (k, l) else r) /\
    fcs_step p f L f' L s s') s.
Proof.
  intros Hg R Hsz Hq Hl Hshort Hold. pose proof (fr_lock _ _ _ _ _ _ _ _ _ _ R) as Hlock.
  unfold ht_feature_cached_string_add_mapping_. apply wp_bind, (fcs_from_timeline s t es strs0 p f M1 M2 L r); [done|].
  rewrite bool_decide_true by apply (fr_nn _ _ _ _ _ _ _ _ _ _ R). unfold require. rewrite ret_bind.
  apply wp_bind, (load_cached_spec s p f); [apply (fr_obj _ _ _ _ _ _ _ _ _ _ R)|]. apply wp_bind, fcs_lock_spec; [done|].
  destruct (with_lock_rest f true s) as (H1'&H2'&H3'&H4'&H5'&H6'). set (s0 := with_lock f true s) in *.
  assert (Hh : holds (map_of which f) (held_by which M1 M2) (blocks (sheap s0))) by (rewrite H1'; by eapply fcs_hold).
  apply wp_bind, wp_zoom. eapply wp_mono; [apply wp_and; [by apply holds_insert|by apply (holds_insert_generous _ (held_by which M1 M2))]|].
  intros [[ret err] m] h [[Hfr He] Hok]. simpl in Hok. subst err. destruct He as [-> Hm]. cbn beta iota.
  change (view s0) with (sheap s0) in Hfr. rewrite H1' in Hfr.
  unfold store_cached_string. apply wp_bind, wp_modify. set (s1 := set_env _ _).
  apply wp_bind, fcs_unlock_spec; [intros Hn; by apply (with_lock_held f true s)|].
  destruct (with_lock_rest f false s1) as (F1&F2&F3&F4&F5&F6). set (s2 := with_lock f false s1) in *.
  rewrite decide_False by tauto.
  destruct (fcs_rep_insert which k q l m s s2 t es strs0 p f M1 M2 L r) as [R2 St2]; try done.
  { by rewrite F1. } { by rewrite F1. } { by apply (with_lock_back f s s1). } { by rewrite F2. } { by rewrite F3. } { by rewrite F4. }
  { by rewrite F6. } { rewrite F5. simpl. by rewrite H5'. }
  assert (Est : c_strings (senv s2) = c_strings (senv s)) by (rewrite F5; simpl; by rewrite H5').
  assert (Ek2 : klasses s2 = klasses s) by (by rewrite F3).
  destruct Hold as [Hold|Hold]; rewrite Hold.
  - change (default NULL None) with NULL. rewrite !decide_True by done. apply wp_bind. eapply wp_mono;
      [apply (push_mapping_spec t es (n_insert which k l r) k q l s2 Hg); [apply R2|apply R2|by rewrite Est|done]|].
    intros t3 s3 (Hsame&Hq3&Hf3). apply wp_ret. rewrite Ek2 in Hf3. pose proof Hq3 as [_ _ _ _ _ [h3 Ee3]].
    split_and!; [done|done|by rewrite Ee3|]. exists (set_map which m f). split.
    + eapply fcs_rep_quiet; [exact R2|exact Hq3|exact Hsame|exact Hf3|apply n_push_maps..].
    + eapply fcs_step_trans; [exact St2|by apply quiet_step].
  - change (default NULL (Some q)) with q. rewrite decide_False by done. rewrite (decide_False (P := Some q = None)) by done. rewrite ret_bind. apply wp_ret.
    split_and!; try done. exists (set_map which m f). split; [|done].
    rewrite (n_insert_id which k l r) in R2; [done|]. rewrite (fcs_lookup which k _ _ _ _ _ _ _ _ _ _ R), Hold. simpl. unfold label_at. by rewrite Hl.
Qed.

(** A copy of a label is made. *)
Lemma names_at_insert strs q l M : strs !! q = None -> valid_names strs M ->
  names_at (<[q := l]> strs) M = names_at strs M /\ valid_names (<[q := l]> strs) M.
Proof.
  intros Hq Hv. assert (forall k x, M !! k = Some x -> x <> q) as Hne.
  { intros k x Hk ->. destruct (Hv k q Hk) as (_&y&Hy&_). by rewrite Hq in Hy. }
  split.
  - apply map_fmap_ext. intros k x Hk. unfold label_at. by rewrite lookup_insert_ne by (by apply not_eq_sym, (Hne k)).
  - intros k x Hk. destruct (Hv k x Hk) as (?&y&?&?). split; [done|]. exists y. split; [|done].
    by rewrite lookup_insert_ne by (by apply not_eq_sym, (Hne k)).
Qed.

Lemma fcs_rep_copy q n l s s' t es strs0 p f M1 M2 L r :
  fcs_rep s t es strs0 p f M1 M2 L r -> q <> NULL -> blocks (sheap s) !! q = None -> blocks (sheap s') = <[q := n]> (blocks (sheap s)) ->
  mutexes s' = mutexes s -> containers s' = containers s -> klasses s' = klasses s -> registry s' = registry s ->
  current_identifier s' = current_identifier s -> senv s' = set_c_strings <[q := l]> (senv s) ->
  fcs_rep s' t es strs0 p f M1 M2 (q :: L) r /\ fcs_step p f L f (q :: L) s s'.
Proof.
  intros R Hq Hfresh Eb Em Ec Ek Er Ei Ee.
  pose proof R as [[TR He Hn] Hslot Hp Hobj Hd Hs Hnd Hlive Hlock Hap Hcont Hstr Hsl Hso Hco Hv1 Hv2 E1 E2 Hk].
  assert (Hout : forall x, is_Some (blocks (sheap s) !! x) -> x <> q /\ blocks (sheap s') !! x = blocks (sheap s) !! x).
  { intros x Hx. assert (x <> q) by (intros ->; rewrite Hfresh in Hx; by destruct Hx). split; [done|]. by rewrite Eb, lookup_insert_ne. }
  assert (Hqs : c_strings (senv s) !! q = None).
  { destruct (c_strings (senv s) !! q) eqn:Eq; [|done]. destruct (Hsl q) as [? Hx]; [by rewrite Eq|congruence]. }
  destruct (names_at_insert _ q l M1 Hqs Hv1) as [N1 V1], (names_at_insert _ q l M2 Hqs Hv2) as [N2 V2].
  assert (Hperm : fcs_owned p f (q :: L) ≡ₚ q :: fcs_owned p f L) by (unfold fcs_owned, fcs_maps; simpl; solve_Permutation).
  assert (Hqo : q ∉ fcs_owned p f L).
  { intros Hin. rewrite Forall_forall in Hlive. destruct (Hlive q Hin). congruence. }
  assert (HqL : q ∉ L).
  { intros Hin. apply Hqo. unfold fcs_owned. rewrite elem_of_cons, !elem_of_app. tauto. }
  assert (Hcl : forall c x, containers s !! tlisteners t = Some c -> x ∈ cont_ptrs (tlisteners t) c -> is_Some (blocks (sheap s) !! x)).
  { intros c x Hc Hx. destruct (tl_cont _ _ _ _ (proj1 TR)) as [c' CR]. pose proof (cr_lookup _ _ _ _ CR) as Hc'. rewrite Hc in Hc'. injection Hc' as <-.
    pose proof (cont_live _ _ _ _ CR) as HF. rewrite Forall_forall in HF. by apply HF. }
  split; [split|split]; unfold lock_is in *; rewrite ?Em, ?Ec, ?Ek, ?Ee; simpl; try done.
  - split; [|by rewrite Ee|by rewrite Ei]. eapply tl_ready_move; [done|done|done| |exact TR]. intros c x Hc Hx. by apply Hout, (Hcl c).
  - eapply holds_frame; [exact Hd|]. intros x Hx. by apply Hout, (holds_live _ _ _ x Hd).
  - eapply holds_frame; [exact Hs|]. intros x Hx. by apply Hout, (holds_live _ _ _ x Hs).
  - rewrite Hperm. by apply NoDup_cons.
  - rewrite Hperm. apply Forall_cons. split; [rewrite Eb, lookup_insert_eq; eauto|]. eapply Forall_impl; [exact Hlive|]. simpl. intros x Hx. destruct (Hout x Hx) as [_ ->]. done.
  - intros c x Hc Hx. rewrite Hperm, not_elem_of_cons. split; [by apply Hout, (Hcl c)|by apply (Hcont c)].
  - intros x [Hx1 Hx2]%not_elem_of_cons. rewrite lookup_insert_ne by (by apply not_eq_sym). by apply Hstr.
  - intros x Hx. rewrite Eb. apply lookup_insert_is_Some'. apply lookup_insert_is_Some' in Hx as [?|?]; [by left|right; by apply Hsl].
  - intros x Hx. rewrite lookup_insert_ne; [by apply Hso|]. intros ->. apply Hqo. unfold fcs_owned. rewrite elem_of_cons, !elem_of_app in *. tauto.
  - apply Forall_cons. split; [|done]. split; [done|]. by rewrite <- Hstr.
  - by rewrite N1.
  - by rewrite N2.
  - rewrite Hperm, Eb. by apply frame_insert.
Qed.

(** ** The operations follow the reference *)

Definition op_ok (strs : gmap ptr (list Z)) (op : name_op) : Prop :=
  match op with
  | Static q | Dynamic q => q <> NULL /\ exists l, strs !! q = Some l /\ Z.of_nat (length l) < 2 ^ 62
  | PushMap => True
  end.

(** Literals are known by their addresses, and the copies are what the map
    of the hashes holds. *)
Definition maps_ok (M1 M2 : gmap Z ptr) (L : list ptr) : Prop :=
  map_Forall (fun k q => q = k) M1 /\ L ≡ₚ (map_to_list M2).*2.

Lemma fcs_string q l s t es strs0 p f M1 M2 L r :
  fcs_rep s t es strs0 p f M1 M2 L r -> strs0 !! q = Some l -> c_strings (senv s) !! q = Some l.
Proof.
  intros R Hq. rewrite (fr_strs _ _ _ _ _ _ _ _ _ _ R); [done|]. intros Hin.
  pose proof (fr_copies _ _ _ _ _ _ _ _ _ _ R) as HF. rewrite Forall_forall in HF. destruct (HF q Hin). congruence.
Qed.

Lemma add_static_spec q t es strs0 p f M1 M2 L r s :
  generous -> fcs_rep s t es strs0 p f M1 M2 L r -> maps_ok M1 M2 L -> Z.of_nat (base.size M1) < 2 ^ 57 -> op_ok strs0 (Static q) ->
  wp (ht_feature_cached_string_add_mapping t q) (fun '(k, t') s' => k = q /\ same_timeline t t' /\ exists f',
    fcs_rep s' t' es strs0 p f' (<[q := q]> M1) M2 L (n_add_static (klasses s) es (serialize_events t) (buffer_capacity t) strs0 q r) /\
    maps_ok (<[q := q]> M1) M2 L /\ fcs_step p f L f' L s s') s.
Proof.
  intros Hg R [Hm1 Hm2] Hsz (Hq&l&Hl&Hshort). unfold ht_feature_cached_string_add_mapping.
  apply wp_bind, (fcs_from_timeline s t es strs0 p f M1 M2 L r); [done|].
  rewrite bool_decide_true by apply (fr_nn _ _ _ _ _ _ _ _ _ _ R). unfold require. rewrite ret_bind.
  eapply wp_mono; [apply (add_mapping_spec static_map q q l t es strs0 p f M1 M2 L r); try done; [by eapply fcs_string|]|].
  { simpl. destruct (M1 !! q) as [x|] eqn:Ex; [right|by left]. by rewrite (Hm1 q x Ex). }
  intros [k t'] s' (->&Hsame&_&f'&R'&St). split_and!; try done. exists f'. split_and!; try done; [|split; [by apply map_Forall_insert_2|done]].
  unfold n_add_static. pose proof (fcs_lookup static_map q _ _ _ _ _ _ _ _ _ _ R) as Hlk. cbn [held_by] in Hlk. rewrite Hlk.
  assert (label_at strs0 q = l) as -> by (unfold label_at; by rewrite Hl). cbn [held_by insert1 insert2 n_insert] in R'.
  destruct (M1 !! q) as [x|]; simpl; [|by rewrite decide_True in R' by done]. by rewrite decide_False in R'.
Qed.

Lemma add_dynamic_spec q t es strs0 p f M1 M2 L r s :
  generous -> fcs_rep s t es strs0 p f M1 M2 L r -> maps_ok M1 M2 L -> Z.of_nat (base.size M2) < 2 ^ 57 -> op_ok strs0 (Dynamic q) ->
  wp (ht_feature_cached_string_add_mapping_dynamic t q) (fun '(k, t') s' => k = djb2_hash (label_at strs0 q) /\ same_timeline t t' /\
    exists f' M2' L', fcs_rep s' t' es strs0 p f' M1 M2' L' (n_add_dynamic (klasses s) es (serialize_events t) (buffer_capacity t) strs0 q r) /\
    maps_ok M1 M2' L' /\ (base.size M2' <= S (base.size M2))%nat /\ fcs_step p f L f' L' s s') s.
Proof.
  intros Hg R [Hm1 Hm2] Hsz (Hq&l&Hl&Hshort). pose proof (fr_lock _ _ _ _ _ _ _ _ _ _ R) as Hlock.
  unfold ht_feature_cached_string_add_mapping_dynamic. apply wp_bind, (fcs_from_timeline s t es strs0 p f M1 M2 L r); [done|].
  rewrite bool_decide_true by apply (fr_nn _ _ _ _ _ _ _ _ _ _ R). unfold require. rewrite ret_bind.
  unfold load_string. apply wp_bind, wp_bind, wp_gets. eapply wp_some; [by eapply fcs_string|].
  assert (label_at strs0 q = l) as Hlab by (unfold label_at; by rewrite Hl). rewrite Hlab. cbn zeta. set (h := djb2_hash l).
  apply wp_bind, (load_cached_spec s p f); [apply (fr_obj _ _ _ _ _ _ _ _ _ _ R)|]. apply wp_bind, fcs_lock_spec; [done|].
  destruct (with_lock_rest f true s) as (H1'&H2'&H3'&H4'&H5'&H6'). set (s0 := with_lock f true s) in *.
  apply wp_bind, wp_zoom. eapply wp_mono; [apply (holds_get _ M2 h)|].
  { simpl. rewrite H1'. apply (fr_dyn _ _ _ _ _ _ _ _ _ _ R). }
  intros value h0 [-> ->]. assert (update (view s0) s0 = s0) as -> by (by destruct s0).
  apply wp_bind, fcs_unlock_spec; [apply with_lock_held|].
  destruct (with_lock_rest f false s0) as (F1&F2&F3&F4&F5&F6). pose proof (with_lock_back f s s0 Hlock eq_refl) as F7.
  set (s1 := with_lock f false s0) in *. rewrite H1' in F1. rewrite H2' in F2. rewrite H3' in F3. rewrite H4' in F4. rewrite H5' in F5. rewrite H6' in F6.
  assert (s1 = s) as -> by (destruct s1, s; simpl in *; congruence). clearbody s0. clear H1' H2' H3' H4' H5' H6' F1 F2 F3 F4 F5 F6 F7.
  pose proof (fcs_lookup dynamic_map h _ _ _ _ _ _ _ _ _ _ R) as Hlk. cbn [held_by] in Hlk.
  unfold n_add_dynamic. rewrite Hlab. fold h. cbn zeta. rewrite Hlk. destruct (M2 !! h) as [x|] eqn:Ex; cbn [default from_option fmap option_fmap option_map].
  { destruct (fr_valid2 _ _ _ _ _ _ _ _ _ _ R h x Ex) as [Hx _]. change (default NULL (Some x)) with x. rewrite decide_False by done. apply wp_ret. split_and!; try done.
    exists f, M2, L. split; [done|]. split; [done|]. split; [lia|]. apply quiet_step, quiet_refl. }
  change (default NULL None) with NULL. rewrite decide_True by done. rewrite u64_small by lia.
  apply wp_bind, wp_zoom, ht_alloc_granted; [apply Hg; lia|]. intros new hp Hnew _ Hfresh (Ehp&_&_).
  rewrite bool_decide_true, ret_bind by done. apply wp_bind, wp_modify. set (s2 := set_env _ _).
  destruct (fcs_rep_copy new (Z.of_nat (length l) + 1) l s s2 t es strs0 p f M1 M2 L r) as [R2 St2]; try done.
  apply wp_bind. eapply wp_mono; [apply (add_mapping_spec dynamic_map h new l t es strs0 p f M1 M2 (new :: L) r); try done|].
  { simpl. apply lookup_insert_eq. } { by left. }
  intros [k t'] s' (->&Hsame&_&f'&R'&St). apply wp_ret. split_and!; try done. exists f', (<[h := new]> M2), (new :: L).
  cbn [held_by insert1 insert2 n_insert] in R'. rewrite decide_True in R' by done. split; [exact R'|]. split; [split; [done|]|split].
  - rewrite (map_to_list_insert _ _ _ Ex). simpl. by rewrite Hm2.
  - rewrite map_size_insert_None by done. lia.
  - by eapply fcs_step_trans.
Qed.

Abbreviation step_to s t es strs0 := (n_step (klasses s) es (serialize_events t) (buffer_capacity t) strs0).
Abbreviation run_to s t es strs0 := (n_run (klasses s) es (serialize_events t) (buffer_capacity t) strs0).

Lemma name_do_spec op t es strs0 p f M1 M2 L r s :
  generous -> fcs_rep s t es strs0 p f M1 M2 L r -> maps_ok M1 M2 L -> op_ok strs0 op ->
  Z.of_nat (base.size M1 + base.size M2) < 2 ^ 57 ->
  wp (name_do op t) (fun '(k, t') s' => k = (op_name strs0 op).*1 /\ same_timeline t t' /\ exists f' M1' M2' L' r',
    step_to s t es strs0 r op r' /\ fcs_rep s' t' es strs0 p f' M1' M2' L' r' /\ maps_ok M1' M2' L' /\
    (base.size M1' + base.size M2' <= S (base.size M1 + base.size M2))%nat /\ fcs_step p f L f' L' s s') s.
Proof.
  intros Hg R Hm Hop Hsz. destruct op as [q|q|]; simpl.
  - eapply wp_call; [apply (add_static_spec q t es strs0 p f M1 M2 L r); [done|done|done|lia|done]|].
    intros [k t'] s' (->&Hsame&f'&R'&Hm'&St). apply wp_ret. split_and!; [done|done|]. exists f', (<[q := q]> M1), M2, L. eexists.
    split; [apply n_step_static|]. split; [exact R'|]. split; [done|]. split; [|done]. rewrite map_size_insert. destruct (M1 !! q); simpl; lia.
  - eapply wp_call; [apply (add_dynamic_spec q t es strs0 p f M1 M2 L r); [done|done|done|lia|done]|].
    intros [k t'] s' (->&Hsame&f'&M2'&L'&R'&Hm'&Hle&St). apply wp_ret. split_and!; [done|done|]. exists f', M1, M2', L'. eexists.
    split; [apply n_step_dynamic|]. split; [exact R'|]. split; [done|]. split; [lia|done].
  - eapply wp_call; [by apply (push_map_spec t es strs0 p f M1 M2 L r)|].
    intros t' s' (Hsame&Hq&r'&Hstep&R'). apply wp_ret. split_and!; [done|done|]. exists f, M1, M2, L, r'.
    split; [exact Hstep|]. split; [exact R'|]. split; [done|]. split; [lia|]. by apply quiet_step.
Qed.

Lemma names_run_spec ops t es strs0 p f M1 M2 L r s :
  generous -> fcs_rep s t es strs0 p f M1 M2 L r -> maps_ok M1 M2 L -> Forall (op_ok strs0) ops ->
  Z.of_nat (base.size M1 + base.size M2 + length ops) < 2 ^ 57 ->
  wp (names_run ops t) (fun '(ks, t') s' => ks = (ops ≫= op_name strs0).*1 /\ same_timeline t t' /\ exists f' M1' M2' L' r',
    run_to s t es strs0 r ops r' /\ fcs_rep s' t' es strs0 p f' M1' M2' L' r' /\ maps_ok M1' M2' L' /\ fcs_step p f L f' L' s s') s.
Proof.
  intros Hg. revert t f M1 M2 L r s. induction ops as [|op ops IH]; intros t f M1 M2 L r s R Hm HF Hsz; simpl.
  { apply wp_ret. split_and!; [done|done|]. exists f, M1, M2, L, r. split; [constructor|]. split; [done|]. split; [done|]. apply quiet_step, quiet_refl. }
  apply Forall_cons in HF as [Hop HF]. simpl in Hsz.
  eapply wp_call; [apply (name_do_spec op t es strs0 p f M1 M2 L r); [done|done|done|done|lia]|].
  intros [k t1] s1 (->&Hsame1&f1&M11&M21&L1&r1&Hst&R1&Hm1&Hle&St1). 
  eapply wp_call; [apply (IH t1 f1 M11 M21 L1 r1 s1); [done|done|done|lia]|].
  intros [ks t2] s2 (->&Hsame2&f2&M12&M22&L2&r2&Hrun&R2&Hm2&St2). apply wp_ret. split_and!; [|by eapply same_timeline_trans|].
  { by rewrite fmap_app. }
  exists f2, M12, M22, L2, r2. split; [|split; [done|split; [done|by eapply fcs_step_trans]]].
  rewrite (fs_klasses _ _ _ _ _ _ _ St1), (st_ser _ _ Hsame1), (st_cap _ _ Hsame1) in Hrun. by econstructor.
Qed.

(** ** Creation *)

(** New blocks next to the ones that are owned. *)
Lemma frame_grow K P (l l' : gmap ptr Z) :
  frame [] P l l' -> Forall (fun x => is_Some (l !! x)) K -> NoDup K -> NoDup P -> Forall (fun x => is_Some (l' !! x)) P ->
  frame K (K ++ P) l l' /\ NoDup (K ++ P) /\ Forall (fun x => is_Some (l' !! x)) (K ++ P) /\ forall x, x ∈ K -> l' !! x = l !! x.
Proof.
  intros Hfr HK Hn Hp HP. rewrite Forall_forall in HK.
  assert (Hk : forall x, x ∈ K -> (x ∉ P) /\ l' !! x = l !! x) by (intros x Hx; apply (proj1 Hfr); [apply not_elem_of_nil|by apply HK]).
  split_and!.
  - rewrite <- (app_nil_r K) at 1. apply frame_keep; [done|]. apply Forall_forall. intros x Hx. split; [by apply HK|apply not_elem_of_nil].
  - apply NoDup_app. split_and!; [done| |done]. intros x Hx. by apply Hk.
  - apply Forall_app. split; [|done]. apply Forall_forall. intros x Hx. destruct (Hk x Hx) as [_ ->]. by apply HK.
  - intros x Hx. by apply Hk.
Qed.

Lemma frame_shrink K P (l l' : gmap ptr Z) :
  frame P [] l l' -> NoDup (K ++ P) -> Forall (fun x => is_Some (l !! x)) (K ++ P) ->
  frame (K ++ P) K l l' /\ NoDup K /\ Forall (fun x => is_Some (l' !! x)) K /\ forall x, x ∈ K -> l' !! x = l !! x.
Proof.
  intros Hfr (Hn&Hd&_)%NoDup_app [HK _]%Forall_app. rewrite Forall_forall in HK.
  assert (Hk : forall x, x ∈ K -> l' !! x = l !! x) by (intros x Hx; apply (proj1 Hfr); [by apply Hd|by apply HK]).
  split_and!; [|done| |done].
  - rewrite <- (app_nil_r K) at 2. apply frame_keep; [done|]. apply Forall_forall. intros x Hx. split; [by apply HK|by apply Hd].
  - apply Forall_forall. intros x Hx. rewrite (Hk x Hx). by apply HK.
Qed.

Lemma holds_all_live m M live : holds m M live -> Forall (fun x => is_Some (live !! x)) (map_ptrs m).
Proof. intros Hm. apply Forall_forall. intros x. by apply (holds_live m M live). Qed.

(** What creation leaves in the rest of the system. *)
Record fcs_created (safe : bool) s (feature : HT_Feature) (f : HT_FeatureCachedString) s' : Prop := {
  fcr_klass : fklass feature = FeatureKlass at_ht_feature_cached_string_destroy (cached_string_id (senv s));
  fcr_env : senv s' = set_cached_strings <[fself feature := f]> (senv s);
  fcr_nn : fself feature <> NULL;
  fcr_safe : fcs_lock f = NULL <-> safe = false;
  fcr_nodup : NoDup (fcs_owned (fself feature) f []);
  fcr_live : Forall (fun x => is_Some (blocks (sheap s') !! x)) (fcs_owned (fself feature) f []);
  fcr_dyn : holds (dynamic_hashes f) ∅ (blocks (sheap s'));
  fcr_stat : holds (static_hashes f) ∅ (blocks (sheap s'));
  fcr_mutexes : mutexes s' = if decide (fcs_lock f = NULL) then mutexes s else <[fcs_lock f := false]> (mutexes s);
  fcr_frame : frame [] (fcs_owned (fself feature) f []) (blocks (sheap s)) (blocks (sheap s'))
}.

(** The error paths. *)
Lemma free_object p (Q : HT_ErrorCode * option HT_Feature -> sys (fenv E) -> Prop) err h s :
  p <> NULL -> frame [] [p] (blocks (sheap s)) (blocks h) -> Forall (fun x => is_Some (blocks h !! x)) [p] ->
  (forall h', blocks h' = blocks (sheap s) -> Q (err, None) (update h' s)) -> wp (zoom (ht_free p);; mret (err, None)) Q (update h s).
Proof.
  intros Hp Hfr [n Hl]%Forall_singleton HQ. wp_steps. apply (ht_free_spec p n); [done|by simpl|]. intros h' (Eh&_&_). wp_steps.
  apply (HQ h'). apply frame_nil. eapply frame_trans; [exact Hfr|]. simpl in Eh. rewrite Eh. apply frame_delete.
Qed.

Lemma free_object_map p m (Q : HT_ErrorCode * option HT_Feature -> sys (fenv E) -> Prop) err h s :
  p <> NULL -> NoDup ([p] ++ map_ptrs m) -> frame [] ([p] ++ map_ptrs m) (blocks (sheap s)) (blocks h) ->
  Forall (fun x => is_Some (blocks h !! x)) ([p] ++ map_ptrs m) -> holds m ∅ (blocks h) ->
  (forall h', blocks h' = blocks (sheap s) -> Q (err, None) (update h' s)) ->
  wp (zoom (ht_hash_map_deinit m);; zoom (ht_free p);; mret (err, None)) Q (update h s).
Proof.
  intros Hp Hnd Hfr Hl Hm HQ. apply wp_bind, wp_zoom. eapply wp_mono; [by apply (holds_deinit m ∅)|]. intros ? h' Hfr'.
  destruct (frame_shrink [p] (map_ptrs m) _ _ Hfr' Hnd Hl) as (G&_&HL&_). apply (free_object p Q err h' s); [done|by eapply frame_trans|done|done].
Qed.

(** The object with a mutex, which is allocated last. *)
Lemma created_locked p m m1 m2 n (live : gmap ptr Z) s s' :
  let K := ([p] ++ map_ptrs m1) ++ map_ptrs m2 in let f := CachedString m m2 m1 in
  p <> NULL -> m <> NULL -> holds m1 ∅ live -> holds m2 ∅ live -> NoDup K -> Forall (fun x => is_Some (live !! x)) K ->
  frame [] K (blocks (sheap s)) live -> live !! m = None -> blocks (sheap s') = <[m := n]> live ->
  mutexes s' = <[m := false]> (mutexes s) -> senv s' = set_cached_strings <[p := f]> (senv s) ->
  fcs_created true s (Feature p (FeatureKlass at_ht_feature_cached_string_destroy (cached_string_id (senv s)))) f s'.
Proof.
  intros K f Hp Hm Hm1 Hm2 N3 L3 G03 Hfresh E4 Em Ee.
  assert (Hperm : fcs_owned p f [] ≡ₚ m :: K).
  { unfold fcs_owned, fcs_maps, lock_ptrs. simpl. rewrite decide_False by done. rewrite app_nil_r. unfold K. simpl. solve_Permutation. }
  assert (Hne : forall x, is_Some (live !! x) -> x <> m /\ blocks (sheap s') !! x = live !! x).
  { intros x Hx. assert (x <> m) by (intros ->; rewrite Hfresh in Hx; by destruct Hx). split; [done|]. by rewrite E4, lookup_insert_ne. }
  split; simpl; try done.
  - rewrite Hperm. apply NoDup_cons. split; [|done]. intros Hin. rewrite Forall_forall in L3. by destruct (Hne m (L3 m Hin)).
  - rewrite Hperm. apply Forall_cons. split; [rewrite E4, lookup_insert_eq; eauto|]. eapply Forall_impl; [exact L3|]. simpl.
    intros x Hx. destruct (Hne x Hx) as [_ ->]. done.
  - eapply holds_frame; [exact Hm2|]. intros x Hx. by apply Hne, (holds_live _ _ _ x Hm2).
  - eapply holds_frame; [exact Hm1|]. intros x Hx. by apply Hne, (holds_live _ _ _ x Hm1).
  - by rewrite decide_False by done.
  - rewrite Hperm. eapply frame_trans; [exact G03|]. rewrite E4. by apply frame_insert.
Qed.

Lemma cached_string_create_spec safe s :
  wp (ht_feature_cached_string_create safe) (fun '(err, o) s' =>
    containers s' = containers s /\ klasses s' = klasses s /\ registry s' = registry s /\
    current_identifier s' = current_identifier s /\
    match o with
    | None => err <> HT_ERR_OK /\ mutexes s' = mutexes s /\ blocks (sheap s') = blocks (sheap s) /\ senv s' = senv s
    | Some feature => err = HT_ERR_OK /\ exists f, fcs_created safe s feature f s'
    end) s.
Proof.
  unfold ht_feature_cached_string_create, HT_FeatureCachedString_get_class. wp_steps.
  apply ht_alloc_spec.
  { intros h (Eh&_&_). rewrite decide_True by done. wp_steps. by split_and!. }
  intros p h1 Hp _ Hfree (E1&_&_). rewrite decide_False by done. simpl in Hfree, E1.
  assert (G1 : frame [] [p] (blocks (sheap s)) (blocks h1)) by (rewrite E1; by apply frame_insert).
  assert (L1 : Forall (fun x => is_Some (blocks h1 !! x)) [p]) by (apply Forall_singleton; rewrite E1, lookup_insert_eq; eauto).
  apply wp_bind, wp_zoom. eapply wp_mono; [apply holds_init|]. intros [err|m1] h2 Hr; cbn beta iota in *.
  { destruct Hr as [-> Eb]. simpl in Eb. apply (free_object p _ _ h2 s); [done|by rewrite Eb|by rewrite Eb|]. intros h' Eh. by split_and!. }
  destruct Hr as [Hm1 Hfr1]. simpl in Hm1, Hfr1.
  destruct (frame_grow [p] (map_ptrs m1) _ _ Hfr1 L1) as (G2&N2&L2&K2); [apply NoDup_singleton|by eapply holds_nodup|by eapply holds_all_live|].
  apply wp_bind, wp_zoom. eapply wp_mono; [apply holds_init|]. intros [err|m2] h3 Hr; cbn beta iota in *.
  { destruct Hr as [-> Eb]. simpl in Eb. apply (free_object_map p m1 _ _ h3 s); [done|done|rewrite Eb; by eapply frame_trans|by rewrite Eb|by rewrite Eb|].
    intros h' Eh. by split_and!. }
  destruct Hr as [Hm2 Hfr2]. simpl in Hm2, Hfr2.
  destruct (frame_grow ([p] ++ map_ptrs m1) (map_ptrs m2) _ _ Hfr2 L2 N2) as (G3&N3&L3&K3); [by eapply holds_nodup|by eapply holds_all_live|].
  assert (Hm1' : holds m1 ∅ (blocks h3)).
  { eapply holds_frame; [exact Hm1|]. intros x Hx. apply K3. apply elem_of_app. by right. }
  assert (G03 : frame [] (([p] ++ map_ptrs m1) ++ map_ptrs m2) (blocks (sheap s)) (blocks h3)).
  { eapply frame_trans; [exact G1|]. by eapply frame_trans. }
  destruct safe.
  - apply wp_bind, mutex_create_spec.
    + intros h4 (E4&_&_). simpl in E4. rewrite decide_True by done. apply wp_bind, wp_zoom.
      eapply wp_mono; [apply (holds_deinit m2 ∅); simpl; by rewrite E4|]. intros ? h5 Hfr5. simpl in Hfr5. rewrite E4 in Hfr5.
      destruct (frame_shrink _ _ _ _ Hfr5 N3 L3) as (G&_&HL&HK). apply (free_object_map p m1 _ _ h5 s); [done|done|by eapply frame_trans|done| |].
      * eapply holds_frame; [exact Hm1'|]. intros x Hx. apply HK. apply elem_of_app. by right.
      * intros h' Eh. by split_and!.
    + intros m h4 Hm Hfresh E4. simpl in Hfresh, E4. rewrite decide_False by tauto. unfold store_cached_string. wp_steps. split_and!; try done.
      exists (CachedString m m2 m1).
      by apply (created_locked p m m1 m2 sizeof_HT_Mutex (blocks h3)).
  - rewrite ret_bind, decide_False by (by intros [? _]). unfold store_cached_string. wp_steps. split_and!; try done.
    exists (CachedString NULL m2 m1).
    assert (Hperm : fcs_owned p (CachedString NULL m2 m1) [] ≡ₚ ([p] ++ map_ptrs m1) ++ map_ptrs m2).
    { unfold fcs_owned, fcs_maps, lock_ptrs. simpl. rewrite app_nil_r. simpl. solve_Permutation. }
    split; simpl; try done; by rewrite Hperm.
Qed.

(** ** With memory for the asking nothing fails *)

Lemma wlp_zoom_heap {A} (m : ST heap A) (Q : A -> Prop) s : (forall h, wlp m (fun a _ => Q a) h) -> wlp (zoom m) (fun a _ => Q a) s.
Proof. intros Hm. specialize (Hm (sheap s)). unfold wlp, zoom in *. simpl. by destruct (m (sheap s)) as [[??]| |]. Qed.

Lemma alloc_generous n h : generous -> n < 2 ^ 63 -> wlp (ht_alloc n) (fun p _ => p <> NULL) h.
Proof. intros Hg Hn. apply wp_wlp, ht_alloc_granted; [by apply Hg|done]. Qed.

Definition succeeded {A} (r : HT_ErrorCode + A) : Prop := match r with inl _ => False | inr _ => True end.

Lemma bag_init_generous {T} size n h : generous -> 0 <= n * size < 2 ^ 63 -> wlp (ht_bag_init (T := T) size n) (fun r _ => succeeded r) h.
Proof.
  intros Hg Hn. unfold ht_bag_init. apply wlp_bind. eapply wlp_mono; [apply alloc_generous; [done|]; rewrite u64_small; lia|].
  intros p h' Hp. simpl in Hp. rewrite decide_False by done. by apply wlp_ret.
Qed.

Lemma hash_map_init_generous h : generous -> wlp ht_hash_map_init (fun r _ => succeeded r) h.
Proof.
  intros Hg.
  assert (forall n acc h, wlp (init_buckets n acc) (fun r _ => r.1 = HT_ERR_OK) h) as Hb.
  { induction n as [|n IH]; intros acc h0; simpl; [by apply wlp_ret|]. apply wlp_bind.
    eapply (wlp_mono _ (fun r _ => succeeded r)); [|intros [err|b] h1 Hs; [done|apply IH]]. unfold ht_hash_bucket_init.
    apply wlp_bind. eapply wlp_mono; [apply bag_init_generous; [done|lia]|]. intros [err|values] h1 Hs; [done|].
    apply wlp_bind. eapply wlp_mono; [apply bag_init_generous; [done|lia]|]. intros [err|keys] h2 Hs2; [done|]. by apply wlp_ret. }
  unfold ht_hash_map_init. apply wlp_bind. eapply wlp_mono; [apply Hb|]. intros [err m] h1 Hs. simpl in Hs. subst err.
  rewrite decide_True by done. by apply wlp_ret.
Qed.

Lemma mutex_generous s : generous -> wlp ht_mutex_create (fun m _ => m <> NULL) s.
Proof.
  intros Hg. unfold ht_mutex_create. apply wlp_bind. eapply wlp_mono; [apply (wlp_zoom_heap _ (fun p => p <> NULL)); intros h; apply alloc_generous; [done|]; unfold sizeof_HT_Mutex; lia|].
  intros p s' Hp. simpl in Hp. rewrite decide_False by done. apply wlp_bind, wlp_any. intros ? s2. by apply wlp_ret.
Qed.

Lemma timeline_create_generous cap ts ser s : generous -> cap < 2 ^ 63 -> wlp (ht_timeline_create cap ts ser None) (fun r _ => is_Some r.2) s.
Proof.
  intros Hg Hcap.
  assert (Ha : forall n s, n < 2 ^ 63 -> wlp (zoom (ht_alloc n)) (fun p (_ : sys (fenv E)) => p <> NULL) s).
  { intros n s0 Hn. apply (wlp_zoom_heap _ (fun p => p <> NULL)). intros h. by apply alloc_generous. }
  unfold ht_timeline_create. apply wlp_bind. eapply wlp_mono; [apply Ha; unfold sizeof_HT_Timeline; lia|].
  intros p s1 Hp. simpl in Hp. rewrite decide_False by done. apply wlp_bind. eapply wlp_mono; [by apply Ha|].
  intros q s2 Hq. simpl in Hq. rewrite decide_False by done. apply wlp_bind.
  eapply (wlp_mono _ (fun c _ => c <> NULL)).
  { unfold ht_find_or_create_listener, ht_timeline_listener_container_create. apply wlp_bind.
    eapply wlp_mono; [apply Ha; unfold sizeof_HT_TimelineListenerContainer; lia|]. intros c s3 Hc. simpl in Hc. rewrite decide_False by done.
    apply wlp_bind. eapply wlp_mono; [apply (wlp_zoom_heap _ succeeded); intros h; apply bag_init_generous; [done|unfold sizeof_HT_TimelineListenerEntry; lia]|].
    intros [err|b] s4 Hs; [done|]. apply wlp_bind. eapply wlp_mono; [by apply mutex_generous|]. intros m s5 Hm. simpl in Hm. rewrite decide_False by done.
    apply wlp_bind, wlp_any. intros ? s6. by apply wlp_ret. }
  intros c s3 Hc. simpl in Hc. rewrite decide_False by done. destruct ts; [|by apply wlp_ret].
  apply wlp_bind. eapply wlp_mono; [by apply mutex_generous|]. intros m s4 Hm. simpl in Hm. rewrite decide_False by done. by apply wlp_ret.
Qed.

Lemma cached_create_generous safe s : generous -> wlp (ht_feature_cached_string_create safe) (fun r _ => r.1 = HT_ERR_OK) s.
Proof.
  intros Hg. unfold ht_feature_cached_string_create. apply wlp_bind, wlp_any. intros k s0. apply wlp_bind.
  eapply wlp_mono; [apply (wlp_zoom_heap _ (fun p => p <> NULL)); intros h; apply alloc_generous; [done|]; unfold sizeof_HT_FeatureCachedString; lia|].
  intros p s1 Hp. simpl in Hp. rewrite decide_False by done.
  apply wlp_bind. eapply wlp_mono; [apply (wlp_zoom_heap _ succeeded); intros h; by apply hash_map_init_generous|]. intros [err|m1] s2 Hs1; [done|].
  apply wlp_bind. eapply wlp_mono; [apply (wlp_zoom_heap _ succeeded); intros h; by apply hash_map_init_generous|]. intros [err|m2] s3 Hs2; [done|].
  apply wlp_bind. eapply (wlp_mono _ (fun m _ => safe = true -> m <> NULL)).
  { destruct safe; [eapply wlp_mono; [by apply mutex_generous|done]|by apply wlp_ret]. }
  intros m s4 Hm. simpl in Hm. rewrite decide_False by (intros [? ?]; by apply Hm). apply wlp_bind, wlp_any. intros ? s5. by apply wlp_ret.
Qed.

(** The reference at the start. *)
Definition names_init (env : E) (next : Z) : name_state := NameState env next ∅ ∅ [] [] [].

(** The strings of the program are in live blocks. *)
Definition strings_wf s : Prop := forall q, is_Some (c_strings (senv s) !! q) -> is_Some (blocks (sheap s) !! q).

(** The timeline with the feature. *)
Definition with_feature s p t : HT_Timeline :=
  set_timeline_features (<[Z.to_nat (cached_string_id (senv s)) :=
    Some (Feature p (FeatureKlass at_ht_feature_cached_string_destroy (cached_string_id (senv s))))]> no_features) t.

Lemma created_rep safe p k f t es s s' :
  fcs_created safe s (Feature p k) f s' -> tl_ready s t es [] -> strings_wf s -> mapping_klass (klasses s) ->
  0 <= cached_string_id (senv s) < HT_TIMELINE_MAX_FEATURES -> (locking_policy t <> NULL -> is_Some (blocks (sheap s) !! locking_policy t)) ->
  containers s' = containers s -> klasses s' = klasses s -> current_identifier s' = current_identifier s ->
  fcs_rep s' (with_feature s p t) es (c_strings (senv s)) p f ∅ ∅ [] (names_init (host_env (senv s)) (current_identifier s)).
Proof.
  intros [_ Ee Hp _ Hnd Hlive Hd Hs Em Hfr] TR Hsw Hk Hid Hlp Ec Ek Ei. simpl in *.
  assert (Hout : forall x, is_Some (blocks (sheap s) !! x) -> (x ∉ fcs_owned p f []) /\ blocks (sheap s') !! x = blocks (sheap s) !! x).
  { intros x. by apply frame_nil_keep. }
  assert (Hcont : forall c x, containers s !! tlisteners t = Some c -> x ∈ cont_ptrs (tlisteners t) c -> is_Some (blocks (sheap s) !! x)).
  { intros c x Hc Hx. destruct (tl_cont _ _ _ _ (proj1 TR)) as [c' CR]. pose proof (cr_lookup _ _ _ _ CR) as Hc'. rewrite Hc in Hc'. injection Hc' as <-.
    pose proof (cont_live _ _ _ _ CR) as HF. rewrite Forall_forall in HF. by apply HF. }
  assert (Hlo : fcs_lock f <> NULL -> fcs_lock f ∈ fcs_owned p f []).
  { intros Hn. unfold fcs_owned, lock_ptrs. rewrite decide_False by done. rewrite elem_of_cons, elem_of_app, list_elem_of_singleton. auto. }
  assert (Hpol : fcs_lock f <> NULL -> fcs_lock f <> locking_policy t).
  { intros Hn Eq. destruct (Hout (locking_policy t)) as [Hx _]; [apply Hlp; by rewrite <- Eq|]. apply Hx. rewrite <- Eq. by apply Hlo. }
  assert (Hap : lock_apart f s t).
  { intros Hn. split; [by apply Hpol|]. intros c Hc Eq. destruct (Hout (cmutex c)) as [Hx _]; [apply (Hcont c); [done|]; unfold cont_ptrs; rewrite !elem_of_cons; tauto|].
    apply Hx. rewrite <- Eq. by apply Hlo. }
  assert (Em' : mutexes s' = mutexes (with_lock f false s)) by (rewrite Em; unfold with_lock; by case_decide).
  destruct (with_lock_rest f false s) as (W1&W2&W3&_).
  split; unfold lock_is; rewrite ?Ee, ?Ec, ?Ek; simpl; try done.
  - split; [|by rewrite Ee|done]. apply (tl_ready_move (with_lock f false s)); rewrite ?W1, ?W2, ?W3; try done.
    + intros c x Hc Hx. by apply Hout, (Hcont c).
    + apply (tl_ready_with_lock f false s (with_feature s p t)); [done|]. destruct TR as [[] ?]. by split; [split|].
  - eexists. apply list_lookup_insert_eq. unfold no_features. rewrite length_replicate. unfold HT_TIMELINE_MAX_FEATURES in *. lia.
  - apply lookup_insert_eq.
  - intros Hn. rewrite Em, decide_False by done. apply lookup_insert_eq.
  - intros c x Hc Hx. by apply Hout, (Hcont c).
  - intros x Hx. destruct (Hout x (Hsw x Hx)) as [_ ->]. by apply Hsw.
  - intros x Hx. destruct (c_strings (senv s) !! x) as [y|] eqn:Ey; [|done]. exfalso. destruct (Hout x) as [Hn _]; [apply Hsw; by rewrite Ey|].
    apply Hn. unfold fcs_owned. rewrite app_nil_r. exact Hx.
Qed.

Lemma cached_enable_spec safe t es s :
  generous -> tl_ready s t es [] -> features t = no_features -> 0 <= cached_string_id (senv s) < HT_TIMELINE_MAX_FEATURES ->
  strings_wf s -> mapping_klass (klasses s) -> (locking_policy t <> NULL -> is_Some (blocks (sheap s) !! locking_policy t)) ->
  wp (ht_feature_cached_string_enable t safe) (fun '(err, t') s' => containers s' = containers s /\ klasses s' = klasses s /\
    err = HT_ERR_OK /\ exists p k f, t' = with_feature s p t /\ fcs_created safe s (Feature p k) f s' /\
      fcs_rep s' t' es (c_strings (senv s)) p f ∅ ∅ [] (names_init (host_env (senv s)) (current_identifier s))) s.
Proof.
  intros Hg TR Hfe Hid Hsw Hk Hlp. unfold ht_feature_cached_string_enable.
  eapply wp_call; [apply wp_and; [apply cached_string_create_spec|by apply cached_create_generous]|].
  intros [err [feature|]] s1 [(Ec&Ek&Er&Ei&Ho) Hok]; cbn beta iota; [|by destruct Ho].
  destruct Ho as (->&f&C). pose proof C as [Hkl _ _ _ _ _ _ _ _ _]. unfold ht_timeline_set_feature. rewrite Hkl, Hfe. cbn [fk_id].
  rewrite decide_False by (change HT_INVALID_FEATURE_ID with 4294967295; unfold HT_TIMELINE_MAX_FEATURES in *; lia).
  assert (Hslot : no_features !! Z.to_nat (cached_string_id (senv s)) = Some None).
  { apply lookup_replicate. unfold HT_TIMELINE_MAX_FEATURES in *. split; [done|lia]. }
  rewrite Hslot, some_bind, ret_bind. cbn beta iota. rewrite decide_False, ret_bind by tauto. apply wp_ret.
  split_and!; try done. destruct feature as [p k]. simpl in Hkl. subst k. exists p. eexists. exists f.
  split; [done|]. split; [done|]. by eapply created_rep.
Qed.

(** ** Destruction *)

Lemma foldr_delete_perm {A} (m : gmap ptr A) (l1 l2 : list ptr) : l1 ≡ₚ l2 -> foldr delete m l1 = foldr delete m l2.
Proof.
  intros Hp. apply map_eq. intros x. destruct (decide (x ∈ l1)) as [Hx|Hx].
  - rewrite !lookup_foldr_delete; [done|by rewrite <- Hp|done].
  - rewrite !lookup_foldr_delete_not_elem_of; [done|by rewrite <- Hp|done].
Qed.

(** What the steps of the destruction leave alone. *)
Definition rest_same s s' : Prop :=
  klasses s' = klasses s /\ registry s' = registry s /\ containers s' = containers s.

Lemma free_labels_spec l s :
  NoDup l.*2 -> Forall (fun q => q <> NULL) l.*2 -> Forall (fun q => is_Some (blocks (sheap s) !! q)) l.*2 ->
  wp (each ht_feature_cached_string_destry_dynamic_labels l) (fun ok s' => rest_same s s' /\ mutexes s' = mutexes s /\
    senv s' = set_c_strings (fun m => foldr delete m l.*2) (senv s) /\ frame l.*2 [] (blocks (sheap s)) (blocks (sheap s'))) s.
Proof.
  revert s. induction l as [|[k q] l IH]; intros s Hnd Hnn Hl.
  { apply wp_ret. split_and!; try done. by destruct (senv s). }
  simpl in *. apply NoDup_cons in Hnd as [Hq Hnd]. apply Forall_cons in Hnn as [Hqn Hnn]. apply Forall_cons in Hl as [[n Hql] Hl].
  apply wp_bind. unfold ht_feature_cached_string_destry_dynamic_labels at 1. apply wp_bind, wp_modify.
  apply wp_bind, wp_zoom, (ht_free_spec q n); [done|done|]. intros h (Eh&_&_). apply wp_ret. simpl in Eh.
  eapply wp_mono; [apply IH; [done|done|]|].
  - rewrite Forall_forall in Hl |- *. intros x Hx. simpl. rewrite Eh, lookup_delete_ne; [by apply Hl|]. by intros ->.
  - intros ok s' ((?&?&?)&Em&Ee&Hfr). simpl in *. split_and!; try done.
    + rewrite Ee. simpl. unfold set_c_strings. simpl. by rewrite <- delete_foldr_delete.
    + rewrite Eh in Hfr. eapply frame_trans; [|exact Hfr]. apply frame_delete.
Qed.

Lemma destroy_cached_end (e : fenv E) p f M1 M2 L id live :
  cached_strings e !! p = Some f -> 0 <= id < HT_TIMELINE_MAX_FEATURES -> p <> NULL -> NoDup (fcs_owned p f L) ->
  Forall (fun q => is_Some (live !! q)) (fcs_owned p f L) -> Forall (fun q => q <> NULL) L ->
  holds (dynamic_hashes f) M2 live -> holds (static_hashes f) M1 live -> L ≡ₚ (map_to_list M2).*2 ->
  features_end (<[Z.to_nat id := Some (Feature p (FeatureKlass at_ht_feature_cached_string_destroy id))]> no_features)
    (fcs_owned p f L) (lock_ptrs f) live e (set_cached_strings (delete p) (set_c_strings (fun m => foldr delete m L) e)).
Proof.
  intros Hobj Hid Hp Hnd Hlive Hnn Hd Hs HL. apply one_feature_end; [unfold HT_TIMELINE_MAX_FEATURES in *; lia|]. intros s He Hown Hmtx.
  cbn [destroy_feature fenv_features fklass fk_destroy]. rewrite decide_False, decide_True by done.
  set (D := map_ptrs (dynamic_hashes f)) in *. set (S' := map_ptrs (static_hashes f)) in *.
  assert (Hperm : fcs_owned p f L ≡ₚ (((p :: lock_ptrs f) ++ S') ++ D) ++ L) by (unfold fcs_owned, fcs_maps; fold D S'; solve_Permutation).
  assert (HliveS : Forall (fun q => is_Some (blocks (sheap s) !! q)) (fcs_owned p f L)).
  { rewrite Forall_forall in Hlive |- *. intros x Hx. rewrite (Hown x Hx). by apply Hlive. }
  assert (HdS : holds (dynamic_hashes f) M2 (blocks (sheap s))).
  { eapply holds_frame; [exact Hd|]. intros x Hx. apply Hown. rewrite Hperm, !elem_of_app. auto. }
  assert (HsS : holds (static_hashes f) M1 (blocks (sheap s))).
  { eapply holds_frame; [exact Hs|]. intros x Hx. apply Hown. rewrite Hperm, !elem_of_app. auto. }
  rewrite Hperm in Hnd, HliveS. destruct (holds_for_each _ _ _ HdS) as (l&Hl&Hloop).
  assert (HlL : l.*2 ≡ₚ L) by (by rewrite HL, Hl). pose proof Hnd as (_&_&HndL)%NoDup_app. pose proof HliveS as [_ HliveL]%Forall_app.
  unfold ht_feature_cached_string_destroy. apply wp_bind, (load_cached_spec s p f); [by rewrite He|].
  apply wp_bind, (wp_eq _ _ _ _ (Hloop _ _ s)).
  eapply wp_call; [apply free_labels_spec; by rewrite HlL|]. intros ok s1 ((Ek1&Er1&Ec1)&Em1&Ee1&Hfr1). apply wp_ret.
  rewrite HlL in Hfr1. destruct (frame_shrink _ _ _ _ Hfr1 Hnd HliveS) as (G1&N1&L1&K1).
  apply wp_bind, wp_zoom. eapply wp_mono; [apply (holds_deinit _ M2); eapply holds_frame; [exact HdS|]; intros x Hx; apply K1; rewrite elem_of_app; by right|].
  intros ? h2 Hfr2. simpl in Hfr2. destruct (frame_shrink _ _ _ _ Hfr2 N1 L1) as (G2&N2&L2&K2).
  apply wp_bind, wp_zoom. eapply wp_mono; [apply (holds_deinit _ M1); eapply holds_frame; [exact HsS|]; intros x Hx; simpl;
    rewrite K2, K1 by (rewrite ?elem_of_app; auto); done|].
  intros ? h3 Hfr3. simpl in Hfr3. destruct (frame_shrink _ _ _ _ Hfr3 N2 L2) as (G3&N3&L3&K3).
  assert (G : frame (fcs_owned p f L) (p :: lock_ptrs f) (blocks (sheap s)) (blocks h3)).
  { rewrite Hperm. eapply frame_trans; [exact G1|]. by eapply frame_trans. }
  assert (Hlock : wp (if decide (fcs_lock f <> NULL) then ht_mutex_destroy (fcs_lock f) else mret ()) (fun _ s4 =>
    rest_same s s4 /\ mutexes s4 = foldr delete (mutexes s) (lock_ptrs f) /\ senv s4 = senv s1 /\
    frame (p :: lock_ptrs f) [p] (blocks h3) (blocks (sheap s4)) /\ is_Some (blocks (sheap s4) !! p)) (update h3 (update h2 s1))).
  { unfold lock_ptrs in *. destruct (decide (fcs_lock f = NULL)) as [Hn|Hn].
    - rewrite decide_False by tauto. apply wp_ret. simpl in *. rewrite Forall_singleton in L3. by split_and!.
    - rewrite decide_True by done. apply Forall_cons in L3 as [Hpl [[n Hll] _]%Forall_cons].
      apply (mutex_destroy_spec _ n); [simpl; rewrite Em1; apply Hmtx; left|done|done|]. intros h4 E4. simpl in E4. split_and!; try done; simpl.
      + by rewrite Em1.
      + rewrite E4, (Permutation_swap (fcs_lock f) p). apply frame_delete.
      + rewrite E4, lookup_delete_ne; [done|]. intros Eq. apply NoDup_cons in N3 as [Hx _]. apply Hx. rewrite Eq. left. }
  eapply wp_call; [exact Hlock|]. intros ? s4 ((Ek4&Er4&Ec4)&Em4&Ee4&G4&[n Hn]). apply wp_bind, wp_modify.
  apply wp_zoom, (ht_free_spec p n); [done|done|]. intros h5 (E5&_&_). simpl in *. split_and!; try done.
  - rewrite Ee4, Ee1, He. unfold set_c_strings, set_cached_strings. simpl. f_equal. by apply foldr_delete_perm.
  - eapply frame_trans; [exact G|]. eapply frame_trans; [exact G4|]. rewrite E5. apply frame_delete.
Qed.

(** What the timeline still holds at the end goes to the listeners before
    they are destroyed. *)
Definition names_finish (es : list HT_TimelineListenerEntry) (ser : bool) (r : name_state) : E :=
  destroy_env es (deliver es ser (if decide (n_buf r = []) then [] else [n_buf r]) (n_env r)).

(** The copies are gone, the strings of the program are left. *)
Lemma strings_left s t es strs0 p f M1 M2 L r :
  fcs_rep s t es strs0 p f M1 M2 L r -> foldr delete (c_strings (senv s)) L = strs0.
Proof.
  intros R. apply map_eq. intros x. destruct (decide (x ∈ L)) as [Hx|Hx].
  - rewrite lookup_foldr_delete by done. pose proof (fr_copies _ _ _ _ _ _ _ _ _ _ R) as HF. rewrite Forall_forall in HF. by destruct (HF x Hx).
  - rewrite lookup_foldr_delete_not_elem_of by done. by apply (fr_strs _ _ _ _ _ _ _ _ _ _ R).
Qed.

Lemma names_destroyed t c es strs0 p f M1 M2 L r s :
  fcs_rep s t es strs0 p f M1 M2 L r -> maps_ok M1 M2 L -> tl_owned s t c -> Forall (fun q => q ∉ fcs_owned p f L) (tl_ptrs t c) ->
  0 <= cached_string_id (senv s) < HT_TIMELINE_MAX_FEATURES ->
  features t = <[Z.to_nat (cached_string_id (senv s)) :=
     Some (Feature p (FeatureKlass at_ht_feature_cached_string_destroy (cached_string_id (senv s))))]> no_features ->
  wp (ht_timeline_destroy t) (fun _ s' =>
    (host_env (senv s') = names_finish es (serialize_events t) r /\ cached_strings (senv s') = delete p (cached_strings (senv s)) /\
     c_strings (senv s') = strs0 /\ callstacks (senv s') = callstacks (senv s)) /\
    klasses s' = klasses s /\ containers s' = delete (tlisteners t) (containers s) /\
    mutexes s' = (if decide (locking_policy t = NULL) then foldr delete (delete (cmutex c) (mutexes s)) (lock_ptrs f)
                  else delete (locking_policy t) (foldr delete (delete (cmutex c) (mutexes s)) (lock_ptrs f))) /\
    frame (tl_ptrs t c ++ fcs_owned p f L) [] (blocks (sheap s)) (blocks (sheap s'))) s.
Proof.
  intros R [_ HL] TO Hdis Hid Hfe. pose proof R as [[TR He _] _ Hp Hobj Hd Hs Hnd Hlive Hlock _ _ _ _ _ Hco _ _ _ _ _].
  eapply wp_mono; [eapply (timeline_destroy_spec t c es (n_buf r) (fcs_owned p f L) (lock_ptrs f)); [done|done| | |]|].
  - rewrite Forall_forall in Hdis, Hlive |- *. intros x Hx. split; [by apply Hlive|]. intros Hx'. by apply (Hdis x).
  - apply Forall_forall. intros m Hm. unfold fcs_owned. rewrite elem_of_cons, elem_of_app. split; [auto|].
    unfold lock_ptrs in Hm. case_decide; [by apply not_elem_of_nil in Hm|]. apply list_elem_of_singleton in Hm as ->. by apply Hlock.
  - rewrite Hfe, deliver_host, destroy_env_host. apply (destroy_cached_end _ p f M1 M2 L _ (blocks (sheap s))); try done.
    eapply Forall_impl; [exact Hco|]. by intros x [? _].
  - intros ? s' (Ee&Ek&Ec&Em&Hfr). rewrite Ee. simpl. rewrite He, (strings_left _ _ _ _ _ _ _ _ _ _ R). by split_and!.
Qed.

(** ** The life of a timeline with cached strings *)

Definition names_body (safe : bool) (ops : list name_op) t : ST (sys (fenv E)) (HT_ErrorCode * list Z) :=
  '(err, t) ← ht_feature_cached_string_enable t safe;
  '(ks, t) ← (if decide (err = HT_ERR_OK) then names_run ops t else mret ([], t));
  ht_timeline_destroy t;;
  mret (err, ks).

Definition named_timeline (cap : Z) (ts ser safe : bool) (rs : list registration) (ops : list name_op)
    : ST (sys (fenv E)) (HT_ErrorCode + list HT_ErrorCode * list Z) :=
  '(err, o) ← ht_timeline_create cap ts ser None;
  match o with
  | None => mret (inl err)
  | Some t =>
      errs ← timeline_register_all t rs;
      '(err, ks) ← names_body safe ops t;
      mret (if decide (err = HT_ERR_OK) then inr (errs, ks) else inl err)
  end.

(** Objects of features are live blocks. *)
Definition objects_wf s : Prop := forall p, is_Some (cached_strings (senv s) !! p) -> is_Some (blocks (sheap s) !! p).

Lemma tl_owned_with_lock f b s t c : lock_apart f s t -> tl_owned s t c -> tl_owned (with_lock f b s) t c.
Proof.
  intros Ha [? Hl ? ? ?]. unfold with_lock, lock_apart in *. case_decide as Hn; [done|]. split; try done.
  intros Hp. destruct (Hl Hp). split; [done|]. simpl. rewrite lookup_insert_ne; [done|]. by apply (Ha Hn).
Qed.

(** The mutex of the feature comes and goes. *)
Lemma lock_undo f cm (m m' : gmap ptr bool) :
  m' = (if decide (fcs_lock f = NULL) then m else <[fcs_lock f := false]> m) -> (fcs_lock f <> NULL -> m !! fcs_lock f = None) ->
  foldr delete (delete cm m') (lock_ptrs f) = delete cm m.
Proof.
  intros -> Hm. unfold lock_ptrs. case_decide as Hn; simpl; [done|]. rewrite delete_delete, delete_insert_id; [done|]. by apply Hm.
Qed.

Lemma names_body_spec safe t c es ops cap ser s :
  generous -> tl_ready s t es [] -> tl_owned s t c -> features t = no_features -> buffer_capacity t = cap -> serialize_events t = ser ->
  (forall m, is_Some (mutexes s !! m) -> is_Some (blocks (sheap s) !! m)) ->
  objects_wf s -> strings_wf s -> mapping_klass (klasses s) -> 0 <= cached_string_id (senv s) < HT_TIMELINE_MAX_FEATURES ->
  Forall (op_ok (c_strings (senv s))) ops -> Z.of_nat (length ops) < 2 ^ 57 ->
  wp (names_body safe ops t) (fun '(err, ks) s' =>
    (cached_strings (senv s') = cached_strings (senv s) /\ c_strings (senv s') = c_strings (senv s) /\ callstacks (senv s') = callstacks (senv s)) /\
    klasses s' = klasses s /\ containers s' = delete (tlisteners t) (containers s) /\
    mutexes s' = (if decide (locking_policy t = NULL) then delete (cmutex c) (mutexes s)
                  else delete (locking_policy t) (delete (cmutex c) (mutexes s))) /\
    frame (tl_ptrs t c) [] (blocks (sheap s)) (blocks (sheap s')) /\
    err = HT_ERR_OK /\ ks = (ops ≫= op_name (c_strings (senv s))).*1 /\ exists r,
      n_run (klasses s) es ser cap (c_strings (senv s)) (names_init (host_env (senv s)) (current_identifier s)) ops r /\
      host_env (senv s') = names_finish es ser r) s.
Proof.
  intros Hg TR TO Hfe Hcap Hser Hmx Hobj Hsw Hk Hid Hops Hlen. unfold names_body.
  pose proof (tl_ptrs_live _ _ _ _ _ TR TO) as Hlive.
  eapply wp_call; [apply (cached_enable_spec safe t es); try done; by apply TO|].
  intros [err t1] s1 (Ec1&Ek1&->&p&k&f&->&C&R1). rewrite decide_True by done. pose proof C as [_ Ee1 _ _ _ _ _ _ Em1 Hfr1]. simpl in Ee1, Hfr1.
  set (t1 := with_feature s p t) in *.
  assert (Hfresh : forall x, x ∈ fcs_owned p f [] -> blocks (sheap s) !! x = None).
  { intros x Hx. destruct (blocks (sheap s) !! x) eqn:Ex; [|done]. destruct (frame_nil_keep _ _ _ x Hfr1) as [Hn _]; [by rewrite Ex|done]. }
  assert (Ha : lock_apart f s t).
  { pose proof (fcs_lock_apart _ _ _ _ _ _ _ _ _ _ R1) as Ha. intros Hn. destruct (Ha Hn) as [H1' H2']. rewrite Ec1 in H2'. done. }
  destruct (with_lock_rest f false s) as (W1&W2&_).
  destruct (tl_owned_frame (with_lock f false s) s1 t t1 c [] (fcs_owned p f [])) as (TO1&Ep1&HF1); rewrite ?W1, ?W2; try done.
  { by apply tl_owned_with_lock. } { rewrite Em1. unfold with_lock. by case_decide. }
  { eapply Forall_impl; [exact Hlive|]. intros q Hq. split; [done|apply not_elem_of_nil]. }
  eapply wp_call; [apply (names_run_spec ops t1 es _ p f ∅ ∅ [] _ s1 Hg R1); [|done|by rewrite !map_size_empty]|].
  { split; [apply map_Forall_empty|by rewrite map_to_list_empty]. }
  intros [ks t2] s2 (->&Hsame&f2&M1&M2&L2&r&Hrun&R2&Hm2&St). pose proof St as [Em2 Ec2 Ek2 _ Es2 Eo2 [_ Eid2] Elk Hfr2].
  destruct (tl_owned_frame s1 s2 t1 t2 c (fcs_owned p f []) (fcs_owned p f2 L2)) as (TO2&Ep2&HF2); try done.
  1-4: by rewrite ?(st_self _ _ Hsame), ?(st_buffer _ _ Hsame), ?(st_lock _ _ Hsame), ?(st_listeners _ _ Hsame).
  change (tl_ptrs t1 c) with (tl_ptrs t c) in HF2, Ep2.
  assert (Eid : cached_string_id (senv s2) = cached_string_id (senv s)) by (by rewrite Eid2, Ee1).
  eapply wp_call; [apply (names_destroyed t2 c es (c_strings (senv s)) p f2 M1 M2 L2 r); try done|].
  { rewrite Ep2. eapply Forall_impl; [exact HF2|]. by intros q [_ ?]. }
  { by rewrite Eid. }
  { by rewrite Eid, (st_features _ _ Hsame). }
  intros ? s3 ((Eh3&Eo3&Est3&Ecs3)&Ek3&Ec3&Em3&Hfr3). apply wp_ret.
  rewrite (st_lock _ _ Hsame), (st_listeners _ _ Hsame), Ec2, Ec1 in *. change (locking_policy t1) with (locking_policy t) in *.
  change (tlisteners t1) with (tlisteners t) in *. split; [split_and!|split; [|split; [|split; [|split; [|split; [done|split]]]]]].
  - rewrite Eo3, Eo2, Ee1. simpl. apply delete_insert_id. destruct (cached_strings (senv s) !! p) eqn:Ex; [|done].
    destruct (Hobj p) as [? Hx]; [by rewrite Ex|]. rewrite Hfresh in Hx; [done|left].
  - done.
  - by rewrite Ecs3, Es2, Ee1.
  - by rewrite Ek3, Ek2.
  - done.
  - assert (Hlp : lock_ptrs f2 = lock_ptrs f) by (unfold lock_ptrs; by rewrite Elk).
    rewrite Em3, Hlp, Em2, (lock_undo f (cmutex c) (mutexes s)); [done|done|]. intros Hn.
    destruct (mutexes s !! fcs_lock f) eqn:Ex; [|done]. destruct (Hmx (fcs_lock f)) as [? Hx]; [by rewrite Ex|].
    rewrite Hfresh in Hx; [done|]. unfold fcs_owned, lock_ptrs. rewrite decide_False by done. right. left.
  - rewrite Ep2 in Hfr3. apply (frame_trans _ (tl_ptrs t c ++ fcs_owned p f []) _ _ (blocks (sheap s1))).
    + rewrite <- (app_nil_r (tl_ptrs t c)) at 1. apply frame_keep; [done|]. eapply Forall_impl; [exact Hlive|].
      intros q Hq. split; [done|apply not_elem_of_nil].
    + eapply frame_trans; [|exact Hfr3]. by apply frame_keep.
  - done.
  - exists r. rewrite Ek1 in Hrun. change (serialize_events t1) with (serialize_events t) in Hrun. change (buffer_capacity t1) with (buffer_capacity t) in Hrun.
    rewrite (st_ser _ _ Hsame) in Eh3. rewrite <- Hcap, <- Hser. done.
Qed.

(** ** What the reference promises *)

Section promises.
  Context (ks : klass_store) (es : list HT_TimelineListenerEntry) (ser : bool) (cap : Z) (strs : gmap ptr (list Z)).

Definition pushed_names (r : name_state) : list (Z * list Z) := (fun m => (m_key m, m_label m)) <$> n_pushed r.

Lemma n_push_pushed r kl :
  pushed_names (n_push ks es ser cap r kl) = pushed_names r ++ [kl] /\
  (concat (n_out r) ++ n_buf r = mapping_event ks <$> n_pushed r ->
   concat (n_out (n_push ks es ser cap r kl)) ++ n_buf (n_push ks es ser cap r kl) = mapping_event ks <$> n_pushed (n_push ks es ser cap r kl)).
Proof.
  unfold n_push, pushed_names. destruct (read_clock (n_env r)) as [now env]. set (m := Mapping _ _ _ _).
  pose proof (push_ref_stream ser cap (n_buf r) (mapping_event ks m)) as Hp. destruct (push_ref _ _ _ _) as [out buf]. simpl in *.
  split; [rewrite fmap_app; by destruct kl|]. intros Hs. rewrite concat_app, <- app_assoc, Hp, app_assoc, Hs, fmap_app. done.
Qed.

Lemma foldl_push_pushed l r :
  pushed_names (foldl (n_push ks es ser cap) r l) = pushed_names r ++ l /\
  (concat (n_out r) ++ n_buf r = mapping_event ks <$> n_pushed r ->
   let r' := foldl (n_push ks es ser cap) r l in concat (n_out r') ++ n_buf r' = mapping_event ks <$> n_pushed r').
Proof.
  revert r. induction l as [|kl l IH]; intros r; simpl; [by rewrite app_nil_r|].
  destruct (n_push_pushed r kl) as [H1' H2'], (IH (n_push ks es ser cap r kl)) as [H3' H4']. split; [by rewrite H3', H1', <- app_assoc|auto].
Qed.

(** [names]: the labels of the program, with their numbers.  The maps hold
    some of them, everything in the maps was pushed, and nothing else was. *)
Record announced (names : list (Z * list Z)) (r : name_state) : Prop := {
  an_static k l : n_static r !! k = Some l -> (k, l) ∈ pushed_names r;
  an_dynamic k l : n_dynamic r !! k = Some l -> (k, l) ∈ pushed_names r;
  an_pushed k l : (k, l) ∈ pushed_names r -> (k, l) ∈ names
}.

(** The number of a label is in one of the maps. *)
Definition known (k : Z) (r : name_state) : Prop := is_Some (n_static r !! k) \/ is_Some (n_dynamic r !! k).

(** A new number and its label, in one of the maps. *)
Lemma announced_add names r r1 kl :
  announced names r -> kl ∈ names -> (forall k l, n_static r1 !! k = Some l -> n_static r !! k = Some l \/ (k, l) = kl) ->
  (forall k l, n_dynamic r1 !! k = Some l -> n_dynamic r !! k = Some l \/ (k, l) = kl) -> n_pushed r1 = n_pushed r ->
  announced names (n_push ks es ser cap r1 kl).
Proof.
  intros [A1 A2 A3] Hin H1' H2' Ep. destruct (n_push_maps ks es ser cap r1 kl) as [Es Ed]. destruct (n_push_pushed r1 kl) as [En _].
  assert (Er : pushed_names r1 = pushed_names r) by (unfold pushed_names; by rewrite Ep). rewrite Er in En.
  split; intros k l; rewrite ?Es, ?Ed, En, ?elem_of_app, ?list_elem_of_singleton.
  - intros [Hk|Hk]%H1'; [left; by apply A1|by right].
  - intros [Hk|Hk]%H2'; [left; by apply A2|by right].
  - intros [Hk| ->]; [by apply A3|done].
Qed.

Lemma announced_step names r op r' :
  announced names r -> n_step ks es ser cap strs r op r' -> (forall kl, kl ∈ op_name strs op -> kl ∈ names) ->
  announced names r' /\ (forall k, known k r -> known k r') /\ (forall kl, kl ∈ op_name strs op -> known kl.1 r').
Proof.
  intros A Hst Hn. pose proof A as [A1 A2 A3]. destruct Hst as [p r|p r|l1 l2 r Hl1 Hl2]; simpl in Hn.
  - unfold n_add_static. destruct (n_static r !! p) as [l|] eqn:El.
    { split_and!; [done|done|]. intros kl ->%list_elem_of_singleton. left. simpl. by rewrite El. }
    set (r1 := n_set_static _ r). destruct (n_push_maps ks es ser cap r1 (p, label_at strs p)) as [Es Ed]. split_and!.
    + apply (announced_add names r); [done|apply Hn; by left| |by left|done]. intros k l. simpl. rewrite lookup_insert. case_decide; [subst; intros [= <-]; by right|by left].
    + intros k. unfold known. rewrite Es, Ed. simpl. rewrite lookup_insert. case_decide; [left; eauto|done].
    + intros kl ->%list_elem_of_singleton. left. rewrite Es. simpl. rewrite lookup_insert_eq. eauto.
  - unfold n_add_dynamic. cbn zeta. set (h := djb2_hash _). destruct (n_dynamic r !! h) as [l|] eqn:El.
    { split_and!; [done|done|]. intros kl ->%list_elem_of_singleton. right. fold h. simpl. by rewrite El. }
    set (r1 := n_set_dynamic _ r). destruct (n_push_maps ks es ser cap r1 (h, label_at strs p)) as [Es Ed]. split_and!.
    + apply (announced_add names r); [done|apply Hn; by left|by left| |done]. intros k l. simpl. rewrite lookup_insert. case_decide; [subst; intros [= <-]; by right|by left].
    + intros k. unfold known. rewrite Es, Ed. simpl. rewrite lookup_insert. case_decide; [right; eauto|done].
    + intros kl ->%list_elem_of_singleton. right. rewrite Ed. simpl. rewrite lookup_insert_eq. eauto.
  - destruct (foldl_push_pushed (l1 ++ l2) r) as [En _]. destruct (foldl_push_maps ks es ser cap (l1 ++ l2) r) as [Es Ed].
    split_and!; [|by intros k; unfold known; rewrite Es, Ed|by intros kl ?%not_elem_of_nil].
    split; intros k l; rewrite ?Es, ?Ed, En, !elem_of_app; [intros Hk; left; by apply A1|intros Hk; left; by apply A2|].
    rewrite Hl1, Hl2, !elem_of_map_to_list. intros [Hk|[Hk|Hk]]; apply A3; auto.
Qed.

Lemma announced_run names r ops r' :
  announced names r -> n_run ks es ser cap strs r ops r' -> (forall kl, kl ∈ ops ≫= op_name strs -> kl ∈ names) ->
  announced names r' /\ (forall k, known k r -> known k r') /\ (forall kl, kl ∈ ops ≫= op_name strs -> known kl.1 r').
Proof.
  intros A Hrun. induction Hrun as [r|r op r1 ops r2 Hst Hrun IH]; intros Hn; [by split_and!; [..|intros kl ?%not_elem_of_nil]|].
  assert (Hn' : forall kl, kl ∈ op_name strs op \/ kl ∈ ops ≫= op_name strs -> kl ∈ names) by (intros kl; rewrite <- elem_of_app; apply Hn).
  destruct (announced_step names r op r1 A Hst) as (A1&K1&N1); [auto|]. destruct (IH A1) as (A2&K2&N2); [auto|]. split_and!; [done|auto|].
  intros kl. rewrite bind_cons, elem_of_app. intros [?|?]; auto.
Qed.

Lemma stream_run r ops r' :
  n_run ks es ser cap strs r ops r' -> concat (n_out r) ++ n_buf r = mapping_event ks <$> n_pushed r ->
  concat (n_out r') ++ n_buf r' = mapping_event ks <$> n_pushed r'.
Proof.
  induction 1 as [r|r op r1 ops r2 Hst Hrun IH]; [done|]. intros Hs. apply IH. destruct Hst as [p r|p r|l1 l2 r _ _].
  - unfold n_add_static. destruct (n_static r !! p); [done|]. by apply n_push_pushed.
  - unfold n_add_dynamic. cbn zeta. destruct (n_dynamic r !! _); [done|]. by apply n_push_pushed.
  - by apply foldl_push_pushed.
Qed.

(** Until all are pushed again, every label was pushed once. *)
Lemma pushed_once r ops r' :
  n_run ks es ser cap strs r ops r' -> PushMap ∉ ops -> pushed_names r ≡ₚ map_to_list (n_static r) ++ map_to_list (n_dynamic r) ->
  pushed_names r' ≡ₚ map_to_list (n_static r') ++ map_to_list (n_dynamic r').
Proof.
  induction 1 as [r|r op r1 ops r2 Hst Hrun IH]; [done|]. intros [Hop Hops]%not_elem_of_cons Hr. apply IH; [done|].
  destruct Hst as [p r|p r|l1 l2 r _ _]; [| |done].
  - unfold n_add_static. destruct (n_static r !! p) eqn:El; [done|]. set (r1 := n_set_static _ r). set (kl := (p, _)).
    destruct (n_push_maps ks es ser cap r1 kl) as [-> ->]. destruct (n_push_pushed r1 kl) as [-> _]. simpl.
    rewrite map_to_list_insert by done. change (pushed_names r1) with (pushed_names r). rewrite Hr. unfold kl. solve_Permutation.
  - unfold n_add_dynamic. cbn zeta. set (h := djb2_hash _). destruct (n_dynamic r !! h) eqn:El; [done|]. set (r1 := n_set_dynamic _ r). set (kl := (h, _)).
    destruct (n_push_maps ks es ser cap r1 kl) as [-> ->]. destruct (n_push_pushed r1 kl) as [-> _]. simpl.
    rewrite map_to_list_insert by done. change (pushed_names r1) with (pushed_names r). rewrite Hr. unfold kl. solve_Permutation.
Qed.

End promises.

(** All batches, the one at the end included. *)
Definition names_batches (r : name_state) : list (list pushed) :=
  n_out r ++ (if decide (n_buf r = []) then [] else [n_buf r]).

(** C12: labels are announced.  A program creates a timeline with up to 16
    listeners, enables the cached strings, adds literals and strings, has all
    labels pushed again whenever it likes, and destroys the timeline; memory
    does not run out.  Then every call returns the address of its literal or
    the hash of its string; the listeners have been given one event for every
    label that was pushed, in order, and nothing else; every number the
    program was given has been announced to them, by labels the program gave,
    so that it is announced with its own label and no other, unless two labels
    share it; unless all are asked for again, every number is announced once; and every
    object, copy and mutex is released. *)
Theorem labels_are_announced cap ts ser safe rs ops s :
  generous -> sys_wf s -> objects_wf s -> strings_wf s -> mapping_klass (klasses s) ->
  0 <= cached_string_id (senv s) < HT_TIMELINE_MAX_FEATURES -> 0 <= cap < 2 ^ 63 -> (length rs <= 16)%nat ->
  Forall (op_ok (c_strings (senv s))) ops -> Z.of_nat (length ops) < 2 ^ 57 ->
  wp (named_timeline cap ts ser safe rs ops) (fun res s' =>
    blocks (sheap s') = blocks (sheap s) /\ mutexes s' = mutexes s /\ containers s' = containers s /\
    cached_strings (senv s') = cached_strings (senv s) /\ c_strings (senv s') = c_strings (senv s) /\
    let names := ops ≫= op_name (c_strings (senv s)) in
    exists errs next r, res = inr (errs, names.*1) /\ Forall (fun e => e = HT_ERR_OK) errs /\
      n_run (klasses s) (entry_of <$> rs) ser cap (c_strings (senv s)) (names_init (host_env (senv s)) next) ops r /\
      host_env (senv s') = names_finish (entry_of <$> rs) ser r /\
      concat (names_batches r) = mapping_event (klasses s) <$> n_pushed r /\
      (forall k l, (k, l) ∈ pushed_names r -> (k, l) ∈ names) /\
      (forall k l, (k, l) ∈ names -> (forall l', (k, l') ∈ names -> l' = l) -> (k, l) ∈ pushed_names r) /\
      (PushMap ∉ ops -> pushed_names r ≡ₚ map_to_list (n_static r) ++ map_to_list (n_dynamic r))) s.
Proof.
  intros Hg Hwf Hobj Hsw Hk Hid Hcap Hn Hops Hlen. pose proof Hwf as [Hmx _]. unfold named_timeline.
  eapply wp_call; [apply wp_and; [apply timeline_create_spec; [done|lia]|apply timeline_create_generous; [done|lia]]|].
  intros [err [t|]] s1 [(Ee1&Ek1&_&Ht) Hok]; [|by destruct Hok]. clear Hok.
  destruct Ht as (_&Ecap&Eser&Efeat&c&TR&TO&Hc16&Hl16&Hfr&Em1&Ec1).
  destruct (new_objects s t c _ Hwf (to_nodup _ _ _ TO) Hfr) as (Hcm&Hct&Hlk).
  eapply wp_call; [by apply (tl_register t c rs s1)|]. intros errs s2 (HFe&b&->&Eptrs&TR2&TO2).
  assert (Hkeep : forall x, is_Some (blocks (sheap s) !! x) -> is_Some (blocks (sheap s1) !! x)).
  { intros x Hx. destruct (frame_nil_keep _ _ _ x Hfr Hx) as [_ ->]. done. }
  pose proof (tl_ptrs_live _ _ _ _ _ TR TO) as Hlive. rewrite Forall_forall in Hlive.
  eapply wp_call; [apply (names_body_spec safe t (set_entries b c) (entry_of <$> rs) ops cap ser); try done; simpl; rewrite ?Ee1, ?Ek1; try done|].
  { intros x. rewrite Em1. unfold lock_entry.
    intros Hx. assert (x = locking_policy t /\ locking_policy t <> NULL \/ x = cmutex c \/ is_Some (mutexes s !! x)) as [[-> Hl]|[->|Hm]].
    { revert Hx. case_decide; rewrite ?lookup_insert_is_Some'; intuition congruence. }
    - apply Hlive. unfold tl_ptrs. rewrite decide_False by done. right. right. left.
    - apply Hlive. unfold tl_ptrs, cont_ptrs. rewrite !elem_of_cons, elem_of_app, !elem_of_cons. tauto.
    - by apply Hkeep, Hmx. }
  { intros x. simpl. rewrite Ee1. intros Hx. by apply Hkeep, Hobj. }
  { intros x. simpl. rewrite Ee1. intros Hx. by apply Hkeep, Hsw. }
  intros [err' ks] s3 ((Eo3&Est3&_)&_&Ec3&Em3&Hfr3&->&->&r&Hrun&Eh3). rewrite decide_True by done. apply wp_ret. simpl in *.
  rewrite Ec3, Em3, Em1, Ec1, Eo3, Est3, Ee1 in *. rewrite Ek1 in Hrun. split_and!; try done.
  - apply frame_nil. eapply frame_trans; [exact Hfr|]. by rewrite <- Eptrs.
  - by apply lock_entry_undo.
  - by rewrite insert_insert_eq, delete_insert_id.
  - set (names := ops ≫= _) in *. exists errs, (current_identifier s1), r. split; [done|]. split; [done|]. split; [done|]. split; [done|].
    destruct (announced_run (klasses s) (entry_of <$> rs) ser cap (c_strings (senv s)) names (names_init (host_env (senv s)) (current_identifier s1)) ops r) as (A&_&Hknown); [|done|done|].
    { split; intros k l; simpl; [by rewrite lookup_empty|by rewrite lookup_empty|]. by intros ?%not_elem_of_nil. }
    pose proof A as [A1 A2 A3]. split_and!.
    + unfold names_batches. rewrite concat_app, <- (stream_run _ _ _ _ _ _ _ _ Hrun eq_refl). f_equal. destruct (decide (n_buf r = [])) as [Eb|]; [by rewrite Eb|apply app_nil_r].
    + exact A3.
    + intros k l Hkl Huniq. destruct (Hknown (k, l) Hkl) as [[l' Hl']|[l' Hl']]; simpl in Hl'.
      * pose proof (A1 _ _ Hl') as Hp. by rewrite <- (Huniq l' (A3 _ _ Hp)).
      * pose proof (A2 _ _ Hl') as Hp. by rewrite <- (Huniq l' (A3 _ _ Hp)).
    + intros Hno. by apply (pushed_once _ _ _ _ _ _ _ _ Hrun).
Qed.

End cached_string.

(** Two labels with the same hash, "az" and "bY": the second one is shown
    under the name of the first. *)
Lemma labels_collide : djb2_hash [97; 122] = djb2_hash [98; 89].
Proof. reflexivity. Qed.

(** ** A literal and a string *)

#[local] Instance counting_host : Host Z := {
  run_listener _ _ _ _ := Z.succ;
  run_destroy _ _ e := e;
  read_clock e := (e, e + 10)
}.

Definition mapping_klass_store : klass_store :=
  {[at_HT_StringMappingEvent := EventKlass (Some (get_type_info HT_StringMappingEvent)) HT_StringMappingEvent 5]}.

(** The strings "main" and "tick" of the program. *)
Definition named_sys : sys (fenv Z) :=
  Sys (set_blocks (fun _ => {[100 := 5; 200 := 5]}) empty_heap) ∅ ∅ 0 mapping_klass_store static_registry
    (Fenv 1000 ∅ ∅ {[100 := [109; 97; 105; 110]; 200 := [116; 105; 99; 107]]} 0 1 0 ∅ 7).

Definition sample_names : list name_op := [Static 100; Dynamic 200; Static 100; PushMap; Dynamic 200].

Lemma labels_are_announced_witness :
  let little := {| endianness := HT_ENDIANNESS_LITTLE |} in
  wp (named_timeline (H := always_granted) (H0 := little) 100 true true true [Registration 100 1 NULL] sample_names) (fun res s' =>
    blocks (sheap s') = blocks (sheap named_sys) /\ mutexes s' = mutexes named_sys /\ containers s' = containers named_sys /\
    cached_strings (senv s') = cached_strings (senv named_sys) /\ c_strings (senv s') = c_strings (senv named_sys) /\
    let names := sample_names ≫= op_name (c_strings (senv named_sys)) in
    exists errs next r, res = inr (errs, names.*1) /\ Forall (fun e => e = HT_ERR_OK) errs /\
      n_run (H0 := little) (klasses named_sys) (entry_of <$> [Registration 100 1 NULL]) true 100 (c_strings (senv named_sys))
        (names_init (host_env (senv named_sys)) next) sample_names r /\
      host_env (senv s') = names_finish (entry_of <$> [Registration 100 1 NULL]) true r /\
      concat (names_batches r) = mapping_event (H0 := little) (klasses named_sys) <$> n_pushed r /\
      (forall k l, (k, l) ∈ pushed_names r -> (k, l) ∈ names) /\
      (forall k l, (k, l) ∈ names -> (forall l', (k, l') ∈ names -> l' = l) -> (k, l) ∈ pushed_names r) /\
      (PushMap ∉ sample_names -> pushed_names r ≡ₚ map_to_list (n_static r) ++ map_to_list (n_dynamic r))) named_sys.
Proof.
  intros little. apply (labels_are_announced (H := always_granted) (H0 := little) 100 true true true [Registration 100 1 NULL] sample_names named_sys).
  - exact always_generous.
  - split; intros p [? Hp]; simpl in Hp; by rewrite lookup_empty in Hp.
  - intros p [? Hp]. simpl in Hp. by rewrite lookup_empty in Hp.
  - intros q [? Hq]. simpl in *. apply lookup_insert_Some in Hq as [[<- _]|[_ [<- _]%lookup_singleton_Some]]; vm_compute; eauto.
  - eexists. reflexivity.
  - simpl. unfold HT_TIMELINE_MAX_FEATURES. lia.
  - lia.
  - simpl. lia.
  - repeat constructor; try done; eexists; (split; [reflexivity|simpl; lia]).
  - simpl. lia.
Defined.
