(* ===== verification/MappedTracepoint.v ===== *)
(** Tracepoints that announce their label once (lib/posix_mapped_tracepoint.c
    and the macro HT_TP_STRACEPOINT of
    lib/include/hawktracer/string_scoped_tracepoint.h for pthreads), up to the
    measurement of the scope, which is that of Callstack.v.

    pthread_once takes a function without arguments, so that the timeline and the
    label travel in static variables that a mutex protects.  They are shown to
    do what a call of ht_feature_cached_string_add_mapping does each time. *)
From S2P Require Import Prelude Alloc BaseTypes Bag HashMap Memory Stack Events Listeners Registry Timeline Features CachedString.

#[local] Open Scope Z_scope.

(** The static variables, beside the rest of the library: the mutex, the
    address of the timeline, the label; and the pthread_once_t variables of
    the places in the program that have run. *)
Record mapped (E : Type) := MkMapped {
  mp_sys : sys (fenv E);
  _posix_mapped_tracepoint_mapped_mtx : ptr;
  _mapped_timeline : ptr;
  _mapped_ptr : ptr;
  ht_var_once : gset Z
}.
Arguments MkMapped {E} _ _ _ _ _.
Arguments mp_sys {E} _.
Arguments _posix_mapped_tracepoint_mapped_mtx {E} _.
Arguments _mapped_timeline {E} _.
Arguments _mapped_ptr {E} _.
Arguments ht_var_once {E} _.

#[export] Instance mapped_lens {E} : Lens (mapped E) (sys (fenv E)).
Proof.
  refine {| view := mp_sys;
            update s m := MkMapped s (_posix_mapped_tracepoint_mapped_mtx m) (_mapped_timeline m) (_mapped_ptr m) (ht_var_once m) |};
    by intros; destruct s.
Defined.

Section mapped.
  Context `{Malloc} `{Platform} {E : Type} `{Host E}.

Definition set_mapped_mtx (p : ptr) (m : mapped E) : mapped E := MkMapped (mp_sys m) p (_mapped_timeline m) (_mapped_ptr m) (ht_var_once m).
Definition set_mapped (t label : ptr) (m : mapped E) : mapped E :=
  MkMapped (mp_sys m) (_posix_mapped_tracepoint_mapped_mtx m) t label (ht_var_once m).
Definition set_once (site : Z) (m : mapped E) : mapped E :=
  MkMapped (mp_sys m) (_posix_mapped_tracepoint_mapped_mtx m) (_mapped_timeline m) (_mapped_ptr m) ({[site]} ∪ ht_var_once m).

Definition _ht_posix_mapped_tracepoint_init : ST (mapped E) () :=
  p ← zoom ht_mutex_create;
  modify (set_mapped_mtx p).

(** The variable keeps its value. *)
Definition _ht_posix_mapped_tracepoint_deinit : ST (mapped E) () :=
  mtx ← gets _posix_mapped_tracepoint_mapped_mtx;
  if decide (mtx <> NULL) then zoom (ht_mutex_destroy mtx) else mret ().

Definition ht_pthread_mapped_tracepoint_enter (timeline : HT_Timeline) (label : ptr) : ST (mapped E) () :=
  mtx ← gets _posix_mapped_tracepoint_mapped_mtx;
  zoom (ht_mutex_lock mtx);;
  modify (set_mapped (tself timeline) label).

Definition ht_pthread_mapped_tracepoint_leave : ST (mapped E) () :=
  mtx ← gets _posix_mapped_tracepoint_mapped_mtx;
  zoom (ht_mutex_unlock mtx).

(** [timeline] is the object the pointer is expected to point to. *)
Definition ht_pthread_mapped_tracepoint_add_mapping (timeline : HT_Timeline) : ST (mapped E) HT_Timeline :=
  p ← gets _mapped_timeline;
  require (bool_decide (tself timeline = p));;
  label ← gets _mapped_ptr;
  '(_, timeline) ← zoom (ht_feature_cached_string_add_mapping timeline label);
  mret timeline.

(** HT_TP_STRACEPOINT(timeline, label) at a place [site] of the program: the
    number the measurement is given, and the timeline. *)
Definition HT_TP_STRACEPOINT (timeline : HT_Timeline) (site : Z) (label : ptr) : ST (mapped E) (Z * HT_Timeline) :=
  ht_pthread_mapped_tracepoint_enter timeline label;;
  once ← gets ht_var_once;
  timeline ← (if decide (site ∈ once) then mret timeline
              else t ← ht_pthread_mapped_tracepoint_add_mapping timeline; modify (set_once site);; mret t);
  ht_pthread_mapped_tracepoint_leave;;
  mret (label, timeline).

(** The tracepoints a program passes, one after the other. *)
Fixpoint stracepoints (sites : list (Z * ptr)) (timeline : HT_Timeline) : ST (mapped E) (list Z * HT_Timeline) :=
  match sites with
  | [] => mret ([], timeline)
  | (site, label) :: sites =>
      '(k, timeline) ← HT_TP_STRACEPOINT timeline site label;
      '(ks, timeline) ← stracepoints sites timeline;
      mret (k :: ks, timeline)
  end.

(** ** The mutex between the timeline's own *)

(** The mutex in the place of a feature's lock. *)
Definition locker (mtx : ptr) (f : HT_FeatureCachedString) : HT_FeatureCachedString := CachedString mtx (dynamic_hashes f) (static_hashes f).

(** The mutex is none of the feature, the timeline and its listeners. *)
Definition mtx_apart (mtx : ptr) (f : HT_FeatureCachedString) (s : sys (fenv E)) (t : HT_Timeline) : Prop :=
  mtx <> NULL /\ mtx <> fcs_lock f /\ lock_apart (locker mtx f) s t.

Lemma fcs_rep_locked mtx b s t es strs0 p f M1 M2 L r :
  mtx_apart mtx f s t -> fcs_rep s t es strs0 p f M1 M2 L r -> fcs_rep (with_lock (locker mtx f) b s) t es strs0 p f M1 M2 L r.
Proof.
  intros (Hn&Hf&Ha) [R1 R2 R3 R4 R5 R6 R7 R8 R9 R10 R11 R12 R13 R14 R15 R16 R17 R18 R19 R20].
  destruct (with_lock_rest (locker mtx f) b s) as (E1&E2&E3&_&E5&_). split; rewrite ?E1, ?E2, ?E3, ?E5; try done.
  - by apply follows_with_lock.
  - intros Hl. unfold with_lock. rewrite decide_False by done. simpl. rewrite lookup_insert_ne by done. by apply R9.
Qed.

Lemma mtx_apart_step mtx p f L f' L' (s s' : sys (fenv E)) t t' : mtx_apart mtx f s t -> fcs_step p f L f' L' s s' -> same_timeline t t' -> mtx_apart mtx f' s' t'.
Proof.
  intros (Hn&Hf&Ha) St Hs. split; [done|]. split; [by rewrite (fs_lock _ _ _ _ _ _ _ St)|]. intros Hm. destruct (Ha Hm) as [H1' H2'].
  rewrite (st_lock _ _ Hs), (st_listeners _ _ Hs), (fs_containers _ _ _ _ _ _ _ St). done.
Qed.

(** The mutex is free again after the critical section. *)
Lemma fcs_step_locked mtx p f L f' (s s1 : sys (fenv E)) : mutexes s !! mtx = Some false -> mtx <> NULL ->
  fcs_step p f L f' L (with_lock (locker mtx f) true s) s1 -> fcs_step p f L f' L s (with_lock (locker mtx f) false s1).
Proof.
  intros Hfree Hn [Em Ec Ek Er Es Eo [Ei1 Ei2] El Ef].
  destruct (with_lock_rest (locker mtx f) true s) as (A1&A2&A3&A4&A5&_), (with_lock_rest (locker mtx f) false s1) as (B1&B2&B3&B4&B5&_).
  rewrite A1 in Ef. rewrite A2 in Ec. rewrite A3 in Ek. rewrite A4 in Er. rewrite A5 in Es, Eo, Ei1, Ei2.
  split; rewrite ?B1, ?B2, ?B3, ?B4, ?B5; try done. apply with_lock_back; [by intros _|done].
Qed.

Lemma n_add_static_known ks es ser cap strs q (r : name_state) : is_Some (n_static r !! q) -> n_add_static ks es ser cap strs q r = r.
Proof. intros [l E']. unfold n_add_static. by rewrite E'. Qed.

(** One tracepoint. *)
Lemma stracepoint_spec site label (m : mapped E) t es strs0 p f M1 M2 L r :
  let s := mp_sys m in let mtx := _posix_mapped_tracepoint_mapped_mtx m in
  generous -> fcs_rep s t es strs0 p f M1 M2 L r -> maps_ok M1 M2 L -> Z.of_nat (base.size M1) < 2 ^ 57 -> op_ok strs0 (Static label) ->
  mtx_apart mtx f s t -> mutexes s !! mtx = Some false -> (site ∈ ht_var_once m -> is_Some (M1 !! label)) ->
  wp (HT_TP_STRACEPOINT t site label) (fun '(k, t') m' => k = label /\ same_timeline t t' /\
    _posix_mapped_tracepoint_mapped_mtx m' = mtx /\ ht_var_once m' = {[site]} ∪ ht_var_once m /\ exists f',
    fcs_rep (mp_sys m') t' es strs0 p f' (<[label := label]> M1) M2 L (n_add_static (klasses s) es (serialize_events t) (buffer_capacity t) strs0 label r) /\
    maps_ok (<[label := label]> M1) M2 L /\ fcs_step p f L f' L s (mp_sys m')) m.
Proof.
  intros s mtx Hg R Hm Hsz Hop Ha Hfree Hknown. pose proof Ha as (Hn&Hf&Hla). unfold HT_TP_STRACEPOINT, ht_pthread_mapped_tracepoint_enter, ht_pthread_mapped_tracepoint_leave.
  assert (El : forall b (s : sys (fenv E)), set_mutexes <[mtx := b]> s = with_lock (locker mtx f) b s) by (intros; unfold with_lock; by rewrite decide_False).
  wp_steps. apply lock_spec; [done|]. rewrite El. wp_steps. cbn [view update mapped_lens set_mapped ht_var_once mp_sys].
  set (s0 := with_lock (locker mtx f) true s). pose proof (fcs_rep_locked mtx true s t es strs0 p f M1 M2 L r Ha R) as R0. fold s0 in R0.
  assert (Ha0 : mtx_apart mtx f s0 t) by (destruct (with_lock_rest (locker mtx f) true s) as (_&A2&_); split_and!; [done|done|]; unfold lock_apart, s0; by rewrite A2).
  destruct (decide (site ∈ ht_var_once m)) as [Hs|Hs].
  - wp_steps. apply unlock_spec; [by apply (with_lock_held (locker mtx f) true s)|]. rewrite El. wp_steps. cbn. split_and!; [done|apply same_timeline_refl|done|by rewrite subseteq_union_1_L by (by apply singleton_subseteq_l)|].
    destruct (Hknown Hs) as [q Hq]. pose proof (proj1 Hm label q Hq) as ->. rewrite (insert_id M1) by done.
    rewrite n_add_static_known by (rewrite (fr_static _ _ _ _ _ _ _ _ _ _ R); unfold names_at; rewrite lookup_fmap, Hq; by eexists).
    exists f. split_and!; [by apply fcs_rep_locked|done|]. apply fcs_step_locked; [done|done|apply quiet_step, quiet_refl].
  - unfold ht_pthread_mapped_tracepoint_add_mapping. wp_steps. cbn. rewrite bool_decide_true by done. apply wp_ret. wp_steps. cbn.
    eapply wp_mono; [by apply (add_static_spec label t es strs0 p f M1 M2 L r s0)|].
    intros [k t'] s1 (->&Hsame&f'&R1&Hm1&St). wp_steps. cbn. 
    apply unlock_spec; [rewrite (fs_mutexes _ _ _ _ _ _ _ St); by apply (with_lock_held (locker mtx f) true s)|]. rewrite El. wp_steps. cbn.
    split_and!; [done|done|done|done|]. exists f'. split_and!; [|done|by apply fcs_step_locked].
    destruct (with_lock_rest (locker mtx f) true s) as (_&_&A3&_). fold s0 in A3. rewrite A3 in R1.
    apply (fcs_rep_locked mtx false s1 t' es strs0 p f'); [by eapply mtx_apart_step|done].
Qed.

(** Tracepoints with literals as labels, each place with one label.  Passing
    them, in any order and as often as wanted, does what the reference of the
    cached strings does when each label is added each time: the timeline and the
    maps are the same, so each label is announced once; each tracepoint is given
    the number of its label, and the mutex is free at the end. *)
Theorem stracepoints_add_labels sites (m : mapped E) t es strs0 p f M1 M2 L r (label_of : Z -> ptr) :
  generous -> fcs_rep (mp_sys m) t es strs0 p f M1 M2 L r -> maps_ok M1 M2 L ->
  Z.of_nat (base.size M1) + Z.of_nat (length sites) < 2 ^ 57 ->
  Forall (fun sl => sl.2 = label_of sl.1 /\ op_ok strs0 (Static sl.2)) sites ->
  mtx_apart (_posix_mapped_tracepoint_mapped_mtx m) f (mp_sys m) t -> mutexes (mp_sys m) !! _posix_mapped_tracepoint_mapped_mtx m = Some false ->
  (forall site, site ∈ ht_var_once m -> is_Some (M1 !! label_of site)) ->
  wp (stracepoints sites t) (fun '(ks, t') m' => ks = sites.*2 /\ same_timeline t t' /\ mutexes (mp_sys m') = mutexes (mp_sys m) /\ exists f' M1' r',
    n_run (klasses (mp_sys m)) es (serialize_events t) (buffer_capacity t) strs0 r (Static <$> sites.*2) r' /\
    fcs_rep (mp_sys m') t' es strs0 p f' M1' M2 L r' /\ fcs_step p f L f' L (mp_sys m) (mp_sys m')) m.
Proof.
  intros Hg R Hm Hsz HF. revert m t f M1 r R Hm Hsz. induction HF as [|[site label] sites [Hlab Hop] _ IH]; intros m t f M1 r R Hm Hsz Ha Hfree Honce; cbn [stracepoints].
  { apply wp_ret. split_and!; [done|apply same_timeline_refl|done|]. exists f, M1, r. split_and!; [constructor|done|apply quiet_step, quiet_refl]. }
  cbn in Hlab, Hop, Hsz. eapply wp_call.
  { apply (stracepoint_spec site label m t es strs0 p f M1 M2 L r); try done; [lia|]. subst label. apply Honce. }
  intros [k t1] m1 (->&Hs1&Emtx&Eonce&f1&R1&Hm1&St1). eapply wp_call.
  { apply (IH m1 t1 f1 (<[label := label]> M1) _ R1 Hm1).
    - rewrite map_size_insert. destruct (M1 !! label); simpl; lia.
    - rewrite Emtx. by eapply mtx_apart_step.
    - by rewrite Emtx, (fs_mutexes _ _ _ _ _ _ _ St1).
    - intros x. rewrite Eonce, elem_of_union, elem_of_singleton. intros [->|Hx]; [rewrite <- Hlab, lookup_insert_eq; by eexists|].
      destruct (decide (label_of x = label)) as [->|Hne]; [rewrite lookup_insert_eq; by eexists|]. rewrite lookup_insert_ne by done. by apply Honce. }
  intros [ks t2] m2 (->&Hs2&Em2&f2&M3&r2&Hrun&R2&St2). apply wp_ret. split_and!; [done|by eapply same_timeline_trans|by rewrite Em2, (fs_mutexes _ _ _ _ _ _ _ St1)|].
  exists f2, M3, r2. split_and!; [|done|by eapply fcs_step_trans]. cbn. econstructor; [apply n_step_static|].
  by rewrite (fs_klasses _ _ _ _ _ _ _ St1), (st_ser _ _ Hs1), (st_cap _ _ Hs1) in Hrun.
Qed.

(** The mutex is made and destroyed with the library. *)
Lemma mapped_lifetime (m : mapped E) : sys_wf (mp_sys m) ->
  wp (_ht_posix_mapped_tracepoint_init;; _ht_posix_mapped_tracepoint_deinit) (fun _ m' =>
    blocks (sheap (mp_sys m')) = blocks (sheap (mp_sys m)) /\ mutexes (mp_sys m') = mutexes (mp_sys m)) m.
Proof.
  intros [Hmx _]. unfold _ht_posix_mapped_tracepoint_init, _ht_posix_mapped_tracepoint_deinit. wp_steps. apply mutex_create_spec.
  - intros h (Eb&_&_). wp_steps. cbn. rewrite decide_False by tauto. by apply wp_ret.
  - intros p h Hp Hfr Eb. wp_steps. cbn. rewrite decide_True by done. wp_steps. cbn.
    apply (mutex_destroy_spec p sizeof_HT_Mutex); [apply lookup_insert_eq|done|cbn; rewrite Eb; apply lookup_insert_eq|].
    intros h' Eb'. cbn in *. rewrite Eb', Eb. split; [by apply delete_insert_id|]. apply delete_insert_id.
    destruct (mutexes (mp_sys m) !! p) eqn:Em; [|done]. destruct (Hmx p) as [n Hn']; [by eexists|]. congruence.
Qed.

Lemma mutex_created (s : sys (fenv E)) : generous -> wp ht_mutex_create (fun p s' => p <> NULL /\ blocks (sheap s) !! p = None /\
  blocks (sheap s') = <[p := sizeof_HT_Mutex]> (blocks (sheap s)) /\ mutexes s' = <[p := false]> (mutexes s)) s.
Proof.
  intros Hg. pose (P := fun (p : ptr) (s' : sys (fenv E)) => p <> NULL -> blocks (sheap s) !! p = None /\
    blocks (sheap s') = <[p := sizeof_HT_Mutex]> (blocks (sheap s)) /\ mutexes s' = <[p := false]> (mutexes s)).
  assert (wp ht_mutex_create P s) as Hw by (apply mutex_create_spec; [by intros ? ? []|by intros p h Hp Hfr Eb _; split_and!]).
  eapply wp_mono; [exact (wp_and _ _ _ _ Hw (mutex_generous s Hg))|]. intros p s' [Hok Hn]. split; [done|]. by apply Hok.
Qed.

(** ht_init runs the initialisation each time it is called, ht_deinit the other
    function once: the mutex of the first is lost. *)
Lemma second_init_leaks (m : mapped E) : generous -> sys_wf (mp_sys m) ->
  wp (_ht_posix_mapped_tracepoint_init;; _ht_posix_mapped_tracepoint_init;; _ht_posix_mapped_tracepoint_deinit) (fun _ m' => exists p,
    mutexes (mp_sys m) !! p = None /\ mutexes (mp_sys m') = <[p := false]> (mutexes (mp_sys m)) /\
    blocks (sheap (mp_sys m')) = <[p := sizeof_HT_Mutex]> (blocks (sheap (mp_sys m)))) m.
Proof.
  intros Hg [Hmx _]. assert (Hfresh : forall p, blocks (sheap (mp_sys m)) !! p = None -> mutexes (mp_sys m) !! p = None).
  { intros p Hp. destruct (mutexes (mp_sys m) !! p) eqn:Em; [|done]. destruct (Hmx p) as [n Hn']; [by eexists|]. congruence. }
  unfold _ht_posix_mapped_tracepoint_init, _ht_posix_mapped_tracepoint_deinit. wp_steps.
  eapply wp_mono; [by apply mutex_created|]. intros p s1 (Hp&Hfr&Eb&Em). wp_steps. cbn.
  eapply wp_mono; [by apply mutex_created|]. intros q s2 (Hq&Hfr2&Eb2&Em2). wp_steps. cbn. rewrite decide_True by done.
  assert (p <> q) as Hne by (intros ->; rewrite Eb, lookup_insert_eq in Hfr2; done). wp_steps. cbn.
  assert (blocks (sheap (mp_sys m)) !! q = None) as Hfq by (rewrite Eb, lookup_insert_ne in Hfr2; done).
  apply (mutex_destroy_spec q sizeof_HT_Mutex); [rewrite Em2; apply lookup_insert_eq|done|rewrite Eb2; apply lookup_insert_eq|].
  intros h Eb3. cbn. exists p. rewrite Eb3, Eb2, Em2, Em, Eb. split_and!; [by apply Hfresh| |].
  - apply delete_insert_id. rewrite lookup_insert_ne by done. by apply Hfresh.
  - apply delete_insert_id. by rewrite lookup_insert_ne.
Qed.

End mapped.
