(* ===== verification/GlobalTimeline.v ===== *)
(** The timeline that each thread has (lib/global_timeline.cpp, with C++11),
    and providers of event identifiers (lib/event_id_provider.cpp) other than
    the one the library uses by default. *)
From S2P Require Import Prelude Alloc BaseTypes Bag HashMap Memory Stack Events Listeners Registry Timeline Features Callstack CachedString.

#[local] Open Scope Z_scope.
#[local] Arguments string_bytes : simpl never.

(** ** The global timeline *)

(** The object GlobalTimeline of each thread that has made one, beside the rest
    of the library; [Some None] holds a null pointer. *)
Record globals (E : Type) := MkGlobals { g_sys : sys (fenv E); global_timelines : gmap Z (option HT_Timeline) }.
Arguments MkGlobals {E} _ _.
Arguments g_sys {E} _.
Arguments global_timelines {E} _.

#[export] Instance globals_lens {E} : Lens (globals E) (sys (fenv E)).
Proof. refine {| view := g_sys; update s g := MkGlobals s (global_timelines g) |}; by intros; destruct s. Defined.

Section global.
  Context `{Malloc} `{Platform} {E : Type} `{Host E}.
  Implicit Types (s : sys (fenv E)) (t : HT_Timeline).

(** Both features; the error codes are not tested. *)
Definition enable_features t : ST (sys (fenv E)) (HT_ErrorCode * HT_ErrorCode * HT_Timeline) :=
  '(e1, t) ← ht_feature_callstack_enable t;
  '(e2, t) ← ht_feature_cached_string_enable t false;
  mret (e1, e2, t).

(** Without a timeline a feature that could be created is put into a null
    pointer. *)
Definition _ht_global_timeline_create (buffer_size : Z) : ST (sys (fenv E)) (option HT_Timeline) :=
  '(_, c_timeline) ← ht_timeline_create buffer_size false true (Some (string_bytes "HT_GlobalTimeline"));
  match c_timeline with
  | Some t => '(_, _, t) ← enable_features t; mret (Some t)
  | None =>
      '(_, f1) ← ht_feature_callstack_create;
      require (bool_decide (f1 = None));;
      '(_, f2) ← ht_feature_cached_string_create false;
      require (bool_decide (f2 = None));;
      mret None
  end.

(** The first call of a thread constructs the object. *)
Definition ht_global_timeline_get (buffer_size : Z) : ST (globals E) (option HT_Timeline) :=
  thread ← gets (fun g => running (senv (g_sys g)));
  made ← gets (fun g => global_timelines g !! thread);
  match made with
  | Some c_timeline => mret c_timeline
  | None =>
      c_timeline ← zoom (_ht_global_timeline_create buffer_size);
      modify (fun g => MkGlobals (g_sys g) (<[thread := c_timeline]> (global_timelines g)));;
      mret c_timeline
  end.

(** The end of a thread destroys it. *)
Definition global_timeline_end : ST (globals E) () :=
  thread ← gets (fun g => running (senv (g_sys g)));
  made ← gets (fun g => global_timelines g !! thread);
  match made with
  | None => mret ()
  | Some c_timeline =>
      t ← some_or_undef c_timeline;
      zoom (ht_timeline_destroy t);;
      modify (fun g => MkGlobals (g_sys g) (delete thread (global_timelines g)))
  end.

(** ** What a new timeline has *)

(** A feature that is new is put in its slot. *)
Lemma set_feature_slot t (feature : HT_Feature) s (Q : HT_ErrorCode * HT_Timeline -> sys (fenv E) -> Prop) :
  0 <= fk_id (fklass feature) < HT_TIMELINE_MAX_FEATURES -> features t !! Z.to_nat (fk_id (fklass feature)) = Some None ->
  Q (HT_ERR_OK, set_timeline_features (<[Z.to_nat (fk_id (fklass feature)) := Some feature]> (features t)) t) s ->
  wp (ht_timeline_set_feature t feature) Q s.
Proof.
  intros Hid Hslot HQ. unfold ht_timeline_set_feature.
  rewrite decide_False by (change HT_INVALID_FEATURE_ID with 4294967295; unfold HT_TIMELINE_MAX_FEATURES in *; lia).
  rewrite Hslot, some_bind. wp_steps. rewrite decide_False by (intros Hn; by apply Hn). by wp_steps.
Qed.

Lemma no_feature_at id : 0 <= id < HT_TIMELINE_MAX_FEATURES -> no_features !! Z.to_nat id = Some None.
Proof. intros Hid. apply lookup_replicate_2. lia. Qed.

(** The cached strings of a timeline whose slot for them is free. *)
Lemma cached_slot t s :
  features t !! Z.to_nat (cached_string_id (senv s)) = Some None -> 0 <= cached_string_id (senv s) < HT_TIMELINE_MAX_FEATURES ->
  wp (ht_feature_cached_string_enable t false) (fun '(e, t') s' =>
    containers s' = containers s /\ callstacks (senv s') = callstacks (senv s) /\
    if decide (e = HT_ERR_OK) then exists f, t' = set_timeline_features (<[Z.to_nat (cached_string_id (senv s)) := Some f]> (features t)) t /\
      is_Some (cached_strings (senv s') !! fself f)
    else t' = t) s.
Proof.
  intros Hslot Hid. unfold ht_feature_cached_string_enable. eapply wp_call; [apply cached_string_create_spec|].
  intros [e [feature|]] s' (Ec&_&_&_&Ho); cbn beta iota.
  - destruct Ho as (->&f&C). apply set_feature_slot; rewrite (fcr_klass _ _ _ _ _ C); [done|done|]. cbn beta iota. rewrite (fcr_env _ _ _ _ _ C).
    split_and!; [done|done|]. rewrite decide_True by done. exists feature. split; [done|]. cbn. rewrite lookup_insert_eq. by eexists.
  - destruct Ho as (He&_&_&Es). apply wp_ret. rewrite Es. by rewrite decide_False.
Qed.

(** Both features of a new timeline are in their slots, each unless memory
    ran out for it; the listeners and what is buffered are untouched. *)
Theorem features_enabled t s :
  features t = no_features -> callstack_id (senv s) <> cached_string_id (senv s) ->
  0 <= callstack_id (senv s) < HT_TIMELINE_MAX_FEATURES -> 0 <= cached_string_id (senv s) < HT_TIMELINE_MAX_FEATURES ->
  wp (enable_features t) (fun '(e1, e2, t') s' =>
    t' = set_timeline_features (features t') t /\ containers s' = containers s /\
    (if decide (e1 = HT_ERR_OK) then exists f, features t' !! Z.to_nat (callstack_id (senv s)) = Some (Some f) /\ is_Some (callstacks (senv s') !! fself f)
     else features t' !! Z.to_nat (callstack_id (senv s)) = Some None) /\
    (if decide (e2 = HT_ERR_OK) then exists f, features t' !! Z.to_nat (cached_string_id (senv s)) = Some (Some f) /\ is_Some (cached_strings (senv s') !! fself f)
     else features t' !! Z.to_nat (cached_string_id (senv s)) = Some None)) s.
Proof.
  intros Hf Hne Hc Hs. pose proof (no_feature_at _ Hc) as Lc. pose proof (no_feature_at _ Hs) as Ls. rewrite <- Hf in Lc, Ls.
  assert (Hn : Z.to_nat (callstack_id (senv s)) <> Z.to_nat (cached_string_id (senv s))) by lia.
  unfold enable_features, ht_feature_callstack_enable. apply wp_bind. eapply wp_call; [apply callstack_create_spec|].
  intros [e1 [f1|]] s1 (_&Ec1&_&_&_&Ho); cbn beta iota.
  - destruct Ho as (->&Hk&st&Es&_). apply set_feature_slot; rewrite Hk; [done|done|]. cbn [fk_id].
    set (t1 := set_timeline_features _ t). eapply wp_call.
    { apply (cached_slot t1 s1); rewrite Es; [|done]. cbn. by rewrite list_lookup_insert_ne. }
    intros [e2 t2] s2 (Ec2&Ecs&H2'). rewrite Es in Ecs, H2'. cbn in Ecs, H2'. apply wp_ret. rewrite decide_True by done.
    assert (Lt1 : features t1 !! Z.to_nat (callstack_id (senv s)) = Some (Some f1)) by (apply list_lookup_insert_eq, lookup_lt_is_Some; by eexists).
    assert (Lt2 : features t1 !! Z.to_nat (cached_string_id (senv s)) = Some None) by (cbn; by rewrite list_lookup_insert_ne).
    assert (Hcs : is_Some (callstacks (senv s2) !! fself f1)) by (rewrite Ecs, lookup_insert_eq; by eexists).
    destruct (decide (e2 = HT_ERR_OK)).
    + destruct H2' as (f2&->&Hstr). split_and!; [done|congruence| |].
      * exists f1. split; [|done]. cbn [features set_timeline_features]. by rewrite list_lookup_insert_ne.
      * exists f2. split; [|done]. cbn [features set_timeline_features]. apply list_lookup_insert_eq, lookup_lt_is_Some. by eexists.
    + subst t2. split_and!; [done|congruence| |done]. by exists f1.
  - destruct Ho as (->&_&Es). apply wp_ret. eapply wp_call; [apply (cached_slot t s1); by rewrite Es|].
    intros [e2 t2] s2 (Ec2&Ecs&H2'). rewrite Es in H2'. apply wp_ret. rewrite decide_False by done.
    destruct (decide (e2 = HT_ERR_OK)).
    + destruct H2' as (f2&->&Hstr). split_and!; [done|congruence|cbn; by rewrite list_lookup_insert_ne|].
      exists f2. split; [|done]. cbn. apply list_lookup_insert_eq, lookup_lt_is_Some. by eexists.
    + subst t2. split_and!; [by destruct t|congruence|done|done].
Qed.

(** A thread has one timeline: the second call of ht_global_timeline_get
    returns the first one's and does nothing. *)
Lemma global_timeline_once size size' (g g' : globals E) o :
  running (senv (g_sys g')) = running (senv (g_sys g)) ->
  ht_global_timeline_get size g = Done (o, g') -> ht_global_timeline_get size' g' = Done (o, g').
Proof.
  intros Hr. unfold ht_global_timeline_get, mbind, st_bind, gets. rewrite Hr.
  destruct (global_timelines g !! running (senv (g_sys g))) as [t0|] eqn:E0.
  - intros [= <- <-]. rewrite E0. done.
  - destruct (zoom _ g) as [[t0 g0]| |]; [|done|done]. cbn. intros [= <- <-]. cbn. by rewrite lookup_insert_eq.
Qed.

End global.

(** ** Providers of identifiers *)

Record HT_EventIdProvider := MkProvider { ep_self : ptr; ep_current : Z }.

Section provider.
  Context `{Malloc}.

(** The result of the allocation is not tested. *)
Definition ht_event_id_provider_create : ST heap HT_EventIdProvider :=
  provider ← ht_alloc 8;
  require (bool_decide (provider <> NULL));;
  mret (MkProvider provider 0).

Definition ht_event_id_provider_destroy (provider : HT_EventIdProvider) : ST heap () := ht_free (ep_self provider).

(** current_identifier++. *)
Definition provider_next (provider : HT_EventIdProvider) : Z * HT_EventIdProvider :=
  (ep_current provider, MkProvider (ep_self provider) (u64 (ep_current provider + 1))).

Fixpoint provider_nexts (n : nat) (provider : HT_EventIdProvider) : list Z * HT_EventIdProvider :=
  match n with
  | O => ([], provider)
  | S n => let '(x, provider) := provider_next provider in let '(xs, provider) := provider_nexts n provider in (x :: xs, provider)
  end.

Lemma provider_nexts_eq n p c : 0 <= c < 2 ^ 64 ->
  provider_nexts n (MkProvider p c) = ((fun i => u64 (c + i)) <$> seqZ 0 (Z.of_nat n), MkProvider p (u64 (c + Z.of_nat n))).
Proof.
  revert c. induction n as [|n IH]; intros c Hc; [cbn; by rewrite Z.add_0_r, u64_small|]. cbn [provider_nexts provider_next ep_current ep_self].
  assert (Hu : forall i, u64 (u64 (c + 1) + i) = u64 (c + (1 + i))) by (intros i; unfold u64; rewrite Z.add_mod_idemp_l by lia; f_equal; lia).
  rewrite IH by apply u64_range. rewrite Hu, Nat2Z.inj_succ, (seqZ_cons 0 (Z.succ (Z.of_nat n))) by lia. cbn [fmap list_fmap].
  rewrite Z.add_0_r, (u64_small c) by done. replace (c + (1 + Z.of_nat n)) with (c + Z.succ (Z.of_nat n)) by lia. do 2 f_equal.
  replace (Z.pred (Z.succ (Z.of_nat n))) with (Z.of_nat n) by lia. replace (Z.succ 0) with (1 + 0) by lia. rewrite <- (fmap_add_seqZ 1 0), <- list_fmap_compose.
  apply list_fmap_ext. intros _ i _. apply Hu.
Qed.

(** A provider counts from 0 (event_id_provider.h); its identifiers are
    different as long as there are not more than 2^64 of them, and nothing is
    left of it when it is destroyed. *)
Theorem provider_counts n h : granted 8 -> Z.of_nat n <= 2 ^ 64 ->
  wp (p ← ht_event_id_provider_create; let '(xs, p) := provider_nexts n p in ht_event_id_provider_destroy p;; mret xs)
    (fun xs h' => xs = seqZ 0 (Z.of_nat n) /\ NoDup xs /\ blocks h' = blocks h) h.
Proof.
  intros Hg Hn. unfold ht_event_id_provider_create. apply wp_bind. apply wp_bind. apply (ht_alloc_granted 8); [done|].
  intros p h' Hp _ Hfr (Eb&_&_). rewrite bool_decide_true by done. unfold require. wp_steps.
  rewrite provider_nexts_eq by lia. unfold ht_event_id_provider_destroy. cbn [ep_self]. wp_steps.
  apply (ht_free_spec p 8); [done|rewrite Eb; apply lookup_insert_eq|]. intros h2 (Eb2&_&_). wp_steps.
  assert (((fun i => u64 (0 + i)) <$> seqZ 0 (Z.of_nat n)) = seqZ 0 (Z.of_nat n)) as ->.
  { rewrite <- (list_fmap_id (seqZ 0 (Z.of_nat n))) at 2. apply list_fmap_ext. intros i x Hx. apply lookup_seqZ in Hx as [-> ?]. simpl. apply u64_small. lia. }
  split_and!; [done|apply NoDup_seqZ|]. rewrite Eb2, Eb. by apply delete_insert_id.
Qed.

End provider.
