(* ===== verification/Endian.v ===== *)
(** Byte order: the conversions of the parser
    (parser/include/hawktracer/parser/endianness_convert.hpp) and why they
    give back what a machine of either byte order has written.

    Numbers are given by their bits, so that the signed and the unsigned
    overloads of a width are one function. *)
From S2P Require Import Prelude Alloc BaseTypes Events Listeners Registry.

Definition u16 (x : Z) : Z := x mod 2 ^ 16.

Section convert.
  Context `{Platform}.

Definition is_system_endianness (e : HT_Endianness) : bool :=
  match ht_system_info_get_endianness with
  | Some sys_endianness => bool_decide (sys_endianness = e)
  | None => false
  end.

Definition swap16 (x : Z) : Z := u16 (Z.lor (Z.shiftl x 8) (Z.shiftr x 8)).

Definition swap32 (x : Z) : Z :=
  let tmp := Z.lor (u32 (Z.shiftl x 16)) (Z.shiftr x 16) in
  Z.lor (Z.land (u32 (Z.shiftl tmp 8)) 0xff00ff00) (Z.land (Z.shiftr tmp 8) 0x00ff00ff).

Definition swap64 (x : Z) : Z :=
  let tmp1 := Z.lor (u64 (Z.shiftl x 32)) (Z.shiftr x 32) in
  let tmp2 := Z.lor (u64 (Z.shiftl (Z.land tmp1 0x0000FFFF0000FFFF) 16))
                    (Z.shiftr (Z.land tmp1 0xFFFF0000FFFF0000) 16) in
  Z.lor (u64 (Z.shiftl (Z.land tmp2 0x00FF00FF00FF00FF) 8)) (Z.shiftr (Z.land tmp2 0xFF00FF00FF00FF00) 8).

Definition convert_endianness_to_native8 (x : Z) (e : HT_Endianness) : Z := x.
Definition convert_endianness_to_native16 (x : Z) (e : HT_Endianness) : Z :=
  if is_system_endianness e then x else swap16 x.
Definition convert_endianness_to_native32 (x : Z) (e : HT_Endianness) : Z :=
  if is_system_endianness e then x else swap32 x.
Definition convert_endianness_to_native64 (x : Z) (e : HT_Endianness) : Z :=
  if is_system_endianness e then x else swap64 x.

(** The overloads, by the number of bytes. *)
Definition convert_endianness_to_native (n : nat) (x : Z) (e : HT_Endianness) : Z :=
  match n with
  | 2%nat => convert_endianness_to_native16 x e
  | 4%nat => convert_endianness_to_native32 x e
  | 8%nat => convert_endianness_to_native64 x e
  | _ => convert_endianness_to_native8 x e
  end.

(** ** Numbers and their bytes *)

Fixpoint le_value (bs : list Z) : Z :=
  match bs with
  | [] => 0
  | b :: bs => b + 256 * le_value bs
  end.

(** *((c_type* )buff). *)
Definition native_value (bs : list Z) : Z :=
  match endianness with
  | HT_ENDIANNESS_LITTLE => le_value bs
  | HT_ENDIANNESS_BIG => le_value (reverse bs)
  end.

Definition is_byte (b : Z) : Prop := 0 <= b < 256.

(** The bytes of a number on a machine of byte order [e]. *)
Definition bytes_on (e : HT_Endianness) (n : nat) (z : Z) : list Z :=
  match e with
  | HT_ENDIANNESS_LITTLE => le_bytes n z
  | HT_ENDIANNESS_BIG => reverse (le_bytes n z)
  end.

Lemma native_bytes_on n z : native_bytes n z = bytes_on endianness n z.
Proof. done. Qed.

Lemma le_value_bytes n z : le_value (le_bytes n z) = z mod 2 ^ (8 * Z.of_nat n).
Proof.
  revert z. induction n as [|n IH]; intros z; [by rewrite Z.mod_1_r|]. cbn [le_bytes le_value]. rewrite IH.
  replace (2 ^ (8 * Z.of_nat (S n))) with (256 * 2 ^ (8 * Z.of_nat n))
    by (change 256 with (2 ^ 8); rewrite <- Z.pow_add_r by lia; f_equal; lia).
  by rewrite Z.rem_mul_r by lia.
Qed.

Lemma le_bytes_are_bytes n z : Forall is_byte (le_bytes n z).
Proof. revert z. induction n as [|n IH]; intros z; constructor; [apply Z.mod_pos_bound; lia|apply IH]. Qed.

Lemma le_value_app bs b : le_value (bs ++ [b]) = le_value bs + 2 ^ (8 * Z.of_nat (length bs)) * b.
Proof.
  induction bs as [|x bs IH]; [simpl; lia|]. cbn [app le_value length]. rewrite IH.
  replace (2 ^ (8 * Z.of_nat (S (length bs)))) with (256 * 2 ^ (8 * Z.of_nat (length bs)))
    by (change 256 with (2 ^ 8); rewrite <- Z.pow_add_r by lia; f_equal; lia). lia.
Qed.

(** A bit of a number is a bit of one of its bytes. *)
Fixpoint bit_of (bs : list Z) (i : Z) : bool :=
  match bs with
  | [] => false
  | b :: bs => if i <? 8 then Z.testbit b i else bit_of bs (i - 8)
  end.

Lemma le_value_testbit bs i : Forall is_byte bs -> Z.testbit (le_value bs) i = bit_of bs i.
Proof.
  intros HF. destruct (decide (i < 0)) as [Hneg|Hi].
  { rewrite Z.testbit_neg_r by done. destruct bs as [|b bs]; [done|]. simpl.
    rewrite (proj2 (Z.ltb_lt i 8)) by lia. by rewrite Z.testbit_neg_r. }
  assert (0 <= i) by lia. clear Hi. revert i H0. induction HF as [|b bs Hb _ IH]; intros i Hi; [apply Z.testbit_0_l|].
  cbn [le_value bit_of]. unfold is_byte in Hb. destruct (Z.ltb_spec i 8).
  - rewrite <- (Z.mod_pow2_bits_low _ 8) by lia. change (2 ^ 8) with 256.
    by rewrite (Z.mul_comm 256), Z.mod_add, Z.mod_small by lia.
  - rewrite <- IH by lia. rewrite <- (Z.sub_add 8 i) at 1. rewrite <- Z.div_pow2_bits by lia. change (2 ^ 8) with 256.
    by rewrite (Z.mul_comm 256), Z.div_add, Z.div_small, Z.add_0_l by lia.
Qed.

(** Bits of the results of the operations the conversions use; with a
    concrete index everything but the bits of the bytes computes away. *)
Lemma testbit_u32 x i : Z.testbit (u32 x) i = (i <? 32) && Z.testbit x i.
Proof. apply Z.testbit_mod_pow2. lia. Qed.

Lemma testbit_u64 x i : Z.testbit (u64 x) i = (i <? 64) && Z.testbit x i.
Proof. apply Z.testbit_mod_pow2. lia. Qed.

Lemma testbit_u16 x i : Z.testbit (u16 x) i = (i <? 16) && Z.testbit x i.
Proof. apply Z.testbit_mod_pow2. lia. Qed.

Lemma testbit_shiftl x n i : Z.testbit (Z.shiftl x n) i = (0 <=? i) && Z.testbit x (i - n).
Proof.
  destruct (Z.leb_spec 0 i); [by apply Z.shiftl_spec|by apply Z.testbit_neg_r].
Qed.

Lemma testbit_shiftr x n i : Z.testbit (Z.shiftr x n) i = (0 <=? i) && Z.testbit x (i + n).
Proof.
  destruct (Z.leb_spec 0 i); [by apply Z.shiftr_spec|by apply Z.testbit_neg_r].
Qed.

(** Two numbers of n bytes with the same bits. *)
Lemma bits_below n x y :
  (forall i, (i < n)%nat -> Z.testbit x (Z.of_nat i) = Z.testbit y (Z.of_nat i)) ->
  (forall i, Z.of_nat n <= i -> Z.testbit x i = false) -> (forall i, Z.of_nat n <= i -> Z.testbit y i = false) -> x = y.
Proof.
  intros Hlow Hx Hy. apply Z.bits_inj'. intros i Hi. destruct (decide (i < Z.of_nat n)).
  - rewrite <- (Z2Nat.id i) by done. apply Hlow. lia.
  - by rewrite Hx, Hy by lia.
Qed.

Ltac push_bit HF HR :=
  repeat progress rewrite ?testbit_u16, ?testbit_u32, ?testbit_u64, ?testbit_shiftl, ?testbit_shiftr, ?Z.lor_spec, ?Z.land_spec;
  rewrite ?(le_value_testbit _ _ HF), ?(le_value_testbit _ _ HR).

Ltac solve_bit :=
  cbv -[Z.testbit];
  repeat match goal with
  | |- context [Z.testbit (Zpos ?p) ?k] =>
      let r := eval vm_compute in (Z.testbit (Zpos p) k) in change (Z.testbit (Zpos p) k) with r; cbn iota
  | |- context [Z.testbit ?b (Zneg ?k)] => rewrite (Z.testbit_neg_r b (Zneg k)) by done
  | |- context [Z.testbit ?b ?k] => is_var b; destruct (Z.testbit b k)
  end; reflexivity.

(** No bit is set above the bytes. *)
Lemma bit_of_high bs i : 8 * Z.of_nat (length bs) <= i -> bit_of bs i = false.
Proof.
  revert i. induction bs as [|b bs IH]; intros i Hi; simpl in *; [done|].
  rewrite (proj2 (Z.ltb_ge i 8)) by lia. apply IH. lia.
Qed.

Lemma le_value_high bs i : Forall is_byte bs -> 8 * Z.of_nat (length bs) <= i -> Z.testbit (le_value bs) i = false.
Proof. intros HF Hi. rewrite le_value_testbit by done. by apply bit_of_high. Qed.

Lemma mask_high m i : 0 < m -> Z.log2 m < i -> Z.testbit m i = false.
Proof. intros Hm Hi. apply Z.bits_above_log2; lia. Qed.

Lemma swap16_value b0 b1 : Forall is_byte [b0; b1] -> swap16 (le_value [b0; b1]) = le_value [b1; b0].
Proof.
  intros HF. assert (HR : Forall is_byte [b1; b0]) by (by rewrite (reverse_Permutation [b0; b1])).
  apply (bits_below 16).
  - intros i Hi. unfold swap16. push_bit HF HR. do 16 (destruct i as [|i]; [solve_bit|]). lia.
  - intros i Hi. unfold swap16. rewrite testbit_u16. by rewrite (proj2 (Z.ltb_ge i 16)).
  - intros i Hi. by apply le_value_high.
Qed.

Lemma swap32_value b0 b1 b2 b3 : Forall is_byte [b0; b1; b2; b3] ->
  swap32 (le_value [b0; b1; b2; b3]) = le_value [b3; b2; b1; b0].
Proof.
  intros HF. assert (HR : Forall is_byte [b3; b2; b1; b0]) by (by rewrite (reverse_Permutation [b0; b1; b2; b3])).
  apply (bits_below 32).
  - intros i Hi. unfold swap32. push_bit HF HR. do 32 (destruct i as [|i]; [solve_bit|]). lia.
  - intros i Hi. unfold swap32. rewrite Z.lor_spec, !Z.land_spec, testbit_u32, (proj2 (Z.ltb_ge i 32)) by done.
    by rewrite (mask_high 0x00ff00ff), andb_false_r by (simpl; lia).
  - intros i Hi. by apply le_value_high.
Qed.

Lemma swap64_value b0 b1 b2 b3 b4 b5 b6 b7 : Forall is_byte [b0; b1; b2; b3; b4; b5; b6; b7] ->
  swap64 (le_value [b0; b1; b2; b3; b4; b5; b6; b7]) = le_value [b7; b6; b5; b4; b3; b2; b1; b0].
Proof.
  intros HF. assert (HR : Forall is_byte [b7; b6; b5; b4; b3; b2; b1; b0])
    by (by rewrite (reverse_Permutation [b0; b1; b2; b3; b4; b5; b6; b7])).
  apply (bits_below 64).
  - intros i Hi. unfold swap64. push_bit HF HR. do 64 (destruct i as [|i]; [solve_bit|]). lia.
  - intros i Hi. unfold swap64. rewrite Z.lor_spec, testbit_u64, (proj2 (Z.ltb_ge i 64)), Z.shiftr_spec, Z.land_spec by lia.
    by rewrite (mask_high 0xFF00FF00FF00FF00), andb_false_r by (simpl; lia).
  - intros i Hi. by apply le_value_high.
Qed.

Lemma native_value_bytes e n z :
  native_value (bytes_on e n z) = le_value (if decide (e = endianness) then le_bytes n z else reverse (le_bytes n z)).
Proof. unfold native_value, bytes_on. destruct endianness, e; simpl; by rewrite ?reverse_involutive. Qed.

Lemma is_system_endianness_spec e : is_system_endianness e = bool_decide (endianness = e).
Proof. unfold is_system_endianness. by rewrite get_endianness_ok. Qed.

(** The conversion of a number written on a machine of byte order [e]. *)
Lemma convert_spec e n z : n ∈ [1; 2; 4; 8]%nat ->
  convert_endianness_to_native n (native_value (bytes_on e n z)) e = z mod 2 ^ (8 * Z.of_nat n).
Proof.
  intros Hn. pose proof (le_bytes_are_bytes n z) as HF. apply Forall_reverse in HF.
  rewrite native_value_bytes, <- le_value_bytes. unfold convert_endianness_to_native, convert_endianness_to_native16,
    convert_endianness_to_native32, convert_endianness_to_native64. rewrite !is_system_endianness_spec.
  destruct (decide (e = endianness)) as [->|Hne]; [rewrite bool_decide_eq_true_2 by done; by repeat case_match|].
  rewrite bool_decide_eq_false_2 by done. set_unfold in Hn. destruct_or! Hn; subst n.
  - done.
  - by apply swap16_value.
  - by apply swap32_value.
  - by apply swap64_value.
Qed.

End convert.

(** A number that a machine of byte order [e] has written in 1, 2, 4 or
    8 bytes is read back by a machine of either byte order: the conversion of
    the word found in the buffer gives the number that was written, modulo
    the width. *)
Theorem endianness_round_trip (P : Platform) e n z : n ∈ [1; 2; 4; 8]%nat ->
  convert_endianness_to_native n (native_value (bytes_on e n z)) e = z mod 2 ^ (8 * Z.of_nat n).
Proof. apply convert_spec. Qed.

Lemma endianness_round_trip_witness :
  @convert_endianness_to_native {| endianness := HT_ENDIANNESS_LITTLE |} 4
    (@native_value {| endianness := HT_ENDIANNESS_LITTLE |} (bytes_on HT_ENDIANNESS_BIG 4 0x01020304)) HT_ENDIANNESS_BIG =
    0x01020304 mod 2 ^ (8 * Z.of_nat 4) /\ bytes_on HT_ENDIANNESS_BIG 4 0x01020304 = [1; 2; 3; 4].
Proof.
  split; [|reflexivity]. apply (endianness_round_trip {| endianness := HT_ENDIANNESS_LITTLE |} HT_ENDIANNESS_BIG 4 0x01020304).
  set_solver.
Defined.
