(* ===== verification/Parser.v ===== *)
(** The data of the parser library: klasses and their fields
    (parser/event_klass.cpp), events (parser/event.cpp), the register of
    klasses (parser/klass_register.cpp) and streams (stream.hpp,
    file_stream.cpp).

    A std::string is the list of its bytes.  A shared_ptr to a klass is the
    identifier under which the register holds the klass: the register never
    replaces or removes one.  Fields never change once they are made, so a
    pointer to a field is the field.  Allocations of the C++ runtime
    succeed. *)
From S2P Require Import Prelude Alloc BaseTypes Memory Events Listeners Registry Endian.

Abbreviation bytes := (list Z).

(** ** Hash tables of the standard library

    std::unordered_map visits its elements in an order that is not
    specified: each element once. *)
Class UnorderedMap := {
  elements_of : forall {K} `{Countable K} {A}, gmap K A -> list (K * A);
  elements_of_perm : forall {K} `{Countable K} {A} (m : gmap K A), elements_of m ≡ₚ map_to_list m
}.

(** One such order. *)
Definition map_order : UnorderedMap :=
  {| elements_of K _ _ A m := map_to_list m; elements_of_perm K _ _ A m := reflexivity (map_to_list m) |}.

(** ** Klasses and fields (event_klass.hpp, event_klass.cpp) *)

Inductive FieldTypeId :=
| UINT8 | INT8 | UINT16 | INT16 | UINT32 | INT32 | UINT64 | INT64
| POINTER | STRING | STRUCT.

#[export] Instance FieldTypeId_eq_dec : EqDecision FieldTypeId.
Proof. solve_decision. Defined.

Definition to_underlying (t : FieldTypeId) : Z :=
  match t with
  | UINT8 => 0 | INT8 => 1 | UINT16 => 2 | INT16 => 3 | UINT32 => 4 | INT32 => 5 | UINT64 => 6 | INT64 => 7
  | POINTER => 8 | STRING => 9 | STRUCT => 10
  end.

Record EventKlassField := MkField {
  get_name : bytes;
  get_type_name : bytes;
  get_field_type_id : FieldTypeId;
  get_field_klass : option Z
}.

#[export] Instance EventKlassField_eq_dec : EqDecision EventKlassField.
Proof. solve_decision. Defined.

Definition is_numeric (f : EventKlassField) : bool := to_underlying (get_field_type_id f) <=? to_underlying INT64.

(** [None] is a failed assertion. *)
Definition get_sizeof (f : EventKlassField) : option nat :=
  match get_field_type_id f with
  | INT8 | UINT8 => Some 1%nat
  | INT16 | UINT16 => Some 2%nat
  | INT32 | UINT32 => Some 4%nat
  | INT64 | UINT64 => Some 8%nat
  | POINTER => Some 8%nat
  | STRING | STRUCT => None
  end.

Record parser_EventKlass := MkKlass {
  get_klass_name : bytes;
  get_id : Z;
  get_fields : list EventKlassField
}.

Abbreviation klass_map := (gmap Z parser_EventKlass).

(** The search of a field by its name, in the structures of the fields too if
    [recursive].  [fuel] bounds the depth of the structures; a structure of
    unknown klass is a null pointer. *)
Fixpoint _get_field (fuel : nat) (register : klass_map) (name : bytes) (recursive : bool) (k : parser_EventKlass)
    : outcome (option EventKlassField) :=
  match fuel with
  | O => NoFuel
  | S fuel =>
      (fix go fields :=
         match fields with
         | [] => Done None
         | f :: fields =>
             if bool_decide (get_name f = name) then Done (Some f)
             else if bool_decide (get_field_type_id f = STRUCT) && recursive then
               match get_field_klass f ≫= (register !!.) with
               | Some base =>
                   match _get_field fuel register name recursive base with
                   | Done (Some r) => Done (Some r)
                   | Done None => go fields
                   | o => o
                   end
               | None => Undef
               end
             else go fields
         end) (get_fields k)
  end.

(** _get_field(name, false). *)
Definition has_field (name : bytes) (k : parser_EventKlass) : bool :=
  existsb (fun f => bool_decide (get_name f = name)) (get_fields k).

Definition add_field (f : EventKlassField) (k : parser_EventKlass) : parser_EventKlass :=
  if has_field (get_name f) k then k
  else MkKlass (get_klass_name k) (get_id k) (get_fields k ++ [f]).

(** The switches of get_type_id; [None] is an exception or assert(0). *)
Definition get_type_id (type_size : Z) (data_type : Z) : option FieldTypeId :=
  if decide (data_type = types_value MKCREFLECT_TYPES_POINTER) then Some POINTER
  else if decide (data_type = types_value MKCREFLECT_TYPES_STRING) then Some STRING
  else if decide (data_type = HT_MKCREFLECT_TYPES_EXT_UNSIGNED_INTEGER) then
    if decide (type_size = 1) then Some UINT8
    else if decide (type_size = 2) then Some UINT16
    else if decide (type_size = 4) then Some UINT32
    else if decide (type_size = 8) then Some UINT64
    else None
  else if decide (data_type = types_value MKCREFLECT_TYPES_INTEGER) then
    if decide (type_size = 1) then Some INT8
    else if decide (type_size = 2) then Some INT16
    else if decide (type_size = 4) then Some INT32
    else if decide (type_size = 8) then Some INT64
    else None
  else if decide (data_type = types_value MKCREFLECT_TYPES_STRUCT) then Some STRUCT
  else None.

(** ** Events (event.hpp, event.cpp) *)

(** The union FieldType: a number of n bytes by its bits, a string, a nested
    event, or the initial value of the union.  A Value is the union with its
    field; an Event is its klass, its values by name and its timestamp. *)
Inductive FieldType : Set :=
| FZero
| FNum (n : nat) (z : Z)
| FString (s : bytes)
| FEvent (e : parser_Event)
with parser_Event : Set :=
| MkEvent (klass : option Z) (values : gmap bytes (FieldType * EventKlassField)) (timestamp : Z).

Abbreviation Value := (FieldType * EventKlassField)%type.

Definition get_klass_of (e : parser_Event) : option Z := let 'MkEvent k _ _ := e in k.
Definition get_values (e : parser_Event) : gmap bytes Value := let 'MkEvent _ v _ := e in v.
Definition get_event_timestamp (e : parser_Event) : Z := let 'MkEvent _ _ t := e in t.

(** Event(klass). *)
Definition new_event (klass : option Z) : parser_Event := MkEvent klass ∅ (u64 (-1)).

(** What is left of an event after it was moved from. *)
Definition moved_from (e : parser_Event) : parser_Event := MkEvent None ∅ (get_event_timestamp e).

Section event.
  Context `{Platform}.

(** The first n bytes of the union, as an n-byte number: the bytes beyond
    those of the member that was stored have no known value. *)
Definition read_num (n : nat) (v : FieldType) : option Z :=
  match v with
  | FNum m z => if decide (n <= m)%nat then Some (native_value (take n (native_bytes m z))) else None
  | _ => None
  end.

(** get_value<T> for an integer type of n bytes, and for char*; [None] is the
    exception of at(), or a value that is not of that type. *)
Definition get_value (n : nat) (key : bytes) (e : parser_Event) : option Z :=
  v ← get_values e !! key; read_num n v.1.

Definition get_value_str (key : bytes) (e : parser_Event) : option bytes :=
  v ← get_values e !! key; match v.1 with FString s => Some s | _ => None end.

Definition has_value (key : bytes) (e : parser_Event) : bool := bool_decide (is_Some (get_values e !! key)).

Definition get_value_or_default (n : nat) (key : bytes) (default : Z) (e : parser_Event) : option Z :=
  if has_value key e then get_value n key e else Some default.

(** std::unordered_map::insert: an element that is there stays. *)
Definition insert_new {A} (key : bytes) (a : A) (m : gmap bytes A) : gmap bytes A :=
  match m !! key with Some _ => m | None => <[key := a]> m end.

Definition set_value (field : EventKlassField) (value : FieldType) (e : parser_Event) : option parser_Event :=
  let 'MkEvent k vs t := e in
  let e := MkEvent k (insert_new (get_name field) (value, field) vs) t in
  if decide (get_name field = string_bytes "timestamp") then
    t ← get_value 8 (string_bytes "timestamp") e; Some (MkEvent k (get_values e) t)
  else Some e.

(** The values of [other] in the order of its hash table. *)
Definition merge `{UnorderedMap} (other e : parser_Event) : option parser_Event :=
  foldl (fun acc kv => e ← acc; set_value kv.2.2 kv.2.1 e) (Some e) (elements_of (get_values other)).

End event.

(** ** The register of klasses (klass_register.cpp) *)

Definition EndiannessInfoEventKlass : Z := 0.
Definition EventKlass_id : Z := 1.
Definition EventKlassInfoEventKlass : Z := 2.
Definition EventKlassFieldInfoEventKlass : Z := 3.

Definition _add_klass (k : parser_EventKlass) (register : klass_map) : klass_map :=
  match register !! get_id k with
  | None => <[get_id k := k]> register
  | Some _ => register
  end.

Definition core_field (name type_name : string) (t : FieldTypeId) : EventKlassField :=
  MkField (string_bytes name) (string_bytes type_name) t None.

Definition make_klass (name : string) (id : Z) (fields : list EventKlassField) : parser_EventKlass :=
  foldl (fun k f => add_field f k) (MkKlass (string_bytes name) id []) fields.

(** KlassRegister(). *)
Definition KlassRegister : klass_map :=
  let register := _add_klass (make_klass "HT_Event" EventKlass_id
    [core_field "klass_id" "uint32_t" UINT32; core_field "timestamp" "uint64_t" UINT64;
     core_field "id" "uint64_t" UINT64]) ∅ in
  let register := _add_klass (make_klass "HT_EndiannessInfoEvent" EndiannessInfoEventKlass
    [core_field "endianness" "uint8_t" UINT8]) register in
  let register := _add_klass (make_klass "HT_EventKlassInfoEvent" EventKlassInfoEventKlass
    [core_field "info_klass_id" "uint32_t" UINT32; core_field "event_klass_name" "const char*" STRING;
     core_field "field_count" "uint8_t" UINT8]) register in
  _add_klass (make_klass "HT_EventKlassFieldInfoEvent" EventKlassFieldInfoEventKlass
    [core_field "info_klass_id" "uint32_t" UINT32; core_field "field_type" "const char*" STRING;
     core_field "field_name" "const char*" STRING; core_field "size" "uint64_t" UINT64;
     core_field "data_type" "uint8_t" UINT8]) register.

Definition is_well_known_klass (klass_id : Z) : bool :=
  bool_decide (klass_id = EventKlass_id) || bool_decide (klass_id = EventKlassInfoEventKlass) ||
  bool_decide (klass_id = EventKlassFieldInfoEventKlass).

Definition get_klass (klass_id : Z) (register : klass_map) : option Z :=
  match register !! klass_id with Some _ => Some klass_id | None => None end.

(** _register.at(klass_id)->add_field(field); [None] is an exception. *)
Definition _add_klass_field (klass_id : Z) (f : EventKlassField) (register : klass_map) : option klass_map :=
  k ← register !! klass_id; Some (<[klass_id := add_field f k]> register).

Definition klass_exists (klass_id : Z) (register : klass_map) : bool := bool_decide (is_Some (register !! klass_id)).

Section klass_register.
  Context `{UnorderedMap} `{Platform}.

(** The first klass of that name in the order of the hash table. *)
Definition get_klass_id (name : bytes) (register : klass_map) : Z :=
  match list_find (fun kv : Z * parser_EventKlass => get_klass_name kv.2 = name) (elements_of register) with
  | Some (_, (_, k)) => get_id k
  | None => HT_INVALID_KLASS_ID
  end.

Definition get_klass_by_name (name : bytes) (register : klass_map) : option Z :=
  get_klass (get_klass_id name register) register.

Definition handle_register_events (event : parser_Event) (register : klass_map) : option klass_map :=
  id ← get_klass_of event;
  if decide (id = EventKlassInfoEventKlass) then
    klass_id ← get_value 4 (string_bytes "info_klass_id") event;
    name ← get_value_str (string_bytes "event_klass_name") event;
    Some (_add_klass (MkKlass name klass_id []) register)
  else if decide (id = EventKlassFieldInfoEventKlass) then
    klass_id ← get_value 4 (string_bytes "info_klass_id") event;
    if is_well_known_klass klass_id then Some register
    else
      type ← get_value 1 (string_bytes "data_type") event;
      field_type ← get_value_str (string_bytes "field_type") event;
      let type_klass := if decide (type = types_value MKCREFLECT_TYPES_STRUCT)
                        then get_klass_by_name field_type register else None in
      field_name ← get_value_str (string_bytes "field_name") event;
      size ← get_value 8 (string_bytes "size") event;
      type_id ← get_type_id size type;
      _add_klass_field klass_id (MkField field_name field_type type_id type_klass) register
  else Some register.

End klass_register.

(** ** Streams (stream.hpp, file_stream.cpp) *)

(** The interface Stream: read_byte returns a negative number at the end,
    read_data the bytes, or [None] for false. *)
Class Stream (S : Type) := {
  read_byte : S -> Z * S;
  read_data : nat -> S -> option bytes * S
}.

(** The bytes that read_byte hands on unchanged; the end of a string is one
    of them. *)
Class Alphabet := { text_byte : Z -> Prop; text_nul : text_byte 0 }.

(** A byte of a string. *)
Definition text `{Alphabet} (b : Z) : Prop := 0 < b /\ text_byte b.

(** What a reader relies on: [stream_at s l], the bytes [l] are still to
    come and no end was seen. *)
Class StreamLaws (S : Type) `{Stream S} `{Alphabet} := {
  stream_at : S -> bytes -> Prop;
  read_byte_more : forall s b l, stream_at s (b :: l) -> text_byte b -> exists s', read_byte s = (b, s') /\ stream_at s' l;
  read_byte_end : forall s, stream_at s [] -> (read_byte s).1 < 0;
  read_data_more : forall s l l', stream_at s (l ++ l') -> l <> [] ->
    exists s', read_data (length l) s = (Some l, s') /\ stream_at s' l';
  read_data_end : forall s l n, stream_at s l -> (length l < n)%nat -> (read_data n s).1 = None
}.

(** A FILE that is open for reading: the bytes after the position, and the
    end-of-file indicator. *)
Record FileStream := MkFileStream { fs_rest : bytes; fs_eof : bool }.

Definition fgetc (f : FileStream) : Z * FileStream :=
  match fs_rest f with
  | b :: l => if fs_eof f then (-1, f) else (b, MkFileStream l false)
  | [] => (-1, MkFileStream [] true)
  end.

Definition fread (size : nat) (f : FileStream) : bytes * FileStream :=
  if fs_eof f then ([], f)
  else (take size (fs_rest f), MkFileStream (drop size (fs_rest f)) (bool_decide (length (fs_rest f) < size)%nat)).

#[export] Instance file_stream : Stream FileStream := {
  read_byte := fgetc;
  read_data size f := let '(buff, f) := fread size f in (if fs_eof f then None else Some buff, f)
}.

(** fgetc hands on every byte. *)
#[refine] Definition all_bytes : Alphabet := {| text_byte _ := True |}.
Proof. exact I. Defined.

#[export, refine] Instance file_stream_laws : @StreamLaws FileStream file_stream all_bytes := {
  stream_at f l := fs_rest f = l /\ fs_eof f = false
}.
Proof.
  - intros [r e] b l [E1 E2] _. simpl in *. subst. eexists. split; [done|]. done.
  - intros [r e] [E1 E2]. simpl in *. subst. done.
  - intros [r e] l l' [E1 E2] _. simpl in *. subst. unfold fread. simpl.
    rewrite bool_decide_eq_false_2 by (rewrite length_app; lia). rewrite take_app_length, drop_app_length.
    eexists. split; [done|]. done.
  - intros [r e] l n [E1 E2] Hl. simpl in *. subst. unfold fread. simpl. by rewrite bool_decide_eq_true_2.
Defined.

(** FileStream(file_name); start() for a file with the bytes [l]. *)
Definition open_stream (l : bytes) : FileStream := MkFileStream l false.
