(* ===== verification/TcpClient.v ===== *)
(** * The TCP client stream

    client_utils/tcp_client_stream.cpp: the bytes of a trace that arrive over
    a socket.  A thread of the stream receives chunks and queues them, the
    thread of the protocol reader takes them out; they share the queue, a
    mutex and a condition variable.

    - The operations on the queue ([_pop_if_used], [take_byte], [take_data])
      and the calls that read a queue to its end ([tcp_read_byte],
      [tcp_read_data]), which are another [Stream] of the parser;
    - the two threads, and a third one that calls stop(), as a step function
      whose steps are the accesses to the shared state ([exec]); everything
      that can be reached is [reachable];
    - what the calls return does not depend on the interleaving
      ([calls_refine_queue]), bytes that are there are handed out
      ([bytes_are_delivered]), and the end of the connection can be missed
      ([end_can_be_missed]). *)

From stdpp Require Import relations.
From S2P Require Import Prelude Alloc BaseTypes Parser.

#[local] Open Scope nat_scope.

(** ** The queue of chunks *)

(** [_datas]: every chunk with the number of bytes that were read. *)
Abbreviation chunk := (nat * bytes)%type.
Abbreviation chunks := (list chunk).

(** Whether char is signed on the client's machine. *)
Class CharType := { char_is_signed : bool }.

(** [int b = c] for a char [c] with the bits of the byte [b]. *)
Definition char_int `{CharType} (b : Z) : Z := (if char_is_signed && (128 <=? b) then b - 256 else b)%Z.

Definition _pop_if_used (datas : chunks) : chunks :=
  match datas with
  | (first, buffer) :: datas' => if decide (length buffer = first) then datas' else datas
  | [] => []
  end.

(** The rest of read_byte, after a successful wait; [None]: outside the
    queue or the vector. *)
Definition take_byte (datas : chunks) : option (Z * chunks) :=
  match datas with
  | (first, buffer) :: datas' =>
    b ← buffer !! first;
    Some (b, _pop_if_used ((S first, buffer) :: datas'))
  | [] => None
  end.

(** The rest of an iteration of read_data, after a successful wait: the bytes
    that are copied. *)
Definition take_data (size : nat) (datas : chunks) : option (bytes * chunks) :=
  match datas with
  | (first, buffer) :: datas' =>
    if decide (first < length buffer) then
      let bytes_count := min size (length buffer - first) in
      Some (take bytes_count (drop first buffer), _pop_if_used ((first + bytes_count, buffer) :: datas'))
    else None
  | [] => None
  end.

(** The bytes that are still to be read. *)
Definition unread (datas : chunks) : bytes := concat ((fun c => drop c.1 c.2) <$> datas).

Definition queue_ok (datas : chunks) : Prop := Forall (fun c => c.1 < length c.2) datas.

Lemma unread_cons c datas : unread (c :: datas) = drop c.1 c.2 ++ unread datas.
Proof. done. Qed.

Lemma unread_app l l' : unread (l ++ l') = unread l ++ unread l'.
Proof. unfold unread. by rewrite fmap_app, concat_app. Qed.

Lemma unread_pos datas : queue_ok datas -> datas <> [] -> 0 < length (unread datas).
Proof.
  intros Hq Hn. destruct datas as [|c datas]; [done|]. apply Forall_cons in Hq as [Hc _].
  rewrite unread_cons, length_app, length_drop. lia.
Qed.

Lemma unread_nil datas : queue_ok datas -> unread datas = [] -> datas = [].
Proof.
  intros Hq Hn. destruct datas as [|c datas]; [done|]. assert (c :: datas <> []) as Hc by done.
  pose proof (unread_pos _ Hq Hc). rewrite Hn in H. simpl in H. lia.
Qed.

Lemma pop_ok first buffer datas :
  first <= length buffer -> queue_ok datas ->
  queue_ok (_pop_if_used ((first, buffer) :: datas)) /\
  unread (_pop_if_used ((first, buffer) :: datas)) = drop first buffer ++ unread datas.
Proof.
  intros Hf Hq. simpl. destruct (decide (length buffer = first)) as [<-|Hn].
  - by rewrite drop_all.
  - split; [|done]. apply Forall_cons. split; [simpl; lia|done].
Qed.

Lemma take_byte_spec datas :
  queue_ok datas -> datas <> [] ->
  exists b datas', take_byte datas = Some (b, datas') /\ queue_ok datas' /\ unread datas = b :: unread datas'.
Proof.
  intros Hq Hn. destruct datas as [|[first buffer] datas]; [done|]. apply Forall_cons in Hq as [Hc Hq]. simpl in Hc.
  destruct (lookup_lt_is_Some_2 _ _ Hc) as [b Hb]. destruct (pop_ok (S first) buffer datas) as [Ho Hu]; [lia|done|].
  cbn [take_byte]. rewrite Hb. eexists _, _. split; [done|]. split; [done|].
  rewrite Hu, unread_cons. cbn [fst snd]. by rewrite (drop_S _ _ _ Hb).
Qed.

(** An iteration copies something, up to what was asked for. *)
Lemma take_data_spec size datas :
  queue_ok datas -> datas <> [] ->
  exists l datas', take_data size datas = Some (l, datas') /\ queue_ok datas' /\ unread datas = l ++ unread datas' /\
    length l <= size /\ (0 < size -> 0 < length l).
Proof.
  intros Hq Hn. destruct datas as [|[first buffer] datas]; [done|]. apply Forall_cons in Hq as [Hc Hq]. simpl in Hc.
  cbn [take_data]. destruct (decide _); [|lia]. set (n := min size (length buffer - first)).
  destruct (pop_ok (first + n) buffer datas) as [Ho Hu]; [lia|done|].
  eexists _, _. split; [done|]. split; [done|]. rewrite Hu, unread_cons, length_take, length_drop. cbn [fst snd].
  rewrite app_assoc, <- drop_drop, take_drop. split; [done|]. lia.
Qed.

(** ** The calls on a connection that is closed *)

(** Nothing is added to the queue any more, so that the wait returns at once:
    true when there is a chunk. *)
Definition tcp_read_byte `{CharType} (datas : chunks) : Z * chunks :=
  match take_byte datas with
  | Some (b, datas') => (char_int b, datas')
  | None => ((-1)%Z, datas)
  end.

(** do ... while (size != 0), with [acc] in the caller's buffer. *)
Fixpoint read_data_loop (fuel size : nat) (acc : bytes) (datas : chunks) : option bytes * chunks :=
  match fuel with
  | 0 => (None, datas)
  | S fuel =>
    match take_data size datas with
    | None => (None, datas)
    | Some (l, datas') =>
      let size := size - length l in
      if decide (size <> 0) then read_data_loop fuel size (acc ++ l) datas' else (Some (acc ++ l), datas')
    end
  end.

(** An iteration that is not the last one copies a byte at least. *)
Definition tcp_read_data (size : nat) (datas : chunks) : option bytes * chunks := read_data_loop (S size) size [] datas.

Lemma read_data_loop_spec fuel size acc datas :
  queue_ok datas -> size < fuel ->
  exists datas', queue_ok datas' /\
    ((unread datas <> [] /\ size <= length (unread datas) /\
      read_data_loop fuel size acc datas = (Some (acc ++ take size (unread datas)), datas') /\ unread datas' = drop size (unread datas)) \/
     ((unread datas = [] \/ length (unread datas) < size) /\ read_data_loop fuel size acc datas = (None, datas') /\ datas' = [])).
Proof.
  revert size acc datas. induction fuel as [|fuel IH]; intros size acc datas Hq Hf; [lia|].
  destruct (decide (datas = [])) as [->|Hn].
  { exists []. split; [done|]. right. split; [by left|]. done. }
  destruct (take_data_spec size datas Hq Hn) as (l&datas'&E&Hq'&Hu&Hl&Hp). cbn [read_data_loop]. rewrite E.
  pose proof (unread_pos _ Hq Hn) as Hpos. destruct (decide _) as [Hs|Hs].
  - destruct (IH (size - length l) (acc ++ l) datas' Hq') as (d&Hd&Hc); [lia|]. exists d. split; [done|].
    destruct Hc as [(H1&H2&H3&H4)|(H1&H2&H3)].
    + left. rewrite H3, H4, Hu, length_app. split_and!; [|lia| |].
      * intros Hz. by apply app_nil in Hz as [_ Hz].
      * rewrite take_app_ge by lia. by rewrite app_assoc.
      * by rewrite drop_app_ge by lia.
    + right. split_and!; [right|done..]. rewrite Hu, length_app. destruct H1 as [->|H1]; simpl; lia.
  - assert (length l = size) as <- by lia. exists datas'. split; [done|]. left. rewrite Hu, length_app, take_app_length, drop_app_length.
    split_and!; [|lia|done|done]. intros Hz. rewrite <- Hu in Hz. rewrite Hz in Hpos. simpl in Hpos. lia.
Qed.

Lemma tcp_read_data_spec size datas :
  queue_ok datas ->
  exists datas', queue_ok datas' /\
    ((unread datas <> [] /\ size <= length (unread datas) /\ tcp_read_data size datas = (Some (take size (unread datas)), datas') /\
      unread datas' = drop size (unread datas)) \/
     ((unread datas = [] \/ length (unread datas) < size) /\ tcp_read_data size datas = (None, datas') /\ datas' = [])).
Proof. intros Hq. apply (read_data_loop_spec (S size) size [] datas Hq). lia. Qed.

(** Another stream for the parser: strings are read with read_byte, which
    keeps a byte only where the conversion from char does. *)
#[export] Instance tcp_stream `{CharType} : Stream chunks := {
  Parser.read_byte := tcp_read_byte;
  Parser.read_data := tcp_read_data
}.

#[export] Instance char_bytes `{CharType} : Alphabet.
Proof. refine {| text_byte b := char_int b = b |}. unfold char_int. by rewrite andb_false_r. Defined.

#[export, refine] Instance tcp_stream_laws `{CharType} : @StreamLaws chunks tcp_stream char_bytes := {
  stream_at datas l := queue_ok datas /\ unread datas = l
}.
Proof.
  - intros datas b l [Hq Hu] Hb. destruct (take_byte_spec datas Hq) as (b'&d&E&Hd&Hu'); [by intros ->|].
    cbn [Parser.read_byte tcp_stream]. unfold tcp_read_byte. rewrite E. rewrite Hu in Hu'. injection Hu' as <- ->.
    cbn in Hb. rewrite Hb. by exists d.
  - intros datas [Hq Hu]. by rewrite (unread_nil _ Hq Hu).
  - intros datas l l' [Hq Hu] Hl. cbn [Parser.read_data tcp_stream].
    destruct (tcp_read_data_spec (length l) datas Hq) as (d&Hd&[(_&_&->&Hr)|([E|E]&_)]); rewrite Hu in *.
    + exists d. by rewrite take_app_length, Hr, drop_app_length.
    + by apply app_nil in E as [-> _].
    + rewrite length_app in E. lia.
  - intros datas l n [Hq Hu] Hl. cbn [Parser.read_data tcp_stream].
    destruct (tcp_read_data_spec n datas Hq) as (d&Hd&[(_&E&_)|(_&->&_)]); [|done]. rewrite Hu in E. lia.
Defined.

(** The stream of a connection that need not end: what arrives on it, and
    whether a call found nothing left, in which case it returns only if it
    learns that the connection has ended. *)
Record arriving := Arriving { to_come : chunks; starved : bool }.

Definition arriving_read_byte `{CharType} (a : arriving) : Z * arriving :=
  let '(b, datas) := tcp_read_byte (to_come a) in (b, Arriving datas (starved a || bool_decide (to_come a = []))).

Definition arriving_read_data (size : nat) (a : arriving) : option bytes * arriving :=
  let '(o, datas) := tcp_read_data size (to_come a) in (o, Arriving datas (starved a || negb (bool_decide (is_Some o)))).

#[export] Instance arriving_stream `{CharType} : Stream arriving := {
  Parser.read_byte := arriving_read_byte;
  Parser.read_data := arriving_read_data
}.

#[export, refine] Instance arriving_stream_laws `{CharType} : @StreamLaws arriving arriving_stream char_bytes := {
  stream_at a l := stream_at (to_come a) l
}.
Proof.
  - intros [datas st] b l Ha Hb. destruct (read_byte_more datas b l Ha Hb) as (d&E&Hd). cbn in E. eexists. cbn. unfold arriving_read_byte. cbn. by rewrite E.
  - intros [datas st] Ha. pose proof (read_byte_end datas Ha) as E. cbn in *. unfold arriving_read_byte. cbn. by destruct (tcp_read_byte datas).
  - intros [datas st] l l' Ha Hl. destruct (read_data_more datas l l' Ha Hl) as (d&E&Hd). cbn in E. eexists. cbn. unfold arriving_read_data. cbn. by rewrite E.
  - intros [datas st] l n Ha Hl. pose proof (read_data_end datas l n Ha Hl) as E. change ((tcp_read_data n datas).1 = None) in E.
    cbn [Parser.read_data arriving_stream]. unfold arriving_read_data. cbn [to_come]. by destruct (tcp_read_data n datas).
Defined.

(** A call for more than there is finds nothing left. *)
Lemma arriving_starves `{CharType} a l n : stream_at a l -> (length l < n)%nat -> starved (Parser.read_data n a).2 = true.
Proof.
  intros Ha Hl. pose proof (read_data_end (to_come a) l n Ha Hl) as E. change ((tcp_read_data n (to_come a)).1 = None) in E.
  cbn [Parser.read_data arriving_stream]. unfold arriving_read_data. destruct (tcp_read_data n (to_come a)) as [o d]. cbn in *. subst o. apply orb_true_r.
Qed.

(** Where char is signed, a byte of a character outside ASCII comes out as a
    negative number, and the one of all ones as the end of the stream. *)
Lemma negative_bytes b datas :
  (128 <= b < 256)%Z -> (@tcp_read_byte {| char_is_signed := true |} ((0, [b]) :: datas)).1 = (b - 256)%Z.
Proof. intros Hb. unfold tcp_read_byte, char_int. simpl. by destruct (Z.leb_spec 128 b); [|lia]. Qed.

(** ** The threads *)

(** The calls of the reader's thread. *)
Inductive call := ByteCall | DataCall (size : nat).

(** What they return: the byte or -1, the bytes or false. *)
Inductive ret := ByteRet (b : Z) | DataRet (l : option bytes).

(** Where the reader is in a call, with what is still to be read and the
    bytes that were copied: before it has the mutex, evaluating the predicate
    of the condition variable, about to wait, waiting; [RUndefined] after an
    access outside the queue. *)
Inductive reader_pc :=
| RIdle
| RLock (c : call) (todo : nat) (acc : bytes)
| RCheck (c : call) (todo : nat) (acc : bytes)
| RBlock (c : call) (todo : nat) (acc : bytes)
| RWait (c : call) (todo : nat) (acc : bytes)
| RUndefined.

(** Where [_run] is. *)
Inductive receiver_pc :=
| TTest
| TRecv
| TLock (chunk : bytes)
| TPush (chunk : bytes)
| TNotify
| TClose
| TEnd
| TDone.

(** A thread that calls stop(). *)
Inductive stopper_pc := SIdle | SClose | SJoin | SDone.

Inductive owner := ByReader | ByReceiver.

#[export] Instance owner_eq_dec : EqDecision owner.
Proof. solve_decision. Defined.

(** The shared state, the threads, the calls that returned, and all the bytes
    that recv() gave. *)
Record tcp := Tcp {
  _datas : chunks;
  _datas_mtx : option owner;
  _sock_fd : Z;
  reader : reader_pc;
  receiver : receiver_pc;
  stopper : stopper_pc;
  history : list (call * ret);
  arrived : bytes
}.

Definition is_connected (s : tcp) : bool := bool_decide (_sock_fd s <> (-1)%Z).

Definition BUFSIZE : nat := 1024.

Definition set_reader (pc : reader_pc) (s : tcp) : tcp :=
  Tcp (_datas s) (_datas_mtx s) (_sock_fd s) pc (receiver s) (stopper s) (history s) (arrived s).
Definition set_receiver (pc : receiver_pc) (s : tcp) : tcp :=
  Tcp (_datas s) (_datas_mtx s) (_sock_fd s) (reader s) pc (stopper s) (history s) (arrived s).
Definition set_stopper (pc : stopper_pc) (s : tcp) : tcp :=
  Tcp (_datas s) (_datas_mtx s) (_sock_fd s) (reader s) (receiver s) pc (history s) (arrived s).
Definition set_datas (datas : chunks) (s : tcp) : tcp :=
  Tcp datas (_datas_mtx s) (_sock_fd s) (reader s) (receiver s) (stopper s) (history s) (arrived s).
Definition set_mtx (o : option owner) (s : tcp) : tcp :=
  Tcp (_datas s) o (_sock_fd s) (reader s) (receiver s) (stopper s) (history s) (arrived s).
Definition set_sock_fd (fd : Z) (s : tcp) : tcp :=
  Tcp (_datas s) (_datas_mtx s) fd (reader s) (receiver s) (stopper s) (history s) (arrived s).
Definition returned (c : call) (r : ret) (s : tcp) : tcp :=
  Tcp (_datas s) (_datas_mtx s) (_sock_fd s) RIdle (receiver s) (stopper s) (history s ++ [(c, r)]) (arrived s).
Definition add_arrived (l : bytes) (s : tcp) : tcp :=
  Tcp (_datas s) (_datas_mtx s) (_sock_fd s) (reader s) (receiver s) (stopper s) (history s) (arrived s ++ l).

Definition call_size (c : call) : nat := match c with ByteCall => 1 | DataCall size => size end.

(** What a call returns when the wait gave up. *)
Definition failed (c : call) : ret := match c with ByteCall => ByteRet (-1)%Z | DataCall _ => DataRet None end.

(** The predicate of the condition variable. *)
Definition wait_over (s : tcp) : bool := negb (bool_decide (_datas s = [])) || negb (is_connected s).

Section threads.
  Context `{CharType}.

(** The critical section after the wait: it takes bytes out, unlocks, and
    returns or goes on with read_data's loop. *)
Definition reader_take (c : call) (todo : nat) (acc : bytes) (s : tcp) : tcp :=
  match c with
  | ByteCall =>
    match take_byte (_datas s) with
    | Some (b, datas) => returned c (ByteRet (char_int b)) (set_mtx None (set_datas datas s))
    | None => set_reader RUndefined s
    end
  | DataCall _ =>
    match take_data todo (_datas s) with
    | Some (l, datas) =>
      let s := set_mtx None (set_datas datas s) in
      let todo := todo - length l in
      if decide (todo <> 0) then set_reader (RLock c todo (acc ++ l)) s else returned c (DataRet (Some (acc ++ l))) s
    | None => set_reader RUndefined s
    end
  end.

(** A step of a call; [None]: the thread has to wait. *)
Definition reader_step (s : tcp) : option tcp :=
  match reader s with
  | RIdle | RWait _ _ _ | RUndefined => None
  | RLock c todo acc =>
    if decide (_datas_mtx s = None) then Some (set_reader (RCheck c todo acc) (set_mtx (Some ByReader) s)) else None
  | RCheck c todo acc =>
    Some (if wait_over s then
            if decide (_datas s = []) then returned c (failed c) (set_mtx None s) else reader_take c todo acc s
          else set_reader (RBlock c todo acc) s)
  | RBlock c todo acc => Some (set_reader (RWait c todo acc) (set_mtx None s))
  end.

(** notify_one(): a thread that waits goes for the mutex again. *)
Definition notify_one (s : tcp) : tcp :=
  match reader s with RWait c todo acc => set_reader (RLock c todo acc) s | _ => s end.

(** A step of [_run], other than the return of recv(). *)
Definition receiver_step (s : tcp) : option tcp :=
  match receiver s with
  | TTest => Some (set_receiver (if is_connected s then TRecv else TEnd) s)
  | TRecv | TDone => None
  | TLock chunk =>
    if decide (_datas_mtx s = None) then Some (set_receiver (TPush chunk) (set_mtx (Some ByReceiver) s)) else None
  | TPush chunk => Some (set_receiver TNotify (set_mtx None (set_datas (_datas s ++ [(0, chunk)]) s)))
  | TNotify => Some (set_receiver TTest (notify_one s))
  | TClose => Some (set_receiver TTest (set_sock_fd (-1)%Z s))
  | TEnd => Some (set_receiver TDone (notify_one s))
  end.

(** recv() returns: [None] for 0 or -1. *)
Definition recv_returns (answer : option bytes) (s : tcp) : option tcp :=
  match receiver s, answer with
  | TRecv, None => Some (set_receiver TClose s)
  | TRecv, Some l =>
    if decide (0 < length l <= BUFSIZE) then Some (set_receiver (TLock l) (add_arrived l s)) else None
  | _, _ => None
  end.

(** A step of stop(): the test, the assignment, the join. *)
Definition stop_step (s : tcp) : option tcp :=
  match stopper s with
  | SIdle => Some (set_stopper (if is_connected s then SClose else SJoin) s)
  | SClose => Some (set_stopper SJoin (set_sock_fd (-1)%Z s))
  | SJoin => match receiver s with TDone => Some (set_stopper SDone s) | _ => None end
  | SDone => None
  end.

Inductive event :=
| Calls (c : call)
| Reads
| Receives
| Recv (answer : option bytes)
| Stops
| Spurious.

Definition exec (e : event) (s : tcp) : option tcp :=
  match e with
  | Calls c => match reader s with RIdle => Some (set_reader (RLock c (call_size c) []) s) | _ => None end
  | Reads => reader_step s
  | Receives => receiver_step s
  | Recv answer => recv_returns answer s
  | Stops => stop_step s
  | Spurious => match reader s with RWait c todo acc => Some (set_reader (RLock c todo acc) s) | _ => None end
  end.

(** start() has a socket that is connected, and the thread. *)
Definition started (fd : Z) : tcp := Tcp [] None fd RIdle TTest SIdle [] [].

(** The constructor. *)
Definition new_stream : tcp := Tcp [] None (-1)%Z RIdle TDone SIdle [] [].

(** [while (connect(...) < 0) sleep]: [None] as long as the server does not
    answer. *)
Fixpoint connect_wait (answers : list Z) : option unit :=
  match answers with
  | [] => None
  | r :: answers => if (r <? 0)%Z then connect_wait answers else Some tt
  end.

(** start() of a stream that is not connected, where socket() gives [fd] and
    connect() gives [answers]. *)
Definition start (wait_for_server : bool) (fd : Z) (answers : list Z) (s : tcp) : option (bool * tcp) :=
  let s := set_sock_fd fd s in
  if (fd <? 0)%Z then Some (false, s)
  else if (wait_for_server : bool) then connect_wait answers;; Some (true, set_receiver TTest s)
  else match answers with
       | [] => None
       | r :: _ => if (r <? 0)%Z then Some (false, set_sock_fd (-1)%Z s) else Some (true, set_receiver TTest s)
       end.

(** A stream that starts is the one above; one that does not is not
    connected and has no thread. *)
Lemma start_started wait_for_server fd answers ok s :
  (-1 <= fd)%Z -> start wait_for_server fd answers new_stream = Some (ok, s) -> s = if ok then started fd else new_stream.
Proof.
  intros Hfd. unfold start. destruct (Z.ltb_spec fd 0).
  { intros [= <- <-]. by assert (fd = -1)%Z as -> by lia. }
  destruct wait_for_server.
  - destruct (connect_wait answers); [|done]. by intros [= <- <-].
  - destruct answers as [|r answers]; [done|]. by destruct (r <? 0)%Z; intros [= <- <-].
Qed.

Definition tcp_step (s s' : tcp) : Prop := exists e, exec e s = Some s'.

Definition reachable (s : tcp) : Prop := exists fd, fd <> (-1)%Z /\ rtc tcp_step (started fd) s.

End threads.

(** ** An invariant of the threads *)

(** The thread has the mutex. *)
Definition reader_inside (pc : reader_pc) : bool := match pc with RCheck _ _ _ | RBlock _ _ _ => true | _ => false end.
Definition receiver_inside (pc : receiver_pc) : bool := match pc with TPush _ => true | _ => false end.

(** The bytes that are received and not in the queue yet. *)
Definition hand (pc : receiver_pc) : bytes := match pc with TLock l | TPush l => l | _ => [] end.

(** A call in progress: what is left of it, and the bytes it has copied. *)
Definition in_call (pc : reader_pc) : option (call * nat * bytes) :=
  match pc with
  | RLock c todo acc | RCheck c todo acc | RBlock c todo acc | RWait c todo acc => Some (c, todo, acc)
  | RIdle | RUndefined => None
  end.

Definition copied (pc : reader_pc) : bytes := match in_call pc with Some (_, _, acc) => acc | None => [] end.

Definition call_ok (p : call * nat * bytes) : Prop :=
  let '(c, todo, acc) := p in
  todo + length acc = call_size c /\ (acc <> [] -> 0 < todo) /\ (c = ByteCall -> acc = []).

(** A reader that found the queue empty still finds it empty, or will be
    woken up. *)
Definition wakes (s : tcp) : Prop :=
  match reader s with
  | RBlock _ _ _ => _datas s = []
  | RWait _ _ _ => _datas s = [] \/ receiver s = TNotify
  | _ => True
  end.

(** As long as nobody calls stop(), the thread closes the connection itself. *)
Definition open_until_end (s : tcp) : Prop :=
  match receiver s with
  | TTest => True
  | TEnd | TDone => is_connected s = false
  | _ => is_connected s = true
  end.

Record threads_ok (s : tcp) : Prop := {
  ok_queue : queue_ok (_datas s);
  ok_lock : _datas_mtx s = if reader_inside (reader s) then Some ByReader
                           else if receiver_inside (receiver s) then Some ByReceiver else None;
  ok_excl : reader_inside (reader s) && receiver_inside (receiver s) = false;
  ok_defined : reader s <> RUndefined;
  ok_call : forall p, in_call (reader s) = Some p -> call_ok p;
  ok_hand : match receiver s with TLock l | TPush l => 0 < length l | _ => True end;
  ok_wakes : wakes s;
  ok_open : stopper s = SIdle -> open_until_end s
}.

Ltac ok_cases := split; simpl in *; try done; try (by intros; simplify_eq/=); unfold wakes, open_until_end in *; simpl in *; try done.

(** A step that neither fills the queue nor notifies. *)
Ltac still_waits :=
  match goal with
  | Hw : match ?rd with _ => _ end |- match ?rd with _ => _ end => destruct rd; try done; destruct Hw; by left
  end.

Section invariant.
  Context `{CharType}.

Lemma started_ok fd : fd <> (-1)%Z -> threads_ok (started fd).
Proof. intros Hfd. split; try done. apply Forall_nil. exact I. Qed.

(** The step that takes bytes out of the queue. *)
Lemma reader_take_ok c todo acc s :
  threads_ok s -> reader s = RCheck c todo acc -> _datas s <> [] -> threads_ok (reader_take c todo acc s).
Proof.
  intros [Hq Hl He Hd Hc Hh Hw Ho] Er Hn. destruct s as [datas mtx fd rd rv st hist arr]; simpl in *; subst rd.
  specialize (Hc _ eq_refl) as (Hs&Ha&Hb). simpl in He. unfold reader_take. simpl. destruct c as [|size].
  - destruct (take_byte_spec datas Hq Hn) as (b&d&->&Hd'&_). ok_cases. by rewrite He.
  - destruct (take_data_spec todo datas Hq Hn) as (l&d&->&Hd'&_&Hl'&Hp). destruct (decide _); ok_cases; rewrite ?He; try done.
    intros p Hp'. simplify_eq/=. rewrite length_app. split; [lia|]. split; [lia|done].
Qed.

Lemma reader_step_ok s s' : threads_ok s -> reader_step s = Some s' -> threads_ok s'.
Proof.
  intros Hok E. pose proof Hok as [Hq Hl He Hd Hc Hh Hw Ho]. unfold reader_step in E.
  destruct (reader s) as [|c todo acc|c todo acc|c todo acc|c todo acc|] eqn:Er; try done.
  - destruct (decide _) as [Em|]; [|done]. injection E as <-. rewrite Em in Hl. simpl in Hl.
    destruct (receiver_inside (receiver s)) eqn:Ev; [done|]. ok_cases; by rewrite Ev.
  - injection E as <-. unfold wait_over. destruct (decide (_datas s = [])) as [En|En].
    + destruct (is_connected s) eqn:Ec; rewrite bool_decide_eq_true_2 by done; simpl; ok_cases; rewrite ?He; done.
    + rewrite bool_decide_eq_false_2 by done. simpl. by apply reader_take_ok.
  - injection E as <-. unfold wakes in Hw. rewrite Er in Hw. ok_cases; [by rewrite He|]. by left.
Qed.

Lemma receiver_step_ok s s' : threads_ok s -> receiver_step s = Some s' -> threads_ok s'.
Proof.
  intros [Hq Hl He Hd Hc Hh Hw Ho] E. unfold receiver_step in E. destruct s as [datas mtx fd rd rv st hist arr]; simpl in *.
  destruct rv as [| |l|l| | | |]; try done.
  - injection E as <-. unfold is_connected in *. simpl. destruct (bool_decide _) eqn:Ec; ok_cases; still_waits.
  - destruct (decide (mtx = None)) as [->|]; [|done]. injection E as <-. destruct (reader_inside rd) eqn:Ei; [done|].
    ok_cases; rewrite ?Ei; try done. still_waits.
  - injection E as <-. rewrite andb_true_r in He. rewrite He in *. ok_cases; rewrite ?He; try done.
    + apply Forall_app. split; [done|]. by apply Forall_singleton.
    + destruct rd; try done. by right.
  - injection E as <-. unfold notify_one. simpl. destruct rd; ok_cases.
  - injection E as <-. ok_cases; still_waits.
  - injection E as <-. unfold notify_one. simpl. destruct rd; ok_cases.
Qed.

Lemma exec_ok e s s' : threads_ok s -> exec e s = Some s' -> threads_ok s'.
Proof.
  intros Hok E. destruct e as [c| | |answer| |]; [| | | | |].
  - destruct Hok as [Hq Hl He Hd Hc Hh Hw Ho]. destruct s as [datas mtx fd rd rv st hist arr]; simpl in *.
    destruct rd; try done. injection E as <-. ok_cases.
  - by eapply reader_step_ok.
  - by eapply receiver_step_ok.
  - destruct Hok as [Hq Hl He Hd Hc Hh Hw Ho]. destruct s as [datas mtx fd rd rv st hist arr]; simpl in *. unfold recv_returns in E. simpl in E.
    destruct rv; try done. destruct answer as [l|]; [destruct (decide _); [|done]|]; injection E as <-;
      ok_cases; try lia; still_waits.
  - destruct Hok as [Hq Hl He Hd Hc Hh Hw Ho]. destruct s as [datas mtx fd rd rv st hist arr]; simpl in *. unfold stop_step in E. simpl in E.
    destruct st; try done; [injection E as <-|injection E as <-|destruct rv; try done; injection E as <-]; ok_cases; by destruct (is_connected _).
  - destruct Hok as [Hq Hl He Hd Hc Hh Hw Ho]. destruct s as [datas mtx fd rd rv st hist arr]; simpl in *. destruct rd; try done. injection E as <-. ok_cases.
Qed.

Lemma reachable_ok s : reachable s -> threads_ok s.
Proof.
  intros (fd&Hfd&Hr). eapply (rtc_ind_r threads_ok (started fd)); [by apply started_ok| |exact Hr].
  intros x y _ [e He] Hx. by eapply exec_ok.
Qed.

End invariant.

(** ** What the calls return *)

Section refinement.
  Context `{CharType}.

(** A call, and a sequence of calls, on a queue that is not filled any more. *)
Definition queue_call (c : call) (datas : chunks) : ret * chunks :=
  match c with
  | ByteCall => let '(b, datas) := tcp_read_byte datas in (ByteRet b, datas)
  | DataCall size => let '(l, datas) := tcp_read_data size datas in (DataRet l, datas)
  end.

Fixpoint run_calls (cs : list call) (datas : chunks) : list ret * chunks :=
  match cs with
  | [] => ([], datas)
  | c :: cs =>
    let '(r, datas) := queue_call c datas in
    let '(rs, datas) := run_calls cs datas in (r :: rs, datas)
  end.

Lemma run_calls_snoc cs c datas rs d r d' :
  run_calls cs datas = (rs, d) -> queue_call c d = (r, d') -> run_calls (cs ++ [c]) datas = (rs ++ [r], d').
Proof.
  revert datas rs. induction cs as [|x cs IH]; intros datas rs E1 E2; simpl in *.
  - injection E1 as <- <-. by rewrite E2.
  - destruct (queue_call x datas) as [r' d1] eqn:E. destruct (run_calls cs d1) as [rs1 d2] eqn:E3. injection E1 as <- <-.
    by rewrite (IH _ _ E3 E2).
Qed.

(** What the calls returned is what they return on any queue with the bytes
    that arrived and, as long as there is a connection, any that follow. *)
Definition refines (s : tcp) : Prop := forall datas future,
  queue_ok datas -> unread datas = arrived s ++ future -> (is_connected s = false -> future = []) ->
  exists d, run_calls (history s).*1 datas = ((history s).*2, d) /\ queue_ok d /\
    unread d = copied (reader s) ++ unread (_datas s) ++ hand (receiver s) ++ future.

(** A step that does not change what there is to read. *)
Lemma refines_frame s s' :
  refines s -> arrived s' = arrived s -> history s' = history s -> (is_connected s' = true -> is_connected s = true) ->
  copied (reader s') ++ unread (_datas s') ++ hand (receiver s') = copied (reader s) ++ unread (_datas s) ++ hand (receiver s) ->
  refines s'.
Proof.
  intros Hr Ea Eh Ec Eu datas future Hq Hu Hf. rewrite Ea in Hu. destruct (Hr datas future) as (d&H1&H2&H3); [done..| |].
  - intros Hn. apply Hf. destruct (is_connected s'); [|done]. by rewrite Ec in Hn.
  - exists d. rewrite Eh. split; [done|]. split; [done|]. rewrite H3, !app_assoc. f_equal. by rewrite <- !app_assoc.
Qed.

(** A call that returns. *)
Lemma refines_return s s' c r :
  refines s -> arrived s' = arrived s -> history s' = history s ++ [(c, r)] -> is_connected s' = is_connected s ->
  (forall d future, queue_ok d -> (is_connected s = false -> future = []) ->
    unread d = copied (reader s) ++ unread (_datas s) ++ hand (receiver s) ++ future ->
    exists d', queue_call c d = (r, d') /\ queue_ok d' /\ unread d' = copied (reader s') ++ unread (_datas s') ++ hand (receiver s') ++ future) ->
  refines s'.
Proof.
  intros Hr Ea Eh Ec Hc datas future Hq Hu Hf. rewrite Ea in Hu. rewrite Ec in Hf. destruct (Hr datas future) as (d&H1&H2&H3); [done..|].
  destruct (Hc d future H2 Hf H3) as (d'&H4&H5&H6). exists d'. split; [|done]. rewrite Eh, !fmap_app. by eapply run_calls_snoc.
Qed.

Lemma byte_call_returns b l d :
  queue_ok d -> unread d = b :: l -> exists d', queue_call ByteCall d = (ByteRet (char_int b), d') /\ queue_ok d' /\ unread d' = l.
Proof.
  intros Hq Hu. destruct (take_byte_spec d Hq) as (b'&d'&E&Hd&Hu'); [by intros ->|]. rewrite Hu in Hu'. injection Hu' as <- ->.
  exists d'. unfold queue_call, tcp_read_byte. by rewrite E.
Qed.

Lemma data_call_returns l l' d :
  queue_ok d -> unread d = l ++ l' -> l ++ l' <> [] ->
  exists d', queue_call (DataCall (length l)) d = (DataRet (Some l), d') /\ queue_ok d' /\ unread d' = l'.
Proof.
  intros Hq Hu Hn. unfold queue_call.
  destruct (tcp_read_data_spec (length l) d Hq) as (d'&Hd&[(_&_&->&Hr)|([E|E]&_)]); rewrite Hu in *; [|done|].
  - exists d'. by rewrite take_app_length, Hr, drop_app_length.
  - rewrite length_app in E. lia.
Qed.

(** At the end of the connection, a call that is not satisfied fails. *)
Lemma call_fails c todo acc d :
  call_ok (c, todo, acc) -> queue_ok d -> unread d = acc -> exists d', queue_call c d = (failed c, d') /\ queue_ok d' /\ unread d' = [].
Proof.
  intros (Hs&Ht&Hb) Hq Hu. destruct c as [|size]; simpl in *.
  - rewrite Hb in Hu by done. apply (unread_nil d Hq) in Hu as ->. by exists [].
  - destruct (tcp_read_data_spec size d Hq) as (d'&Hd&[(Hn&E&_)|(_&->&->)]); [|by exists []].
    subst acc. specialize (Ht Hn). lia.
Qed.

Lemma reader_take_refines c todo acc s :
  threads_ok s -> refines s -> reader s = RCheck c todo acc -> _datas s <> [] -> refines (reader_take c todo acc s).
Proof.
  intros Hok Hr Er Hn. pose proof (ok_queue _ Hok) as Hq. pose proof (ok_call _ Hok (c, todo, acc)) as (Hs&Ht&Hb); [by rewrite Er|].
  unfold reader_take. destruct c as [|size].
  - destruct (take_byte_spec _ Hq Hn) as (b&q&->&_&Hu). eapply refines_return; [done..|]. rewrite Er, Hu. intros d future Hd _ E.
    unfold copied in E. simpl in E. rewrite Hb in E by done. by apply (byte_call_returns b).
  - destruct (take_data_spec todo _ Hq Hn) as (l&q&->&_&Hu&Hl&_). destruct (decide _) as [Hd|Hd].
    + eapply refines_frame; [done..|]. rewrite Er, Hu. unfold copied. simpl. by rewrite <- !app_assoc.
    + eapply refines_return; [done..|]. rewrite Er. intros d future Hqd _ E. unfold copied in E. simpl in E.
      assert (size = length (acc ++ l)) as -> by (rewrite length_app; simpl in Hs; lia).
      pose proof (unread_pos _ Hq Hn) as Hp. rewrite Hu in E, Hp.
      destruct (data_call_returns (acc ++ l) (unread q ++ hand (receiver s) ++ future) d Hqd) as (d'&E1&E2&E3).
      * by rewrite E, <- !app_assoc.
      * intros Hz. apply (f_equal length) in Hz. rewrite !length_app in Hz. rewrite length_app in Hp. simpl in Hz. lia.
      * by exists d'.
Qed.

Lemma reader_step_refines s s' :
  threads_ok s -> stopper s = SIdle -> refines s -> reader_step s = Some s' -> refines s'.
Proof.
  intros Hok Hst Hr E. unfold reader_step in E. destruct (reader s) as [|c todo acc|c todo acc|c todo acc|c todo acc|] eqn:Er; try done.
  - destruct (decide _); [|done]. injection E as <-. eapply refines_frame; [done..|]. by rewrite Er.
  - injection E as <-. unfold wait_over. destruct (decide (_datas s = [])) as [En|En].
    + destruct (is_connected s) eqn:Ec; rewrite bool_decide_eq_true_2 by done; simpl.
      * eapply refines_frame; [done..|]. by rewrite Er.
      * eapply refines_return; [done..|]. rewrite Er, En. intros d future Hd Hf E. rewrite Hf in * by done.
        assert (hand (receiver s) = []) as Hh.
        { pose proof (ok_open _ Hok Hst) as Ho. unfold open_until_end in Ho. destruct (receiver s); try done; by rewrite Ec in Ho. }
        simpl. unfold copied in *. simpl in *. rewrite En, Hh, app_nil_r in *. simpl in *.
        eapply call_fails; [|done..]. by apply (ok_call _ Hok); rewrite Er.
    + rewrite bool_decide_eq_false_2 by done. by apply reader_take_refines.
  - injection E as <-. eapply refines_frame; [done..|]. by rewrite Er.
Qed.

Lemma notify_receiver s : receiver (notify_one s) = receiver s.
Proof. unfold notify_one. by destruct (reader s). Qed.

Lemma notify_refines s : refines s -> refines (notify_one s).
Proof. intros Hr. unfold notify_one. destruct (reader s) eqn:Er; try done. eapply refines_frame; [done..|]. by rewrite Er. Qed.

Lemma receiver_step_refines s s' :
  threads_ok s -> refines s -> receiver_step s = Some s' -> refines s'.
Proof.
  intros Hok Hr E. unfold receiver_step in E. destruct (receiver s) as [| |l|l| | | |] eqn:Er; try done.
  - injection E as <-. eapply refines_frame; [done..|]. rewrite Er. by destruct (is_connected s).
  - destruct (decide _); [|done]. injection E as <-. eapply refines_frame; [done..|]. by rewrite Er.
  - injection E as <-. eapply refines_frame; [done..|]. rewrite Er. simpl. rewrite unread_app. unfold unread at 2. simpl. by rewrite !app_nil_r, drop_0.
  - injection E as <-. apply notify_refines in Hr. eapply refines_frame; [done..|]. by rewrite notify_receiver, Er.
  - injection E as <-. eapply refines_frame; [done..|]. by rewrite Er.
  - injection E as <-. apply notify_refines in Hr. eapply refines_frame; [done..|]. by rewrite notify_receiver, Er.
Qed.

(** stop() is not undone. *)
Lemma stop_idle_before e s s' : exec e s = Some s' -> stopper s' = SIdle -> stopper s = SIdle.
Proof.
  intros E Hst. destruct s as [datas mtx fd rd rv st hist arr]. destruct st; [done| | |]; exfalso; revert Hst E; unfold exec, reader_step, reader_take,
    receiver_step, recv_returns, stop_step, notify_one; simpl; intros; repeat case_match; simplify_eq/=.
Qed.

Lemma exec_refines e s s' :
  threads_ok s -> stopper s' = SIdle -> refines s -> exec e s = Some s' -> refines s'.
Proof.
  intros Hok Hst Hr E. pose proof (stop_idle_before _ _ _ E Hst) as Hs.
  destruct e as [c| | |answer| |].
  - simpl in E. destruct (reader s) eqn:Er; try done. injection E as <-. eapply refines_frame; [done..|]. by rewrite Er.
  - by eapply reader_step_refines.
  - by eapply receiver_step_refines.
  - simpl in E. unfold recv_returns in E. destruct (receiver s) eqn:Er; try done. destruct answer as [l|].
    + destruct (decide _); [|done]. injection E as <-. intros datas future Hq Hu Hf. simpl in *. rewrite <- app_assoc in Hu.
      destruct (Hr datas (l ++ future) Hq Hu) as (d&H1&H2&H3).
      * pose proof (ok_open _ Hok Hs) as Ho. unfold open_until_end in Ho. rewrite Er in Ho. by rewrite Ho.
      * exists d. rewrite H3, Er. done.
    + injection E as <-. eapply refines_frame; [done..|]. by rewrite Er.
  - simpl in E. unfold stop_step in E. rewrite Hs in E. injection E as <-. simpl in Hst. by destruct (is_connected s).
  - simpl in E. destruct (reader s) eqn:Er; try done. injection E as <-. eapply refines_frame; [done..|]. by rewrite Er.
Qed.

Lemma reachable_refines s : reachable s -> stopper s = SIdle -> refines s.
Proof.
  intros (fd&Hfd&Hr) Hs. assert (threads_ok s /\ (stopper s = SIdle -> refines s)) as [_ Hf]; [|by apply Hf].
  eapply (rtc_ind_r (fun s => threads_ok s /\ (stopper s = SIdle -> refines s)) (started fd)); [| |exact Hr].
  - split; [by apply started_ok|]. intros _ datas future Hq Hu _. by exists datas.
  - intros x y _ [e He] [Hx Hrx]. split; [by eapply exec_ok|]. intros Hy.
    eapply (exec_refines e x y); [done..| |done]. apply Hrx. by eapply stop_idle_before.
Qed.

End refinement.

(** ** Bytes that are there are handed out *)

Section liveness.
  Context `{CharType}.

(** An infinite execution.  A thread is not passed over for ever: the reader,
    unless it has to wait for ever from some time on, and [_run], unless it
    has to wait; nothing is asked of recv(), of spurious wake-ups and of
    stop(). *)
Record fair_run (path : nat -> tcp) (ev : nat -> option event) : Prop := {
  run_steps : forall i, match ev i with Some e => exec e (path i) = Some (path (S i)) | None => path (S i) = path i end;
  run_reader : forall i, exists j, i <= j /\ (ev j = Some Reads \/ forall k, j <= k -> reader_step (path k) = None);
  run_receiver : forall i, exists j, i <= j /\ (ev j = Some Receives \/ receiver_step (path j) = None)
}.

(** What a call returns with the bytes [l]. *)
Definition satisfied (c : call) (l : bytes) : ret :=
  match c with ByteCall => ByteRet (char_int (default 0%Z (head l))) | DataCall _ => DataRet (Some l) end.

(** The call can be satisfied with bytes of the queue. *)
Record served (c : call) (h : list (call * ret)) (l : bytes) (s : tcp) : Prop := {
  sv_ok : threads_ok s;
  sv_history : history s = h;
  sv_bytes : exists todo acc, in_call (reader s) = Some (c, todo, acc) /\ 1 `max` todo <= length (unread (_datas s)) /\
    acc ++ take todo (unread (_datas s)) = l
}.

Definition rank (pc : reader_pc) : nat :=
  match pc with
  | RWait _ todo _ => 3 * todo + 2
  | RLock _ todo _ => 3 * todo + 1
  | RCheck _ todo _ => 3 * todo
  | _ => 0
  end.

(** The reader goes on to where it has returned, or is closer to it. *)
Definition closer (c : call) (h : list (call * ret)) (l : bytes) (s s' : tcp) : Prop :=
  history s' = h ++ [(c, satisfied c l)] \/ served c h l s' /\ rank (reader s') < rank (reader s).

Lemma served_nonempty c h l s : served c h l s -> _datas s <> [].
Proof. intros [_ _ (todo&acc&_&Hm&_)] E. rewrite E in Hm. simpl in Hm. lia. Qed.

Lemma reader_take_closer c h l todo acc s :
  served c h l s -> reader s = RCheck c todo acc -> threads_ok (reader_take c todo acc s) -> closer c h l s (reader_take c todo acc s).
Proof.
  intros Hsv Er Hok'. pose proof (served_nonempty _ _ _ _ Hsv) as Hn. destruct Hsv as [Hok Hh (todo'&acc'&Ei&Hm&Hl)].
  rewrite Er in Ei. injection Ei as <- <-. pose proof (ok_call _ Hok (c, todo, acc)) as (Hs&Ht&Hb); [by rewrite Er|].
  pose proof (ok_queue _ Hok) as Hq. revert Hok'. unfold reader_take. destruct c as [|size].
  - destruct (take_byte_spec _ Hq Hn) as (b&q&->&_&Hu). intros _. left. simpl. rewrite Hh, Hb in * by done. simpl in Hs.
    rewrite Hu in Hl. simpl in Hl. rewrite Nat.add_0_r in Hs. subst todo. simpl in Hl. by rewrite <- Hl.
  - destruct (take_data_spec todo _ Hq Hn) as (x&q&->&_&Hu&Hx&Hp). rewrite Hu in Hl, Hm. rewrite take_app_ge in Hl by lia.
    rewrite length_app in Hm. destruct (decide _) as [Hd|Hd]; intros Hok'.
    + right. split; [|rewrite Er; simpl; lia]. split; [done..|]. exists (todo - length x), (acc ++ x). split; [done|]. simpl. split; [lia|].
      by rewrite <- app_assoc.
    + left. simpl. rewrite Hh. do 4 f_equal. rewrite <- Hl. by replace (todo - length x) with 0 by lia; rewrite app_nil_r.
Qed.

Lemma reads_closer c h l s s' : served c h l s -> reader_step s = Some s' -> closer c h l s s'.
Proof.
  intros Hsv E. pose proof (served_nonempty _ _ _ _ Hsv) as Hn. pose proof Hsv as [Hok Hh (todo&acc&Ei&Hm&Hl)].
  assert (threads_ok s') as Hok' by (by eapply reader_step_ok).
  unfold reader_step in E. destruct (reader s) as [|c' todo' acc'|c' todo' acc'|c' todo' acc'|c' todo' acc'|] eqn:Er; try done.
  - destruct (decide _); [|done]. injection E as <-. injection Ei as -> -> ->. right. split; [|rewrite Er; simpl; lia]. split; [done..|].
    by exists todo, acc.
  - injection Ei as -> -> ->. unfold wait_over in E. rewrite bool_decide_eq_false_2 in E by done. simpl in E.
    rewrite decide_False in E by done. injection E as <-. by apply reader_take_closer.
  - pose proof (ok_wakes _ Hok) as Hw. unfold wakes in Hw. by rewrite Er in Hw.
Qed.

(** The other threads do not hold the call back. *)
Lemma others_keep c h l s s' e :
  served c h l s -> exec e s = Some s' -> e <> Reads -> served c h l s' /\ rank (reader s') <= rank (reader s).
Proof.
  intros Hsv E He. pose proof Hsv as [Hok Hh (todo&acc&Ei&Hm&Hl)]. pose proof (exec_ok _ _ _ Hok E) as Hok'.
  assert (history s' = history s /\ in_call (reader s') = in_call (reader s) /\ rank (reader s') <= rank (reader s) /\
    exists x, unread (_datas s') = unread (_datas s) ++ x) as (H1&H2&H3&x&Hx).
  { clear Hok' Hsv Hok. destruct s as [datas mtx fd rd rv st hist arr]. destruct e as [c'| | |answer| |]; try done; simpl in *.
    - by destruct rd.
    - unfold receiver_step, notify_one in E. simpl in E. destruct rv; repeat case_match; simplify_eq/=; (split_and!; [done|done|lia|]);
        try (exists []; by rewrite app_nil_r). eexists. apply unread_app.
    - unfold recv_returns in E. simpl in E. repeat case_match; simplify_eq/=; (split_and!; [done|done|lia|]); exists []; by rewrite app_nil_r.
    - unfold stop_step in E. simpl in E. repeat case_match; simplify_eq/=; (split_and!; [done|done|lia|]); exists []; by rewrite app_nil_r.
    - destruct rd; try done. simplify_eq/=. split_and!; [done|done|lia|]. exists []; by rewrite app_nil_r. }
  split; [|done]. split; [done|congruence|]. exists todo, acc. rewrite H2, Hx, length_app. split; [done|]. split; [lia|].
  by rewrite take_app_le by lia.
Qed.

(** A reader with bytes to read that cannot go on waits for a step of
    [_run], which can be made and after which it can go on. *)
Lemma receiver_helps c h l s :
  served c h l s -> reader_step s = None ->
  exists s', receiver_step s = Some s' /\ reader_step s' <> None.
Proof.
  intros Hsv E. pose proof (served_nonempty _ _ _ _ Hsv) as Hn. destruct Hsv as [Hok Hh (todo&acc&Ei&_)].
  pose proof Hok as [_ Hlk He _ _ _ Hw _]. unfold wakes in Hw. unfold reader_step in E.
  destruct (reader s) as [|c' todo' acc'|c' todo' acc'|c' todo' acc'|c' todo' acc'|] eqn:Er; try done.
  - destruct (decide _) as [|Hm]; [done|]. simpl in Hlk. destruct (receiver s) eqn:Ev; try done. unfold receiver_step. rewrite Ev.
    eexists. split; [done|]. unfold reader_step. simpl. by rewrite Er.
  - destruct Hw as [Hw|Hw]; [done|]. rewrite Hw in Hlk. simpl in Hlk. unfold receiver_step, notify_one. rewrite Hw, Er.
    eexists. split; [done|]. unfold reader_step. simpl. by rewrite Hlk.
Qed.

Section fair.
  Context (path : nat -> tcp) (ev : nat -> option event) (F : fair_run path ev).
  Context (c : call) (h : list (call * ret)) (l : bytes).

Lemma fair_run_next i :
  served c h l (path i) ->
  closer c h l (path i) (path (S i)) \/
  served c h l (path (S i)) /\ rank (reader (path (S i))) <= rank (reader (path i)) /\ ev i <> Some Reads.
Proof.
  intros Hsv. pose proof (run_steps _ _ F i) as Hi. destruct (ev i) as [e|]; [|right; rewrite Hi; by split_and!].
  destruct e; try (by right; edestruct others_keep; [done..|]; split_and!). left. by apply reads_closer.
Qed.

Lemma fair_run_until i n :
  served c h l (path i) ->
  (exists j, i <= j /\ history (path j) = h ++ [(c, satisfied c l)]) \/
  served c h l (path (i + n)) /\ rank (reader (path (i + n))) <= rank (reader (path i)).
Proof.
  intros Hsv. induction n as [|n IH]; [right; rewrite Nat.add_0_r; split; [done|lia]|].
  destruct IH as [Hd|[Hn Hr]]; [by left|]. rewrite Nat.add_succ_r.
  destruct (fair_run_next _ Hn) as [[Hd|[H1 H2]]|(H1&H2&_)]; [|right; split; [done|lia]..].
  left. exists (S (i + n)). split; [lia|done].
Qed.

(** The reader makes a step, before or when it returns. *)
Lemma fair_run_closer i :
  served c h l (path i) -> exists j, i <= j /\ closer c h l (path i) (path j).
Proof.
  intros Hsv. destruct (run_reader _ _ F i) as (j&Hj&Hc). replace j with (i + (j - i)) in * by lia. set (n := j - i) in *.
  destruct (fair_run_until i n Hsv) as [(k&Hk&Hd)|[Hn Hr]]; [exists k; split; [done|by left]|]. destruct Hc as [Hc|Hc].
  - exists (S (i + n)). split; [lia|]. destruct (fair_run_next _ Hn) as [[Hd|[H1 H2]]|(_&_&H1)]; [by left| |done].
    right. split; [done|lia].
  - destruct (run_receiver _ _ F (i + n)) as (k&Hk&Hv). replace k with (i + n + (k - (i + n))) in * by lia. set (m := k - (i + n)) in *.
    destruct (fair_run_until (i + n) m Hn) as [(k'&Hk'&Hd)|[Hm _]]; [exists k'; split; [lia|by left]|]. exfalso.
    destruct (receiver_helps c h l _ Hm) as (s'&E1&E2); [apply Hc; lia|]. destruct Hv as [Hv|Hv]; [|congruence].
    pose proof (run_steps _ _ F (i + n + m)) as Hs. rewrite Hv in Hs. simpl in Hs. rewrite E1 in Hs. injection Hs as ->.
    apply E2, Hc. lia.
Qed.

Lemma fair_run_delivers i :
  served c h l (path i) -> exists j, i <= j /\ history (path j) = h ++ [(c, satisfied c l)].
Proof.
  remember (rank (reader (path i))) as r eqn:Er. revert i Er. induction (lt_wf r) as [r _ IH]. intros i -> Hsv.
  destruct (fair_run_closer i Hsv) as (j&Hj&[Hd|[H1 H2]]); [by exists j|].
  destruct (IH _ H2 j eq_refl H1) as (k&Hk&Hd). exists k. split; [lia|done].
Qed.

End fair.

Lemma fair_run_ok path ev i : fair_run path ev -> threads_ok (path 0) -> threads_ok (path i).
Proof.
  intros F H0. induction i as [|i IH]; [done|]. pose proof (run_steps _ _ F i) as Hi.
  destruct (ev i); [by eapply exec_ok|by rewrite Hi].
Qed.

End liveness.

(** ** Executions *)

Fixpoint run `{CharType} (evs : list event) (s : tcp) : option tcp :=
  match evs with
  | [] => Some s
  | e :: evs => s' ← exec e s; run evs s'
  end.

Lemma run_reachable `{CharType} evs fd s : fd <> (-1)%Z -> run evs (started fd) = Some s -> reachable s.
Proof.
  intros Hfd E. exists fd. split; [done|]. revert E. generalize (started fd). induction evs as [|e evs IH]; intros x E; simpl in E.
  - by injection E as ->.
  - destruct (exec e x) as [y|] eqn:Ee; [|done]. apply rtc_l with y; [by exists e|by apply IH].
Qed.

Lemma run_prefix `{CharType} evs s x i : run evs s = Some x -> exists y, run (take i evs) s = Some y.
Proof.
  revert s i. induction evs as [|e evs IH]; intros s [|i] E; simpl in *; [by eexists..|].
  destruct (exec e s); [|done]. simpl in *. by eapply IH.
Qed.

(** An execution that ends where no thread can go on is fair. *)
Lemma finished_run_fair `{CharType} evs s x :
  run evs s = Some x -> reader_step x = None -> receiver_step x = None ->
  fair_run (fun i => default s (run (take i evs) s)) (fun i => evs !! i).
Proof.
  intros E Hr Hv. assert (forall k, length evs <= k -> default s (run (take k evs) s) = x) as Hx.
  { intros k Hk. by rewrite take_ge, E by done. }
  split.
  - intros i. destruct (evs !! i) as [e|] eqn:Ei.
    + rewrite (take_S_r _ _ _ Ei). destruct (run_prefix evs s x i E) as [y Hy]. destruct (run_prefix evs s x (S i) E) as [z Hz].
      rewrite (take_S_r _ _ _ Ei) in Hz. rewrite Hy, Hz. simpl. clear -Hy Hz. revert s Hy Hz.
      induction (take i evs) as [|e' l IH]; intros s Hy Hz; simpl in *.
      * injection Hy as ->. by destruct (exec e y); simplify_eq/=.
      * destruct (exec e' s); [by eapply IH|done].
    + apply lookup_ge_None in Ei. by rewrite !Hx by lia.
  - intros i. exists (i + length evs). split; [lia|]. right. intros k Hk. by rewrite Hx by lia.
  - intros i. exists (i + length evs). split; [lia|]. right. by rewrite Hx by lia.
Qed.

(** ** The theorems *)

(** C15: what the calls of the reader return does not depend on how the
    threads interleave, nor on how the bytes were split into chunks.  In
    every state that can be reached before stop() is called, the calls that
    returned gave what they give, one after the other, on any queue that
    holds the bytes that arrived, followed by any bytes as long as the
    connection is open; the bytes that queue then has left are the ones a call
    in progress has copied, the ones in the queue and the one chunk that is
    being queued: no byte is lost, repeated or reordered, and no access is
    outside the queue. *)
Theorem calls_refine_queue `{CharType} s datas future :
  reachable s -> stopper s = SIdle -> queue_ok datas -> unread datas = arrived s ++ future ->
  (is_connected s = false -> future = []) ->
  exists d, run_calls (history s).*1 datas = ((history s).*2, d) /\ reader s <> RUndefined /\
    unread d = copied (reader s) ++ unread (_datas s) ++ hand (receiver s) ++ future.
Proof.
  intros Hr Hs Hq Hu Hf. destruct (reachable_refines s Hr Hs datas future Hq Hu Hf) as (d&H1&_&H2). exists d.
  split; [done|]. split; [|done]. apply (ok_defined _ (reachable_ok s Hr)).
Qed.

(** C16: bytes in the queue are handed out.  In every execution that is fair
    to the reader and to the receiving thread, a call in progress for which
    the queue holds enough bytes returns, and returns these bytes: the
    wake-up after a chunk is queued is never missed, and the mutex is not
    kept; this needs no spurious wake-up and no further bytes. *)
Theorem bytes_are_delivered `{CharType} path ev i c todo acc :
  fair_run path ev -> reachable (path 0) -> in_call (reader (path i)) = Some (c, todo, acc) ->
  1 `max` todo <= length (unread (_datas (path i))) ->
  exists j, i <= j /\
    history (path j) = history (path i) ++ [(c, satisfied c (acc ++ take todo (unread (_datas (path i)))))].
Proof.
  intros F Hr Hi Hm. apply (fair_run_delivers path ev F). split; [|done|by exists todo, acc].
  apply (fair_run_ok _ _ _ F), reachable_ok, Hr.
Qed.

(** A chunk of three bytes arrives while the reader waits for two. *)
Definition chunk_arrives : list event :=
  [Calls (DataCall 2); Receives; Reads; Reads; Reads; Recv (Some [104; 105; 0]%Z); Receives; Receives; Receives; Reads; Reads; Receives].

#[local] Instance x86_char : CharType := {| char_is_signed := true |}.

Definition after_chunk : tcp := default (started 3) (run chunk_arrives (started 3)).

(** The reader then has two bytes, and the third one is in the queue. *)
Lemma calls_refine_queue_witness :
  history after_chunk = [(DataCall 2, DataRet (Some [104; 105]%Z))] /\
  exists d, run_calls (history after_chunk).*1 [(0, [104]%Z); (1, [1; 105; 0; 7]%Z)] = ((history after_chunk).*2, d) /\
    reader after_chunk <> RUndefined /\
    unread d = copied (reader after_chunk) ++ unread (_datas after_chunk) ++ hand (receiver after_chunk) ++ [7]%Z.
Proof.
  split; [reflexivity|].
  apply (calls_refine_queue after_chunk [(0, [104]%Z); (1, [1; 105; 0; 7]%Z)] [7]%Z).
  - apply (run_reachable chunk_arrives 3); [done|]. vm_compute. reflexivity.
  - vm_compute. reflexivity.
  - repeat constructor; simpl; lia.
  - vm_compute. reflexivity.
  - done.
Defined.

Definition chunk_path (i : nat) : tcp := default (started 3) (run (take i chunk_arrives) (started 3)).

(** The reader waits while the chunk is queued, and is woken up. *)
Lemma bytes_are_delivered_witness :
  reader (chunk_path 8) = RWait (DataCall 2) 2 [] /\
  exists j, 8 <= j /\ history (chunk_path j) = history (chunk_path 8) ++ [(DataCall 2, DataRet (Some [104; 105]%Z))].
Proof.
  split; [vm_compute; reflexivity|].
  apply (bytes_are_delivered chunk_path (fun i => chunk_arrives !! i) 8 (DataCall 2) 2 []).
  - eapply finished_run_fair; vm_compute; reflexivity.
  - apply (run_reachable [] 3); done.
  - vm_compute. reflexivity.
  - vm_compute. lia.
Defined.

(** The end of the connection, between the test of the reader and its wait. *)
Definition end_missed : list event :=
  [Calls ByteCall; Receives; Reads; Reads; Recv None; Receives; Receives; Receives; Reads].

Lemma waits_for_ever `{CharType} evs s s' c todo acc :
  reader s = RWait c todo acc -> receiver s = TDone -> run evs s = Some s' -> Spurious ∉ evs -> reader s' = RWait c todo acc /\ history s' = history s.
Proof.
  revert s. induction evs as [|e evs IH]; intros s Er Ev E Hn; simpl in E; [by injection E as <-|].
  destruct (exec e s) as [x|] eqn:Ee; [|done]. simpl in E. apply not_elem_of_cons in Hn as [He Hn].
  assert (reader x = RWait c todo acc /\ receiver x = TDone /\ history x = history s) as (H1&H2&<-); [|by apply IH].
  destruct e; simpl in Ee; unfold reader_step, receiver_step, recv_returns, stop_step in Ee; rewrite ?Er, ?Ev in Ee; try done.
  by destruct (stopper s); simplify_eq/=.
Qed.

(** C34: the end of the connection can be missed.  [_run] clears the
    descriptor and notifies without the mutex, so that both can fall between
    the test of a reader that found no data on an open connection and its
    wait: the connection is closed, nothing is left to read, the receiving
    thread is gone, and the reader waits; whatever is done then, stop()
    included, its call never returns, unless the condition variable wakes up
    spuriously. *)
Theorem end_can_be_missed `{CharType} :
  exists s, reachable s /\ is_connected s = false /\ receiver s = TDone /\ stopper s = SIdle /\ _datas s = [] /\
    reader s = RWait ByteCall 1 [] /\
    forall evs s', run evs s = Some s' -> Spurious ∉ evs -> reader s' = RWait ByteCall 1 [] /\ history s' = history s.
Proof.
  eexists (Tcp [] None (-1) (RWait ByteCall 1 []) TDone SIdle [] []). split; [|split_and!; try done].
  - apply (run_reachable end_missed 3); [done|]. vm_compute. reflexivity.
  - intros evs s' E Hn. by eapply waits_for_ever.
Qed.
