(* ===== verification/Reader.v ===== *)
(** The protocol reader (parser/protocol_reader.cpp): it reads events from a
    stream, keeps the register of klasses up to date and calls the listeners.

    The reader runs in a thread of its own from start() to the end of the
    stream; [_read_events] is the body of that thread.  An exception in that
    thread ends the program, like a null pointer or a failed assertion:
    [Undef]. *)
From S2P Require Import Prelude Alloc BaseTypes Memory Events Listeners Registry Endian Parser.

(** The listeners that were registered after the reader was made, in order:
    what they do with an event to what they keep. *)
Class EventListener (C : Type) := { on_new_event : parser_Event -> C -> C }.

Record ProtocolReader (S C : Type) := MkReader {
  _klass_register : klass_map;
  _stream : S;
  _is_running : bool;
  _flat_events : bool;
  _endianness : HT_Endianness;
  _listeners : C
}.
Arguments MkReader {S C} _ _ _ _ _ _.
Arguments _klass_register {S C} _.
Arguments _stream {S C} _.
Arguments _is_running {S C} _.
Arguments _flat_events {S C} _.
Arguments _endianness {S C} _.
Arguments _listeners {S C} _.

Section reader.
  Context {S C : Type} `{Stream S} `{EventListener C} `{UnorderedMap} `{Platform}.
  Implicit Types r : ProtocolReader S C.

Abbreviation RD := (ST (ProtocolReader S C)).

Definition set_register (k : klass_map) r : ProtocolReader S C :=
  MkReader k (_stream r) (_is_running r) (_flat_events r) (_endianness r) (_listeners r).
Definition set_stream (s : S) r : ProtocolReader S C :=
  MkReader (_klass_register r) s (_is_running r) (_flat_events r) (_endianness r) (_listeners r).
Definition set_running (b : bool) r : ProtocolReader S C :=
  MkReader (_klass_register r) (_stream r) b (_flat_events r) (_endianness r) (_listeners r).
Definition set_endianness (e : HT_Endianness) r : ProtocolReader S C :=
  MkReader (_klass_register r) (_stream r) (_is_running r) (_flat_events r) e (_listeners r).
Definition set_listeners (c : C) r : ProtocolReader S C :=
  MkReader (_klass_register r) (_stream r) (_is_running r) (_flat_events r) (_endianness r) c.

(** ProtocolReader(klass_register, stream, flat_events). *)
Definition new_reader (register : klass_map) (s : S) (flat_events : bool) (c : C) : ProtocolReader S C :=
  MkReader register s false flat_events HT_ENDIANNESS_LITTLE c.

Definition register_of : RD klass_map := gets _klass_register.
Definition flat_of : RD bool := gets _flat_events.
Definition running_of : RD bool := gets _is_running.
Definition endianness_now : RD HT_Endianness := gets _endianness.

Definition stream_read_byte : RD Z := fun r =>
  let '(b, s) := read_byte (_stream r) in Done (b, set_stream s r).

Definition stream_read_data (size : nat) : RD (option bytes) := fun r =>
  let '(o, s) := read_data size (_stream r) in Done (o, set_stream s r).

(** The loop of _read_string: [data] is the allocation of [length data]
    bytes, doubled when it is full. *)
Fixpoint read_string_loop (fuel : nat) (data : list (option Z)) (pos : Z) : RD (option bytes) :=
  match fuel with
  | O => nofuel
  | Datatypes.S fuel =>
      c ← stream_read_byte;
      if decide (c > 0) then
        data ← some_or_undef (mem_write data pos [Some c]);
        let pos := pos + 1 in
        let data := if decide (pos = Z.of_nat (length data)) then data ++ replicate (length data) None else data in
        read_string_loop fuel data pos
      else if decide (c < 0) then mret None
      else
        data ← some_or_undef (mem_write data pos [Some 0]);
        s ← some_or_undef (mem_read data 0 pos ≫= mapM id);
        mret (Some s)
  end.

Definition _read_string (fuel : nat) : RD (option FieldType) :=
  s ← read_string_loop fuel (replicate 32 None) 0;
  mret (FString <$> s).

(** [None] is the return value false. *)
Definition _read_numeric (field : EventKlassField) : RD (option FieldType) :=
  size ← some_or_undef (get_sizeof field);
  buff ← stream_read_data size;
  e ← endianness_now;
  match buff with
  | None => mret None
  | Some buff =>
      match get_field_type_id field with
      | UINT8 | INT8 => mret (Some (FNum 1 (convert_endianness_to_native 1 (native_value buff) e)))
      | UINT16 | INT16 => mret (Some (FNum 2 (convert_endianness_to_native 2 (native_value buff) e)))
      | UINT32 | INT32 => mret (Some (FNum 4 (convert_endianness_to_native 4 (native_value buff) e)))
      | UINT64 | INT64 => mret (Some (FNum 8 (convert_endianness_to_native 8 (native_value buff) e)))
      | POINTER => mret None
      | STRING | STRUCT => undef
      end
  end.

(** What _read_event leaves: is_error, *event and *base_event. *)
Record read_result := MkResult { is_error : bool; r_event : parser_Event; r_base : option parser_Event }.

(** _read_struct with _read_event as an argument; the results are value
    ([None] is false), *event and *base_event. *)
Definition _read_struct (_read_event : parser_Event -> option parser_Event -> RD read_result)
    (field : EventKlassField) (event : parser_Event) (base_event : option parser_Event)
    : RD (option FieldType * parser_Event * option parser_Event) :=
  flat ← flat_of;
  if bool_decide (get_type_name field = string_bytes "HT_Event") && bool_decide (get_name field = string_bytes "base") then
    if (flat : bool) then mret (Some FZero, event, base_event)
    else
      base ← some_or_undef base_event;
      mret (Some (FEvent base), event, Some (moved_from base))
  else
    register ← register_of;
    '(MkResult err sub_event base_event) ←
      _read_event (new_event (get_klass_by_name (get_type_name field) register)) base_event;
    if (flat : bool) then
      event ← some_or_undef (merge sub_event event);
      mret (if err then None else Some FZero, event, base_event)
    else mret (if err then None else Some (FEvent sub_event), event, base_event).

(** The loop of _read_event. *)
Fixpoint read_fields (fuel : nat) (_read_event : parser_Event -> option parser_Event -> RD read_result)
    (fields : list EventKlassField) (event : parser_Event) (base_event : option parser_Event) : RD read_result :=
  match fields with
  | [] => mret (MkResult false event base_event)
  | field :: fields =>
      '(value, event, base_event) ←
        (if is_numeric field || bool_decide (get_field_type_id field = POINTER) then
           v ← _read_numeric field; mret (v, event, base_event)
         else if bool_decide (get_field_type_id field = STRING) then
           v ← _read_string fuel; mret (v, event, base_event)
         else _read_struct _read_event field event base_event);
      match value with
      | None => mret (MkResult true event base_event)
      | Some value =>
          flat ← flat_of;
          event ← (if (flat : bool) && bool_decide (get_field_type_id field = STRUCT) then mret event
                   else some_or_undef (set_value field value event));
          read_fields fuel _read_event fields event base_event
      end
  end.

(** [fuel] bounds the depth of the structures and the length of the
    strings. *)
Fixpoint _read_event (fuel : nat) (event : parser_Event) (base_event : option parser_Event) : RD read_result :=
  match fuel with
  | O => nofuel
  | Datatypes.S fuel =>
      register ← register_of;
      k ← some_or_undef (get_klass_of event ≫= (register !!.));
      read_fields fuel (_read_event fuel) (get_fields k) event base_event
  end.

Definition _call_callbacks (event : parser_Event) : RD () :=
  register ← register_of;
  register ← some_or_undef (handle_register_events event register);
  modify (set_register register);;
  modify (fun r => set_listeners (on_new_event event (_listeners r)) r).

(** static_cast<HT_Endianness>(value). *)
Definition endianness_of (value : Z) : option HT_Endianness :=
  if decide (value = 0) then Some HT_ENDIANNESS_LITTLE
  else if decide (value = 1) then Some HT_ENDIANNESS_BIG else None.

(** One round of _read_events; false is break. *)
Definition read_one (fuel : nat) : RD bool :=
  register ← register_of;
  flat ← flat_of;
  '(MkResult err base_event _) ← _read_event fuel (new_event (get_klass EventKlass_id register)) None;
  if err then mret false
  else
    klass_id ← some_or_undef (get_value 4 (string_bytes "klass_id") base_event);
    if decide (klass_id = EventKlass_id) then _call_callbacks base_event;; mret true
    else
      let event := new_event (get_klass klass_id register) in
      '(MkResult err event _) ←
        (if (flat : bool) then
           '(MkResult err event b) ← _read_event fuel event None;
           event ← some_or_undef (merge base_event event);
           mret (MkResult err event b)
         else _read_event fuel event (Some base_event));
      if err then mret false
      else
        (if decide (klass_id = EndiannessInfoEventKlass) then
           v ← some_or_undef (get_value 1 (string_bytes "endianness") event);
           e ← some_or_undef (endianness_of v);
           modify (set_endianness e)
         else mret ());;
        _call_callbacks event;;
        mret true.

(** while (_is_running); [fuel] bounds the number of events. *)
Fixpoint read_events_loop (depth fuel : nat) : RD () :=
  match fuel with
  | O => nofuel
  | Datatypes.S fuel =>
      running ← running_of;
      if (running : bool) then
        more ← read_one depth;
        if (more : bool) then read_events_loop depth fuel else mret ()
      else mret ()
  end.

Definition _read_events (depth fuel : nat) : RD () :=
  read_events_loop depth fuel;;
  modify (set_running false).

(** start() on a stream that starts, and the thread to its end. *)
Definition start_and_wait (depth fuel : nat) : RD () :=
  modify (set_running true);;
  _read_events depth fuel.

(** The rounds of that loop when stop() sets the flag after [k] of them:
    false if the stream ended before. *)
Fixpoint read_rounds (depth k : nat) : RD bool :=
  match k with
  | O => mret true
  | Datatypes.S k =>
      more ← read_one depth;
      if (more : bool) then read_rounds depth k else mret false
  end.

(** start() on a stream that starts, and stop() so that the thread has gone
    through [k] rounds when it tests the flag again.  stop() joins that thread,
    which never ends if it is in a call of the stream that [waits], and then
    stops the stream, which may not return either ([stops]). *)
Definition start_and_stop (waits stops : S -> bool) (depth k : nat) : RD () :=
  modify (set_running true);;
  flag_seen ← read_rounds depth k;
  modify (set_running false);;
  s ← gets _stream;
  if negb flag_seen && waits s then nofuel
  else if stops s then mret () else nofuel.

End reader.
