(* ===== verification/Decode.v ===== *)
(** What the protocol reader makes of the bytes of one event, in the mode in
    which structures are flattened: the values that were written, under the
    names of their fields, whatever the byte orders of the two machines. *)
From S2P Require Import Prelude Alloc BaseTypes Memory Events Listeners Registry Endian Parser Reader.

Definition ts_name : bytes := string_bytes "timestamp".

(** ** Events as maps *)

(** The timestamp that belongs to the values. *)
Definition stamp (vs : gmap bytes Value) : Z :=
  match vs !! ts_name with
  | Some (FNum _ z, _) => z mod 2 ^ 64
  | _ => u64 (-1)
  end.

(** The member of the union that was stored is the one of the field's type;
    a timestamp has 8 bytes. *)
Definition field_typed (f : EventKlassField) (v : FieldType) : Prop :=
  (get_name f = ts_name -> exists z, v = FNum 8 z) /\
  match get_field_type_id f with
  | STRING => exists s, v = FString s
  | STRUCT | POINTER => True
  | _ => exists n z, get_sizeof f = Some n /\ v = FNum n z
  end.

(** Values are kept under the names of their fields. *)
Definition well_named (vs : gmap bytes Value) : Prop :=
  map_Forall (fun key v => get_name v.2 = key /\ field_typed v.2 v.1) vs.

#[local] Arguments set_value : simpl never.
#[local] Arguments merge : simpl never.
#[local] Arguments string_bytes : simpl never.

Section events.
  Context `{Platform} `{UnorderedMap}.
  Implicit Types vs : gmap bytes Value.

Lemma native_value_native n z : native_value (native_bytes n z) = z mod 2 ^ (8 * Z.of_nat n).
Proof.
  rewrite native_bytes_on, native_value_bytes, decide_True by done. apply le_value_bytes.
Qed.

Lemma read_num_same n z : read_num n (FNum n z) = Some (z mod 2 ^ (8 * Z.of_nat n)).
Proof.
  simpl. rewrite decide_True by lia. rewrite take_ge by (by rewrite length_native_bytes). by rewrite native_value_native.
Qed.

Lemma insert_new_union {A} (key : bytes) (a : A) (m : gmap bytes A) : insert_new key a m = m ∪ {[key := a]}.
Proof.
  unfold insert_new. destruct (m !! key) as [x|] eqn:E; [by erewrite union_singleton_r|].
  by rewrite insert_union_singleton_r.
Qed.

Lemma well_named_union vs vs' : well_named vs -> well_named vs' -> well_named (vs ∪ vs').
Proof. apply map_Forall_union_2. Qed.

Lemma well_named_one f v : field_typed f v -> well_named {[get_name f := (v, f)]}.
Proof. intros Hv. by apply map_Forall_singleton. Qed.

Lemma set_value_spec k vs f v :
  well_named vs -> field_typed f v ->
  let vs' := vs ∪ {[get_name f := (v, f)]} in
  set_value f v (MkEvent k vs (stamp vs)) = Some (MkEvent k vs' (stamp vs')) /\ well_named vs'.
Proof.
  intros Hw Hv vs'. pose proof (well_named_union _ _ Hw (well_named_one f v Hv)) as Hw'. fold vs' in Hw'.
  split; [|done]. unfold set_value. rewrite insert_new_union. fold vs'.
  destruct (decide (get_name f = string_bytes "timestamp")) as [Hn|Hn].
  - unfold get_value. cbn [get_values]. destruct (vs' !! ts_name) as [[v' f']|] eqn:E.
    + destruct (Hw' _ _ E) as [Hn' [Hs _]]. destruct (Hs Hn') as [z Hz]. cbn in Hz. subst v'. unfold stamp. rewrite E.
      change (string_bytes "timestamp") with ts_name. rewrite E. change (read_num 8 (FNum 8 z) ≫= (fun t => Some (MkEvent k vs' t)) = Some (MkEvent k vs' (z mod 2 ^ 64))). by rewrite read_num_same.
    + apply lookup_union_None in E as [_ E]. unfold ts_name in E. by rewrite Hn, lookup_singleton_eq in E.
  - do 2 f_equal. unfold stamp. subst vs'. rewrite lookup_union_l; [done|]. by rewrite lookup_singleton_ne.
Qed.

(** Merging joins the values; those that are there already stay. *)
Lemma merge_spec k vs other :
  well_named vs -> well_named (get_values other) ->
  let vs' := vs ∪ get_values other in
  merge other (MkEvent k vs (stamp vs)) = Some (MkEvent k vs' (stamp vs')) /\ well_named vs'.
Proof.
  intros Hw Ho vs'. unfold merge. pose proof (elements_of_perm (get_values other)) as Hp.
  assert (Hnd : NoDup (elements_of (get_values other)).*1) by (rewrite Hp; apply NoDup_fst_map_to_list).
  assert (Ev : vs' = vs ∪ list_to_map (elements_of (get_values other))).
  { subst vs'. f_equal. by rewrite (list_to_map_proper _ _ Hnd Hp), list_to_map_to_list. }
  assert (HF : Forall (fun kv => get_name kv.2.2 = kv.1 /\ field_typed kv.2.2 kv.2.1) (elements_of (get_values other))).
  { rewrite Hp. apply map_Forall_to_list in Ho. eapply Forall_impl; [done|]. by intros [??]. }
  rewrite Ev. clear Hp Hnd Ho Ev vs'. revert vs Hw.
  induction HF as [|[key [v f]] l [Hn Hs] _ IH]; intros vs Hw; simpl in *; [by rewrite (right_id_L ∅ (∪))|].
  subst key. destruct (set_value_spec k vs f v Hw Hs) as [-> Hw']. destruct (IH _ Hw') as [-> Hw''].
  by rewrite insert_union_singleton_l, (assoc_L (∪)).
Qed.

End events.

Lemma field_typed_num f n z : is_numeric f = true -> get_sizeof f = Some n -> (get_name f = ts_name -> n = 8%nat) ->
  field_typed f (FNum n z).
Proof.
  intros Hnum Hsz Hts. split; [intros E; rewrite (Hts E); by eexists|].
  unfold is_numeric in Hnum. destruct (get_field_type_id f); first [done|by eexists _, _].
Qed.

Lemma field_typed_string f s : get_field_type_id f = STRING -> get_name f <> ts_name -> field_typed f (FString s).
Proof. intros Hty Hts. split; [done|]. rewrite Hty. by eexists. Qed.

(** ** The bytes after the header, and the values they hold *)

(** The encoding of an event without the HT_Event at its start, on a machine
    of byte order [e]. *)
Fixpoint body (e : HT_Endianness) (t : ctype) (v : cval) : option bytes :=
  match t, v with
  | Scalar _ _ n _, VScalar z => Some (bytes_on e n z)
  | CharPtr, VStr (Some s) => Some (s ++ [0])
  | HT_Event, VEvent _ _ _ => Some []
  | Struct _ fs, VStruct vs => encode_fields (fun t v => body e t v) fs vs
  | _, _ => None
  end.

(** Values by name, in the order of the fields; a structure stands for its
    fields. *)
Fixpoint flat_value (name : bytes) (t : ctype) (v : cval) : list (bytes * FieldType) :=
  match t, v with
  | Scalar _ _ n _, VScalar z => [(name, FNum n (z mod 2 ^ (8 * Z.of_nat n)))]
  | CharPtr, VStr (Some s) => [(name, FString s)]
  | Struct _ fs, VStruct vs =>
      (fix go fs vs :=
         match fs, vs with
         | f :: fs, v :: vs => flat_value (string_bytes f.1) f.2 v ++ go fs vs
         | _, _ => []
         end) fs vs
  | _, _ => []
  end.

Definition flat_values : list (string * ctype) -> list cval -> list (bytes * FieldType) :=
  fix go fs vs :=
    match fs, vs with
    | f :: fs, v :: vs => flat_value (string_bytes f.1) f.2 v ++ go fs vs
    | _, _ => []
    end.

(** Strings are there, and are C strings. *)
Fixpoint c_strings `{Alphabet} (v : cval) : Prop :=
  match v with
  | VStr (Some s) => Forall text s
  | VStr None => False
  | VStruct vs => (fix go vs := match vs with [] => True | v :: vs => c_strings v /\ go vs end) vs
  | _ => True
  end.

Lemma c_strings_struct `{Alphabet} vs : c_strings (VStruct vs) <-> Forall c_strings vs.
Proof.
  simpl. induction vs as [|v vs IH]; [by split|]. rewrite Forall_cons. by rewrite <- IH.
Qed.

(** How deep the structures are nested. *)
Fixpoint depth (t : ctype) : nat :=
  match t with
  | Struct _ fs => S (foldr (fun f d => Nat.max (depth f.2) d) 0%nat fs)
  | _ => 0%nat
  end.

Definition depths (fs : list (string * ctype)) : nat := foldr (fun f d => Nat.max (depth f.2) d) 0%nat fs.

(** ** Klasses of the parser that describe a declaration *)

Definition is_base (f : EventKlassField) : Prop :=
  get_field_type_id f = STRUCT /\ get_type_name f = string_bytes "HT_Event" /\ get_name f = string_bytes "base".

Section described.
  Context `{UnorderedMap}.

(** The fields the parser knows are those of the declaration: the HT_Event at
    the start has its own place on the wire and may be missing or be anywhere
    in the klass; structures are found by name. *)
Inductive described (register : klass_map) : list (string * ctype) -> list EventKlassField -> Prop :=
| described_nil : described register [] []
| described_base f fs pfs : is_base f -> described register fs pfs -> described register fs (f :: pfs)
| described_header name fs pfs : described register fs pfs -> described register ((name, HT_Event) :: fs) pfs
| described_num name d c n sg f fs pfs :
    get_name f = string_bytes name -> is_numeric f = true -> get_sizeof f = Some n ->
    (get_name f = ts_name -> n = 8%nat) ->
    described register fs pfs -> described register ((name, Scalar d c n sg) :: fs) (f :: pfs)
| described_string name f fs pfs :
    get_name f = string_bytes name -> get_field_type_id f = STRING -> get_name f <> ts_name ->
    described register fs pfs -> described register ((name, CharPtr) :: fs) (f :: pfs)
| described_struct name sname sfs f i k fs pfs :
    get_field_type_id f = STRUCT -> ~ is_base f ->
    get_klass_by_name (get_type_name f) register = Some i -> register !! i = Some k ->
    described register sfs (get_fields k) ->
    described register fs pfs -> described register ((name, Struct sname sfs) :: fs) (f :: pfs).

End described.

Section reading.
  Context {S C : Type} `{StreamLaws S} `{EventListener C} `{UnorderedMap} `{Platform}.
  Implicit Types r : ProtocolReader S C.

(** The reader has consumed bytes: [l] is left, nothing else has changed. *)
Definition advanced r (l : bytes) r' : Prop := exists s, stream_at s l /\ r' = set_stream s r.

Lemma advanced_trans r1 l1 r2 l2 r3 : advanced r1 l1 r2 -> advanced r2 l2 r3 -> advanced r1 l2 r3.
Proof. intros (s1&_&->) (s2&Hs&->). by exists s2. Qed.

Lemma advanced_at r l r' : advanced r l r' -> stream_at (_stream r') l.
Proof. by intros (s&Hs&->). Qed.

(** *** Strings *)

Lemma read_byte_spec r b l : stream_at (_stream r) (b :: l) -> text_byte b ->
  wp stream_read_byte (fun c r' => c = b /\ advanced r l r') r.
Proof.
  intros Hs Ht. unfold wp, stream_read_byte. destruct (read_byte_more _ _ _ Hs Ht) as (s'&->&Hs'). split; [done|]. by exists s'.
Qed.

Lemma read_string_loop_spec fuel r done s l data :
  stream_at (_stream r) (s ++ 0 :: l) -> Forall text s -> (length s < fuel)%nat ->
  take (length done) data = Some <$> done -> (length done < length data)%nat ->
  wp (read_string_loop fuel data (Z.of_nat (length done)))
     (fun v r' => v = Some (done ++ s) /\ advanced r l r') r.
Proof.
  revert fuel r done data. induction s as [|b s IH]; intros fuel r done' data Hs Hpos Hf Hd Hl;
    (destruct fuel as [|fuel]; [simpl in Hf; lia|]); cbn [read_string_loop].
  - eapply wp_call; [apply read_byte_spec; [done|apply text_nul]|]. intros c r1 [-> A1].
    destruct (decide (0 > 0)); [lia|]. destruct (decide (0 < 0)); [lia|].
    destruct (mem_write_spec data (Z.of_nat (length done')) [Some 0]) as (data'&->&Hl'&Ht&_&_); [lia|simpl; lia|].
    rewrite some_bind. rewrite Nat2Z.id, Hd in Ht.
    rewrite (mem_read_prefix data' (Some <$> done')) by (rewrite length_fmap; done). simpl.
    rewrite (mapM_fmap_Forall_Some id Some done') by (by apply Forall_true).
    rewrite some_bind. apply wp_ret. by rewrite app_nil_r.
  - apply Forall_cons in Hpos as [[Hb Htb] Hpos]. eapply wp_call; [by apply read_byte_spec|]. intros c r1 [-> A1].
    rewrite decide_True by lia.
    destruct (mem_write_spec data (Z.of_nat (length done')) [Some b]) as (data'&->&Hl'&_&Ht&_); [lia|simpl; lia|].
    rewrite some_bind. rewrite Nat2Z.id, Hd in Ht.
    replace (Z.of_nat (length done') + 1) with (Z.of_nat (length (done' ++ [b]))) by (rewrite length_app; simpl; lia).
    eapply wp_mono; [apply (IH fuel r1 (done' ++ [b]))|].
    + by eapply advanced_at.
    + done.
    + simpl in Hf. lia.
    + rewrite length_app, fmap_app. simpl.
      case_decide; [rewrite take_app_le by lia|]; simpl in Ht; by rewrite Ht.
    + rewrite length_app in *. simpl. case_decide as Hc; [rewrite length_app, length_replicate; lia|].
      apply (f_equal length) in Ht. rewrite length_take, length_app, length_fmap in Ht. simpl in Ht. lia.
    + intros v r' [-> A2]. rewrite <- app_assoc. split; [done|]. by eapply advanced_trans.
Qed.

Lemma read_string_spec fuel r s l :
  stream_at (_stream r) ((s ++ [0]) ++ l) -> Forall text s -> (length s < fuel)%nat ->
  wp (_read_string fuel) (fun v r' => v = Some (FString s) /\ advanced r l r') r.
Proof.
  intros Hs Hpos Hf. rewrite <- app_assoc in Hs. unfold _read_string.
  eapply wp_call; [apply (read_string_loop_spec fuel r [] s l); first [done|simpl; lia]|].
  intros v r' [-> A]. by apply wp_ret.
Qed.

(** *** Numbers *)

Lemma is_numeric_sizes f n : is_numeric f = true -> get_sizeof f = Some n -> n ∈ [1; 2; 4; 8]%nat.
Proof. unfold is_numeric, get_sizeof. intros Hn Hs. destruct (get_field_type_id f); simplify_eq; set_solver. Qed.

Lemma is_numeric_pos f n : is_numeric f = true -> get_sizeof f = Some n -> n <> 0%nat.
Proof. unfold is_numeric, get_sizeof. intros Hn Hs. by destruct (get_field_type_id f); simplify_eq. Qed.

Lemma read_numeric_spec f n z r l :
  is_numeric f = true -> get_sizeof f = Some n -> stream_at (_stream r) (bytes_on (_endianness r) n z ++ l) ->
  wp (_read_numeric f) (fun v r' => v = Some (FNum n (z mod 2 ^ (8 * Z.of_nat n))) /\ advanced r l r') r.
Proof.
  intros Hn Hs Hst. pose proof (is_numeric_sizes f n Hn Hs) as Hin. unfold _read_numeric. rewrite Hs, some_bind.
  assert (Hl : length (bytes_on (_endianness r) n z) = n)
    by (unfold bytes_on; destruct (_endianness r); by rewrite ?length_reverse, length_le_bytes).
  destruct (read_data_more _ _ _ Hst) as (s'&Hd&Hs'); [intros En; rewrite En in Hl; simpl in Hl; subst n; by apply (is_numeric_pos f 0 Hn Hs)|]. rewrite Hl in Hd.
  apply wp_bind. unfold wp at 1, stream_read_data. rewrite Hd.
  apply wp_bind. unfold wp at 1, endianness_now, gets. cbn [_endianness set_stream].
  pose proof (convert_spec (_endianness r) n z Hin) as Hc.
  assert (A : advanced r l (set_stream s' r)) by (by exists s').
  unfold get_sizeof in Hs. unfold is_numeric in Hn.
  destruct (get_field_type_id f); simplify_eq; apply wp_ret; split; try done; by rewrite Hc.
Qed.

Lemma read_numeric_end f n r :
  get_sizeof f = Some n -> n <> 0%nat -> stream_at (_stream r) [] ->
  wp (_read_numeric f) (fun v r' => v = None /\ r' = set_stream (read_data n (_stream r)).2 r) r.
Proof.
  intros Hs Hn Hst. unfold _read_numeric. rewrite Hs, some_bind. apply wp_bind. unfold wp at 1, stream_read_data.
  pose proof (read_data_end (_stream r) [] n Hst ltac:(simpl; lia)) as Hd.
  destruct (read_data n (_stream r)) as [o s]. simpl in Hd. subst o. apply wp_bind. unfold wp at 1, endianness_now, gets.
  by apply wp_ret.
Qed.

(** *** Fields *)

Lemma encode_fields_cons rec (f : string * ctype) fs vs bs : encode_fields rec (f :: fs) vs = Some bs ->
  exists v vs' x y, vs = v :: vs' /\ rec f.2 v = Some x /\ encode_fields rec fs vs' = Some y /\ bs = x ++ y.
Proof.
  destruct vs as [|v vs]; [done|]. simpl. intros E. destruct (rec f.2 v) as [x|] eqn:Ex; [|done]. simpl in E.
  destruct (encode_fields rec fs vs) as [y|] eqn:Ey; [|done]. simplify_eq/=. by exists v, vs, x, y.
Qed.

(** What reading the fields does to the values that are there. *)
Definition fields_read (k : option Z) (base : option parser_Event) r (l : bytes) (vals : gmap bytes Value)
    (new : list (bytes * FieldType)) (res : read_result) r' : Prop :=
  exists vals', res = MkResult false (MkEvent k vals' (stamp vals')) base /\ well_named vals' /\
    fst <$> vals' = (fst <$> vals) ∪ list_to_map new /\ advanced r l r'.

Lemma fields_read_trans k base r l vals vals1 new1 new r1 l1 res r' :
  fst <$> vals1 = (fst <$> vals) ∪ list_to_map new1 -> advanced r l1 r1 ->
  fields_read k base r1 l vals1 new res r' -> fields_read k base r l vals (new1 ++ new) res r'.
Proof.
  intros Ev A1 (vals'&->&Hw&E&A2). exists vals'. split_and!; try done; [|by eapply advanced_trans].
  by rewrite E, Ev, list_to_map_app, (assoc_L (∪)).
Qed.

Lemma fst_union (m1 m2 : gmap bytes Value) : fst <$> (m1 ∪ m2) = (fst <$> m1) ∪ (fst <$> m2).
Proof. apply map_fmap_union. Qed.

Lemma read_struct_base rec f event base r :
  is_base f -> _flat_events r = true ->
  wp (_read_struct rec f event base) (fun a r' => a = (Some FZero, event, base) /\ r' = r) r.
Proof.
  intros (_&Htn&Hn) Ef. unfold _read_struct. apply wp_bind. unfold wp at 1, flat_of, gets.
  rewrite !bool_decide_eq_true_2 by done. cbn [andb]. rewrite Ef. by apply wp_ret.
Qed.

(** A field that is stored under its name. *)
Lemma read_field_then (m : ST (ProtocolReader S C) (option FieldType * parser_Event * option parser_Event))
    fuel rec f pfs k vals base v l1 l new r :
  wp m (fun a r1 => a = (Some v, MkEvent k vals (stamp vals), base) /\ advanced r l1 r1) r ->
  field_typed f v -> well_named vals -> get_field_type_id f <> STRUCT ->
  (forall r1 vals1, advanced r l1 r1 -> well_named vals1 ->
     wp (read_fields fuel rec pfs (MkEvent k vals1 (stamp vals1)) base) (fields_read k base r1 l vals1 new) r1) ->
  wp ('(value, event, base_event) ← m;
      match value with
      | None => mret (MkResult true event base_event)
      | Some value =>
          flat ← flat_of;
          event ← (if (flat : bool) && bool_decide (get_field_type_id f = STRUCT) then mret event
                   else some_or_undef (set_value f value event));
          read_fields fuel rec pfs event base_event
      end) (fields_read k base r l vals ((get_name f, v) :: new)) r.
Proof.
  intros Hm Hv Hw Hns Hnext. eapply wp_call; [done|]. intros a r1 [-> A]. cbn beta iota.
  apply wp_bind. unfold wp at 1, flat_of, gets. rewrite bool_decide_eq_false_2, andb_false_r by done.
  destruct (set_value_spec k vals f v Hw Hv) as [-> Hw']. rewrite some_bind.
  eapply wp_mono; [by apply Hnext|]. intros res r'. apply (fields_read_trans _ _ _ _ _ _ [(get_name f, v)]) with l1; [|done].
  by rewrite fst_union, map_fmap_singleton.
Qed.

(** A structure, read into an event of its own and merged. *)
Lemma read_struct_sub fuel f i sk k vals base new l r :
  get_field_type_id f = STRUCT -> ~ is_base f -> _flat_events r = true -> well_named vals ->
  get_klass_by_name (get_type_name f) (_klass_register r) = Some i -> _klass_register r !! i = Some sk ->
  wp (read_fields fuel (_read_event fuel) (get_fields sk) (MkEvent (Some i) ∅ (stamp ∅)) base)
     (fields_read (Some i) base r l ∅ new) r ->
  wp (_read_struct (_read_event (Datatypes.S fuel)) f (MkEvent k vals (stamp vals)) base) (fun a r1 => exists vals1,
    a = (Some FZero, MkEvent k vals1 (stamp vals1), base) /\ well_named vals1 /\
    fst <$> vals1 = (fst <$> vals) ∪ list_to_map new /\ advanced r l r1) r.
Proof.
  intros Hty Hnb Ef Hw Hk Hi Hsub. unfold _read_struct. apply wp_bind. unfold wp at 1, flat_of, gets.
  assert (bool_decide (get_type_name f = string_bytes "HT_Event") && bool_decide (get_name f = string_bytes "base") = false)
    as -> by (apply not_true_is_false; rewrite andb_true_iff, !bool_decide_eq_true; unfold is_base in Hnb; tauto).
  apply wp_bind. unfold wp at 1, register_of, gets. rewrite Hk, Ef.
  eapply (wp_call _ _ (fields_read (Some i) base r l ∅ new)); [|intros a r1 (vals1&->&Hw1&E1&A); cbn beta iota].
  - cbn [_read_event]. apply wp_bind. unfold wp at 1, register_of, gets. cbn [get_klass_of new_event mbind option_bind].
    rewrite Hi, some_bind. exact Hsub.
  - destruct (merge_spec k vals (MkEvent (Some i) vals1 (stamp vals1)) Hw Hw1) as [-> Hw2]. rewrite some_bind.
    apply wp_ret. exists (vals ∪ vals1). split_and!; try done. rewrite fst_union, E1. f_equal. by rewrite fmap_empty, (left_id_L ∅ (∪)).
Qed.

Lemma read_fields_spec reg fs pfs :
  described reg fs pfs -> forall fuel r k vals base vs bs l,
  _klass_register r = reg -> _flat_events r = true -> well_named vals ->
  encode_fields (body (_endianness r)) fs vs = Some bs -> Forall c_strings vs ->
  (depths fs + length bs < fuel)%nat -> stream_at (_stream r) (bs ++ l) ->
  wp (read_fields fuel (_read_event fuel) pfs (MkEvent k vals (stamp vals)) base)
     (fields_read k base r l vals (flat_values fs vs)) r.
Proof.
  induction 1 as [|f fs pfs (Ht&Htn&Hn) Hd IH|name fs pfs Hd IH|name d c n sg f fs pfs Hn Hnum Hsz Hts Hd IH
                 |name f fs pfs Hn Hty Hts Hd IH|name sname sfs f i sk fs pfs Hty Hnb Hk Hi Hsd IHs Hd IH];
    intros fuel r k vals base vs bs l Er Ef Hw Eb Hc Hfuel Hst.
  - destruct vs; [|done]. simplify_eq/=. apply wp_ret. exists vals. split_and!; try done.
    + by rewrite (list_to_map_nil : list_to_map (flat_values [] []) = ∅), (right_id_L ∅ (∪)).
    + exists (_stream r). split; [done|]. by destruct r.
  - cbn [read_fields]. unfold is_numeric. rewrite Ht. cbn -[read_fields _read_struct set_value].
    eapply wp_call; [by apply (read_struct_base _ f _ _ r)|]. intros a r1 [-> ->]. cbn beta iota.
    apply wp_bind. unfold wp at 1, flat_of, gets. rewrite Ef. cbn [andb]. rewrite bool_decide_eq_true_2 by done.
    rewrite ret_bind. by eapply IH.
  - apply encode_fields_cons in Eb as (v&vs'&x&y&->&Ex&Ey&->). destruct v; simplify_eq/=.
    apply Forall_cons in Hc as [_ Hc]. by eapply IH.
  - apply encode_fields_cons in Eb as (v&vs'&x&y&->&Ex&Ey&->). destruct v as [z| | |]; simplify_eq/=.
    apply Forall_cons in Hc as [_ Hc]. rewrite <- app_assoc in Hst. rewrite length_app in Hfuel. rewrite <- Hn.
    apply read_field_then with (y ++ l); try done.
    + rewrite Hnum. cbn [orb]. eapply wp_call; [by eapply read_numeric_spec|]. intros v r1 [-> A]. by apply wp_ret.
    + by apply field_typed_num.
    + intros E. unfold is_numeric in Hnum. by rewrite E in Hnum.
    + intros r1 vals1 A Hw1. apply (IH _ _ _ _ _ _ y l); try done; [| | | |by eapply advanced_at]; try by destruct A as (?&_&->). lia.
  - apply encode_fields_cons in Eb as (v&vs'&x&y&->&Ex&Ey&->). destruct v as [|[st|]| |]; simplify_eq/=.
    apply Forall_cons in Hc as [Hcs Hc]. rewrite <- app_assoc in Hst. rewrite !length_app in Hfuel. simpl in Hfuel. rewrite <- Hn.
    apply read_field_then with (y ++ l); try done.
    + unfold is_numeric. rewrite Hty. cbn -[_read_string]. eapply wp_call; [apply read_string_spec; [done|done|lia]|].
      intros v r1 [-> A]. by apply wp_ret.
    + by apply field_typed_string.
    + by rewrite Hty.
    + intros r1 vals1 A Hw1. apply (IH _ _ _ _ _ _ y l); try done; [| | | |by eapply advanced_at]; try by destruct A as (?&_&->). lia.
  - apply encode_fields_cons in Eb as (v&vs'&x&y&->&Ex&Ey&->). destruct v as [| | |svs]; simplify_eq/=.
    apply Forall_cons in Hc as [Hcs Hc]. apply c_strings_struct in Hcs. rewrite <- app_assoc in Hst.
    rewrite !length_app in Hfuel. fold (depths sfs) (depths fs) in Hfuel.
    unfold is_numeric. rewrite Hty. cbn -[_read_struct set_value _read_event]. destruct fuel as [|fuel]; [lia|].
    eapply wp_call; [apply (read_struct_sub fuel f i sk _ _ _ (flat_values sfs svs) (y ++ l)); try done|].
    + eapply IHs; try done. lia.
    + intros a r1 (vals1&->&Hw1&E1&A). cbn beta iota. apply wp_bind. unfold wp at 1, flat_of, gets.
      assert (_flat_events r1 = true) as -> by (by destruct A as (?&_&->)). cbn [andb].
      rewrite bool_decide_eq_true_2, ret_bind by done.
      eapply wp_mono; [apply (IH _ _ _ _ _ vs' y l); try done; [| | | |by eapply advanced_at]; try by destruct A as (?&_&->)|]; [lia|].
      intros res r'. by eapply fields_read_trans.
Qed.

(** ** One event *)

(** The header is read like an event of three numbers. *)
Definition header_fields : list (string * ctype) :=
  [("klass_id", Scalar MKCREFLECT_TYPES_INTEGER "uint32_t" 4 false);
   ("timestamp", Scalar MKCREFLECT_TYPES_INTEGER "uint64_t" 8 false);
   ("id", Scalar MKCREFLECT_TYPES_INTEGER "uint64_t" 8 false)]%string.

Definition header_klass : parser_EventKlass :=
  make_klass "HT_Event" EventKlass_id
    [core_field "klass_id" "uint32_t" UINT32; core_field "timestamp" "uint64_t" UINT64; core_field "id" "uint64_t" UINT64].

Definition header_values (kid ts id : Z) : list (bytes * FieldType) :=
  flat_values header_fields [VScalar kid; VScalar ts; VScalar id].

Definition header_bytes (e : HT_Endianness) (kid ts id : Z) : bytes := bytes_on e 4 kid ++ bytes_on e 8 ts ++ bytes_on e 8 id.

(** An event of klass [kid] of the declaration [t], as the parser hands it to
    the listeners: the fields of the event, then those of the header, each
    name once. *)
Record decoded (kid ts id : Z) (t : ctype) (v : cval) (e : parser_Event) : Prop := {
  dec_klass : get_klass_of e = Some kid;
  dec_values : fst <$> get_values e = list_to_map (flat_value [] t v ++ header_values kid ts id);
  dec_named : well_named (get_values e);
  dec_stamp : get_event_timestamp e = stamp (get_values e)
}.

(** The register can tell the fields of the events of klass [kid]. *)
Definition knows (register : klass_map) (kid : Z) (t : ctype) : Prop :=
  register !! EventKlass_id = Some header_klass /\
  match t with
  | HT_Event => kid = EventKlass_id
  | Struct _ fs => kid <> EventKlass_id /\ exists k, register !! kid = Some k /\ described register fs (get_fields k)
  | _ => False
  end.

Lemma header_described register : described register header_fields (get_fields header_klass).
Proof. repeat (apply described_num; [done..|]). apply described_nil. Qed.

Lemma read_event_spec register fs k kid fuel r vs bs l base :
  described register fs (get_fields k) -> register !! kid = Some k ->
  _klass_register r = register -> _flat_events r = true ->
  encode_fields (body (_endianness r)) fs vs = Some bs -> Forall c_strings vs ->
  (depths fs + length bs + 1 < fuel)%nat -> stream_at (_stream r) (bs ++ l) ->
  wp (_read_event fuel (new_event (Some kid)) base) (fields_read (Some kid) base r l ∅ (flat_values fs vs)) r.
Proof.
  intros Hd Hk Er Ef Eb Hc Hf Hst. destruct fuel as [|fuel]; [lia|]. cbn [_read_event].
  apply wp_bind. unfold wp at 1, register_of, gets. rewrite Er. cbn [get_klass_of new_event mbind option_bind].
  rewrite Hk, some_bind. change (new_event (Some kid)) with (MkEvent (Some kid) ∅ (stamp ∅)).
  eapply (read_fields_spec register fs _ Hd _ _ _ ∅); try done. lia.
Qed.

Lemma flat_value_struct name n fs vs : flat_value name (Struct n fs) (VStruct vs) = flat_values fs vs.
Proof. done. Qed.

(** Reading an event hands it to the register and then to the listeners. *)
Lemma call_callbacks_spec e register r :
  handle_register_events e (_klass_register r) = Some register ->
  wp (_call_callbacks e) (fun _ r' => r' = set_listeners (on_new_event e (_listeners r)) (set_register register r)) r.
Proof.
  intros E. unfold _call_callbacks. apply wp_bind. unfold wp at 1, register_of, gets. by rewrite E.
Qed.

Lemma read_header_spec fuel r kid ts id l :
  _klass_register r !! EventKlass_id = Some header_klass -> _flat_events r = true ->
  (22 < fuel)%nat -> stream_at (_stream r) (header_bytes (_endianness r) kid ts id ++ l) ->
  wp (_read_event fuel (new_event (get_klass EventKlass_id (_klass_register r))) None)
     (fields_read (Some EventKlass_id) None r l ∅ (header_values kid ts id)) r.
Proof.
  intros Hk Ef Hf Hst. unfold get_klass. rewrite Hk.
  assert (Hl : forall n z, length (bytes_on (_endianness r) n z) = n)
    by (intros; unfold bytes_on; destruct (_endianness r); by rewrite ?length_reverse, length_le_bytes).
  apply (read_event_spec (_klass_register r) header_fields header_klass _ fuel r [VScalar kid; VScalar ts; VScalar id]
           (header_bytes (_endianness r) kid ts id)); try done.
  - apply header_described.
  - cbn [encode_fields header_fields body snd mbind option_bind]. by rewrite app_nil_r.
  - repeat constructor.
  - unfold header_bytes. rewrite !length_app, !Hl. simpl. lia.
Qed.

Lemma get_value_num n key z e : (fst <$> get_values e) !! key = Some (FNum n z) ->
  get_value n key e = Some (z mod 2 ^ (8 * Z.of_nat n)).
Proof.
  rewrite lookup_fmap_Some. intros ([w f]&E1&E2). simpl in E1. subst w. unfold get_value. rewrite E2.
  apply (read_num_same n z).
Qed.

Lemma get_value_string key st e : (fst <$> get_values e) !! key = Some (FString st) -> get_value_str key e = Some st.
Proof.
  rewrite lookup_fmap_Some. intros ([w f]&E1&E2). simpl in E1. subst w. unfold get_value_str. by rewrite E2.
Qed.

(** What the reader does with the endianness of the klass 0. *)
Definition next_endianness (kid : Z) (e : HT_Endianness) (ev : parser_Event) (e' : HT_Endianness) : Prop :=
  if decide (kid = EndiannessInfoEventKlass) then
    exists x, get_value 1 (string_bytes "endianness") ev = Some x /\ endianness_of x = Some e'
  else e' = e.

Lemma read_one_spec fuel r kid ts id t v b l register' e' :
  knows (_klass_register r) kid t -> _flat_events r = true -> 0 <= kid < 2 ^ 32 ->
  body (_endianness r) t v = Some b -> c_strings v -> (depth t + length b + 23 < fuel)%nat ->
  stream_at (_stream r) (header_bytes (_endianness r) kid ts id ++ b ++ l) ->
  (forall ev, decoded kid ts id t v ev ->
     handle_register_events ev (_klass_register r) = Some register' /\ next_endianness kid (_endianness r) ev e') ->
  wp (read_one fuel) (fun more r' => more = true /\ exists ev s, decoded kid ts id t v ev /\ stream_at s l /\
    r' = MkReader register' s (_is_running r) true e' (on_new_event ev (_listeners r))) r.
Proof.
  intros [Hh Hk] Ef Hid Eb Hc Hf Hst Hnext. unfold read_one.
  apply wp_bind. unfold wp at 1, register_of, gets. apply wp_bind. unfold wp at 1, flat_of, gets. rewrite Ef.
  eapply wp_call; [apply (read_header_spec fuel r kid ts id (b ++ l)); [done|done|lia|done]|].
  intros a r1 (hv&->&Hhw&Ehv&s1&Hs1&->). cbn beta iota. rewrite fmap_empty, (left_id_L ∅ (∪)) in Ehv.
  rewrite (get_value_num 4 _ (kid mod 2 ^ (8 * Z.of_nat 4))) by (cbn [get_values]; rewrite Ehv; apply lookup_insert_eq).
  rewrite some_bind, Z.mod_mod by done. change (8 * Z.of_nat 4) with 32. rewrite Z.mod_small by done.
  destruct t as [| | |n fs]; try done.
  - subst kid. rewrite decide_True by done. destruct v; try done. simplify_eq/=.
    set (ev := MkEvent (Some EventKlass_id) hv (stamp hv)). assert (Hd : decoded EventKlass_id ts id HT_Event (VEvent klass timestamp id0) ev) by done.
    destruct (Hnext _ Hd) as [Hr ->].
    eapply wp_call; [by apply call_callbacks_spec|]. intros [] r2 ->. apply wp_ret. split; [done|].
    exists ev, s1. split_and!; try done. by destruct r; simplify_eq/=.
  - destruct Hk as (Hne&k&Hkid&Hdesc). rewrite decide_False by done. destruct v as [| | |vs]; try done.
    apply c_strings_struct in Hc.
    unfold get_klass. rewrite Hkid.
    apply (wp_call _ _ (fun res r2 => exists ev s2, res = MkResult false ev None /\
      decoded kid ts id (Struct n fs) (VStruct vs) ev /\ stream_at s2 l /\ r2 = set_stream s2 r)).
    + eapply wp_call; [apply (read_event_spec (_klass_register r) fs k kid fuel (set_stream s1 r) vs b l None); try done|].
      { simpl in Hf. fold (depths fs) in Hf. lia. }
      intros a r2 (vals&->&Hw&Evals&s2&Hs2&->). cbn beta iota. rewrite fmap_empty, (left_id_L ∅ (∪)) in Evals.
      destruct (merge_spec (Some kid) vals (MkEvent (Some EventKlass_id) hv (stamp hv)) Hw Hhw) as [-> Hw2].
      rewrite some_bind. apply wp_ret. eexists _, s2. split; [done|]. split; [|done]. split; try done.
      cbn [get_values]. by rewrite fst_union, Evals, Ehv, flat_value_struct, list_to_map_app.
    + intros a r2 (ev&s2&->&Hd&Hs2&->). cbn beta iota. destruct (Hnext _ Hd) as [Hr He].
      apply (wp_call _ _ (fun _ r3 => r3 = set_endianness e' (set_stream s2 r))).
      * unfold next_endianness in He. case_decide; [|subst e'; apply wp_ret; by destruct r].
        destruct He as (x&->&E). rewrite some_bind. unfold some_or_undef. by rewrite E.
      * intros [] r3 ->. eapply wp_call; [by apply call_callbacks_spec|]. intros [] r4 ->. apply wp_ret. split; [done|].
        exists ev, s2. split_and!; try done. by destruct r; simplify_eq/=.
Qed.

(** The end of the stream ends the loop, in the first call of a round. *)
Lemma read_one_end fuel r :
  _klass_register r !! EventKlass_id = Some header_klass -> (0 < fuel)%nat -> stream_at (_stream r) [] ->
  wp (read_one fuel) (fun more r' => more = false /\ r' = set_stream (read_data 4 (_stream r)).2 r) r.
Proof.
  intros Hh Hf Hst. destruct fuel as [|fuel]; [lia|]. unfold read_one.
  apply wp_bind. unfold wp at 1, register_of, gets. apply wp_bind. unfold wp at 1, flat_of, gets.
  eapply (wp_call _ _ (fun res r' => is_error res = true /\ r' = set_stream (read_data 4 (_stream r)).2 r)).
  - cbn [_read_event]. apply wp_bind. unfold wp at 1, register_of, gets. unfold get_klass. rewrite Hh.
    cbn [get_klass_of new_event mbind option_bind]. rewrite Hh, some_bind.
    change (get_fields header_klass) with
      [core_field "klass_id" "uint32_t" UINT32; core_field "timestamp" "uint64_t" UINT64; core_field "id" "uint64_t" UINT64].
    cbn [read_fields]. change (is_numeric (core_field "klass_id" "uint32_t" UINT32)) with true. cbn [orb].
    apply wp_bind. eapply wp_call; [by apply (read_numeric_end _ 4)|]. intros v r' [-> Hs]. by apply wp_ret, wp_ret.
  - intros [err ev b] r' [E Hs]. simpl in E. subst err. by apply wp_ret.
Qed.

End reading.

(** ** The encoding is a header and a body *)

Fixpoint event_header (v : cval) : option (ptr * Z * Z) :=
  match v with
  | VEvent k ts id => Some (k, ts, id)
  | VStruct (v :: _) => event_header v
  | _ => None
  end.

Lemma encode_body_plain `{Platform} `{Alphabet} ks fs vs bs :
  forallb (fun f : string * ctype => negb (is_struct f.2)) fs = true -> Forall c_strings vs ->
  encode_fields (encode ks) fs vs = Some bs -> encode_fields (body endianness) fs vs = Some bs.
Proof.
  revert vs bs. induction fs as [|[name t] fs IH]; intros vs bs Hf Hc E; [by destruct vs|].
  apply encode_fields_cons in E as (v&vs'&x&y&->&Ex&Ey&->). cbn [forallb snd] in *. apply andb_prop in Hf as [Hf1 Hf].
  apply Forall_cons in Hc as [Hc1 Hc].
  assert (body endianness t v = Some x) as Eb.
  { destruct t; try done; destruct v as [|[]| |]; try done. }
  cbn [encode_fields snd]. rewrite Eb. simpl. by rewrite (IH _ _ Hf Hc Ey).
Qed.

Lemma encode_split `{Platform} `{Alphabet} ks t v bs :
  event_struct t = true -> encode ks t v = Some bs -> c_strings v ->
  exists p ts id klass b, event_header v = Some (p, ts, id) /\ HT_EVENT_GET_KLASS v = Some p /\ ks !! p = Some klass /\
    body endianness t v = Some b /\ bs = header_bytes endianness (klass_id klass) ts id ++ b.
Proof.
  revert t v bs. fix IH 1. intros [| | |name fs] v bs Ht E Hc; try done.
  - destruct v as [| |k ts id|]; try done. simpl in E. destruct (ks !! k) as [klass|] eqn:Ek; [|done].
    simpl in E. injection E as <-. exists k, ts, id, klass, []. by rewrite app_nil_r.
  - destruct v as [| | |vs]; try done. destruct fs as [|[fname t] fs]; [done|]. apply c_strings_struct in Hc.
    cbn [event_struct snd] in Ht. apply andb_prop in Ht as [Ht Hp]. change (encode_fields (encode ks) ((fname, t) :: fs) vs = Some bs) in E.
    apply encode_fields_cons in E as (v&vs'&x&y&->&Ex&Ey&->). apply Forall_cons in Hc as [Hc1 Hc].
    destruct (IH t v x Ht Ex Hc1) as (p&ts&id&klass&b&Hh&Hg&Hk&Hb&->).
    exists p, ts, id, klass, (b ++ y). split_and!; try done; [|by rewrite app_assoc].
    cbn [body encode_fields snd]. rewrite Hb. simpl. by rewrite (encode_body_plain ks fs vs' y).
Qed.
