(* ===== verification/Ownership.v ===== *)
(** Who frees the values of the parser's events (parser/event.cpp).

    A Value is a union and a pointer to its field; strings and nested events
    are blocks of memory that the union points to.  Value has no destructor:
    the destructor of Event frees what its values point to, the copy
    constructor of Value copies it, and merge hands it over.  The events of
    [Parser] are values without addresses; here they have the addresses, and
    the state is the set of the blocks that are allocated. *)
From S2P Require Import Prelude Alloc BaseTypes Memory Events Listeners Registry Endian Parser Reader Decode.

#[local] Open Scope Z_scope.
#[local] Arguments string_bytes : simpl never.

(** ** Data *)

(** The union with what its pointers point to; [MZero] is the union with all
    bits zero (a null pointer, or the number 0), [MIndet] one that was not
    initialised. *)
Inductive omember : Set :=
| MIndet
| MZero
| MNum (n : nat) (z : Z)
| MString (p : ptr) (s : bytes)
| MEvent (p : ptr) (e : oevent)
with oevent : Set :=
| OEvent (klass : option Z) (values : list (bytes * (omember * option EventKlassField))) (timestamp : Z).

Abbreviation oslot := (bytes * (omember * option EventKlassField))%type.

Definition oklass (e : oevent) : option Z := let 'OEvent k _ _ := e in k.
Definition ovalues (e : oevent) : list oslot := let 'OEvent _ vs _ := e in vs.
Definition otimestamp (e : oevent) : Z := let 'OEvent _ _ t := e in t.

(** std::unordered_map: the elements in the order of the table; where a new
    element goes is not specified. *)
Class TableOrder := {
  table_insert : oslot -> list oslot -> list oslot;
  table_insert_perm : forall x l, table_insert x l ≡ₚ x :: l
}.

(** The blocks that are allocated. *)
Abbreviation live_blocks := (gset ptr).

(** malloc or new: a block that is not in use.  (Where memory is refused the
    program ends.) *)
Definition new_block : ST live_blocks ptr := fun live => let p := fresh live in Done (p, {[p]} ∪ live).

(** free or delete of a block. *)
Definition release (p : ptr) : ST live_blocks () := fun live => if decide (p ∈ live) then Done ((), live ∖ {[p]}) else Undef.

(** ** Operations *)

(** Value(const Value&), for a value with a field of type [t]; and the copy
    constructor of Event. *)
Fixpoint copy_member (t : FieldTypeId) (m : omember) : ST live_blocks omember :=
  match t with
  | STRING =>
      match m with
      | MString _ s => p ← new_block; mret (MString p s)
      | MZero => mret MZero
      | _ => undef
      end
  | STRUCT =>
      match m with
      | MEvent _ e => p ← new_block; e ← copy_event e; mret (MEvent p e)
      | MZero => mret MZero
      | _ => undef
      end
  | _ => mret m
  end
with copy_event (e : oevent) : ST live_blocks oevent :=
  let 'OEvent k vs t := e in
  vs ← (fix go (vs : list oslot) : ST live_blocks (list oslot) :=
          match vs with
          | [] => mret []
          | (key, (m, f)) :: vs =>
              m ← match f with Some f => copy_member (get_field_type_id f) m | None => mret MIndet end;
              vs ← go vs;
              mret ((key, (m, f)) :: vs)
          end) vs;
  mret (OEvent k vs t).

Definition copy_slot (s : oslot) : ST live_blocks oslot :=
  let '(key, (m, f)) := s in
  m ← match f with Some f => copy_member (get_field_type_id f) m | None => mret MIndet end;
  mret (key, (m, f)).

Fixpoint copy_slots (vs : list oslot) : ST live_blocks (list oslot) :=
  match vs with [] => mret [] | v :: vs => v ← copy_slot v; vs ← copy_slots vs; mret (v :: vs) end.

(** ~Event(). *)
Fixpoint destroy_event (e : oevent) : ST live_blocks () :=
  let 'OEvent _ vs _ := e in
  (fix go (vs : list oslot) : ST live_blocks () :=
     match vs with
     | [] => mret ()
     | (_, (m, f)) :: vs =>
         match f with
         | None => mret ()
         | Some f =>
             match get_field_type_id f with
             | STRING => match m with MString p _ => release p | MZero => mret () | _ => undef end
             | STRUCT => match m with MEvent p e => destroy_event e;; release p | MZero => mret () | _ => undef end
             | _ => mret ()
             end
         end;;
         go vs
     end) vs.

(** Event(Event&&): the event, and what is left of the one moved from. *)
Definition move_event (e : oevent) : oevent * oevent := (e, OEvent None [] (otimestamp e)).

(** Value(Value&&) swaps with a fresh value; operator=(Value&&) swaps and then
    drops the field of the other one; operator=(Value) swaps with a copy. *)
Definition value_move (other : omember * option EventKlassField) : (omember * option EventKlassField) * (omember * option EventKlassField) :=
  (other, (MIndet, None)).

Definition value_move_assign (v other : omember * option EventKlassField) : (omember * option EventKlassField) * (omember * option EventKlassField) :=
  (other, (v.1, None)).

Definition find_slot (key : bytes) (vs : list oslot) : option (omember * option EventKlassField) :=
  snd <$> (snd <$> list_find (fun s : oslot => s.1 = key) vs).

(** The member as a value of [Parser]: without addresses. *)
Fixpoint view_member (m : omember) : FieldType :=
  match m with
  | MIndet | MZero => FZero
  | MNum n z => FNum n z
  | MString _ s => FString s
  | MEvent _ e => FEvent (view_event e)
  end
with view_event (e : oevent) : parser_Event :=
  let 'OEvent k vs t := e in
  MkEvent k (list_to_map ((fix go (vs : list oslot) : list (bytes * Value) :=
    match vs with
    | [] => []
    | (key, (m, Some f)) :: vs => (key, (view_member m, f)) :: go vs
    | (_, (_, None)) :: vs => go vs
    end) vs)) t.

Section operations.
  Context `{Platform} `{TableOrder}.

(** _values.insert: an element that is there stays, and the new value is then
    in no event. *)
Definition insert_slot (f : EventKlassField) (m : omember) (vs : list oslot) : list oslot :=
  match find_slot (get_name f) vs with Some _ => vs | None => table_insert (get_name f, (m, Some f)) vs end.

(** set_value(field, value). *)
Definition oset_value (f : EventKlassField) (m : omember) (e : oevent) : option oevent :=
  let 'OEvent k vs t := e in
  let vs := insert_slot f m vs in
  if decide (get_name f = string_bytes "timestamp") then
    v ← find_slot (string_bytes "timestamp") vs; t ← read_num 8 (view_member v.1); Some (OEvent k vs t)
  else Some (OEvent k vs t).

(** The loop of merge: the event, and the values of the other one with the
    pointers that were handed over set to null. *)
Fixpoint merge_loop (vs : list oslot) (e : oevent) : option (oevent * list oslot) :=
  match vs with
  | [] => Some (e, [])
  | (key, (m, f)) :: vs =>
      f ← f;
      e ← oset_value f m e;
      let m := match get_field_type_id f with STRING | STRUCT => MZero | _ => m end in
      '(e, vs) ← merge_loop vs e;
      Some (e, (key, (m, Some f)) :: vs)
  end.

(** merge(Event event): the argument is destroyed when the function ends. *)
Definition omerge (other e : oevent) : ST live_blocks oevent :=
  '(e, vs) ← some_or_undef (merge_loop (ovalues other) e);
  destroy_event (OEvent (oklass other) vs (otimestamp other));;
  mret e.

(** operator=(const Event&), which the compiler makes: the values of the event
    that is assigned to are dropped without being freed. *)
Definition assign_event (other e : oevent) : ST live_blocks oevent := copy_event other.

End operations.

(** ** What an event owns *)

Fixpoint member_blocks (m : omember) : list ptr :=
  match m with
  | MString p _ => [p]
  | MEvent p e => p :: event_blocks e
  | _ => []
  end
with event_blocks (e : oevent) : list ptr :=
  let 'OEvent _ vs _ := e in List.flat_map (fun s => member_blocks s.2.1) vs.

Abbreviation slots_blocks := (List.flat_map (fun s : oslot => member_blocks s.2.1)).

(** The member fits the type of the field, and names are unique. *)
Fixpoint member_fits (t : FieldTypeId) (m : omember) : Prop :=
  match t, m with
  | STRING, (MString _ _ | MZero) => True
  | STRUCT, MZero => True
  | STRUCT, MEvent _ e => event_fits e
  | (STRING | STRUCT), _ => False
  | _, (MNum _ _ | MZero | MIndet) => True
  | _, _ => False
  end
with event_fits (e : oevent) : Prop :=
  let 'OEvent _ vs _ := e in
  NoDup vs.*1 /\
  (fix go (vs : list oslot) : Prop :=
     match vs with
     | [] => True
     | (key, (m, f)) :: vs =>
         match f with Some f => get_name f = key /\ member_fits (get_field_type_id f) m | None => False end /\ go vs
     end) vs.

(** ** Induction and equations *)

Section induction.
  Context (P : omember -> Prop) (Q : oevent -> Prop).
  Context (P_indet : P MIndet) (P_zero : P MZero) (P_num : forall n z, P (MNum n z)) (P_string : forall p s, P (MString p s)).
  Context (P_event : forall p e, Q e -> P (MEvent p e)).
  Context (Q_event : forall k vs t, Forall (fun s : oslot => P s.2.1) vs -> Q (OEvent k vs t)).

Fixpoint omember_nested_ind (m : omember) : P m :=
  match m with
  | MIndet => P_indet
  | MZero => P_zero
  | MNum n z => P_num n z
  | MString p s => P_string p s
  | MEvent p e => P_event p e (oevent_nested_ind e)
  end
with oevent_nested_ind (e : oevent) : Q e :=
  let 'OEvent k vs t := e in
  Q_event k vs t ((fix go (vs : list oslot) : Forall (fun s : oslot => P s.2.1) vs :=
    match vs with [] => Forall_nil_2 _ | s :: vs => Forall_cons_2 _ _ _ (omember_nested_ind s.2.1) (go vs) end) vs).

End induction.

Definition slot_fits (s : oslot) : Prop :=
  match s.2.2 with Some f => get_name f = s.1 /\ member_fits (get_field_type_id f) s.2.1 | None => False end.

Lemma event_fits_eq k vs t : event_fits (OEvent k vs t) <-> NoDup vs.*1 /\ Forall slot_fits vs.
Proof.
  cbn [event_fits]. apply and_iff_compat_l. induction vs as [|[key [m f]] vs IH]; [by split|]. by rewrite Forall_cons, <- IH.
Qed.

Lemma copy_event_eq k vs t live : copy_event (OEvent k vs t) live = (vs ← copy_slots vs; mret (OEvent k vs t)) live.
Proof.
  cbn [copy_event]. set (go := fix go (vs : list oslot) := _).
  assert (forall vs live, go vs live = copy_slots vs live) as E.
  { clear. intros vs. induction vs as [|[key [m f]] vs IH]; intros live; [done|]. simpl. unfold mbind, st_bind, mret, st_ret in *.
    destruct (match f with Some f => copy_member (get_field_type_id f) m | None => fun s => Done (MIndet, s) end live) as [[m' live']| |]; [|done|done].
    by rewrite IH. }
  unfold mbind, st_bind. by rewrite E.
Qed.

Definition destroy_slot (s : oslot) : ST live_blocks () :=
  match s.2.2 with
  | None => mret ()
  | Some f =>
      match get_field_type_id f with
      | STRING => match s.2.1 with MString p _ => release p | MZero => mret () | _ => undef end
      | STRUCT => match s.2.1 with MEvent p e => destroy_event e;; release p | MZero => mret () | _ => undef end
      | _ => mret ()
      end
  end.

Fixpoint destroy_slots (vs : list oslot) : ST live_blocks () :=
  match vs with [] => mret () | s :: vs => destroy_slot s;; destroy_slots vs end.

Lemma destroy_event_eq k vs t live : destroy_event (OEvent k vs t) live = destroy_slots vs live.
Proof.
  cbn [destroy_event]. revert live. induction vs as [|[key [m f]] vs IH]; intros live; [done|]. cbn [destroy_slots]. unfold mbind, st_bind.
  destruct (destroy_slot (key, (m, f)) live) as [[[] live']| |] eqn:E; unfold destroy_slot in E; cbn [fst snd] in E;
    unfold mbind, st_bind in E; rewrite E; [apply IH|done|done].
Qed.

(** ** Copies *)

(** The blocks [bs] were allocated, and nothing else happened. *)
Definition allocated (bs : list ptr) (live live' : live_blocks) : Prop :=
  NoDup bs /\ (forall p, p ∈ bs -> p ∉ live) /\ live' = list_to_set bs ∪ live.

Lemma allocated_nil live : allocated [] live live.
Proof. split; [constructor|]. split; [by intros p ?%not_elem_of_nil|]. set_solver. Qed.

Lemma allocated_app b1 b2 live live1 live2 : allocated b1 live live1 -> allocated b2 live1 live2 -> allocated (b1 ++ b2) live live2.
Proof.
  intros (N1&F1&->) (N2&F2&->). split.
  - apply NoDup_app. split_and!; try done. intros p Hp Hp2. apply (F2 p Hp2). set_solver.
  - rewrite list_to_set_app_L. set_solver.
Qed.

Lemma new_block_spec live : wp new_block (fun p live' => allocated [p] live live') live.
Proof.
  unfold new_block, wp. split; [apply NoDup_singleton|]. split; [|set_solver]. intros p ->%list_elem_of_singleton. apply is_fresh.
Qed.

(** A copy of the same content in memory of its own. *)
Definition copied_member (t : FieldTypeId) (m : omember) (live : live_blocks) (m' : omember) (live' : live_blocks) : Prop :=
  view_member m' = view_member m /\ member_fits t m' /\ allocated (member_blocks m') live live'.

Definition copied (e : oevent) (live : live_blocks) (e' : oevent) (live' : live_blocks) : Prop :=
  view_event e' = view_event e /\ event_fits e' /\ allocated (event_blocks e') live live'.

(** The values that a listener sees. *)
Definition view_slot (s : oslot) : option (bytes * Value) := match s.2.2 with Some f => Some (s.1, (view_member s.2.1, f)) | None => None end.

Lemma view_event_eq k vs t : view_event (OEvent k vs t) = MkEvent k (list_to_map (omap view_slot vs)) t.
Proof.
  cbn [view_event]. f_equal. f_equal. induction vs as [|[key [m [f|]]] vs IH]; [done|..]; cbn; by rewrite IH.
Qed.

Lemma copy_slots_spec vs :
  Forall (fun s => forall t live, member_fits t s.2.1 -> wp (copy_member t s.2.1) (copied_member t s.2.1 live) live) vs ->
  forall live, Forall slot_fits vs ->
  wp (copy_slots vs) (fun vs' live' => vs'.*1 = vs.*1 /\ omap view_slot vs' = omap view_slot vs /\ Forall slot_fits vs' /\
    allocated (slots_blocks vs') live live') live.
Proof.
  induction 1 as [|[key [m f]] vs Hm _ IH]; intros live HF.
  { split_and!; try done. apply allocated_nil. }
  apply Forall_cons in HF as [Hs HF]. unfold slot_fits in Hs. cbn [fst snd] in *. destruct f as [f|]; [|done]. destruct Hs as [Hk Hs].
  cbn [copy_slots copy_slot]. apply wp_bind. eapply wp_call; [by apply Hm|]. intros m' live1 (Ev&Hf&A1). wp_step.
  eapply wp_call; [by apply IH|]. intros vs' live2 (Ek&Evs&HF'&A2). wp_step. split_and!.
  - cbn. by rewrite Ek.
  - cbn. by rewrite Ev, Evs.
  - constructor; [by split|done].
  - by eapply allocated_app.
Qed.

Lemma copy_spec : (forall m t live, member_fits t m -> wp (copy_member t m) (copied_member t m live) live) /\
  (forall e live, event_fits e -> wp (copy_event e) (copied e live) live).
Proof.
  set (P := fun m => forall t live, member_fits t m -> wp (copy_member t m) (copied_member t m live) live).
  set (Q := fun e => forall live, event_fits e -> wp (copy_event e) (copied e live) live).
  assert (forall t m live, member_blocks m = [] -> member_fits t m -> wp (mret m) (copied_member t m live) live) as Hsame.
  { intros t m live Hb Hf. split_and!; try done. rewrite Hb. apply allocated_nil. }
  assert (P MIndet /\ P MZero /\ (forall n z, P (MNum n z)) /\ (forall p s, P (MString p s)) /\ (forall p e, Q e -> P (MEvent p e)) /\
    (forall k vs t, Forall (fun s : oslot => P s.2.1) vs -> Q (OEvent k vs t))) as (H1&H2&H3&H4&H5&H6).
  { split_and!.
    - intros [] live Hf; first [done|by apply Hsame].
    - intros [] live Hf; by apply Hsame.
    - intros n z [] live Hf; first [done|by apply Hsame].
    - intros p s [] live Hf; try done. cbn [copy_member]. eapply wp_call; [apply new_block_spec|]. intros q live' A. wp_step. by split_and!.
    - intros p e HQ [] live Hf; try done. cbn [copy_member]. eapply wp_call; [apply new_block_spec|]. intros q live1 A1.
      eapply wp_call; [by apply HQ|]. intros e' live2 (Ev&Hf'&A2). wp_step. split_and!; [cbn; by rewrite Ev|done|].
      exact (allocated_app [q] _ _ _ _ A1 A2).
    - intros k vs t HF live [HN Hf]%event_fits_eq. unfold wp. rewrite copy_event_eq. fold (wp (vs ← copy_slots vs; mret (OEvent k vs t)) (copied (OEvent k vs t) live) live).
      eapply wp_call; [by apply copy_slots_spec|]. intros vs' live' (Ek&Ev&Hf'&A). wp_step. split_and!.
      + by rewrite !view_event_eq, Ev.
      + apply event_fits_eq. by rewrite Ek.
      + done. }
  split; [exact (omember_nested_ind P Q H1 H2 H3 H4 H5 H6)|exact (oevent_nested_ind P Q H1 H2 H3 H4 H5 H6)].
Qed.

(** ** Destruction *)

Definition freed (bs : list ptr) (live live' : live_blocks) : Prop := live' = live ∖ list_to_set bs.

Lemma freed_app b1 b2 live live1 live2 : freed b1 live live1 -> freed b2 live1 live2 -> freed (b1 ++ b2) live live2.
Proof. unfold freed. intros -> ->. rewrite list_to_set_app_L. set_solver. Qed.

Lemma release_block_spec p live : p ∈ live -> wp (release p) (fun _ live' => freed [p] live live') live.
Proof. intros Hp. unfold wp, release, freed. rewrite decide_True by done. set_solver. Qed.

(** A sequence of blocks that can be freed one after the other. *)
Definition owned (bs : list ptr) (live : live_blocks) : Prop := NoDup bs /\ forall p, p ∈ bs -> p ∈ live.

Lemma owned_app b1 b2 live live1 : owned (b1 ++ b2) live -> freed b1 live live1 -> owned b1 live /\ owned b2 live1.
Proof.
  intros [(N1&Nd&N2)%NoDup_app Hin] ->. split; [split; [done|set_solver]|]. split; [done|]. intros p Hp.
  assert (p ∉ b1) by (intros ?; by eapply Nd). set_solver.
Qed.

Lemma destroy_slots_spec vs :
  Forall (fun s => forall t key f live, get_field_type_id f = t -> member_fits t s.2.1 -> owned (member_blocks s.2.1) live ->
    wp (destroy_slot (key, (s.2.1, Some f))) (fun _ live' => freed (member_blocks s.2.1) live live') live) vs ->
  forall live, Forall slot_fits vs -> owned (slots_blocks vs) live ->
  wp (destroy_slots vs) (fun _ live' => freed (slots_blocks vs) live live') live.
Proof.
  induction 1 as [|[key [m f]] vs Hm _ IH]; intros live HF Ho.
  { cbn. unfold wp. cbn. unfold freed. set_solver. }
  apply Forall_cons in HF as [Hs HF]. unfold slot_fits in Hs. cbn [fst snd] in *. destruct f as [f|]; [|done]. destruct Hs as [Hk Hs].
  cbn [List.flat_map fst snd] in *. cbn [destroy_slots].
  eapply wp_call; [apply (Hm _ key f _ eq_refl Hs), (owned_app _ _ _ _ Ho eq_refl)|]. intros [] live1 F1.
  destruct (owned_app _ _ _ _ Ho F1) as [_ Ho2]. eapply wp_mono; [by apply IH|]. intros [] live2 F2. by eapply freed_app.
Qed.

Lemma destroy_event_spec e live : event_fits e -> owned (event_blocks e) live ->
  wp (destroy_event e) (fun _ live' => freed (event_blocks e) live live') live.
Proof.
  set (P := fun m => forall t key f live, get_field_type_id f = t -> member_fits t m -> owned (member_blocks m) live ->
    wp (destroy_slot (key, (m, Some f))) (fun _ live' => freed (member_blocks m) live live') live).
  set (Q := fun e => forall live, event_fits e -> owned (event_blocks e) live -> wp (destroy_event e) (fun _ live' => freed (event_blocks e) live live') live).
  assert (forall m key f live, member_blocks m = [] -> destroy_slot (key, (m, Some f)) live = Done (tt, live) ->
    wp (destroy_slot (key, (m, Some f))) (fun _ live' => freed (member_blocks m) live live') live) as Hnone.
  { intros m key f l Hb E. unfold wp. rewrite E, Hb. unfold freed. set_solver. }
  assert (P MIndet /\ P MZero /\ (forall n z, P (MNum n z)) /\ (forall p s, P (MString p s)) /\ (forall p e, Q e -> P (MEvent p e)) /\
    (forall k vs t, Forall (fun s : oslot => P s.2.1) vs -> Q (OEvent k vs t))) as (H1&H2&H3&H4&H5&H6).
  { split_and!.
    - intros t key f l Ht Hf Ho. apply Hnone; [done|]. unfold destroy_slot. cbn [fst snd]. rewrite Ht. by destruct t.
    - intros t key f l Ht Hf Ho. apply Hnone; [done|]. unfold destroy_slot. cbn [fst snd]. rewrite Ht. by destruct t.
    - intros n z t key f l Ht Hf Ho. apply Hnone; [done|]. unfold destroy_slot. cbn [fst snd]. rewrite Ht. by destruct t.
    - intros p s t key f l Ht Hf Ho. unfold destroy_slot. cbn [fst snd]. rewrite Ht. destruct t; try done. apply release_block_spec. apply Ho. by left.
    - intros p e' HQ t key f l Ht Hf Ho. unfold destroy_slot. cbn [fst snd]. rewrite Ht. destruct t; try done.
      cbn [member_blocks] in *. destruct Ho as [[Hp HN]%NoDup_cons Hin].
      eapply wp_call; [apply (HQ l Hf); split; [done|set_solver]|]. intros [] l1 F1. eapply wp_mono; [apply release_block_spec|].
      + rewrite F1. apply elem_of_difference. split; [apply Hin; by left|]. by rewrite elem_of_list_to_set.
      + intros [] l2 F2. unfold freed in *. rewrite F2, F1. cbn. set_solver.
    - intros k vs t HF l [HN Hf]%event_fits_eq Ho. unfold wp. rewrite destroy_event_eq.
      exact (destroy_slots_spec vs HF l Hf Ho). }
  exact (oevent_nested_ind P Q H1 H2 H3 H4 H5 H6 e live).
Qed.

(** ** Setting and merging *)

Lemma find_slot_cons key s vs : find_slot key (s :: vs) = if decide (s.1 = key) then Some s.2 else find_slot key vs.
Proof. unfold find_slot. cbn [list_find]. case_decide; [done|]. by destruct (list_find _ vs) as [[i x]|]. Qed.

Lemma find_slot_None key vs : find_slot key vs = None <-> key ∉ vs.*1.
Proof.
  induction vs as [|s vs IH]; [split; [by intros _ ?%not_elem_of_nil|done]|]. rewrite find_slot_cons. cbn [fmap list_fmap]. rewrite not_elem_of_cons.
  case_decide as E; [split; [done|by intros []]|]. rewrite IH. split; [|by intros []]. intros Hn. split; [by intros ->|done].
Qed.

Lemma find_slot_field key vs v : Forall slot_fits vs -> find_slot key vs = Some v -> is_Some v.2.
Proof.
  induction 1 as [|s vs Hs HF IH]; intros E; [done|]. rewrite find_slot_cons in E. case_decide; [|by apply IH]. injection E as <-.
  unfold slot_fits in Hs. by destruct s.2.2.
Qed.

Definition view_values (vs : list oslot) : gmap bytes Value := list_to_map (omap view_slot vs).

Lemma view_values_cons s vs : slot_fits s ->
  exists f, s.2.2 = Some f /\ get_name f = s.1 /\ view_values (s :: vs) = <[s.1 := (view_member s.2.1, f)]> (view_values vs).
Proof. destruct s as [key [m [f|]]]; intros Hs; [|done]. destruct Hs as [Hk _]. by exists f. Qed.

Lemma find_slot_view key vs : Forall slot_fits vs ->
  view_values vs !! key = (find_slot key vs ≫= fun v => f ← v.2; Some (view_member v.1, f)).
Proof.
  induction 1 as [|s vs Hs HF IH]; [done|]. destruct (view_values_cons s vs Hs) as (f&Ef&Hk&->). rewrite find_slot_cons. case_decide as E.
  - subst key. rewrite lookup_insert_eq. cbn [mbind option_bind]. by rewrite Ef.
  - by rewrite lookup_insert_ne.
Qed.

Lemma view_values_perm vs vs' : NoDup vs.*1 -> Forall slot_fits vs -> vs ≡ₚ vs' -> view_values vs = view_values vs'.
Proof.
  intros HN HF Hp. apply list_to_map_proper; [|by rewrite Hp]. assert ((omap view_slot vs).*1 = vs.*1) as ->; [|done]. clear HN Hp vs'.
  induction HF as [|[key [m [f|]]] vs Hs HF IH]; [done| |done]. cbn. by rewrite IH.
Qed.

Section merging.
  Context `{Platform} `{TableOrder} `{UnorderedMap}.

Lemma slots_blocks_perm vs vs' : vs ≡ₚ vs' -> slots_blocks vs ≡ₚ slots_blocks vs'.
Proof.
  induction 1 as [|x l l' _ IH|x y l|l l' l'' _ IH1 _ IH2]; [done|..].
  - cbn. by rewrite IH.
  - cbn. rewrite !(assoc_L (++)). f_equiv. apply Permutation_app_comm.
  - by transitivity (slots_blocks l').
Qed.

Lemma insert_slot_spec f m vs : NoDup vs.*1 -> Forall slot_fits vs -> member_fits (get_field_type_id f) m ->
  let vs' := insert_slot f m vs in
  NoDup vs'.*1 /\ Forall slot_fits vs' /\ view_values vs' = insert_new (get_name f) (view_member m, f) (view_values vs) /\
  (forall key, key ∈ vs'.*1 <-> key = get_name f \/ key ∈ vs.*1) /\
  slots_blocks vs' ≡ₚ slots_blocks vs ++ (if decide (get_name f ∈ vs.*1) then [] else member_blocks m).
Proof.
  intros HN HF Hm. unfold insert_slot, insert_new. rewrite find_slot_view by done. destruct (find_slot (get_name f) vs) as [v|] eqn:E.
  - assert (get_name f ∈ vs.*1) as Hin.
    { destruct (decide (get_name f ∈ vs.*1)) as [|Hn]; [done|]. apply find_slot_None in Hn. congruence. }
    rewrite decide_True by done. cbn zeta. split_and!; [done|done| |set_solver|by rewrite app_nil_r].
    destruct (find_slot_field _ _ _ HF E) as [f' Ef].
    cbn [mbind option_bind]. by rewrite Ef.
  - pose proof E as Hn%find_slot_None. rewrite decide_False by done. cbn zeta. set (s := (get_name f, (m, Some f))).
    pose proof (table_insert_perm s vs) as Hp. assert (slot_fits s) as Hs by (by split).
    assert (NoDup (s :: vs).*1) as HN' by (by apply NoDup_cons). assert (Forall slot_fits (s :: vs)) as HF' by (by constructor). split_and!.
    + by rewrite Hp.
    + by rewrite Hp.
    + symmetry in Hp. rewrite <- (view_values_perm _ _ HN' HF' Hp). done.
    + intros key. rewrite Hp. cbn. by rewrite elem_of_cons.
    + rewrite (slots_blocks_perm _ _ Hp). cbn. by rewrite Permutation_app_comm.
Qed.

(** set_value does to the values what the one of [Parser] does. *)
Lemma oset_value_spec f m k vs t : NoDup vs.*1 -> Forall slot_fits vs -> member_fits (get_field_type_id f) m ->
  view_event <$> oset_value f m (OEvent k vs t) = set_value f (view_member m) (view_event (OEvent k vs t)) /\
  forall e, oset_value f m (OEvent k vs t) = Some e -> exists t', e = OEvent k (insert_slot f m vs) t'.
Proof.
  intros HN HF Hm. destruct (insert_slot_spec f m vs HN HF Hm) as (_&HF'&Ev&_&_). rewrite !view_event_eq. unfold oset_value, set_value.
  fold (view_values vs). rewrite <- Ev. cbn [get_values]. case_decide as Hts.
  - unfold get_value. cbn [get_values]. rewrite find_slot_view by done.
    destruct (find_slot (string_bytes "timestamp") (insert_slot f m vs)) as [[m' f']|] eqn:Es; cbn [mbind option_bind fmap option_fmap option_map fst snd]; [|done].
    destruct (find_slot_field _ _ _ HF' Es) as [f1 Ef]. cbn [snd] in Ef. subst f'.
    cbn [mbind option_bind fst]. destruct (read_num 8 (view_member m')) as [z|]; cbn [mbind option_bind fmap option_fmap option_map]; [|done].
    rewrite view_event_eq. split; [done|]. intros e [= <-]. by eexists.
  - cbn [fmap option_fmap option_map]. rewrite view_event_eq. split; [done|]. intros e [= <-]. by eexists.
Qed.

(** The values that merge hands over, and those it loses: their names are
    there already. *)
Definition taken (keys : list bytes) (vs : list oslot) : list oslot := filter (fun s => s.1 ∉ keys) vs.
Definition lost (keys : list bytes) (vs : list oslot) : list oslot := filter (fun s => s.1 ∈ keys) vs.

Lemma taken_cons keys s vs : taken keys (s :: vs) = (if decide (s.1 ∈ keys) then [] else [s]) ++ taken keys vs.
Proof. unfold taken. rewrite filter_cons. by repeat case_decide. Qed.

Lemma taken_more keys keys' key vs : key ∉ vs.*1 -> (forall k, k ∈ keys' <-> k = key \/ k ∈ keys) -> taken keys' vs = taken keys vs.
Proof.
  intros Hn Hk. induction vs as [|s vs IH]; [done|]. cbn [fmap list_fmap] in Hn. apply not_elem_of_cons in Hn as [Hs Hn].
  rewrite !taken_cons, IH by done. f_equal. specialize (Hk s.1). repeat case_decide; set_solver.
Qed.

(** What merge leaves in a value: no pointer. *)
Lemma nulled_fits f key m : member_fits (get_field_type_id f) m -> get_name f = key ->
  let m' := match get_field_type_id f with STRING | STRUCT => MZero | _ => m end in
  slot_fits (key, (m', Some f)) /\ member_blocks m' = [].
Proof. intros Hm Hk. unfold slot_fits. cbn [fst snd]. destruct (get_field_type_id f), m; done. Qed.

Lemma merge_loop_spec vs : NoDup vs.*1 -> Forall slot_fits vs -> well_named (view_values vs) ->
  forall k es, NoDup es.*1 -> Forall slot_fits es -> well_named (view_values es) ->
  exists es' vs', merge_loop vs (OEvent k es (stamp (view_values es))) = Some (OEvent k es' (stamp (view_values es')), vs') /\
    NoDup es'.*1 /\ Forall slot_fits es' /\ view_values es' = view_values es ∪ view_values vs /\
    slots_blocks es' ≡ₚ slots_blocks es ++ slots_blocks (taken es.*1 vs) /\
    vs'.*1 = vs.*1 /\ Forall slot_fits vs' /\ slots_blocks vs' = [].
Proof.
  intros HN HF. induction HF as [|[key [m f]] vs Hs HF IH]; intros Hw k es HNe HFe Hwe.
  { exists es, []. cbn. rewrite (right_id_L ∅ (∪)), app_nil_r. by split_and!. }
  cbn [fmap list_fmap fst] in HN. apply NoDup_cons in HN as [Hni HN].
  destruct (view_values_cons (key, (m, f)) vs Hs) as (f'&Ef&Hk&Ev). cbn [fst snd] in Ef, Hk, Ev. subst f. destruct Hs as [_ Hm]. cbn [fst snd] in Hm.
  assert (view_values vs !! key = None) as Hnone by (rewrite find_slot_view by done; by rewrite (proj2 (find_slot_None key vs) Hni)).
  rewrite Ev in Hw. apply map_Forall_insert in Hw as [[_ Hty] Hw]; [|done]. cbn [fst snd] in Hty.
  destruct (oset_value_spec f' m k es (stamp (view_values es)) HNe HFe Hm) as [Eset Hset].
  destruct (insert_slot_spec f' m es HNe HFe Hm) as (HN1&HF1&Ev1&Hkeys&Hb1).
  rewrite view_event_eq in Eset. fold (view_values es) in Eset.
  destruct (set_value_spec k (view_values es) f' (view_member m) Hwe Hty) as [Es Hw1]. rewrite Es in Eset.
  destruct (oset_value f' m (OEvent k es (stamp (view_values es)))) as [e1|] eqn:E1; [|done]. cbn [fmap option_fmap option_map] in Eset.
  destruct (Hset e1 eq_refl) as [t1 ->]. rewrite view_event_eq in Eset. fold (view_values (insert_slot f' m es)) in Eset.
  injection Eset as Evv ->. rewrite <- Evv in Hw1.
  destruct (IH HN Hw k (insert_slot f' m es) HN1 HF1 Hw1) as (es'&vs'&El&HN'&HF'&Ev'&Hb'&Ek'&HFv'&Hbv').
  destruct (nulled_fits f' key m Hm Hk) as [Hnf Hnb].
  eexists es', (_ :: vs'). cbn [merge_loop mbind option_bind]. rewrite E1. cbn [mbind option_bind]. rewrite <- Evv, El. cbn [mbind option_bind].
  split; [reflexivity|]. split_and!; [done|done| | | | |].
  - rewrite Ev', Evv, Ev, insert_union_singleton_l, Hk. by rewrite (assoc_L (∪)).
  - rewrite Hb', Hb1, <- (assoc_L (++)). f_equiv. rewrite (taken_more es.*1 _ key), taken_cons by (done || by rewrite <- Hk). cbn [fst]. rewrite Hk.
    destruct (decide (key ∈ es.*1)); cbn; rewrite ?app_nil_r; reflexivity.
  - cbn. by rewrite Ek'.
  - by constructor.
  - cbn [List.flat_map fst snd]. by rewrite Hnb, Hbv'.
Qed.

(** merge(std::move(other)): what [Parser] says of the values; the blocks of
    the values that were taken belong to the event now, nothing is freed, and
    the blocks of the others are lost. *)
Lemma omerge_spec k es ko vs to live :
  event_fits (OEvent ko vs to) -> event_fits (OEvent k es (stamp (view_values es))) -> well_named (view_values vs) -> well_named (view_values es) ->
  wp (omerge (OEvent ko vs to) (OEvent k es (stamp (view_values es)))) (fun e' live' => live' = live /\ event_fits e' /\
    merge (view_event (OEvent ko vs to)) (view_event (OEvent k es (stamp (view_values es)))) = Some (view_event e') /\
    event_blocks e' ≡ₚ slots_blocks es ++ slots_blocks (taken es.*1 vs)) live.
Proof.
  intros [HN HF]%event_fits_eq [HNe HFe]%event_fits_eq Hw Hwe.
  destruct (merge_loop_spec vs HN HF Hw k es HNe HFe Hwe) as (es'&vs'&El&HN'&HF'&Ev'&Hb'&Ek'&HFv'&Hbv').
  unfold omerge. cbn [ovalues oklass otimestamp]. rewrite El, some_bind.
  eapply wp_call; [apply destroy_event_spec; [apply event_fits_eq; by rewrite Ek'|split; cbn [event_blocks]; rewrite Hbv'; [constructor|by intros p ?%not_elem_of_nil]]|].
  intros [] live' Hfr. cbn [event_blocks] in Hfr. rewrite Hbv' in Hfr. wp_step. split_and!.
  - unfold freed in Hfr. set_solver.
  - by apply event_fits_eq.
  - rewrite !view_event_eq. fold (view_values vs) (view_values es) (view_values es').
    destruct (merge_spec k (view_values es) (MkEvent ko (view_values vs) to) Hwe Hw) as [Em _]. cbn [get_values] in Em. by rewrite Em, Ev'.
  - done.
Qed.

End merging.

(** ** Programs that use events *)

(** Events by name; a name that is not in use stands for nothing to do. *)
Inductive event_op :=
| NewEvent (i : Z) (klass : option Z)
| SetNumber (i : Z) (f : EventKlassField) (n : nat) (z : Z)
| SetString (i : Z) (f : EventKlassField) (s : bytes)
| SetEvent (i : Z) (f : EventKlassField) (j : Z)
| CopyEvent (i j : Z)
| MergeEvent (i j : Z)
| AssignEvent (i j : Z)
| DestroyEvent (i : Z).

Abbreviation event_store := (gmap Z oevent * live_blocks)%type.

Section programs.
  Context `{Platform} `{TableOrder}.

(** An operation on the memory, with the events at hand. *)
Definition on_blocks {A} (m : ST live_blocks A) : ST event_store A := fun s =>
  match m s.2 with Done (a, live) => Done (a, (s.1, live)) | Undef => Undef | NoFuel => NoFuel end.

Definition put_event (i : Z) (e : oevent) : ST event_store () := modify (fun s => (<[i := e]> s.1, s.2)).
Definition drop_event (i : Z) : ST event_store () := modify (fun s => (delete i s.1, s.2)).

Definition run_op (op : event_op) : ST event_store () :=
  evs ← gets fst;
  match op with
  | NewEvent i k => match evs !! i with None => put_event i (OEvent k [] (u64 (-1))) | Some _ => mret () end
  | SetNumber i f n z =>
      match evs !! i with
      | Some e => e ← some_or_undef (oset_value f (MNum n z) e); put_event i e
      | None => mret ()
      end
  | SetString i f s =>
      match evs !! i with
      | Some e => p ← on_blocks new_block; e ← some_or_undef (oset_value f (MString p s) e); put_event i e
      | None => mret ()
      end
  | SetEvent i f j =>
      match evs !! i, evs !! j with
      | Some e, Some sub =>
          if decide (i = j) then mret ()
          else
            p ← on_blocks new_block;
            let '(sub, rest) := move_event sub in
            e ← some_or_undef (oset_value f (MEvent p sub) e);
            on_blocks (destroy_event rest);;
            drop_event j;;
            put_event i e
      | _, _ => mret ()
      end
  | CopyEvent i j =>
      match evs !! i, evs !! j with
      | Some e, None => e' ← on_blocks (copy_event e); put_event j e'
      | _, _ => mret ()
      end
  | MergeEvent i j =>
      match evs !! i, evs !! j with
      | Some e, Some other =>
          if decide (i = j) then mret ()
          else
            let '(other, rest) := move_event other in
            e ← on_blocks (omerge other e);
            on_blocks (destroy_event rest);;
            drop_event j;;
            put_event i e
      | _, _ => mret ()
      end
  | AssignEvent i j =>
      match evs !! i, evs !! j with
      | Some e, Some other => if decide (i = j) then mret () else e ← on_blocks (assign_event other e); put_event i e
      | _, _ => mret ()
      end
  | DestroyEvent i =>
      match evs !! i with
      | Some e => on_blocks (destroy_event e);; drop_event i
      | None => mret ()
      end
  end.

Fixpoint run_ops (ops : list event_op) : ST event_store () :=
  match ops with [] => mret () | op :: ops => run_op op;; run_ops ops end.

(** The values fit the fields they are set for. *)
Definition op_typed (op : event_op) : Prop :=
  match op with
  | SetNumber _ f n _ => is_numeric f = true /\ get_sizeof f = Some n /\ (get_name f = ts_name -> n = 8%nat)
  | SetString _ f _ => get_field_type_id f = STRING /\ get_name f <> ts_name
  | SetEvent _ f _ => get_field_type_id f = STRUCT /\ get_name f <> ts_name
  | _ => True
  end.

(** The blocks that an operation loses. *)
Definition op_loses (op : event_op) (evs : gmap Z oevent) : bool :=
  match op with
  | SetString i f _ => match evs !! i with Some e => bool_decide (get_name f ∈ (ovalues e).*1) | None => false end
  | SetEvent i f j => match evs !! i, evs !! j with Some e, Some _ => bool_decide (i <> j /\ get_name f ∈ (ovalues e).*1) | _, _ => false end
  | MergeEvent i j =>
      match evs !! i, evs !! j with
      | Some e, Some o => bool_decide (i <> j /\ slots_blocks (lost (ovalues e).*1 (ovalues o)) <> [])
      | _, _ => false
      end
  | AssignEvent i j =>
      match evs !! i, evs !! j with Some e, Some _ => bool_decide (i <> j /\ event_blocks e <> []) | _, _ => false end
  | _ => false
  end.

(** ** The invariant *)

Record sound_event (e : oevent) : Prop := {
  se_fits : event_fits e;
  se_named : well_named (view_values (ovalues e));
  se_stamp : otimestamp e = stamp (view_values (ovalues e))
}.

Definition store_blocks (evs : gmap Z oevent) : list ptr := map_to_list evs ≫= (fun ie => event_blocks ie.2).

(** Every block that is allocated belongs to one event, or was lost. *)
Record sound (s : event_store) (gone : list ptr) : Prop := {
  so_events : map_Forall (fun _ e => sound_event e) s.1;
  so_once : NoDup (store_blocks s.1 ++ gone);
  so_live : s.2 = list_to_set (store_blocks s.1 ++ gone)
}.

Lemma store_blocks_insert evs i e : evs !! i = None -> store_blocks (<[i := e]> evs) ≡ₚ event_blocks e ++ store_blocks evs.
Proof. intros Hi. unfold store_blocks. by rewrite map_to_list_insert. Qed.

Lemma store_blocks_delete evs i e : evs !! i = Some e -> store_blocks evs ≡ₚ event_blocks e ++ store_blocks (delete i evs).
Proof. intros Hi. rewrite <- (insert_delete_id evs i e Hi) at 1. apply store_blocks_insert, lookup_delete_eq. Qed.

Context `{UnorderedMap}.

Lemma sound_intro evs live gone L :
  map_Forall (fun _ e => sound_event e) evs -> store_blocks evs ++ gone ≡ₚ L -> NoDup L -> live = list_to_set L -> sound (evs, live) gone.
Proof. intros HF Hp HN ->. split; [done| |]; cbn [fst snd]; [by rewrite Hp|]. by apply list_to_set_perm_L. Qed.

Lemma sound_event_new k : sound_event (OEvent k [] (u64 (-1))).
Proof. split; [apply event_fits_eq; split; [constructor|done]|by apply map_Forall_empty|done]. Qed.

(** What set_value does to a sound event. *)
Lemma set_sound f m e : sound_event e -> member_fits (get_field_type_id f) m -> field_typed f (view_member m) ->
  exists e', oset_value f m e = Some e' /\ sound_event e' /\
    event_blocks e' ≡ₚ event_blocks e ++ (if decide (get_name f ∈ (ovalues e).*1) then [] else member_blocks m).
Proof.
  destruct e as [k vs t]. intros [[HN HF]%event_fits_eq Hw Ht] Hm Hty. cbn [ovalues otimestamp] in *. subst t.
  destruct (oset_value_spec f m k vs (stamp (view_values vs)) HN HF Hm) as [Eset Hset].
  destruct (insert_slot_spec f m vs HN HF Hm) as (HN1&HF1&Ev1&_&Hb1). rewrite view_event_eq in Eset. fold (view_values vs) in Eset.
  destruct (set_value_spec k (view_values vs) f (view_member m) Hw Hty) as [Es Hw1]. rewrite Es in Eset.
  destruct (oset_value f m _) as [e1|]; [|done]. destruct (Hset e1 eq_refl) as [t1 ->]. cbn [fmap option_fmap option_map] in Eset.
  rewrite view_event_eq in Eset. injection Eset as Evv Et. fold (view_values (insert_slot f m vs)) in Evv.
  eexists. split; [done|]. split; [|done]. split; cbn [ovalues otimestamp]; [by apply event_fits_eq|by rewrite Evv|by rewrite Evv].
Qed.

(** The event [i] is replaced by one with the blocks [bs] more. *)
Lemma sound_replace evs live gone i e e' bs live' gone' :
  sound (evs, live) gone -> evs !! i = Some e -> sound_event e' -> event_blocks e' ++ gone' ≡ₚ event_blocks e ++ bs ++ gone ->
  NoDup bs -> (forall p, p ∈ bs -> p ∉ live) -> live' = list_to_set bs ∪ live -> sound (<[i := e']> evs, live') gone'.
Proof.
  intros [HF HN Hl] Hi Hs Hb HNb Hfr ->. cbn [fst snd] in *. subst live.
  assert (store_blocks (<[i := e']> evs) ++ gone' ≡ₚ bs ++ store_blocks evs ++ gone) as Hp.
  { rewrite <- insert_delete_eq, store_blocks_insert by apply lookup_delete_eq. rewrite (store_blocks_delete evs i e Hi).
    transitivity (store_blocks (delete i evs) ++ event_blocks e' ++ gone'); [solve_Permutation|]. rewrite Hb. solve_Permutation. }
  eapply sound_intro; [by apply map_Forall_insert_2|exact Hp| |].
  - apply NoDup_app. split_and!; [done| |done]. intros p Hp1 Hp2. apply (Hfr p Hp1). by rewrite elem_of_list_to_set.
  - by rewrite !list_to_set_app_L.
Qed.

(** The event [j] goes away with its blocks accounted for elsewhere. *)
Lemma sound_remove evs live gone j e : sound (evs, live) gone -> evs !! j = Some e -> sound (delete j evs, live) (event_blocks e ++ gone).
Proof.
  intros [HF HN Hl] Hj. cbn [fst snd] in *. eapply (sound_intro _ _ _ (store_blocks evs ++ gone)); [by apply map_Forall_delete| |done|done].
  rewrite (store_blocks_delete evs j e Hj). solve_Permutation.
Qed.

Lemma sound_copy e e' live live' : sound_event e -> copied e live e' live' -> sound_event e'.
Proof.
  intros [Hf Hw Ht] (Ev&Hf'&_). destruct e as [k vs t], e' as [k' vs' t']. rewrite !view_event_eq in Ev. injection Ev as _ Ev ->.
  fold (view_values vs) (view_values vs') in Ev. cbn [ovalues otimestamp] in *. by split; cbn [ovalues otimestamp]; rewrite ?Ev.
Qed.

Lemma merge_sound e o live : sound_event e -> sound_event o ->
  wp (omerge o e) (fun e' live' => live' = live /\ sound_event e' /\
    event_blocks e' ≡ₚ event_blocks e ++ slots_blocks (taken (ovalues e).*1 (ovalues o))) live.
Proof.
  destruct e as [k es t], o as [ko vs to]. intros [Hf Hw Ht] [Hfo Hwo _]. cbn [ovalues otimestamp] in *. subst t.
  eapply wp_mono; [by apply omerge_spec|]. intros e' live' (->&Hf'&Em&Hb). split; [done|]. split; [|done].
  destruct e' as [k' es' t']. rewrite !view_event_eq in Em.
  destruct (merge_spec k (view_values es) (MkEvent ko (view_values vs) to) Hw Hwo) as [Em' Hw']. cbn [get_values] in *.
  fold (view_values es) (view_values vs) (view_values es') in Em. rewrite Em' in Em. injection Em as _ Ev Et.
  split; cbn [ovalues otimestamp]; [done|by rewrite <- Ev|by rewrite <- Et, <- Ev].
Qed.

Lemma taken_lost keys vs : slots_blocks vs ≡ₚ slots_blocks (taken keys vs) ++ slots_blocks (lost keys vs).
Proof.
  induction vs as [|s vs IH]; [done|]. unfold taken, lost in *. rewrite !filter_cons. cbn [List.flat_map]. rewrite IH.
  destruct (decide (s.1 ∈ keys)) as [Hin|Hin]; [rewrite decide_False by (by intros ?)|rewrite decide_True by done];
    cbn [List.flat_map]; solve_Permutation.
Qed.

(** After an operation that may have lost the blocks [new]. *)
Definition kept (op : event_op) (evs : gmap Z oevent) (gone : list ptr) (s : event_store) : Prop :=
  exists new, sound s (new ++ gone) /\ (op_loses op evs = false -> new = []).

Lemma kept_same op evs live gone : sound (evs, live) gone -> kept op evs gone (evs, live).
Proof. intros HS. by exists []. Qed.

Lemma wp_blocks {A} (m : ST live_blocks A) Q s : wp m (fun a live => Q a (s.1, live)) s.2 -> wp (on_blocks m) Q s.
Proof. unfold wp, on_blocks. by destruct (m s.2) as [[a live]| |]. Qed.

Lemma sound_live evs live gone i e p : sound (evs, live) gone -> evs !! i = Some e -> p ∈ event_blocks e -> p ∈ live.
Proof.
  intros [_ _ Hl] Hi Hp. cbn [fst snd] in Hl. rewrite Hl, elem_of_list_to_set, elem_of_app. left. rewrite (store_blocks_delete evs i e Hi). apply elem_of_app. by left.
Qed.

Lemma sound_owned evs live gone i e : sound (evs, live) gone -> evs !! i = Some e -> owned (event_blocks e) live.
Proof.
  intros HS Hi. split; [|intros p; by eapply sound_live]. destruct HS as [_ HN _]. cbn [fst] in HN. rewrite (store_blocks_delete evs i e Hi) in HN.
  apply NoDup_app in HN as [HN _]. by apply NoDup_app in HN as [? _].
Qed.

Lemma set_kept op i f m bs evs live gone e live' : sound (evs, live) gone -> evs !! i = Some e ->
  member_fits (get_field_type_id f) m -> field_typed f (view_member m) -> member_blocks m = bs -> allocated bs live live' ->
  (op_loses op evs = false -> bs = [] \/ get_name f ∉ (ovalues e).*1) ->
  wp (e ← some_or_undef (oset_value f m e); put_event i e) (fun _ s => kept op evs gone s) (evs, live').
Proof.
  intros HS Hi Hm Hty Hb (HN&Hfr&Hl) Hloses. destruct (set_sound f m e) as (e'&E'&Hs'&Hb'); [by apply (so_events _ _ HS i)|done|done|].
  rewrite E', some_bind. unfold put_event. apply wp_modify. cbn [fst snd]. exists (if decide (get_name f ∈ (ovalues e).*1) then bs else []). split.
  - eapply (sound_replace evs live gone i e e' bs); try done. rewrite Hb', Hb. destruct (decide _); rewrite ?app_nil_r; solve_Permutation.
  - intros Hno%Hloses. destruct Hno as [->|Hno]; [by destruct (decide _)|by rewrite decide_False].
Qed.

(** [m] on the memory, with its specification. *)
Lemma wp_blocks_call {A B} (m : ST live_blocks A) (f : A -> ST event_store B) P Q evs live :
  wp m P live -> (forall a live', P a live' -> wp (f a) Q (evs, live')) -> wp (on_blocks m ≫= f) Q (evs, live).
Proof. intros Hm Hf. apply wp_bind, wp_blocks. cbn [fst snd]. by eapply wp_mono. Qed.

Lemma set_string_kept i f st evs live gone e : sound (evs, live) gone -> evs !! i = Some e ->
  get_field_type_id f = STRING -> get_name f <> ts_name ->
  wp (p ← on_blocks new_block; e ← some_or_undef (oset_value f (MString p st) e); put_event i e)
    (fun _ s => kept (SetString i f st) evs gone s) (evs, live).
Proof.
  intros HS Hi Hty Hts. eapply wp_blocks_call; [apply new_block_spec|]. intros p live' A.
  eapply (set_kept _ i f (MString p st) [p]); try done; [by rewrite Hty|by apply field_typed_string|].
  cbn [op_loses]. rewrite Hi. intros Hno%bool_decide_eq_false. by right.
Qed.

(** The event that is moved from has nothing to free. *)
Lemma destroy_rest k t (Q : () -> event_store -> Prop) s : Q tt s -> wp (on_blocks (destroy_event (OEvent k [] t))) Q s.
Proof. intros HQ. apply wp_blocks. unfold wp. rewrite destroy_event_eq. by destruct s. Qed.

Lemma set_event_kept i f j evs live gone e sub : sound (evs, live) gone -> evs !! i = Some e -> evs !! j = Some sub -> i <> j ->
  get_field_type_id f = STRUCT -> get_name f <> ts_name ->
  wp (p ← on_blocks new_block;
      let '(sub, rest) := move_event sub in
      e ← some_or_undef (oset_value f (MEvent p sub) e);
      on_blocks (destroy_event rest);; drop_event j;; put_event i e) (fun _ s => kept (SetEvent i f j) evs gone s) (evs, live).
Proof.
  intros HS Hi Hj Hij Hty Hts. eapply wp_blocks_call; [apply new_block_spec|]. intros p live' (HN&Hfr&Hl). cbn [move_event].
  pose proof (so_events _ _ HS) as HE. cbn [fst] in HE.
  destruct (set_sound f (MEvent p sub) e) as (e'&E'&Hs'&Hb); [by apply (HE i)|rewrite Hty; by apply (HE j)|split; [done|by rewrite Hty]|].
  rewrite E', some_bind. apply wp_bind, destroy_rest, wp_bind. unfold drop_event, put_event. apply wp_modify, wp_modify. cbn [fst snd].
  exists (if decide (get_name f ∈ (ovalues e).*1) then p :: event_blocks sub else []). split.
  - eapply (sound_replace (delete j evs) live (event_blocks sub ++ gone) i e e' [p]); try done; [by apply sound_remove|by rewrite lookup_delete_ne|].
    rewrite Hb. cbn [member_blocks]. destruct (decide _); cbn [app]; rewrite ?app_nil_r; solve_Permutation.
  - cbn [op_loses]. rewrite Hi, Hj. intros Hno%bool_decide_eq_false. rewrite decide_False; [done|]. naive_solver.
Qed.

Lemma copy_kept i j evs live gone e : sound (evs, live) gone -> evs !! i = Some e -> evs !! j = None ->
  wp (e' ← on_blocks (copy_event e); put_event j e') (fun _ s => kept (CopyEvent i j) evs gone s) (evs, live).
Proof.
  intros HS Hi Hj. pose proof (so_events _ _ HS i e Hi) as Se. eapply wp_blocks_call; [apply copy_spec, Se|]. intros e' live' C.
  pose proof (sound_copy _ _ _ _ Se C) as Se'. destruct C as (_&_&HN&Hfr&->). unfold put_event. apply wp_modify. cbn [fst snd]. exists []. split; [|done].
  destruct HS as [HF HN0 Hl]. cbn [fst snd app] in *. subst live.
  eapply (sound_intro _ _ _ (event_blocks e' ++ store_blocks evs ++ gone)); [by apply map_Forall_insert_2|rewrite store_blocks_insert by done; solve_Permutation| |].
  - apply NoDup_app. split_and!; [done| |done]. intros p Hp1 Hp2. apply (Hfr p Hp1). by rewrite elem_of_list_to_set.
  - by rewrite !list_to_set_app_L.
Qed.

Lemma merge_kept i j evs live gone e o : sound (evs, live) gone -> evs !! i = Some e -> evs !! j = Some o -> i <> j ->
  wp (let '(other, rest) := move_event o in
      e ← on_blocks (omerge other e);
      on_blocks (destroy_event rest);; drop_event j;; put_event i e) (fun _ s => kept (MergeEvent i j) evs gone s) (evs, live).
Proof.
  intros HS Hi Hj Hij. pose proof (so_events _ _ HS) as HE. cbn [fst move_event] in *.
  eapply wp_blocks_call; [apply merge_sound; [by apply (HE i)|by apply (HE j)]|]. intros e' live' (->&Hs'&Hb).
  apply wp_bind, destroy_rest, wp_bind. unfold drop_event, put_event. apply wp_modify, wp_modify. cbn [fst snd].
  exists (slots_blocks (lost (ovalues e).*1 (ovalues o))). split.
  - eapply (sound_replace (delete j evs) live (event_blocks o ++ gone) i e e' []); try done;
      [by apply sound_remove|by rewrite lookup_delete_ne| |constructor|by intros p ?%not_elem_of_nil|set_solver].
    rewrite Hb. destruct o as [ko vs to]. cbn [ovalues event_blocks]. rewrite (taken_lost (ovalues e).*1 vs). solve_Permutation.
  - cbn [op_loses]. rewrite Hi, Hj. intros Hno%bool_decide_eq_false. apply dec_stable. intros Hne. by apply Hno.
Qed.

Lemma assign_kept i j evs live gone e o : sound (evs, live) gone -> evs !! i = Some e -> evs !! j = Some o -> i <> j ->
  wp (e ← on_blocks (assign_event o e); put_event i e) (fun _ s => kept (AssignEvent i j) evs gone s) (evs, live).
Proof.
  intros HS Hi Hj Hij. pose proof (so_events _ _ HS j o Hj) as So. eapply wp_blocks_call; [apply copy_spec, So|]. intros e' live' C.
  pose proof (sound_copy _ _ _ _ So C) as Se'. destruct C as (_&_&HN&Hfr&Hl). unfold put_event. apply wp_modify. cbn [fst snd]. exists (event_blocks e). split.
  - eapply (sound_replace evs live gone i e e' (event_blocks e')); try done. solve_Permutation.
  - cbn [op_loses]. rewrite Hi, Hj. intros Hno%bool_decide_eq_false. apply dec_stable. intros Hne. by apply Hno.
Qed.

Lemma destroy_kept i evs live gone e : sound (evs, live) gone -> evs !! i = Some e ->
  wp (on_blocks (destroy_event e);; drop_event i) (fun _ s => kept (DestroyEvent i) evs gone s) (evs, live).
Proof.
  intros HS Hi. pose proof (sound_owned _ _ _ _ _ HS Hi) as Ho. pose proof (so_events _ _ HS i e Hi) as Se.
  eapply wp_blocks_call; [by apply destroy_event_spec; [apply Se|]|]. intros [] live' Hf. unfold drop_event. apply wp_modify. cbn [fst snd].
  exists []. split; [|done]. destruct HS as [HF HN Hl]. cbn [fst snd app] in *.
  assert (store_blocks evs ++ gone ≡ₚ event_blocks e ++ store_blocks (delete i evs) ++ gone) as Hp.
  { rewrite (store_blocks_delete evs i e Hi). solve_Permutation. }
  rewrite Hp in HN. apply NoDup_app in HN as (_&Hd&HN). eapply sound_intro; [by apply map_Forall_delete|done|done|].
  unfold freed in Hf. rewrite Hf, Hl, (list_to_set_perm_L _ _ Hp), list_to_set_app_L. apply set_eq. intros p.
  rewrite elem_of_difference, elem_of_union, !elem_of_list_to_set. naive_solver.
Qed.

(** Every operation is defined, and keeps the invariant. *)
Lemma run_op_sound op s gone : sound s gone -> op_typed op -> wp (run_op op) (fun _ s' => kept op s.1 gone s') s.
Proof.
  destruct s as [evs live]. intros HS Hty. pose proof (kept_same op evs live gone HS) as Hsame.
  unfold run_op. apply wp_bind, wp_gets. cbn [fst]. destruct op as [i k|i f n z|i f st|i f j|i j|i j|i j|i]; cbn [op_typed] in Hty;
    destruct (evs !! i) as [e|] eqn:Ei; try exact Hsame.
  - unfold put_event. apply wp_modify. exists []. split; [|done]. cbn [fst snd app]. destruct HS as [HF HN Hl]. cbn [fst snd] in *.
    eapply sound_intro; [apply map_Forall_insert_2; [apply sound_event_new|done]| |exact HN|exact Hl]. by rewrite store_blocks_insert.
  - destruct Hty as (Hn&Hsz&Hts).
    eapply (set_kept _ i f (MNum n z) []); try done; [unfold is_numeric in Hn; by destruct (get_field_type_id f)|by apply field_typed_num|apply allocated_nil|by left].
  - destruct Hty. by apply set_string_kept.
  - destruct (evs !! j) as [sub|] eqn:Ej; [|exact Hsame]. case_decide as Hij; [exact Hsame|]. destruct Hty. by eapply set_event_kept.
  - destruct (evs !! j) as [sub|] eqn:Ej; [exact Hsame|]. by eapply copy_kept.
  - destruct (evs !! j) as [o|] eqn:Ej; [|exact Hsame]. case_decide as Hij; [exact Hsame|]. by eapply merge_kept.
  - destruct (evs !! j) as [o|] eqn:Ej; [|exact Hsame]. case_decide as Hij; [exact Hsame|]. by eapply assign_kept.
  - by eapply destroy_kept.
Qed.

(** No operation of the run sets or merges a name that is there, or assigns
    to an event that owns something. *)
Fixpoint runs_clean (ops : list event_op) (s : event_store) : Prop :=
  match ops with
  | [] => True
  | op :: ops => op_loses op s.1 = false /\ match run_op op s with Done (_, s') => runs_clean ops s' | _ => True end
  end.

Lemma run_ops_sound ops s gone : sound s gone -> Forall op_typed ops ->
  wp (run_ops ops) (fun _ s' => exists new, sound s' (new ++ gone) /\ (runs_clean ops s -> new = [])) s.
Proof.
  intros HS HF. revert s gone HS. induction HF as [|op ops Hty HF IH]; intros s gone HS; [by exists []|]. cbn [run_ops runs_clean].
  pose proof (run_op_sound op s gone HS Hty) as W. apply wp_bind. unfold wp at 1. unfold wp in W.
  destruct (run_op op s) as [[[] s1]| |]; [|done|done]. destruct W as (new&HS1&Hn). eapply wp_mono; [by apply IH|].
  intros [] s2 (new2&HS2&Hn2). exists (new2 ++ new). rewrite <- (assoc_L (++)). split; [done|]. intros [Hc1 Hc2]. by rewrite (Hn Hc1), (Hn2 Hc2).
Qed.

End programs.

(** C17: who frees the values of events.  For every program that makes,
    fills, copies, merges, assigns and destroys events, with values that fit
    their fields: no block is freed twice or used after it was freed, every
    block that is allocated belongs to exactly one value of one event, or was
    lost; a block is lost only by setting or merging a string or a nested
    event under a name that is there, or by assigning to an event that owns
    something.  A program that does neither frees everything with its events. *)
Theorem events_own_their_memory `{Platform} `{TableOrder} `{UnorderedMap} ops :
  Forall op_typed ops ->
  wp (run_ops ops) (fun _ s => exists gone, sound s gone /\ (runs_clean ops (∅, ∅) -> gone = [] /\ (s.1 = ∅ -> s.2 = ∅))) (∅, ∅).
Proof.
  intros HF. eapply wp_mono; [apply (run_ops_sound ops (∅, ∅) []); [|done]|].
  - split; [by apply map_Forall_empty|constructor|done].
  - intros [] s (new&HS&Hc). rewrite app_nil_r in HS. exists new. split; [done|]. intros Hcl. split; [by apply Hc|]. intros Hs.
    rewrite (so_live _ _ HS), Hs, (Hc Hcl). done.
Qed.

(** merge does to the values what [Parser.merge] does, on which the
    specification of the reader rests. *)
Theorem merge_implements_parser `{Platform} `{TableOrder} `{UnorderedMap} k es ko vs to live :
  event_fits (OEvent ko vs to) -> event_fits (OEvent k es (stamp (view_values es))) -> well_named (view_values vs) -> well_named (view_values es) ->
  wp (omerge (OEvent ko vs to) (OEvent k es (stamp (view_values es)))) (fun e' _ =>
    merge (view_event (OEvent ko vs to)) (view_event (OEvent k es (stamp (view_values es)))) = Some (view_event e')) live.
Proof. intros Hf Hfe Hw Hwe. eapply wp_mono; [by apply omerge_spec|]. by intros e' live' (_&_&E&_). Qed.

(** ** A copy, and a name that is there *)

Section samples.

#[local] Existing Instance map_order.
#[local] Existing Instance little_endian.

#[local, refine] Instance first_bucket : TableOrder := {| table_insert s l := s :: l |}.
Proof. done. Defined.

Definition label_field : EventKlassField := core_field "label" "const char*" STRING.

Definition copy_ops : list event_op :=
  [NewEvent 1 None; SetString 1 label_field [65]; CopyEvent 1 2; DestroyEvent 1; DestroyEvent 2].

Lemma events_own_their_memory_witness :
  wp (run_ops copy_ops) (fun _ s => exists gone, sound s gone /\ (runs_clean copy_ops (∅, ∅) -> gone = [] /\ (s.1 = ∅ -> s.2 = ∅))) (∅, ∅) /\
  runs_clean copy_ops (∅, ∅).
Proof.
  split; [|vm_compute; by split_and!]. apply (events_own_their_memory copy_ops).
  repeat constructor. by apply (bool_decide_unpack _); vm_compute.
Defined.

(** Both events have a label: after the merge the second one is lost. *)
Lemma merged_label_lost :
  match run_ops [NewEvent 1 None; SetString 1 label_field [65]; NewEvent 2 None; SetString 2 label_field [66];
                 MergeEvent 1 2; DestroyEvent 1] (∅, ∅) with
  | Done (_, (evs, live)) => evs = ∅ /\ size live = 1%nat
  | _ => False
  end.
Proof. vm_compute. by split. Qed.

End samples.
