(* ===== verification/RoundTrip.v ===== *)
(** From the program that is traced to the listeners of the parser: a stream
    of events in wire format is read back event by event, and the metadata at
    its start teaches the parser every klass, also when the two machines
    have different byte orders. *)
From S2P Require Import Prelude Alloc BaseTypes Memory Bag Events Listeners Registry Endian Parser Reader Decode.

#[local] Arguments string_bytes : simpl never.

(** The event [ev] of the parser is what [e] was when it was pushed. *)
Definition decodes (e : pushed) (ev : parser_Event) : Prop :=
  exists p ts id, event_header (pv e) = Some (p, ts, id) /\
    decoded (klass_id (pklass e)) ts id (ktype (pklass e)) (pv e) ev.

Definition stream_bytes (es : list pushed) : bytes := es ≫= pbytes.

Section round_trip.
  Context {S C : Type} `{StreamLaws S} `{EventListener C} `{UnorderedMap}.
  (** The machine of the program that is traced, and the one of the parser. *)
  Context (producer consumer : Platform).
  #[local] Existing Instance consumer.

Definition reader_at (reg : klass_map) (e : HT_Endianness) (s : S) (c : C) : ProtocolReader S C :=
  MkReader reg s true true e c.

(** Reading the bytes of [es] takes one round per event: after [k] rounds the
    listeners have got the first [k] of the events, and after all of them
    [reg] and [e] have become [reg'] and [e']. *)
Definition consumes (d : nat) (reg : klass_map) (e : HT_Endianness) (es : list pushed) (reg' : klass_map)
    (e' : HT_Endianness) : Prop :=
  forall s c l, stream_at s (stream_bytes es ++ l) -> exists s' evs, stream_at s' l /\ Forall2 decodes es evs /\
    let got k := foldl (fun c ev => on_new_event ev c) c (take k evs) in
    (forall fuel, read_events_loop d (length es + fuel) (reader_at reg e s c) =
      read_events_loop d fuel (reader_at reg' e' s' (got (length es)))) /\
    (forall k, read_rounds d (length es + k) (reader_at reg e s c) = read_rounds d k (reader_at reg' e' s' (got (length es)))) /\
    forall k, (k <= length es)%nat -> exists reg1 e1 s1, read_rounds d k (reader_at reg e s c) = Done (true, reader_at reg1 e1 s1 (got k)).

Lemma consumes_nil d reg e : consumes d reg e [] reg e.
Proof.
  intros s c l Hs. exists s, []. split; [done|]. split; [done|]. cbn zeta. split; [done|]. split; [done|]. intros k Hk. assert (k = 0%nat) as -> by (simpl in Hk; lia). by eexists _, _, _.
Qed.

Lemma consumes_app d reg e es1 reg1 e1 es2 reg2 e2 :
  consumes d reg e es1 reg1 e1 -> consumes d reg1 e1 es2 reg2 e2 -> consumes d reg e (es1 ++ es2) reg2 e2.
Proof.
  intros H1' H2' s c l Hs. unfold stream_bytes in Hs. rewrite bind_app, <- app_assoc in Hs.
  destruct (H1' s c _ Hs) as (s1&evs1&Hs1&HF1&E1&R1&P1). pose proof (Forall2_length _ _ _ HF1) as L1. rewrite (take_ge evs1) in E1, R1 by lia.
  destruct (H2' s1 (foldl (fun c ev => on_new_event ev c) c evs1) l Hs1) as (s2&evs2&Hs2&HF2&E2&R2&P2).
  assert (got : forall k, foldl (fun c ev => on_new_event ev c) c (take (length es1 + k) (evs1 ++ evs2)) =
    foldl (fun c ev => on_new_event ev c) (foldl (fun c ev => on_new_event ev c) c evs1) (take k evs2)).
  { intros k. by rewrite L1, take_app_add, foldl_app. }
  exists s2, (evs1 ++ evs2). cbn zeta. rewrite length_app, got. split_and!; [done|by apply Forall2_app|..].
  - intros fuel. by rewrite <- Nat.add_assoc, E1, E2.
  - intros k. by rewrite <- Nat.add_assoc, R1, R2.
  - intros k Hk. destruct (decide (k <= length es1)%nat) as [Hle|Hgt].
    + destruct (P1 k Hle) as (reg0&e0&s0&E0). exists reg0, e0, s0. by rewrite take_app_le by lia.
    + destruct (P2 (k - length es1)%nat) as (reg0&e0&s0&E0); [lia|]. exists reg0, e0, s0.
      replace k with (length es1 + (k - length es1))%nat by lia. by rewrite R1, got.
Qed.

(** What the parser needs to know of an event that was pushed on the
    producer. *)
Record readable (d : nat) (ks : klass_store) (reg : klass_map) (e : pushed) : Prop := {
  rd_ok : @pushed_ok producer ks e;
  rd_strings : c_strings (pv e);
  rd_knows : knows reg (klass_id (pklass e)) (ktype (pklass e));
  rd_id : 0 <= klass_id (pklass e) < 2 ^ 32;
  rd_depth : (depth (ktype (pklass e)) + length (pbytes e) + 23 < d)%nat
}.

Lemma consumes_one d ks reg en e reg' en' :
  readable d ks reg e ->
  (klass_id (pklass e) = EndiannessInfoEventKlass \/ en = @endianness producer) ->
  (forall p ts id, event_header (pv e) = Some (p, ts, id) -> klass_id (pklass e) = EndiannessInfoEventKlass ->
     ts = 0 /\ id = 0 /\ body en (ktype (pklass e)) (pv e) = body (@endianness producer) (ktype (pklass e)) (pv e)) ->
  (forall ev, decodes e ev -> handle_register_events ev reg = Some reg' /\ next_endianness (klass_id (pklass e)) en ev en') ->
  consumes d reg en [e] reg' en'.
Proof.
  intros [Hok Hc Hk Hid Hd] Hen Hz Hnext s c l Hs. unfold stream_bytes in Hs. simpl in Hs. rewrite app_nil_r in Hs.
  pose proof Hok as [Ek _ Hst _ Hw _].
  destruct (encode_split ks _ _ _ Hst Hw Hc) as (p&ts&id&k&b&Hh&Hg&Hp&Hb&Eb).
  assert (k = pklass e) as ->. { unfold event_klass in Ek. rewrite Hg in Ek. simpl in Ek. congruence. }
  assert (body en (ktype (pklass e)) (pv e) = Some b /\
    pbytes e = header_bytes en (klass_id (pklass e)) ts id ++ b) as [Hb1 Eb1].
  { destruct (decide (klass_id (pklass e) = EndiannessInfoEventKlass)) as [H0'|Hn0].
    - destruct (Hz _ _ _ Hh H0') as (->&->&->). split; [done|]. rewrite Eb, H0'. f_equal. by destruct en, endianness.
    - destruct Hen as [?| ->]; [done|]. by split. }
  set (r := reader_at reg en s c).
  assert (W : wp (read_one d) (fun more r' => more = true /\ exists ev s', decoded (klass_id (pklass e)) ts id (ktype (pklass e)) (pv e) ev /\
    stream_at s' l /\ r' = MkReader reg' s' true true en' (on_new_event ev c)) r).
  { apply (read_one_spec d r (klass_id (pklass e)) ts id (ktype (pklass e)) (pv e) b l); try done.
    - rewrite Eb1, length_app in Hd. lia.
    - simpl. by rewrite app_assoc, <- Eb1.
    - intros ev Hev. apply Hnext. by exists p, ts, id. }
  unfold wp in W. destruct (read_one d r) as [[more r']| |] eqn:Er; [|done|done].
  destruct W as (->&ev&s'&Hev&Hs'&->). exists s', [ev]. cbn zeta. split_and!; [done|repeat constructor; by exists p, ts, id|..]; subst r.
  - intros fuel. change (length [e] + fuel)%nat with (Datatypes.S fuel). cbn [read_events_loop].
    unfold mbind, st_bind, running_of, gets. cbn [_is_running reader_at]. by rewrite Er.
  - intros k. change (length [e] + k)%nat with (Datatypes.S k). cbn [read_rounds]. unfold mbind, st_bind. by rewrite Er.
  - intros [|[|k]] Hle; [by eexists _, _, _| |simpl in Hle; lia]. exists reg', en', s'. cbn [read_rounds]. unfold mbind, st_bind. by rewrite Er.
Qed.

(** ** Events that say nothing about klasses *)

Definition plain_id (kid : Z) : Prop :=
  kid <> EndiannessInfoEventKlass /\ kid <> EventKlassInfoEventKlass /\ kid <> EventKlassFieldInfoEventKlass.

Lemma handle_plain kid ts id t v ev reg :
  decoded kid ts id t v ev -> kid <> EventKlassInfoEventKlass -> kid <> EventKlassFieldInfoEventKlass ->
  handle_register_events ev reg = Some reg.
Proof. intros [Ek _ _ _] H2' H3'. unfold handle_register_events. rewrite Ek. simpl. by rewrite !decide_False. Qed.

Lemma consumes_plain d ks reg es :
  Forall (readable d ks reg) es -> Forall (fun e => plain_id (klass_id (pklass e))) es ->
  consumes d reg (@endianness producer) es reg (@endianness producer).
Proof.
  intros HF HP. induction HF as [|e es He HF IH]; [apply consumes_nil|]. apply Forall_cons in HP as [(P0&P2&P3) HP].
  apply (consumes_app _ _ _ [e] reg (@endianness producer)); [|by apply IH].
  eapply consumes_one; [done|by right|done|]. intros ev (p&ts&id&Hh&Hd). split; [by eapply handle_plain|].
  unfold next_endianness. by rewrite decide_False.
Qed.

(** ** What the parser learns from the description of a klass *)

Definition parsed_field (reg : klass_map) (info : MKCREFLECT_FieldInfo) (tid : FieldTypeId) : EventKlassField :=
  MkField (string_bytes (field_name info)) (string_bytes (field_type info)) tid
    (if decide (field_data_type info = types_value MKCREFLECT_TYPES_STRUCT)
     then get_klass_by_name (string_bytes (field_type info)) reg else None).

Definition parse_field (kid : Z) (info : MKCREFLECT_FieldInfo) (reg : klass_map) : option klass_map :=
  if is_well_known_klass kid then Some reg
  else tid ← get_type_id (fsize info) (field_data_type info); _add_klass_field kid (parsed_field reg info tid) reg.

Fixpoint parse_fields (kid : Z) (infos : list MKCREFLECT_FieldInfo) (reg : klass_map) : option klass_map :=
  match infos with
  | [] => Some reg
  | info :: infos => reg ← parse_field kid info reg; parse_fields kid infos reg
  end.

Definition parse_klass (kid : Z) (ti : MKCREFLECT_TypeInfo) (reg : klass_map) : option klass_map :=
  parse_fields kid (tfields ti) (_add_klass (MkKlass (string_bytes (tname ti)) kid []) reg).

Lemma handle_info k ti ts id ts' id' ev reg :
  decoded EventKlassInfoEventKlass ts id HT_EventKlassInfoEvent (klass_info_event k ti ts' id') ev ->
  0 <= klass_id k < 2 ^ 32 ->
  handle_register_events ev reg = Some (_add_klass (MkKlass (string_bytes (tname ti)) (klass_id k) []) reg).
Proof.
  intros [Ek Ev _ _] Hid. unfold handle_register_events. rewrite Ek. cbn [mbind option_bind].
  rewrite decide_True by done.
  rewrite (get_value_num 4 _ (klass_id k mod 2 ^ (8 * Z.of_nat 4))) by (rewrite Ev; reflexivity).
  rewrite (get_value_string _ (string_bytes (tname ti))) by (rewrite Ev; reflexivity).
  cbn [mbind option_bind]. change (8 * Z.of_nat 4) with 32. by rewrite !(Z.mod_small (klass_id k)) by done.
Qed.

Lemma handle_field k info ts id ts' id' ev reg :
  decoded EventKlassFieldInfoEventKlass ts id HT_EventKlassFieldInfoEvent (field_info_event k info ts' id') ev ->
  0 <= klass_id k < 2 ^ 32 -> 0 <= fsize info < 2 ^ 64 ->
  handle_register_events ev reg = parse_field (klass_id k) info reg.
Proof.
  intros [Ek Ev _ _] Hid Hsz. unfold handle_register_events. rewrite Ek. cbn [mbind option_bind].
  rewrite decide_False, decide_True by done.
  rewrite (get_value_num 4 _ (klass_id k mod 2 ^ (8 * Z.of_nat 4))) by (rewrite Ev; reflexivity).
  rewrite (get_value_num 1 _ (field_data_type info mod 2 ^ (8 * Z.of_nat 1))) by (rewrite Ev; reflexivity).
  rewrite (get_value_num 8 _ (fsize info mod 2 ^ (8 * Z.of_nat 8))) by (rewrite Ev; reflexivity).
  rewrite (get_value_string (string_bytes "field_type") (string_bytes (field_type info))) by (rewrite Ev; reflexivity).
  rewrite (get_value_string (string_bytes "field_name") (string_bytes (field_name info))) by (rewrite Ev; reflexivity).
  cbn [mbind option_bind]. change (8 * Z.of_nat 4) with 32. change (8 * Z.of_nat 1) with 8. change (8 * Z.of_nat 8) with 64.
  rewrite !(Z.mod_small (klass_id k)), !(Z.mod_small (fsize info)) by done.
  assert (field_data_type info mod 2 ^ 8 mod 2 ^ 8 = field_data_type info) as ->.
  { unfold field_data_type. destruct (data_type info); try done. by destruct (is_signed info). }
  unfold parse_field. by destruct (is_well_known_klass (klass_id k)).
Qed.

(** The klasses the metadata is made of stay as they were made. *)
Definition core_known (reg : klass_map) : Prop :=
  reg !! EventKlass_id = KlassRegister !! EventKlass_id /\
  reg !! EventKlassInfoEventKlass = KlassRegister !! EventKlassInfoEventKlass /\
  reg !! EventKlassFieldInfoEventKlass = KlassRegister !! EventKlassFieldInfoEventKlass.

Lemma add_klass_keeps k reg i : is_Some (reg !! i) -> _add_klass k reg !! i = reg !! i.
Proof.
  intros [x E]. unfold _add_klass. destruct (reg !! get_id k) eqn:Ek; [done|].
  apply lookup_insert_ne. congruence.
Qed.

Lemma core_known_add k reg : core_known reg -> core_known (_add_klass k reg).
Proof.
  intros (E1&E2&E3). unfold core_known. rewrite <- E1, <- E2, <- E3.
  split_and!; apply add_klass_keeps; rewrite ?E1, ?E2, ?E3; by eexists.
Qed.

Lemma core_known_field kid info reg reg' : core_known reg -> parse_field kid info reg = Some reg' -> core_known reg'.
Proof.
  intros Hc E. unfold parse_field in E. destruct (is_well_known_klass kid) eqn:Ew; [by simplify_eq|].
  destruct (get_type_id _ _) as [tid|]; [|done]. simpl in E. unfold _add_klass_field in E.
  destruct (reg !! kid) as [k|]; [|done]. simplify_eq/=. unfold is_well_known_klass in Ew.
  apply orb_false_elim in Ew as [Ew E3]. apply orb_false_elim in Ew as [E1 E2]. rewrite !bool_decide_eq_false in E1, E2, E3.
  unfold core_known. by rewrite !lookup_insert_ne.
Qed.

Lemma core_knows reg : core_known reg ->
  knows reg EventKlassInfoEventKlass HT_EventKlassInfoEvent /\ knows reg EventKlassFieldInfoEventKlass HT_EventKlassFieldInfoEvent.
Proof.
  intros (C1&C2&C3). split; (split; [rewrite C1; reflexivity|]); (split; [done|]); eexists; (split; [rewrite ?C2, ?C3; reflexivity|]).
  - apply described_header. apply described_num; try done. apply described_string; try done.
    apply described_num; try done. apply described_nil.
  - apply described_header. apply described_num; try done. do 2 (apply described_string; [done..|]).
    do 2 (apply described_num; [done..|]). apply described_nil.
Qed.

Definition c_name (str : string) : Prop := Forall text (string_bytes str).

(** Descriptions that survive the wire. *)
Definition describable_to_parser (k : HT_EventKlass) (ti : MKCREFLECT_TypeInfo) : Prop :=
  0 <= klass_id k < 2 ^ 32 /\ c_name (tname ti) /\
  Forall (fun info => 0 <= fsize info < 2 ^ 64 /\ c_name (field_name info) /\ c_name (field_type info)) (tfields ti).

Context (ks : klass_store) (K F : HT_EventKlass) (d : nat).
Context (HK : info_klasses ks K F) (HKid : klass_id K = EventKlassInfoEventKlass) (HFid : klass_id F = EventKlassFieldInfoEventKlass).

Definition fits_reader (e : pushed) : Prop := (length (pbytes e) + 24 < d)%nat.

Lemma consumes_info reg k ti e ts id :
  core_known reg -> @pushed_ok producer ks e -> fits_reader e -> pv e = klass_info_event k ti ts id ->
  describable_to_parser k ti ->
  consumes d reg (@endianness producer) [e] (_add_klass (MkKlass (string_bytes (tname ti)) (klass_id k) []) reg) (@endianness producer).
Proof.
  intros Hc Hok Hfit Hv (Hid&Hn&_). assert (pklass e = K) as Ek.
  { destruct Hok as [E _ _ _ _ _]. rewrite Hv in E. cbn in E. rewrite (ik_info _ _ _ HK) in E. by simplify_eq. }
  apply (consumes_one d ks).
  - split; [done| |rewrite Ek, HKid, (ik_info_type _ _ _ HK); by apply core_knows|by rewrite Ek, HKid|
      rewrite Ek, (ik_info_type _ _ _ HK); unfold fits_reader in Hfit; simpl; lia].
    rewrite Hv. by repeat split.
  - by right.
  - by rewrite Ek, HKid.
  - rewrite Ek, HKid. intros ev (p&ts'&id'&_&Hd). rewrite Ek, HKid, (ik_info_type _ _ _ HK), Hv in Hd.
    split; [by eapply handle_info|done].
Qed.

Lemma consumes_field reg reg' k info e ts id :
  core_known reg -> @pushed_ok producer ks e -> fits_reader e -> pv e = field_info_event k info ts id ->
  0 <= klass_id k < 2 ^ 32 -> 0 <= fsize info < 2 ^ 64 -> c_name (field_name info) -> c_name (field_type info) ->
  parse_field (klass_id k) info reg = Some reg' ->
  consumes d reg (@endianness producer) [e] reg' (@endianness producer).
Proof.
  intros Hc Hok Hfit Hv Hid Hsz Hn Ht Hp. assert (pklass e = F) as Ek.
  { destruct Hok as [E _ _ _ _ _]. rewrite Hv in E. cbn in E. rewrite (ik_field _ _ _ HK) in E. by simplify_eq. }
  apply (consumes_one d ks).
  - split; [done| |rewrite Ek, HFid, (ik_field_type _ _ _ HK); by apply core_knows|by rewrite Ek, HFid|
      rewrite Ek, (ik_field_type _ _ _ HK); unfold fits_reader in Hfit; simpl; lia].
    rewrite Hv. by repeat split.
  - by right.
  - by rewrite Ek, HFid.
  - rewrite Ek, HFid. intros ev (p&ts'&id'&_&Hd). rewrite Ek, HFid, (ik_field_type _ _ _ HK), Hv in Hd.
    split; [|done]. by erewrite handle_field.
Qed.

Lemma consumes_fields k infos es reg reg' :
  core_known reg -> Forall (@pushed_ok producer ks) es -> Forall fits_reader es ->
  Forall2 (fun info f => exists timestamp id, pv f = field_info_event k info timestamp id) infos es ->
  0 <= klass_id k < 2 ^ 32 ->
  Forall (fun info => 0 <= fsize info < 2 ^ 64 /\ c_name (field_name info) /\ c_name (field_type info)) infos ->
  parse_fields (klass_id k) infos reg = Some reg' ->
  consumes d reg (@endianness producer) es reg' (@endianness producer) /\ core_known reg'.
Proof.
  intros Hc Hoks Hfits HF Hid HI. revert reg Hc. induction HF as [|info e infos es (ts&id&Hv) HF IH]; intros reg Hc Hp; simpl in Hp.
  - simplify_eq. split; [apply consumes_nil|done].
  - apply Forall_cons in Hoks as [Hok Hoks], Hfits as [Hfit Hfits], HI as [(Hsz&Hn&Ht) HI].
    destruct (parse_field (klass_id k) info reg) as [reg1|] eqn:Ep; [|done]. simpl in Hp.
    destruct (IH Hoks Hfits HI reg1 (core_known_field _ _ _ _ Hc Ep) Hp) as [Hcons Hc']. split; [|done].
    apply (consumes_app _ _ _ [e] reg1 (@endianness producer)); [|done]. by eapply consumes_field.
Qed.

(** The events that describe a klass teach it to the parser. *)
Lemma consumes_describes k ti es reg reg' :
  core_known reg -> Forall (@pushed_ok producer ks) es -> Forall fits_reader es ->
  describes k es -> type_info k = Some ti -> describable_to_parser k ti -> parse_klass (klass_id k) ti reg = Some reg' ->
  consumes d reg (@endianness producer) es reg' (@endianness producer) /\ core_known reg'.
Proof.
  intros Hc Hoks Hfits (ti'&e&fs&Eti&->&(ts&id&Hv)&HF) Eti' Hd Hp. assert (ti' = ti) as -> by congruence.
  apply Forall_cons in Hoks as [Hok Hoks], Hfits as [Hfit Hfits]. pose proof Hd as (Hid&_&HI).
  destruct (consumes_fields k (tfields ti) fs _ reg' (core_known_add _ _ Hc) Hoks Hfits HF Hid HI Hp) as [Hcons Hc'].
  split; [|done]. eapply (consumes_app _ _ _ [e]); [by eapply consumes_info|done].
Qed.

(** Klass after klass. *)
Fixpoint parse_klasses (kl : list HT_EventKlass) (reg : klass_map) : option klass_map :=
  match kl with
  | [] => Some reg
  | k :: kl => ti ← type_info k; reg ← parse_klass (klass_id k) ti reg; parse_klasses kl reg
  end.

Lemma consumes_klasses kl ess reg reg' :
  core_known reg -> Forall (@pushed_ok producer ks) (concat ess) -> Forall fits_reader (concat ess) ->
  Forall2 describes kl ess -> Forall (fun k => forall ti, type_info k = Some ti -> describable_to_parser k ti) kl ->
  parse_klasses kl reg = Some reg' ->
  consumes d reg (@endianness producer) (concat ess) reg' (@endianness producer) /\ core_known reg'.
Proof.
  intros Hc Hoks Hfits HF HD. revert reg Hc. induction HF as [|k es kl ess Hk HF IH]; intros reg Hc Hp; simpl in *.
  - simplify_eq. split; [apply consumes_nil|done].
  - apply Forall_app in Hoks as [Hok Hoks], Hfits as [Hfit Hfits]. apply Forall_cons in HD as [Hd HD].
    destruct (type_info k) as [ti|] eqn:Eti; [|done]. simpl in Hp.
    destruct (parse_klass (klass_id k) ti reg) as [reg1|] eqn:Ep; [|done]. simpl in Hp.
    destruct (consumes_describes k ti es reg reg1 Hc Hok Hfit Hk Eti (Hd _ eq_refl) Ep) as [C1 Hc1].
    destruct (IH Hoks Hfits HD reg1 Hc1 Hp) as [C2 Hc2]. split; [|done]. by eapply consumes_app.
Qed.

End round_trip.

(** ** The register after the metadata *)

Lemma string_bytes_inj a b : string_bytes a = string_bytes b -> a = b.
Proof.
  revert b. induction a as [|x a IH]; intros [|y b] E; try done. unfold string_bytes in E. fold string_bytes in E.
  injection E as E1 E2. f_equal; [|by apply IH]. apply (inj Z.of_N) in E1.
  by rewrite <- (Ascii.ascii_N_embedding x), E1, Ascii.ascii_N_embedding.
Qed.

Definition field_matches (info : MKCREFLECT_FieldInfo) (f : EventKlassField) : Prop :=
  get_name f = string_bytes (field_name info) /\ get_type_name f = string_bytes (field_type info) /\
  get_type_id (fsize info) (field_data_type info) = Some (get_field_type_id f).

Section register.
  Context `{UnorderedMap}.

(** The fields of a klass the parser has not seen before. *)
Lemma parse_new_fields kid name infos pfs0 reg :
  is_well_known_klass kid = false ->
  Forall (fun info => is_Some (get_type_id (fsize info) (field_data_type info))) infos ->
  NoDup ((get_name <$> pfs0) ++ (string_bytes ∘ field_name <$> infos)) ->
  exists pfs, parse_fields kid infos (<[kid := MkKlass name kid pfs0]> reg) =
    Some (<[kid := MkKlass name kid (pfs0 ++ pfs)]> reg) /\ Forall2 field_matches infos pfs.
Proof.
  intros Hw. revert pfs0. induction infos as [|info infos IH]; intros pfs0 HF Hnd.
  - exists []. by rewrite app_nil_r.
  - apply Forall_cons in HF as [[tid Etid] HF]. cbn [parse_fields].
    unfold parse_field, _add_klass_field. rewrite Hw, Etid, lookup_insert_eq. cbn [mbind option_bind].
    set (f := parsed_field _ info tid). rewrite insert_insert_eq.
    assert (add_field f (MkKlass name kid pfs0) = MkKlass name kid (pfs0 ++ [f])) as ->.
    { unfold add_field, has_field. cbn [get_fields get_klass_name get_id].
      destruct (existsb _ pfs0) eqn:Ex; [|done]. apply existsb_exists in Ex as (g&Hg&Eg). apply bool_decide_eq_true in Eg.
      apply NoDup_app in Hnd as (_&Hnd&_). exfalso. apply (Hnd (get_name g)); [apply list_elem_of_fmap; exists g; split; [done|by apply list_elem_of_In]|].
      rewrite Eg. by left. }
    destruct (IH (pfs0 ++ [f])) as (pfs&E&HF2); [done|by rewrite fmap_app, <- app_assoc|].
    exists (f :: pfs). rewrite <- app_assoc in E. split; [exact E|]. constructor; [|done]. by split_and!.
Qed.

Lemma parse_new_klass kid ti reg :
  is_well_known_klass kid = false -> reg !! kid = None ->
  Forall (fun info => is_Some (get_type_id (fsize info) (field_data_type info))) (tfields ti) ->
  NoDup (string_bytes ∘ field_name <$> tfields ti) ->
  exists pfs, parse_klass kid ti reg = Some (<[kid := MkKlass (string_bytes (tname ti)) kid pfs]> reg) /\
    Forall2 field_matches (tfields ti) pfs.
Proof.
  intros Hw Hn HF Hnd. unfold parse_klass, _add_klass. cbn [get_id]. rewrite Hn.
  by apply (parse_new_fields kid _ (tfields ti) []).
Qed.

(** A klass the parser knows from the start. *)
Lemma parse_well_known kid ti reg :
  is_well_known_klass kid = true -> is_Some (reg !! kid) -> parse_klass kid ti reg = Some reg.
Proof.
  intros Hw [k Hk]. unfold parse_klass, _add_klass. cbn [get_id]. rewrite Hk.
  induction (tfields ti) as [|info infos IH]; [done|]. cbn [parse_fields]. unfold parse_field at 1. by rewrite Hw.
Qed.

(** *** The klasses a program can register for the parser to read *)

(** A field of a type the parser can read; a structure is the type of a
    registered klass. *)
Definition parsable_field (kl : list HT_EventKlass) (f : string * ctype) : Prop :=
  match f.2 with
  | HT_Event => f.1 = "base"%string
  | Scalar d _ n _ => d = MKCREFLECT_TYPES_INTEGER /\ n ∈ [1; 2; 4; 8]%nat /\ (f.1 = "timestamp"%string -> n = 8%nat)
  | CharPtr => f.1 <> "timestamp"%string
  | Struct _ _ => f.2 ∈ (ktype <$> kl)
  end.

(** The registered klasses in order of registration. *)
Record klass_table (kl : list HT_EventKlass) : Prop := {
  kt_core : take 4 (ktype <$> kl) =
    [HT_EndiannessInfoEvent; HT_Event; HT_EventKlassInfoEvent; HT_EventKlassFieldInfoEvent];
  kt_ids : forall i k, kl !! i = Some k -> klass_id k = Z.of_nat i;
  kt_info : forall i k, kl !! i = Some k -> type_info k = Some (get_type_info (ktype k));
  kt_names : NoDup ((fun k => c_type_name (ktype k)) <$> kl);
  kt_fields : forall i k, kl !! i = Some k -> (4 <= i)%nat -> exists name fs, ktype k = Struct name fs /\
    NoDup fs.*1 /\ Forall (parsable_field kl) fs
}.

Definition known_klass (kl : list HT_EventKlass) (id : Z) (pk : parser_EventKlass) : Prop :=
  get_id pk = id /\ 0 <= id /\ exists k, kl !! Z.to_nat id = Some k /\
    get_klass_name pk = string_bytes (c_type_name (ktype k)).

(** The base of the endianness klass is learned from the metadata, last. *)
Definition endianness_klass (x : option Z) : parser_EventKlass :=
  MkKlass (string_bytes "HT_EndiannessInfoEvent") EndiannessInfoEventKlass
    [core_field "endianness" "uint8_t" UINT8; MkField (string_bytes "base") (string_bytes "HT_Event") STRUCT x].

(** The register after the first [n] klasses. *)
Record learned (kl : list HT_EventKlass) (n : nat) (reg : klass_map) : Prop := {
  ln_core : core_known reg;
  ln_endianness : exists x, reg !! EndiannessInfoEventKlass = Some (endianness_klass x);
  ln_known : map_Forall (known_klass kl) reg;
  ln_bound : forall id, is_Some (reg !! id) -> id < Z.of_nat n;
  ln_fields : forall i k, kl !! i = Some k -> (4 <= i < n)%nat -> exists pk, reg !! Z.of_nat i = Some pk /\
    Forall2 field_matches (tfields (get_type_info (ktype k))) (get_fields pk)
}.

Lemma fields_info_names off fs : field_name <$> fields_info off fs = fs.*1.
Proof. revert off. induction fs as [|[name t] fs IH]; intros off; simpl; [done|]. by rewrite IH. Qed.

Lemma parsable_type_id kl off f info : parsable_field kl f ->
  info = FieldInfo (c_type_name f.2) f.1 (sizeof f.2) off (is_signed_of f.2) (-1) (data_type_of f.2) ->
  is_Some (get_type_id (fsize info) (field_data_type info)).
Proof.
  intros Hp ->. destruct f as [name [d c n sg| | |sname sfs]]; try (by eexists). destruct Hp as (Hd&Hn&_). simpl in Hd. subst d.
  cbn [snd] in *. set_unfold in Hn. destruct_or! Hn; subst n; destruct sg; by eexists.
Qed.

Lemma parsable_type_ids kl off fs : Forall (parsable_field kl) fs ->
  Forall (fun info => is_Some (get_type_id (fsize info) (field_data_type info))) (fields_info off fs).
Proof.
  intros HF. revert off. induction HF as [|[name t] fs Hf HF IH]; intros off; simpl; constructor; [|apply IH].
  by eapply parsable_type_id.
Qed.

(** One more klass of the program. *)
Lemma learn_one kl n k reg :
  klass_table kl -> kl !! n = Some k -> (4 <= n)%nat -> learned kl n reg ->
  exists reg', parse_klass (klass_id k) (get_type_info (ktype k)) reg = Some reg' /\ learned kl (S n) reg'.
Proof.
  intros T Hk Hn [Hc He Hkn Hb Hf]. destruct (kt_fields _ T _ _ Hk Hn) as (name&fs&Et&Hnd&HF).
  rewrite (kt_ids _ T _ _ Hk).
  assert (Hnone : reg !! Z.of_nat n = None).
  { apply eq_None_not_Some. intros Hs. specialize (Hb _ Hs). lia. }
  destruct (parse_new_klass (Z.of_nat n) (get_type_info (ktype k)) reg) as (pfs&Ep&HF2).
  - unfold is_well_known_klass, EventKlass_id, EventKlassInfoEventKlass, EventKlassFieldInfoEventKlass.
    by rewrite !bool_decide_eq_false_2 by lia.
  - done.
  - rewrite Et. by eapply parsable_type_ids.
  - rewrite Et. cbn [get_type_info tfields fields_of]. rewrite list_fmap_compose, fields_info_names.
    apply NoDup_fmap_2; [intros ??; apply string_bytes_inj|done].
  - exists (<[Z.of_nat n := MkKlass (string_bytes (tname (get_type_info (ktype k)))) (Z.of_nat n) pfs]> reg). split; [done|]. split.
    + destruct Hc as (C1&C2&C3). unfold core_known, EventKlass_id, EventKlassInfoEventKlass, EventKlassFieldInfoEventKlass in *.
      by rewrite !lookup_insert_ne by lia.
    + destruct He as (x&Hx). exists x. by rewrite lookup_insert_ne by (unfold EndiannessInfoEventKlass; lia).
    + apply map_Forall_insert_2; [|done]. split_and!; [done|lia|]. exists k. by rewrite Nat2Z.id.
    + intros id Hs. rewrite lookup_insert_is_Some in Hs. destruct Hs as [<-|[_ Hs]]; [lia|]. specialize (Hb _ Hs). lia.
    + intros i k' Hi Hin. destruct (decide (i = n)) as [->|Hne].
      * eexists. rewrite lookup_insert_eq. split; [done|]. by simplify_eq.
      * rewrite lookup_insert_ne by lia. apply Hf; [done|lia].
Qed.

Lemma learn_rest kl rest n reg :
  klass_table kl -> drop n kl = rest -> (4 <= n)%nat -> learned kl n reg ->
  exists reg', parse_klasses rest reg = Some reg' /\ learned kl (n + length rest) reg'.
Proof.
  intros T. revert n reg. induction rest as [|k rest IH]; intros n reg Hd Hn L.
  - exists reg. split; [done|]. by rewrite Nat.add_0_r.
  - assert (Hk : kl !! n = Some k) by (rewrite <- (Nat.add_0_r n), <- lookup_drop, Hd; done).
    destruct (learn_one kl n k reg T Hk Hn L) as (reg1&E1&L1).
    destruct (IH (S n) reg1) as (reg'&E'&L'); [|lia|done|].
    { rewrite (drop_S kl k n Hk) in Hd. by simplify_eq. }
    exists reg'. cbn [parse_klasses length]. rewrite (kt_info _ T _ _ Hk). simpl. rewrite E1. split; [done|].
    by rewrite <- Nat.add_succ_comm.
Qed.

Lemma klass_table_split kl : klass_table kl -> exists k0 k1 k2 k3 rest, kl = k0 :: k1 :: k2 :: k3 :: rest /\
  ktype k0 = HT_EndiannessInfoEvent /\ ktype k1 = HT_Event /\ ktype k2 = HT_EventKlassInfoEvent /\
  ktype k3 = HT_EventKlassFieldInfoEvent.
Proof.
  intros [Hc _ _ _ _]. destruct kl as [|k0 [|k1 [|k2 [|k3 rest]]]]; try done. simplify_eq/=. by exists k0, k1, k2, k3, rest.
Qed.

(** What KlassRegister() holds. *)
Lemma core_register_Forall (P : Z -> parser_EventKlass -> Prop) :
  (forall pk, KlassRegister !! EndiannessInfoEventKlass = Some pk -> P EndiannessInfoEventKlass pk) ->
  (forall pk, KlassRegister !! EventKlass_id = Some pk -> P EventKlass_id pk) ->
  (forall pk, KlassRegister !! EventKlassInfoEventKlass = Some pk -> P EventKlassInfoEventKlass pk) ->
  (forall pk, KlassRegister !! EventKlassFieldInfoEventKlass = Some pk -> P EventKlassFieldInfoEventKlass pk) ->
  map_Forall P KlassRegister.
Proof.
  intros P0 P1 P2 P3 id pk E. assert (id ∈ (map_to_list KlassRegister).*1) as Hin.
  { apply list_elem_of_fmap. exists (id, pk). split; [done|]. by apply elem_of_map_to_list. }
  assert (id ∈ [3; 2; 1; 0]) as Hin' by (vm_compute in Hin; exact Hin).
  set_unfold in Hin'. destruct_or! Hin'; subst id; auto.
Qed.

(** The klasses of the library itself. *)
Lemma learn_core kl : klass_table kl -> exists reg, parse_klasses (take 4 kl) KlassRegister = Some reg /\ learned kl 4 reg.
Proof.
  intros T. destruct (klass_table_split _ T) as (k0&k1&k2&k3&rest&->&E0&E1&E2&E3).
  pose proof (fun i => kt_info _ T i) as Hi. pose proof (fun i => kt_ids _ T i) as Hid.
  set (x := get_klass_by_name (string_bytes "HT_Event") KlassRegister).
  exists (<[EndiannessInfoEventKlass := endianness_klass x]> KlassRegister). split.
  - cbn [take parse_klasses]. rewrite (Hi 0%nat k0), (Hi 1%nat k1), (Hi 2%nat k2), (Hi 3%nat k3) by done. cbn [mbind option_bind].
    rewrite (Hid 0%nat k0), (Hid 1%nat k1), (Hid 2%nat k2), (Hid 3%nat k3) by done.
    rewrite E0. assert (parse_klass (Z.of_nat 0) (get_type_info HT_EndiannessInfoEvent) KlassRegister =
      Some (<[EndiannessInfoEventKlass := endianness_klass x]> KlassRegister)) as -> by reflexivity.
    cbn [mbind option_bind]. do 3 (rewrite parse_well_known; [|done|rewrite lookup_insert_ne by done; by eexists]; cbn [mbind option_bind]).
    done.
  - split.
    + unfold core_known. by rewrite !lookup_insert_ne.
    + exists x. by rewrite lookup_insert_eq.
    + apply map_Forall_insert_2; [|apply core_register_Forall; intros pk E; vm_compute in E; injection E as <-];
        (split; [done|split; [done|]]); eexists; (split; [reflexivity|]); by rewrite ?E0, ?E1, ?E2, ?E3.
    + intros id Hs. apply lookup_insert_is_Some in Hs as [<-|[_ [pk Hs]]]; [done|]. revert id pk Hs.
      by apply (core_register_Forall (fun id _ => id < 4)).
    + intros; lia.
Qed.

(** *** What was learned is what was declared *)

Lemma found_by_name kl n reg j k pk :
  klass_table kl -> learned kl n reg -> kl !! j = Some k -> reg !! Z.of_nat j = Some pk ->
  get_klass_by_name (string_bytes (c_type_name (ktype k))) reg = Some (Z.of_nat j).
Proof.
  intros T L Hk Hpk. unfold get_klass_by_name, get_klass_id.
  set (P := fun kv : Z * parser_EventKlass => get_klass_name kv.2 = string_bytes (c_type_name (ktype k))).
  assert (Hin : (Z.of_nat j, pk) ∈ elements_of reg).
  { rewrite elements_of_perm. by apply elem_of_map_to_list. }
  destruct (ln_known _ _ _ L _ _ Hpk) as (_&_&k'&Hk'&Hn'). rewrite Nat2Z.id in Hk'. assert (k' = k) as -> by congruence.
  destruct (list_find_elem_of P (elements_of reg) _ Hin Hn') as [[i [id pk']] Hf]. subst P. cbn beta in Hf. rewrite Hf.
  apply list_find_Some in Hf as (Hi&Hname&_). simpl in Hname.
  assert (Hid : reg !! id = Some pk').
  { apply list_elem_of_lookup_2 in Hi. rewrite elements_of_perm in Hi. by apply elem_of_map_to_list in Hi. }
  destruct (ln_known _ _ _ L _ _ Hid) as (Eid&H0&k2&Hk2&Hn2). rewrite Hname in Hn2. apply string_bytes_inj in Hn2.
  assert (Z.to_nat id = j) as Hj.
  { apply (NoDup_lookup _ _ _ (c_type_name (ktype k)) (kt_names _ T)); rewrite list_lookup_fmap; [rewrite Hk2|rewrite Hk]; [|done].
    simpl. by rewrite Hn2. }
  rewrite Eid. unfold get_klass. rewrite Hid. f_equal. lia.
Qed.

Lemma numeric_type n sg c off name tid : n ∈ [1; 2; 4; 8]%nat ->
  get_type_id (Z.of_nat n) (field_data_type (FieldInfo c name (Z.of_nat n) off sg (-1) MKCREFLECT_TYPES_INTEGER)) = Some tid ->
  to_underlying tid <= to_underlying INT64 /\ forall nm tn k, get_sizeof (MkField nm tn tid k) = Some n.
Proof. intros Hn. set_unfold in Hn. destruct_or! Hn; subst n; destruct sg; intros E; vm_compute in E; by simplify_eq. Qed.

Lemma described_fields kl reg fs off pfs :
  klass_table kl -> Forall (parsable_field kl) fs -> Forall2 field_matches (fields_info off fs) pfs ->
  (forall sname sfs, Struct sname sfs ∈ fs.*2 -> sname <> "HT_Event"%string /\
     exists i k, get_klass_by_name (string_bytes sname) reg = Some i /\ reg !! i = Some k /\ described reg sfs (get_fields k)) ->
  described reg fs pfs.
Proof.
  intros T HF. revert off pfs. induction HF as [|[name t] fs Hf HF IH]; intros off pfs HF2 Hsub; simpl in HF2.
  - inversion_clear HF2. apply described_nil.
  - inversion HF2 as [|info f infos pfs' (Hn&Htn&Htid) HF2']; subst. cbn [field_name field_type] in Hn, Htn.
    assert (Hrest : described reg fs pfs').
    { eapply IH; [done|]. intros sname sfs Hin. apply Hsub. by right. }
    destruct t as [d c n sg| | |sname sfs].
    + destruct Hf as (Hd&Hw&Hts). simpl in Hd. subst d. destruct (numeric_type _ _ _ _ _ _ Hw Htid) as [Hle Hsz].
      apply described_num; try done.
      * unfold is_numeric. by apply Z.leb_le.
      * destruct f as [? ? tid x]. apply Hsz.
      * intros E. apply Hts, string_bytes_inj. exact (eq_trans (eq_sym Hn) E).
    + apply described_string; try done.
      * by injection Htid.
      * intros E. apply Hf, string_bytes_inj. exact (eq_trans (eq_sym Hn) E).
    + apply described_header, described_base; [|done]. split_and!; [by injection Htid|done|by rewrite Hn, (Hf : name = _)].
    + destruct (Hsub sname sfs) as (Hne&i&k&Hi&Hk&Hd); [by left|].
      eapply described_struct; try done.
      * by injection Htid.
      * intros (_&Hb&_). apply Hne, string_bytes_inj. exact (eq_trans (eq_sym Htn) Hb).
      * by rewrite Htn.
Qed.

Lemma struct_in_table kl name fs : klass_table kl -> Struct name fs ∈ (ktype <$> kl) ->
  name <> "HT_Event"%string /\ exists j k, kl !! j = Some k /\ ktype k = Struct name fs.
Proof.
  intros T Hin. apply list_elem_of_fmap in Hin as (k&Ek&Hin). apply list_elem_of_lookup_1 in Hin as [j Hj].
  split; [|by exists j, k]. intros ->. destruct (klass_table_split _ T) as (k0&k1&k2&k3&rest&->&E0&E1&E2&E3).
  assert (j = 1%nat) as ->.
  { apply (NoDup_lookup _ _ _ "HT_Event"%string (kt_names _ T)); rewrite list_lookup_fmap; [rewrite Hj; simpl; by rewrite <- Ek|].
    simpl. by rewrite E1. }
  simplify_eq/=. congruence.
Qed.

Lemma depth_field name t (fs : list (string * ctype)) : t ∈ fs.*2 -> (depth t < depth (Struct name fs))%nat.
Proof.
  cbn [depth]. induction fs as [|[n u] fs IH]; intros Hin; [by apply not_elem_of_nil in Hin|].
  cbn [foldr fmap list_fmap snd] in *. apply elem_of_cons in Hin as [->|Hin]; [simpl; lia|]. specialize (IH Hin). simpl in *. lia.
Qed.

(** Every klass of the table is described. *)
Lemma learned_described kl reg j k name fs :
  klass_table kl -> learned kl (length kl) reg -> kl !! j = Some k -> ktype k = Struct name fs ->
  exists pk, reg !! Z.of_nat j = Some pk /\ described reg fs (get_fields pk).
Proof.
  intros T L. remember (depth (Struct name fs)) as dep eqn:Edep. revert j k name fs Edep.
  induction (lt_wf dep) as [dep _ IH]. intros j k name fs -> Hk Ek.
  destruct (decide (4 <= j)%nat) as [Hj|Hj].
  - destruct (kt_fields _ T _ _ Hk Hj) as (name'&fs'&Ek'&_&HF). rewrite Ek in Ek'. simplify_eq.
    destruct (ln_fields _ _ _ L j k Hk) as (pk&Hpk&HF2); [split; [done|by eapply lookup_lt_Some]|].
    exists pk. split; [done|]. rewrite Ek in HF2. apply (described_fields kl reg _ 0 _ T HF HF2).
    intros sname sfs Hin. apply list_elem_of_fmap in Hin as ([fname t]&Et&Hin). simpl in Et. subst t.
    pose proof (proj1 (Forall_forall _ _) HF _ Hin) as Hp. cbn in Hp.
    destruct (struct_in_table _ _ _ T Hp) as (Hne&j'&k'&Hj'&Ek''). split; [done|].
    destruct (IH (depth (Struct sname sfs))) with (j := j') (k := k') (name := sname) (fs := sfs) as (pk'&Hpk'&Hd'); try done.
    { apply depth_field. apply list_elem_of_fmap. by exists (fname, Struct sname sfs). }
    exists (Z.of_nat j'), pk'. split_and!; try done.
    pose proof (found_by_name _ _ _ _ _ _ T L Hj' Hpk') as Hfn. by rewrite Ek'' in Hfn.
  - destruct (klass_table_split _ T) as (k0&k1&k2&k3&rest&->&E0&E1&E2&E3). destruct (core_knows reg (ln_core _ _ _ L)) as [[_ [_ K2]] [_ [_ K3]]].
    destruct j as [|[|[|[|j]]]]; [| | | |lia]; simpl in Hk; injection Hk as <-.
    + destruct (ln_endianness _ _ _ L) as [x Hx]. exists (endianness_klass x). split; [done|].
      rewrite E0 in Ek. injection Ek as _ <-. apply described_header, described_num; try done. by apply described_base, described_nil.
    + congruence.
    + rewrite E2 in Ek. by injection Ek as _ <-.
    + rewrite E3 in Ek. by injection Ek as _ <-.
Qed.

Lemma learned_knows kl reg j k :
  klass_table kl -> learned kl (length kl) reg -> kl !! j = Some k -> knows reg (klass_id k) (ktype k).
Proof.
  intros T L Hk. rewrite (kt_ids _ T _ _ Hk). split; [by destruct (ln_core _ _ _ L) as [-> _]|].
  destruct (ktype k) as [| | |name fs] eqn:Ek.
  1-3: destruct (decide (4 <= j)%nat) as [Hj|Hj];
    [destruct (kt_fields _ T _ _ Hk Hj) as (?&?&?&_); congruence|];
    destruct (klass_table_split _ T) as (k0&k1&k2&k3&rest&->&E0&E1&E2&E3);
    destruct j as [|[|[|[|j]]]]; [| | | |lia]; simpl in Hk; injection Hk as <-; first [done|rewrite ?E0, ?E1, ?E2, ?E3 in Ek; done].
  split; [|by eapply learned_described].
  destruct (klass_table_split _ T) as (k0&k1&k2&k3&rest&->&E0&E1&E2&E3). intros Hj.
  assert (j = 1%nat) as -> by (unfold EventKlass_id in Hj; lia). simplify_eq/=. congruence.
Qed.

Lemma parse_klasses_app l1 l2 reg : parse_klasses (l1 ++ l2) reg = parse_klasses l1 reg ≫= parse_klasses l2.
Proof.
  revert reg. induction l1 as [|k l1 IH]; intros reg; [done|]. simpl. destruct (type_info k); [|done]. simpl.
  destruct (parse_klass (klass_id k) _ reg); [|done]. apply IH.
Qed.

(** The metadata makes the parser know every klass of the program. *)
Lemma learn_all kl : klass_table kl -> exists reg, parse_klasses kl KlassRegister = Some reg /\
  forall j k, kl !! j = Some k -> knows reg (klass_id k) (ktype k).
Proof.
  intros T. destruct (learn_core _ T) as (reg4&E4&L4). destruct (learn_rest kl (drop 4 kl) 4 reg4 T) as (reg&E&L); try done.
  exists reg. split.
  - by rewrite <- (take_drop 4 kl), parse_klasses_app, E4.
  - intros j k Hk. eapply learned_knows; [done| |done].
    rewrite length_drop in L. destruct (klass_table_split _ T) as (k0&k1&k2&k3&rest&->&_).
    simpl in L. by rewrite Nat.sub_0_r in L.
Qed.

End register.

(** ** A whole trace *)

(** A trace of a program: the metadata of the state [s], whose registered
    klasses are [kl], and then the events [es]; [d] is enough depth for the
    reader. *)
Record traced {E} (P : Platform) `{UnorderedMap} `{Alphabet} (d : nat) (s : sys E) (ps : list ptr) (kl : list HT_EventKlass)
    (meta es : list pushed) : Prop := {
  tr_klasses : Forall2 (fun p k => klasses s !! p = Some k) ps kl;
  tr_core : take 4 ps = [at_HT_EndiannessInfoEvent; at_HT_Event; at_HT_EventKlassInfoEvent; at_HT_EventKlassFieldInfoEvent];
  tr_system : at_HT_SystemInfoEvent ∈ ps;
  tr_system_type : exists Y, klasses s !! at_HT_SystemInfoEvent = Some Y /\ ktype Y = HT_SystemInfoEvent;
  tr_table : klass_table kl;
  tr_names : Forall (fun k => describable_to_parser k (get_type_info (ktype k))) kl;
  tr_meta : metadata_events s ps meta;
  tr_ok : Forall (pushed_ok (klasses s)) (meta ++ es);
  tr_known : Forall (fun e => pklass e ∈ kl /\ plain_id (klass_id (pklass e)) /\ c_strings (pv e)) es;
  tr_depth : Forall (fun e => (depth (ktype (pklass e)) + length (pbytes e) + 24 < d)%nat) (meta ++ es)
}.

Section trace.
  Context {E S C : Type} `{StreamLaws S} `{EventListener C} `{UnorderedMap}.
  Context (producer consumer : Platform) (d : nat) (s : sys E) (ps : list ptr) (kl : list HT_EventKlass) (meta es : list pushed).
  Context (T : traced producer d s ps kl meta es).
  #[local] Existing Instance consumer.

Lemma traced_at i p : ps !! i = Some p -> exists k, klasses s !! p = Some k /\ kl !! i = Some k.
Proof. intros Hp. destruct (Forall2_lookup_l _ _ _ _ _ (tr_klasses _ _ _ _ _ _ _ T) Hp) as (k&Hk&E'). by exists k. Qed.

Lemma core_at (i : nat) : (i < 4)%nat -> ps !! i = [at_HT_EndiannessInfoEvent; at_HT_Event; at_HT_EventKlassInfoEvent; at_HT_EventKlassFieldInfoEvent] !! i.
Proof. intros Hi. rewrite <- (tr_core _ _ _ _ _ _ _ T). by rewrite lookup_take_lt. Qed.

(** The klass of the core event at position [i]. *)
Lemma core_klass_at i p : (i < 4)%nat ->
  [at_HT_EndiannessInfoEvent; at_HT_Event; at_HT_EventKlassInfoEvent; at_HT_EventKlassFieldInfoEvent] !! i = Some p ->
  exists k, klasses s !! p = Some k /\ kl !! i = Some k /\ klass_id k = Z.of_nat i /\
    Some (ktype k) = [HT_EndiannessInfoEvent; HT_Event; HT_EventKlassInfoEvent; HT_EventKlassFieldInfoEvent] !! i /\
    type_info k = Some (get_type_info (ktype k)).
Proof.
  intros Hi Hp. rewrite <- core_at in Hp by done. destruct (traced_at _ _ Hp) as (k&Hk&Hkl). exists k.
  pose proof (tr_table _ _ _ _ _ _ _ T) as Tab. split_and!; try done; [by apply (kt_ids _ Tab)| |by eapply kt_info].
  rewrite <- (kt_core _ Tab), lookup_take_lt, list_lookup_fmap, Hkl by done. done.
Qed.

(** The byte order comes first, in a header that is the same in both. *)
Lemma consumes_endianness b :
  @pushed_ok producer (klasses s) b -> pv b = @endianness_event producer ->
  (depth (ktype (pklass b)) + length (pbytes b) + 24 < d)%nat ->
  consumes consumer (S:=S) (C:=C) d KlassRegister HT_ENDIANNESS_LITTLE [b] KlassRegister (@endianness producer).
Proof.
  intros Hok Hv Hd. destruct (core_klass_at 0 at_HT_EndiannessInfoEvent) as (B&HB&_&HBid&HBt&_); [lia|done|].
  injection HBt as HBt. assert (pklass b = B) as EB.
  { destruct Hok as [E' _ _ _ _ _]. rewrite Hv in E'. cbn in E'. rewrite HB in E'. by simplify_eq. }
  apply (consumes_one producer consumer d (klasses s)).
  - split; [done|by rewrite Hv| |by rewrite EB, HBid|lia]. rewrite EB, HBid, HBt. split; [done|]. split; [done|].
    eexists. split; [reflexivity|]. apply described_header, described_num; try done. apply described_nil.
  - left. by rewrite EB.
  - rewrite Hv, EB, HBt. intros p ts id Eh _. cbn in Eh. simplify_eq. split_and!; try done. by destruct endianness.
  - rewrite EB, HBid. intros ev (p&ts&id&_&Hdec). rewrite EB, HBid, HBt in Hdec. split; [by eapply handle_plain|].
    unfold next_endianness. rewrite decide_True by done. destruct Hdec as [_ Ev _ _]. rewrite Hv in Ev.
    eexists. split; [eapply get_value_num; rewrite Ev; reflexivity|]. by destruct (@endianness producer).
Qed.

(** An event whose klass was registered. *)
Lemma traced_readable reg e :
  (forall j k, kl !! j = Some k -> knows reg (klass_id k) (ktype k)) ->
  @pushed_ok producer (klasses s) e -> pklass e ∈ kl -> c_strings (pv e) ->
  (depth (ktype (pklass e)) + length (pbytes e) + 24 < d)%nat -> readable producer d (klasses s) reg e.
Proof.
  intros Hkn Hok Hin Hc Hd. apply list_elem_of_lookup_1 in Hin as Hin'. destruct Hin' as [j Hj].
  split; try done; [by eapply Hkn| |lia].
  pose proof (proj1 (Forall_forall _ _) (tr_names _ _ _ _ _ _ _ T) _ Hin) as (Hid&_). done.
Qed.

(** The version of the library comes last in the metadata. *)
Lemma traced_system y : @pushed_ok producer (klasses s) y -> pv y = system_info_event ->
  pklass y ∈ kl /\ plain_id (klass_id (pklass y)) /\ c_strings (pv y).
Proof.
  intros Hok Hv. destruct (tr_system_type _ _ _ _ _ _ _ T) as (Y&HY&Yt).
  pose proof (tr_system _ _ _ _ _ _ _ T) as Hin. apply list_elem_of_lookup_1 in Hin as [j Hj].
  destruct (traced_at _ _ Hj) as (k&Hk&Hkl). assert (k = Y) as -> by congruence.
  assert (pklass y = Y) as EY.
  { destruct Hok as [E' _ _ _ _ _]. rewrite Hv in E'. cbn in E'. rewrite HY in E'. by simplify_eq. }
  rewrite EY. split; [by eapply list_elem_of_lookup_2|]. split; [|by rewrite Hv].
  assert (Hj4 : (4 <= j)%nat).
  { destruct (decide (4 <= j)%nat); [done|]. rewrite core_at in Hj by lia.
    destruct j as [|[|[|[|j]]]]; [done..|lia]. }
  rewrite (kt_ids _ (tr_table _ _ _ _ _ _ _ T) _ _ Hkl).
  unfold plain_id, EndiannessInfoEventKlass, EventKlassInfoEventKlass, EventKlassFieldInfoEventKlass. lia.
Qed.

Lemma metadata_klasses ess :
  Forall2 (fun p es => exists k, klasses s !! p = Some k /\ describes k es) ps ess -> Forall2 describes kl ess.
Proof.
  intros HF. pose proof (tr_klasses _ _ _ _ _ _ _ T) as HK. clear T. revert kl HK.
  induction HF as [|p es' ps' ess' (k&Hk&Hd) HF IH]; intros kl' HK; inversion HK; subst; constructor; [|by apply IH].
  assert (y = k) as -> by congruence. done.
Qed.

(** The reader goes through the whole trace. *)
Lemma consumes_trace : exists reg,
  (forall j k, kl !! j = Some k -> knows reg (klass_id k) (ktype k)) /\
  consumes consumer (S:=S) (C:=C) d KlassRegister HT_ENDIANNESS_LITTLE (meta ++ es) reg (@endianness producer).
Proof.
  destruct (learn_all kl (tr_table _ _ _ _ _ _ _ T)) as (reg&Ep&Hkn). exists reg. split; [done|].
  destruct (tr_meta _ _ _ _ _ _ _ T) as (b&ess&y&Em&Hb&Hy&HF).
  pose proof (tr_ok _ _ _ _ _ _ _ T) as Hok. pose proof (tr_depth _ _ _ _ _ _ _ T) as Hd. rewrite Em in Hok, Hd |- *.
  cbn [app] in *. rewrite <- app_assoc in *. apply Forall_cons in Hok as [Hokb Hok], Hd as [Hdb Hd].
  apply Forall_app in Hok as [Hokm Hok], Hd as [Hdm Hd].
  apply (consumes_app _ _ _ _ [b] KlassRegister (@endianness producer)); [by apply consumes_endianness|].
  destruct (core_klass_at 2 at_HT_EventKlassInfoEvent) as (K&HK&_&HKid&HKt&HKi); [lia|done|].
  destruct (core_klass_at 3 at_HT_EventKlassFieldInfoEvent) as (F&HF'&_&HFid&HFt&HFi); [lia|done|].
  injection HKt as HKt. injection HFt as HFt. rewrite HKt in HKi. rewrite HFt in HFi.
  eapply consumes_app.
  - assert (HIK : info_klasses (klasses s) K F) by done.
    assert (HN : Forall (fun k => forall ti, type_info k = Some ti -> describable_to_parser k ti) kl).
    { apply Forall_lookup_2. intros i k Hk ti Hti. rewrite (kt_info _ (tr_table _ _ _ _ _ _ _ T) _ _ Hk) in Hti. simplify_eq.
      by eapply (Forall_lookup_1 _ _ _ _ (tr_names _ _ _ _ _ _ _ T)). }
    assert (HFit : Forall (fits_reader d) (concat ess)).
    { eapply Forall_impl; [exact Hdm|]. unfold fits_reader. simpl. lia. }
    by eapply (consumes_klasses producer consumer (klasses s) K F d HIK HKid HFid kl ess KlassRegister reg);
      [..|apply metadata_klasses| |].
  - cbn [app] in *. apply Forall_cons in Hok as [Hoky Hok], Hd as [Hdy Hd]. destruct (traced_system y Hoky Hy) as (Hin&Hpl&Hc).
    pose proof (tr_known _ _ _ _ _ _ _ T) as Hes.
    apply (consumes_plain producer consumer d (klasses s)); constructor; [by apply traced_readable| |done|].
    + apply Forall_lookup_2. intros i e He. destruct (Forall_lookup_1 _ _ _ _ Hes He) as (?&?&?).
      apply traced_readable; try done; [by eapply (Forall_lookup_1 _ _ _ _ Hok)|by eapply (Forall_lookup_1 _ _ _ _ Hd)].
    + eapply Forall_impl; [exact Hes|]. by intros ? (?&?&?).
Qed.

Lemma trace_end reg s1 c : (forall j k, kl !! j = Some k -> knows reg (klass_id k) (ktype k)) -> stream_at s1 [] ->
  read_one d (reader_at reg (@endianness producer) s1 c) = Done (false, reader_at reg (@endianness producer) (read_data 4 s1).2 c).
Proof.
  intros Hkn Hs1. set (r1 := reader_at reg _ s1 _).
  assert (Hh : reg !! EventKlass_id = Some header_klass).
  { destruct (core_klass_at 1 at_HT_Event) as (k&_&Hk&_); [lia|done|]. by destruct (Hkn _ _ Hk). }
  assert (Hd : (0 < d)%nat).
  { destruct (tr_meta _ _ _ _ _ _ _ T) as (b&ess&y&Em&_). pose proof (tr_depth _ _ _ _ _ _ _ T) as Hd. rewrite Em in Hd.
    apply Forall_cons in Hd as [Hd _]. lia. }
  pose proof (read_one_end d r1 Hh Hd Hs1) as W. unfold wp in W.
  destruct (read_one d r1) as [[more r2]| |]; [|done|done]. by destruct W as [-> ->].
Qed.

Lemma read_trace fuel s0 c :
  (length (meta ++ es) < fuel)%nat -> stream_at s0 (stream_bytes (meta ++ es)) ->
  wp (start_and_wait d fuel) (fun _ r => _is_running r = false /\
    (exists evs, Forall2 decodes (meta ++ es) evs /\ _listeners r = foldl (fun c ev => on_new_event ev c) c evs) /\
    forall j k, kl !! j = Some k -> knows (_klass_register r) (klass_id k) (ktype k)) (new_reader KlassRegister s0 true c).
Proof.
  intros Hf Hs. destruct consumes_trace as (reg&Hkn&Hcons). rewrite <- (app_nil_r (stream_bytes _)) in Hs.
  destruct (Hcons s0 c [] Hs) as (s1&evs&Hs1&HF&Eloop&_). unfold start_and_wait, _read_events.
  apply wp_bind, wp_modify, wp_bind. change (set_running true (new_reader KlassRegister s0 true c)) with
    (reader_at KlassRegister HT_ENDIANNESS_LITTLE s0 c).
  destruct (Nat.le_exists_sub (Datatypes.S (length (meta ++ es))) fuel) as (n&Ef&_); [lia|].
  replace fuel with (length (meta ++ es) + Datatypes.S n)%nat by lia. unfold wp at 1. rewrite Eloop. cbn [read_events_loop].
  unfold mbind, st_bind, running_of, gets. cbn [_is_running reader_at].
  rewrite (take_ge evs) by (rewrite <- (Forall2_length _ _ _ HF); lia).
  rewrite (trace_end reg s1 (foldl (fun c ev => on_new_event ev c) c evs) Hkn Hs1).
  split; [done|]. split; [by exists evs|done].
Qed.

(** The rounds until stop() sets the flag: the listeners have got the first
    [k] events, and a thread that is asked for more of them than there are is then
    in a call for the next one. *)
Lemma read_trace_rounds k s0 c : stream_at s0 (stream_bytes (meta ++ es)) ->
  exists evs r, Forall2 decodes (meta ++ es) evs /\
    read_rounds d k (set_running true (new_reader KlassRegister s0 true c)) = Done (bool_decide (k <= length (meta ++ es))%nat, r) /\
    _listeners r = foldl (fun c ev => on_new_event ev c) c (take k evs) /\
    ((length (meta ++ es) < k)%nat -> exists s1, stream_at s1 [] /\ _stream r = (read_data 4 s1).2).
Proof.
  intros Hs. destruct consumes_trace as (reg&Hkn&Hcons). rewrite <- (app_nil_r (stream_bytes _)) in Hs.
  destruct (Hcons s0 c [] Hs) as (s1&evs&Hs1&HF&_&Erounds&Hpart).
  change (set_running true (new_reader KlassRegister s0 true c)) with (reader_at KlassRegister HT_ENDIANNESS_LITTLE s0 c).
  destruct (decide (k <= length (meta ++ es))%nat) as [Hle|Hgt].
  - destruct (Hpart k Hle) as (reg1&e1&s2&->). rewrite bool_decide_eq_true_2 by done. eexists evs, _. split_and!; [done..|lia].
  - pose proof (Erounds (Datatypes.S (k - length (meta ++ es) - 1))) as Er. cbn [read_rounds] in Er. unfold mbind, st_bind in Er.
    rewrite (take_ge evs) in Er by (rewrite <- (Forall2_length _ _ _ HF); lia). rewrite (trace_end reg s1 _ Hkn Hs1) in Er.
    replace (length (meta ++ es) + Datatypes.S (k - length (meta ++ es) - 1))%nat with k in Er by lia. rewrite Er, bool_decide_eq_false_2 by done.
    eexists evs, _. split_and!; [done|done|by rewrite take_ge by (rewrite <- (Forall2_length _ _ _ HF); lia)|]. intros _. by exists s1.
Qed.

End trace.

(** C4: what was traced is what the parser reports.  For every program whose
    klasses are declared with fields the parser can read (integers of 1, 2, 4
    or 8 bytes, strings that are not NULL, and structures that are registered
    klasses themselves), the reader goes through the metadata and the events of a trace,
    in whatever byte order it was written, and ends at the end of the stream:
    the listeners get the events in the order in which they were pushed, each
    with the identifier of its klass and with the values of its fields, under
    their names; and the register then describes every klass of the
    program. *)
Theorem trace_round_trip {E S C} `{StreamLaws S} `{EventListener C} `{UnorderedMap} (producer consumer : Platform)
    d fuel (s : sys E) ps kl meta es (s0 : S) (c : C) :
  traced producer d s ps kl meta es -> (length (meta ++ es) < fuel)%nat -> stream_at s0 (stream_bytes (meta ++ es)) ->
  wp (@start_and_wait S C _ _ _ consumer d fuel) (fun _ r => _is_running r = false /\
    (exists evs, Forall2 decodes (meta ++ es) evs /\ _listeners r = foldl (fun c ev => on_new_event ev c) c evs) /\
    forall j k, kl !! j = Some k -> knows (_klass_register r) (klass_id k) (ktype k)) (new_reader KlassRegister s0 true c).
Proof. intros T Hf Hs. exact (read_trace producer consumer d s ps kl meta es T fuel s0 c Hf Hs). Qed.

(** ** A trace of a big-endian machine *)

Section samples.

#[local] Existing Instance log_host.
#[local] Existing Instance log_logged.

Definition big_endian : Platform := {| endianness := HT_ENDIANNESS_BIG |}.
#[local] Existing Instance big_endian.

#[local] Existing Instance map_order.
#[local] Existing Instance all_bytes.

#[export] Instance event_log : EventListener (list parser_Event) := {| on_new_event e l := l ++ [e] |}.

Definition core_table : list HT_EventKlass := imap (fun i pt => registered pt.2 (Z.of_nat i)) core_klasses.

Definition main_call : cval :=
  VStruct [VStruct [VEvent at_HT_CallstackStringEvent 1000 1; VScalar 250; VScalar 3]; cstr "main"].

Definition main_event : pushed :=
  Pushed main_call (registered HT_CallstackStringEvent 6)
    (default [] (wire (klasses ready_sys) main_call)).

Lemma core_table_ok : klass_table core_table.
Proof.
  split.
  - reflexivity.
  - intros i k Hk. unfold core_table in Hk. rewrite list_lookup_imap in Hk. destruct (core_klasses !! i); by simplify_eq/=.
  - intros i k Hk. unfold core_table in Hk. rewrite list_lookup_imap in Hk. destruct (core_klasses !! i); by simplify_eq/=.
  - apply (bool_decide_unpack _). vm_compute. exact I.
  - intros i k Hk Hi. do 4 (destruct i as [|i]; [lia|]).
    assert (HB : HT_CallstackBaseEvent ∈ (ktype <$> core_table)).
    { apply (list_elem_of_lookup_2 _ 4). reflexivity. }
    do 5 (destruct i as [|i]; [cbn in Hk; injection Hk as <-; eexists _, _; split; [reflexivity|]; split;
      [apply (bool_decide_unpack _); vm_compute; exact I|];
      repeat (apply Forall_cons; split; [first [reflexivity|exact HB|done|split; [reflexivity|split; [apply (bool_decide_unpack _); exact I|done]]]|]);
      apply Forall_nil; exact I|]).
    done.
Qed.

Lemma stream_bytes_cons e es : stream_bytes (e :: es) = pbytes e ++ stream_bytes es.
Proof. done. Qed.

Lemma wire_cells_bytes es : wire_cells es = Byte <$> stream_bytes es.
Proof. induction es as [|e es IH]; [done|]. by rewrite wire_cells_cons, IH, stream_bytes_cons, fmap_app. Qed.

Lemma stream_bytes_length ks es : Forall (pushed_ok ks) es -> (length es <= length (stream_bytes es))%nat.
Proof.
  induction 1 as [|e es He _ IH]; [done|]. rewrite stream_bytes_cons, length_app. simpl.
  destruct He as [_ _ Hs _ Hw _]. pose proof (encode_header _ _ _ _ Hs Hw). lia.
Qed.

Lemma stream_bytes_elem es e : e ∈ es -> (length (pbytes e) <= length (stream_bytes es))%nat.
Proof.
  induction es as [|x es IH]; intros Hin; [by apply not_elem_of_nil in Hin|]. rewrite stream_bytes_cons, length_app. simpl.
  apply elem_of_cons in Hin as [->|Hin]; [lia|]. specialize (IH Hin). lia.
Qed.

Definition ends_in {St A} (m : ST St A) (P : St -> Prop) (s : St) : Prop :=
  match m s with Done (_, s') => P s' | _ => False end.

Lemma wp_ends_in {St A} (m : ST St A) Q (P : St -> Prop) s : wp m Q s -> ends_in m P s -> exists a s', Q a s' /\ P s'.
Proof. unfold wp, ends_in. destruct (m s) as [[a s']| |]; [|done..]. intros HQ HP. by exists a, s'. Qed.

Definition received_length (n : nat) (s : sys (list call)) : Prop := length (concat (received 1 (senv s)).*1) = n.

(** What ht_init leaves, pushed to a listener. *)
Lemma ready_length : ends_in (ht_timeline_listener_push_metadata 100 1 true) (received_length 2017) ready_sys.
Proof. vm_compute. reflexivity. Qed.

Lemma ready_metadata : exists meta, metadata_events ready_sys [1; 2; 3; 4; 5; 6; 7; 8; 9] meta /\
  Forall (pushed_ok (klasses ready_sys)) meta /\ length (stream_bytes meta) = 2017%nat.
Proof.
  pose proof (push_metadata_spec 100 1 (registered HT_EndiannessInfoEvent 0) (registered HT_EventKlassInfoEvent 2)
           (registered HT_EventKlassFieldInfoEvent 3) (registered HT_SystemInfoEvent 8) [1; 2; 3; 4; 5; 6; 7; 8; 9] ready_sys
           ready_sys_metadata) as W.
  destruct (wp_ends_in _ _ _ _ W ready_length) as (n&s'&(meta&Hm&Hok&_&(new&Er&_&Ec)&_)&Hlen).
  exists meta. split; [exact Hm|]. split; [exact Hok|]. unfold received_length in Hlen.
  rewrite app_nil_r, app_nil_l in Ec. rewrite Er, fmap_app, concat_app, Ec, wire_cells_bytes, length_app, length_fmap in Hlen.
  exact Hlen.
Qed.

Lemma sample_traced meta : metadata_events ready_sys [1; 2; 3; 4; 5; 6; 7; 8; 9] meta ->
  Forall (pushed_ok (klasses ready_sys)) meta -> length (stream_bytes meta) = 2017%nat ->
  traced big_endian 3000 ready_sys [1; 2; 3; 4; 5; 6; 7; 8; 9] core_table meta [main_event].
Proof.
  intros Hm Hok Hl.
  assert (Hmain : pushed_ok (klasses ready_sys) main_event) by (split; reflexivity).
  assert (HD : map_Forall (fun _ k => (depth (ktype k) <= 3)%nat) (klasses ready_sys)).
  { apply (bool_decide_unpack _). vm_compute. exact I. }
  split; try done.
  - repeat constructor.
  - by repeat (first [left; reflexivity|right]).
  - eexists. split; reflexivity.
  - apply core_table_ok.
  - unfold describable_to_parser, c_name, text. cbn [text_byte all_bytes]. apply (bool_decide_unpack _). vm_compute. exact I.
  - apply Forall_app. split; [done|]. by repeat constructor.
  - constructor; [|done]. split; [apply (list_elem_of_lookup_2 _ 6); reflexivity|]. split; [done|]. repeat constructor.
  - apply Forall_lookup_2. intros i e He. apply list_elem_of_lookup_2 in He.
    assert (Hle : (length (pbytes e) <= 2100)%nat).
    { apply elem_of_app in He as [He|He]; [pose proof (stream_bytes_elem _ _ He); lia|]. apply list_elem_of_singleton in He as ->. vm_compute. lia. }
    assert (Hoke : pushed_ok (klasses ready_sys) e).
    { apply elem_of_app in He as [He|He]; [by eapply (proj1 (Forall_forall _ _) Hok)|]. by apply list_elem_of_singleton in He as ->. }
    destruct Hoke as [Ek _ _ _ _ _]. unfold event_klass in Ek. destruct (HT_EVENT_GET_KLASS (pv e)) as [p|]; [|done].
    pose proof (HD _ _ Ek). simpl in *. lia.
Qed.

(** The bytes of that trace in a file, read on a little-endian machine. *)
Lemma trace_round_trip_witness : exists meta,
  traced big_endian 3000 ready_sys [1; 2; 3; 4; 5; 6; 7; 8; 9] core_table meta [main_event] /\
  wp (@start_and_wait FileStream (list parser_Event) _ _ _ little_endian 3000 3000) (fun _ r => _is_running r = false /\
    (exists evs, Forall2 decodes (meta ++ [main_event]) evs /\ _listeners r = foldl (fun c ev => on_new_event ev c) [] evs) /\
    forall j k, core_table !! j = Some k -> knows (_klass_register r) (klass_id k) (ktype k))
    (new_reader KlassRegister (open_stream (stream_bytes (meta ++ [main_event]))) true []).
Proof.
  destruct ready_metadata as (meta&Hm&Hok&Hl). pose proof (sample_traced meta Hm Hok Hl) as T. exists meta. split; [exact T|].
  apply (trace_round_trip big_endian little_endian 3000 3000 ready_sys [1; 2; 3; 4; 5; 6; 7; 8; 9] core_table meta [main_event]).
  - exact T.
  - rewrite length_app. pose proof (stream_bytes_length _ _ Hok). rewrite Hl in H. simpl. lia.
  - split; reflexivity.
Defined.

End samples.
