(* ===== verification/Client.v ===== *)
(** The client (client/): the map from numeric labels to names
    (tracepoint_map.cpp), the common part of the converters (converter.cpp)
    and the converter to the format of the Chrome trace viewer
    (chrome_trace_converter.cpp).

    Standard output and error are not modelled.  The files that are read are
    a parameter: their contents by name. *)
From stdpp Require Import pretty.
From S2P Require Import Prelude Alloc BaseTypes Memory Events Listeners Registry Endian Parser Reader.

#[local] Open Scope Z_scope.

#[local] Arguments string_bytes : simpl never.

(** The file system the client reads: [None] is a file that cannot be
    opened. *)
Class Files := { file_contents : bytes -> option bytes }.

(** std::to_string, operator<<. *)
Definition to_string (z : Z) : bytes := string_bytes (pretty z).

(** ** Formatted input of the standard library *)

Definition is_space (b : Z) : bool := bool_decide (b = 32 \/ 9 <= b <= 13).
Definition is_digit (b : Z) : bool := bool_decide (48 <= b <= 57).

Fixpoint span (p : Z -> bool) (l : bytes) : bytes * bytes :=
  match l with
  | b :: l' => if p b then let '(x, y) := span p l' in (b :: x, y) else ([], l)
  | [] => ([], [])
  end.

(** file >> std::string. *)
Definition read_token (l : bytes) : option (bytes * bytes) :=
  let '(x, y) := span (fun b => negb (is_space b)) (span is_space l).2 in
  match x with [] => None | _ => Some (x, y) end.

Definition digits_value (x : bytes) : Z := foldl (fun v b => 10 * v + (b - 48)) 0 x.

(** file >> uint64_t: a sign is allowed, a number that does not fit is an
    error. *)
Definition read_u64 (l : bytes) : option (Z * bytes) :=
  let l := (span is_space l).2 in
  let '(neg, l) := match l with
                   | b :: l' => if decide (b = 45) then (true, l') else if decide (b = 43) then (false, l') else (false, l)
                   | [] => (false, l)
                   end in
  let '(x, y) := span is_digit l in
  match x with
  | [] => None
  | _ => let v := digits_value x in
         if decide (v < 2 ^ 64) then Some (if (neg : bool) then u64 (- v) else v, y) else None
  end.

(** ** The map of the tracepoints (tracepoint_map.cpp) *)

Inductive Category := Unknown | Lua | Native.

Record MapInfo := MkMapInfo { map_label : bytes; category : bytes }.

Abbreviation TracepointMap := (gmap Z MapInfo).

Definition category_to_string (c : Category) : bytes :=
  match c with
  | Lua => string_bytes "lua"
  | Native => string_bytes "native"
  | Unknown => string_bytes "default"
  end.

(** while (file >> category >> label_str >> label). *)
Fixpoint load_loop (fuel : nat) (l : bytes) (m : TracepointMap) : outcome TracepointMap :=
  match fuel with
  | O => NoFuel
  | S fuel =>
      match ('(cat, l) ← read_token l; '(str, l) ← read_token l; '(label, l) ← read_u64 l; Some (cat, str, label, l)) with
      | Some (cat, str, label, l) => load_loop fuel l (<[label := MkMapInfo str cat]> m)
      | None => Done m
      end
  end.

Definition add_map_entry (id : Z) (label : bytes) (m : TracepointMap) : TracepointMap :=
  <[id := MkMapInfo label (category_to_string Unknown)]> m.

Definition get_label_info (label : Z) (m : TracepointMap) : MapInfo * TracepointMap :=
  match m !! label with
  | Some info => (info, m)
  | None => let info := MkMapInfo (to_string label) (category_to_string Unknown) in (info, <[label := info]> m)
  end.

(** std::string::find(c, start) and substr(start, len); npos is [None]. *)
Definition find_from (c : Z) (start : nat) (l : bytes) : option nat :=
  '(i, _) ← list_find (.= c) (drop start l); Some (start + i)%nat.

Definition substr (start : nat) (len : option nat) (l : bytes) : bytes :=
  match len with Some n => take n (drop start l) | None => drop start l end.

Section maps.
  Context `{Files}.

(** load_map; the result of the function is whether the file was opened. *)
Definition load_map (fuel : nat) (map_file : bytes) (m : TracepointMap) : outcome (bool * TracepointMap) :=
  match file_contents map_file with
  | None => Done (false, m)
  | Some l => match load_loop fuel l m with Done m => Done (true, m) | Undef => Undef | NoFuel => NoFuel end
  end.

(** The do-while loop of load_maps; [fuel] bounds the number of paths, [depth]
    the length of a file. *)
Fixpoint load_maps_loop (depth fuel : nat) (map_files : bytes) (start : nat) (m : TracepointMap) : outcome TracepointMap :=
  match fuel with
  | O => NoFuel
  | S fuel =>
      let pos := find_from 44 start map_files in
      let len := (fun p => (p - start)%nat) <$> pos in
      let path := substr start len map_files in
      match load_map depth path m with
      | Done (_, m) => match len with
                       | None => Done m
                       | Some n => load_maps_loop depth fuel map_files (start + n + 1) m
                       end
      | Undef => Undef
      | NoFuel => NoFuel
      end
  end.

Definition load_maps (depth fuel : nat) (map_files : bytes) (m : TracepointMap) : outcome TracepointMap :=
  load_maps_loop depth fuel map_files 0 m.

End maps.

(** ** What the converters share (converter.cpp) *)

Record Converter := MkConverter {
  _tracepoint_map : TracepointMap;
  _mapping_klass_id : Z
}.

(** Converter(). *)
Definition new_converter : Converter := MkConverter ∅ 0.

Definition _mapping_klass_name : bytes := string_bytes "HT_StringMappingEvent".

Section converter.
  Context `{Platform}.

(** get_raw_value(key) as a number or as a string. *)
Definition get_raw_value (key : bytes) (e : parser_Event) : option Value := get_values e !! key.

Definition _try_setting_mapping_klass_id (event : parser_Event) (c : Converter) : option Converter :=
  id ← get_klass_of event;
  if decide (id = EventKlassInfoEventKlass) then
    name ← get_value_str (string_bytes "event_klass_name") event;
    if decide (name = _mapping_klass_name) then
      kid ← get_value 4 (string_bytes "info_klass_id") event;
      Some (MkConverter (_tracepoint_map c) kid)
    else Some c
  else Some c.

Definition _convert_value_to_string (v : Value) (c : Converter) : option (bytes * Converter) :=
  match get_field_type_id v.2 with
  | UINT64 =>
      z ← read_num 8 v.1;
      let '(info, m) := get_label_info z (_tracepoint_map c) in
      Some (map_label info, MkConverter m (_mapping_klass_id c))
  | STRING => match v.1 with FString s => Some (s, c) | _ => None end
  | _ => Some (string_bytes "invalid label type", c)
  end.

Definition _get_label (event : parser_Event) (c : Converter) : option (bytes * Converter) :=
  id ← get_klass_of event;
  if decide (_mapping_klass_id c = 0) then
    c ← _try_setting_mapping_klass_id event c; Some ([], c)
  else if decide (id = _mapping_klass_id c) then
    i ← get_value 8 (string_bytes "identifier") event;
    label ← get_value_str (string_bytes "label") event;
    Some ([], MkConverter (add_map_entry i label (_tracepoint_map c)) (_mapping_klass_id c))
  else if has_value (string_bytes "label") event then
    v ← get_raw_value (string_bytes "label") event; _convert_value_to_string v c
  else if has_value (string_bytes "name") event then
    s ← get_value_str (string_bytes "name") event; Some (s, c)
  else Some ([], c).

End converter.

(** ** The Chrome trace viewer (chrome_trace_converter.cpp) *)

Record ChromeTraceConverter := MkChrome {
  chrome_base : Converter;
  _file : option bytes;          (* what was written to the open file *)
  _first_event_saved : bool
}.

Definition write (text : bytes) (c : ChromeTraceConverter) : ChromeTraceConverter :=
  MkChrome (chrome_base c) ((.++ text) <$> _file c) (_first_event_saved c).

(** Nanoseconds to microseconds. *)
Definition ns_to_ms (nano_secs : Z) : Z := nano_secs / 1000.

(** A member of the union that is an integer of n bytes, as a number. *)
Definition signed_value (n : nat) (z : Z) : Z :=
  let w := 8 * Z.of_nat n in if decide (z < 2 ^ (w - 1)) then z else z - 2 ^ w.

Definition core_fields : list bytes :=
  string_bytes <$> ["thread_id"; "timestamp"; "klass_id"; "id"; "label"; "duration"]%string.

(** The text between quotes; nothing in it is escaped. *)
Definition quoted (s : bytes) : bytes := 34 :: s ++ [34].

Section chrome.
  Context `{Platform} `{UnorderedMap}.

Definition print_int (n : nat) (signed : bool) (v : FieldType) : option bytes :=
  z ← read_num n v; Some (to_string (if signed then signed_value n z else z)).

Definition _get_json_value (v : Value) : option bytes :=
  match get_field_type_id v.2 with
  | UINT8 => print_int 1 false v.1
  | INT8 => print_int 1 true v.1
  | UINT16 => print_int 2 false v.1
  | INT16 => print_int 2 true v.1
  | UINT32 => print_int 4 false v.1
  | INT32 => print_int 4 true v.1
  | UINT64 => print_int 8 false v.1
  | INT64 => print_int 8 true v.1
  | STRING => match v.1 with FString s => Some (quoted s) | _ => None end
  | POINTER | STRUCT => Some (quoted (string_bytes "unsupported type"))
  end.
(** The loop of _get_args, over the values in the order of the hash table. *)
Fixpoint args_loop (l : list (bytes * Value)) (is_first : bool) (ret : bytes) : option bytes :=
  match l with
  | [] => Some ret
  | (name, v) :: l =>
      if decide (name ∈ core_fields) then args_loop l is_first ret
      else
        let ret := if is_first then ret else ret ++ string_bytes "," in
        x ← _get_json_value v;
        args_loop l false (ret ++ quoted name ++ string_bytes ": " ++ x)
  end.

Definition _get_args (event : parser_Event) : option bytes := args_loop (elements_of (get_values event)) true [].

(** init: [opened] is whether the file could be opened. *)
Definition chrome_init (opened : bool) (c : ChromeTraceConverter) : bool * ChromeTraceConverter :=
  let c := MkChrome (chrome_base c) (if opened then Some [] else None) false in
  if opened then (true, write (string_bytes "{" ++ quoted (string_bytes "traceEvents") ++ string_bytes ": [") c)
  else (false, c).

Definition json_event (label : bytes) (ts dur tid : Z) (args : bytes) : bytes :=
  string_bytes "{" ++ quoted (string_bytes "name") ++ string_bytes ": " ++ quoted label ++
  string_bytes ", " ++ quoted (string_bytes "ph") ++ string_bytes ": " ++ quoted (string_bytes "X") ++
  string_bytes ", " ++ quoted (string_bytes "ts") ++ string_bytes ": " ++ to_string ts ++
  string_bytes ", " ++ quoted (string_bytes "dur") ++ string_bytes ": " ++ to_string dur ++
  string_bytes ", " ++ quoted (string_bytes "pid") ++ string_bytes ": 0, " ++
  quoted (string_bytes "tid") ++ string_bytes ": " ++ to_string tid ++
  string_bytes ", " ++ quoted (string_bytes "args") ++ string_bytes ": {" ++ args ++ string_bytes "}" ++
  string_bytes "}".

Definition chrome_process_event (event : parser_Event) (c : ChromeTraceConverter) : option ChromeTraceConverter :=
  '(label, base) ← _get_label event (chrome_base c);
  let c := MkChrome base (_file c) (_first_event_saved c) in
  match label with
  | [] => Some c
  | _ =>
      let c := if _first_event_saved c then write (string_bytes ",") c
               else MkChrome (chrome_base c) (_file c) true in
      dur ← get_value_or_default 8 (string_bytes "duration") 0 event;
      tid ← get_value_or_default 4 (string_bytes "thread_id") 0 event;
      args ← _get_args event;
      Some (write (json_event label (ns_to_ms (get_event_timestamp event)) (ns_to_ms dur) tid args) c)
  end.

(** stop: the file is complete. *)
Definition chrome_stop (c : ChromeTraceConverter) : option bytes * ChromeTraceConverter :=
  match _file c with
  | Some text => (Some (text ++ string_bytes "]}"), MkChrome (chrome_base c) None (_first_event_saved c))
  | None => (None, c)
  end.

End chrome.

(** ** Labels

    The reference: the name that was given to a number last, or the number
    itself; looking a number up changes nothing. *)

Record label_state := MkLabels { names : gmap Z bytes; names_klass : Z }.

Section labels.
  Context `{Platform}.

Definition ref_value (v : Value) (s : label_state) : option bytes :=
  match get_field_type_id v.2 with
  | UINT64 => z ← read_num 8 v.1; Some (default (to_string z) (names s !! z))
  | STRING => match v.1 with FString s => Some s | _ => None end
  | _ => Some (string_bytes "invalid label type")
  end.

Definition ref_label (event : parser_Event) (s : label_state) : option (bytes * label_state) :=
  id ← get_klass_of event;
  if decide (names_klass s = 0) then
    if decide (id = EventKlassInfoEventKlass) then
      name ← get_value_str (string_bytes "event_klass_name") event;
      if decide (name = _mapping_klass_name) then
        kid ← get_value 4 (string_bytes "info_klass_id") event; Some ([], MkLabels (names s) kid)
      else Some ([], s)
    else Some ([], s)
  else if decide (id = names_klass s) then
    i ← get_value 8 (string_bytes "identifier") event;
    label ← get_value_str (string_bytes "label") event;
    Some ([], MkLabels (<[i := label]> (names s)) (names_klass s))
  else
    match get_values event !! string_bytes "label" with
    | Some v => l ← ref_value v s; Some (l, s)
    | None => match get_values event !! string_bytes "name" with
              | Some (FString n, _) => Some (n, s)
              | Some _ => None
              | None => Some ([], s)
              end
    end.

(** The labels of a list of events, with the state threaded through. *)
Fixpoint run_labels {St} (step : parser_Event -> St -> option (bytes * St)) (evs : list parser_Event) (s : St)
    : option (list bytes * St) :=
  match evs with
  | [] => Some ([], s)
  | e :: evs => '(l, s) ← step e s; '(ls, s) ← run_labels step evs s; Some (l :: ls, s)
  end.

(** A number that was looked up in vain is kept with its own digits. *)
Definition labels_rep (c : Converter) (s : label_state) : Prop :=
  _mapping_klass_id c = names_klass s /\
  forall z, map_label <$> _tracepoint_map c !! z = names s !! z \/
    names s !! z = None /\ map_label <$> _tracepoint_map c !! z = Some (to_string z).

Lemma labels_rep_lookup c s z : labels_rep c s ->
  map_label (get_label_info z (_tracepoint_map c)).1 = default (to_string z) (names s !! z) /\
  labels_rep (MkConverter (get_label_info z (_tracepoint_map c)).2 (_mapping_klass_id c)) s.
Proof.
  intros [Hk Hm]. unfold get_label_info. destruct (Hm z) as [E|[E1 E2]].
  - rewrite <- E. destruct (_tracepoint_map c !! z) as [i|] eqn:El; [done|]. split; [done|]. split; [done|].
    intros z'. simpl. destruct (decide (z' = z)) as [->|Hne]; [|by rewrite lookup_insert_ne].
    right. by rewrite lookup_insert_eq, <- E.
  - rewrite E1. destruct (_tracepoint_map c !! z) as [i|]; simplify_eq/=. by split.
Qed.

Lemma labels_rep_add c s i label : labels_rep c s ->
  labels_rep (MkConverter (add_map_entry i label (_tracepoint_map c)) (_mapping_klass_id c))
             (MkLabels (<[i := label]> (names s)) (names_klass s)).
Proof.
  intros [Hk Hm]. split; [done|]. intros z. unfold add_map_entry. simpl. destruct (decide (z = i)) as [->|Hne].
  - left. by rewrite !lookup_insert_eq.
  - rewrite !lookup_insert_ne by done. apply Hm.
Qed.

Lemma get_label_refines e c s : labels_rep c s ->
  match ref_label e s with
  | Some (l, s') => exists c', _get_label e c = Some (l, c') /\ labels_rep c' s'
  | None => _get_label e c = None
  end.
Proof.
  intros R. pose proof R as [Hk Hm]. unfold ref_label, _get_label. destruct (get_klass_of e) as [id|] eqn:Eid; [|done]. simpl.
  rewrite Hk. case_decide as Hz.
  - unfold _try_setting_mapping_klass_id. rewrite Eid. simpl. repeat case_decide; try (by exists c).
    destruct (get_value_str _ e) as [n|]; simpl; [|done]. case_decide; [|by exists c].
    destruct (get_value 4 _ e) as [k|]; simpl; [|done]. eexists. split; [done|]. by split.
  - case_decide.
    + destruct (get_value 8 _ e) as [i|]; simpl; [|done]. destruct (get_value_str _ e) as [n|]; simpl; [|done].
      eexists. split; [done|]. pose proof (labels_rep_add c s i n R) as R'. by rewrite Hk in R'.
    + unfold has_value, get_raw_value, get_value_str. destruct (get_values e !! string_bytes "label") as [[v f]|].
      * rewrite bool_decide_eq_true_2 by done. simpl. unfold _convert_value_to_string, ref_value. simpl.
        destruct (get_field_type_id f); simpl; try (by exists c); [|destruct v; simpl; try done; by exists c].
        destruct (read_num 8 v) as [z|]; simpl; [|done]. destruct (labels_rep_lookup c s z R) as [<- R'].
        destruct (get_label_info z (_tracepoint_map c)) as [info m]. simpl in *. eexists. split; [done|]. by rewrite Hk in *.
      * rewrite bool_decide_eq_false_2 by (by intros []). destruct (get_values e !! string_bytes "name") as [[v f]|].
        -- rewrite bool_decide_eq_true_2 by done. simpl. destruct v; simpl; try done. by exists c.
        -- rewrite bool_decide_eq_false_2 by (by intros []). by exists c.
Qed.

Lemma labels_spec evs m :
  match run_labels ref_label evs (MkLabels (map_label <$> m) 0) with
  | Some (ls, _) => exists c, run_labels _get_label evs (MkConverter m 0) = Some (ls, c)
  | None => run_labels _get_label evs (MkConverter m 0) = None
  end.
Proof.
  assert (R : labels_rep (MkConverter m 0) (MkLabels (map_label <$> m) 0)).
  { split; [done|]. intros z. left. symmetry. apply lookup_fmap. }
  revert R. generalize (MkConverter m 0) (MkLabels (map_label <$> m) 0).
  induction evs as [|e evs IH]; intros c s R; simpl; [by exists c|].
  pose proof (get_label_refines e c s R) as He. destruct (ref_label e s) as [[l s']|]; [|by rewrite He].
  destruct He as (c'&->&R'). simpl. specialize (IH c' s' R'). destruct (run_labels ref_label evs s') as [[ls s'']|].
  - destruct IH as [c'' ->]. by exists c''.
  - by rewrite IH.
Qed.

End labels.

(** C30: the labels the converters find.  For every list of events and every
    map that was loaded before, the labels are those of the reference, in
    which a number stands for the name it was last given by a mapping event
    or by the map, and for its digits otherwise, and in which looking up a
    label has no effect; the converter throws exactly when the reference
    does. *)
Theorem labels_refine `{Platform} evs m :
  match run_labels ref_label evs (MkLabels (map_label <$> m) 0) with
  | Some (ls, _) => exists c, run_labels _get_label evs (MkConverter m 0) = Some (ls, c)
  | None => run_labels _get_label evs (MkConverter m 0) = None
  end.
Proof. apply labels_spec. Qed.

(** ** The document *)

Section document.
  Context `{Platform} `{UnorderedMap}.

(** process_event for every event, in order. *)
Fixpoint chrome_run (evs : list parser_Event) (c : ChromeTraceConverter) : option ChromeTraceConverter :=
  match evs with
  | [] => Some c
  | e :: evs => c ← chrome_process_event e c; chrome_run evs c
  end.

(** The object for one event. *)
Definition json_of (el : parser_Event * bytes) : option bytes :=
  dur ← get_value_or_default 8 (string_bytes "duration") 0 el.1;
  tid ← get_value_or_default 4 (string_bytes "thread_id") 0 el.1;
  args ← _get_args el.1;
  Some (json_event el.2 (ns_to_ms (get_event_timestamp el.1)) (ns_to_ms dur) tid args).

Fixpoint separated (saved : bool) (entries : list bytes) : bytes :=
  match entries with
  | [] => []
  | x :: entries => (if saved then string_bytes "," else []) ++ x ++ separated true entries
  end.

Definition document (entries : list bytes) : bytes :=
  (string_bytes "{" ++ quoted (string_bytes "traceEvents") ++ string_bytes ": [") ++ separated false entries ++ string_bytes "]}".

Definition labelled (evs : list parser_Event) (ls : list bytes) : list (parser_Event * bytes) :=
  filter (fun el => el.2 <> []) (zip evs ls).

Lemma run_labels_length {St} (step : parser_Event -> St -> option (bytes * St)) evs s ls s' :
  run_labels step evs s = Some (ls, s') -> length ls = length evs.
Proof.
  revert s ls. induction evs as [|e evs IH]; intros s ls E; simpl in E; [by simplify_eq|].
  destruct (step e s) as [[l s1]|]; [|done]. simpl in E. destruct (run_labels step evs s1) as [[ls1 s2]|] eqn:E1; [|done].
  simplify_eq/=. f_equal. by eapply IH.
Qed.

Lemma chrome_run_spec evs base text saved :
  (c ← chrome_run evs (MkChrome base (Some text) saved); _file c) =
  ('(ls, _) ← run_labels _get_label evs base;
   entries ← mapM json_of (labelled evs ls); Some (text ++ separated saved entries)).
Proof.
  revert base text saved. induction evs as [|e evs IH]; intros base text saved; simpl; [by rewrite app_nil_r|].
  unfold chrome_process_event. cbn [chrome_base _file _first_event_saved].
  destruct (_get_label e base) as [[l base']|] eqn:El; [|done]. cbn [mbind option_bind].
  destruct l as [|b l].
  - cbn [mbind option_bind]. rewrite IH. by destruct (run_labels _get_label evs base') as [[ls s]|].
  - set (lab := b :: l).
    assert (Ej : forall ls, mapM json_of (labelled (e :: evs) (lab :: ls)) =
      x ← json_of (e, lab); xs ← mapM json_of (labelled evs ls); Some (x :: xs)) by done.
    destruct (json_of (e, lab)) as [x|] eqn:Ex.
    + unfold json_of in Ex. cbn [fst snd] in Ex.
      destruct (get_value_or_default 8 _ _ e) as [dur|]; [|done]. destruct (get_value_or_default 4 _ _ e) as [tid|]; [|done].
      destruct (_get_args e) as [args|]; [|done]. injection Ex as Ex. cbn [mbind option_bind]. rewrite Ex.
      destruct saved; unfold write; cbn [chrome_base _file _first_event_saved fmap option_fmap option_map]; rewrite IH;
        destruct (run_labels _get_label evs base') as [[ls s]|]; try done; cbn [mbind option_bind]; rewrite Ej;
        cbn [mbind option_bind]; destruct (mapM json_of (labelled evs ls)) as [xs|]; try done; cbn [mbind option_bind separated];
        by rewrite <- !app_assoc.
    + destruct (run_labels _get_label evs base') as [[ls s]|]; cbn [mbind option_bind]; rewrite ?Ej; cbn [mbind option_bind];
        unfold json_of in Ex; cbn [fst snd] in Ex;
        (destruct (get_value_or_default 8 _ _ e) as [dur|]; [|done]); (destruct (get_value_or_default 4 _ _ e) as [tid|]; [|done]);
        by destruct (_get_args e).
Qed.

Lemma chrome_stop_file c : (chrome_stop c).1 = (.++ string_bytes "]}") <$> _file c.
Proof. unfold chrome_stop. by destruct (_file c). Qed.

End document.

(** What the converter writes for the trace viewer.  For every list of
    events, from opening the file to stop(), the file holds one object per
    event that has a label, in order and with commas between them and nowhere
    else, inside the brackets of traceEvents: its label as the reference gives
    it, its timestamp and duration in microseconds, its thread and its other fields. *)
Theorem chrome_document `{Platform} `{UnorderedMap} evs m :
  (c ← chrome_run evs (chrome_init true (MkChrome (MkConverter m 0) None false)).2; (chrome_stop c).1) =
  ('(ls, _) ← run_labels ref_label evs (MkLabels (map_label <$> m) 0);
   entries ← mapM json_of (labelled evs ls); Some (document entries)).
Proof.
  cbn [chrome_init snd chrome_base]. unfold write. cbn [chrome_base _file _first_event_saved fmap option_fmap option_map].
  rewrite app_nil_l. set (head := string_bytes "{" ++ _ ++ _). pose proof (chrome_run_spec evs (MkConverter m 0) head false) as E.
  pose proof (labels_spec evs m) as L. destruct (chrome_run _ _) as [c|]; cbn [mbind option_bind] in E |- *.
  - rewrite chrome_stop_file, E. destruct (run_labels ref_label evs _) as [[ls s]|].
    + destruct L as [c' ->]. cbn [mbind option_bind]. destruct (mapM json_of (labelled evs ls)) as [xs|]; [|done].
      simpl. unfold document. by rewrite <- app_assoc.
    + by rewrite L.
  - destruct (run_labels ref_label evs _) as [[ls s]|]; [|done]. destruct L as [c' Ec]. rewrite Ec in E. cbn [mbind option_bind] in *.
    by destruct (mapM json_of (labelled evs ls)).
Qed.

(** ** Loading maps *)

(** The paths between the commas. *)
Fixpoint split_commas (l : bytes) : list bytes :=
  match l with
  | [] => [[]]
  | b :: l =>
      if decide (b = 44) then [] :: split_commas l
      else match split_commas l with
           | p :: ps => (b :: p) :: ps
           | [] => [[b]]
           end
  end.

Section loading.
  Context `{Files}.

(** load_map for every path; what cannot be opened is skipped. *)
Fixpoint load_all (depth : nat) (paths : list bytes) (m : TracepointMap) : outcome TracepointMap :=
  match paths with
  | [] => Done m
  | p :: paths => match load_map depth p m with Done (_, m) => load_all depth paths m | Undef => Undef | NoFuel => NoFuel end
  end.

Lemma find_comma l : match list_find (.= 44) l with
  | Some (i, _) => split_commas l = take i l :: split_commas (drop (S i) l) /\ (i < length l)%nat
  | None => split_commas l = [l]
  end.
Proof.
  induction l as [|b l IH]; [done|]. simpl. case_decide as Hb.
  - subst. simpl. rewrite drop_0. split; [done|lia].
  - destruct (list_find (.= 44) l) as [[i x]|]; simpl.
    + destruct IH as (E&Hi). rewrite E. split; [done|lia].
    + by rewrite IH.
Qed.

Lemma load_maps_loop_spec depth fuel map_files start m :
  (length map_files - start < fuel)%nat -> (start <= length map_files)%nat ->
  load_maps_loop depth fuel map_files start m = load_all depth (split_commas (drop start map_files)) m.
Proof.
  revert start m. induction fuel as [|fuel IH]; intros start m Hf Hs; [lia|]. cbn [load_maps_loop]. unfold find_from.
  pose proof (find_comma (drop start map_files)) as F. destruct (list_find (.= 44) (drop start map_files)) as [[i x]|].
  - destruct F as (E&Hi). rewrite length_drop in Hi. cbn [mbind option_bind fmap option_fmap option_map substr].
    replace (start + i - start)%nat with i by lia. rewrite E. cbn [load_all].
    destruct (load_map depth _ m) as [[b m1]| |]; [|done..]. rewrite IH by lia. rewrite drop_drop. do 3 f_equal. lia.
  - cbn [mbind option_bind fmap option_fmap option_map substr]. rewrite F. cbn [load_all].
    by destruct (load_map depth _ m) as [[b m1]| |].
Qed.

(** Reading a file ends: every round takes a byte. *)
Lemma span_length p l : (length (span p l).2 <= length l)%nat.
Proof. induction l as [|b l IH]; [done|]. simpl. destruct (p b); [|done]. destruct (span p l). simpl in *. lia. Qed.

Lemma span_split p l : l = (span p l).1 ++ (span p l).2.
Proof. induction l as [|b l IH]; [done|]. simpl. destruct (p b); [|done]. destruct (span p l). simpl in *. by f_equal. Qed.

Lemma read_token_length l x y : read_token l = Some (x, y) -> (length y < length l)%nat.
Proof.
  unfold read_token. pose proof (span_length is_space l) as H1. pose proof (span_split (fun b => negb (is_space b)) (span is_space l).2) as H2.
  destruct (span (fun b => negb (is_space b)) (span is_space l).2) as [[|b u] v]; intros E; simplify_eq.
  simpl in H2. rewrite H2 in H1. simpl in H1. rewrite length_app in H1. lia.
Qed.

Lemma read_u64_length l z y : read_u64 l = Some (z, y) -> (length y <= length l)%nat.
Proof.
  unfold read_u64. pose proof (span_length is_space l) as H1. set (l1 := (span is_space l).2) in *.
  set (nl := match l1 with [] => _ | _ => _ end). assert (H2 : (length nl.2 <= length l1)%nat).
  { subst nl. destruct l1 as [|b l1]; [done|]. repeat case_decide; simpl; lia. }
  destruct nl as [neg l2]. simpl in H2. pose proof (span_length is_digit l2) as H3.
  destruct (span is_digit l2) as [[|b u] v]; [done|]. case_decide; intros E; simplify_eq. simpl in H3. lia.
Qed.

Lemma load_loop_done fuel l m : (length l < fuel)%nat -> exists m', load_loop fuel l m = Done m'.
Proof.
  revert l m. induction fuel as [|fuel IH]; intros l m Hf; [lia|]. cbn [load_loop].
  destruct (read_token l) as [[cat l1]|] eqn:E1; [|by exists m]. apply read_token_length in E1. cbn [mbind option_bind].
  destruct (read_token l1) as [[str l2]|] eqn:E2; [|by exists m]. apply read_token_length in E2. cbn [mbind option_bind].
  destruct (read_u64 l2) as [[z l3]|] eqn:E3; [|by exists m]. apply read_u64_length in E3. cbn [mbind option_bind].
  apply IH. lia.
Qed.

End loading.

(** Load_maps ends and loads the files of the comma-separated list one
    after the other, for every list (also an empty one, or one that ends in a comma) and
    every contents of the files: with enough fuel for the list and for every
    file the result is the one of loading each path in turn, and it is never
    cut off. *)
Theorem load_maps_loads_each `{Files} depth fuel map_files m :
  (length map_files < fuel)%nat -> (forall f l, file_contents f = Some l -> (length l < depth)%nat) ->
  exists m', load_maps depth fuel map_files m = Done m' /\ load_all depth (split_commas map_files) m = Done m'.
Proof.
  intros Hf Hd. unfold load_maps. rewrite load_maps_loop_spec by lia. rewrite drop_0.
  assert (exists m', load_all depth (split_commas map_files) m = Done m') as [m' E].
  { generalize (split_commas map_files). intros ps. revert m. induction ps as [|p ps IH]; intros m; [by exists m|]. simpl. unfold load_map.
    destruct (file_contents p) as [l|] eqn:Ep; [|apply IH]. destruct (load_loop_done depth l m (Hd _ _ Ep)) as [m1 ->]. apply IH. }
  by exists m'.
Qed.

Section samples.

#[local] Instance sample_files : Files :=
  {| file_contents f := if decide (f = string_bytes "a") then Some (string_bytes "native draw 7 lua tick 8") else None |}.

Lemma load_maps_loads_each_witness : exists m',
  load_maps 100 100 (string_bytes "a,b") ∅ = Done m' /\ load_all 100 (split_commas (string_bytes "a,b")) ∅ = Done m'.
Proof.
  apply (load_maps_loads_each 100 100 (string_bytes "a,b") ∅).
  - vm_compute. lia.
  - intros f l E. simpl in E. case_decide; simplify_eq. vm_compute. lia.
Defined.

Lemma load_maps_sample :
  load_maps 100 100 (string_bytes "a,b") ∅ =
    Done (<[8 := MkMapInfo (string_bytes "tick") (string_bytes "lua")]>
         (<[7 := MkMapInfo (string_bytes "draw") (string_bytes "native")]> ∅)).
Proof. reflexivity. Qed.

End samples.
