(* ===== verification/DebugListener.v ===== *)
(** The listener that prints events (parser/debug_event_listener.cpp): what it
    writes to the standard output, and how often it saw each klass. *)
From stdpp Require Import pretty.
From S2P Require Import Prelude Alloc BaseTypes Memory Events Listeners Registry Endian Parser Reader Client.

#[local] Open Scope Z_scope.
#[local] Arguments string_bytes : simpl never.

(** The text of a pointer, which depends on the implementation. *)
Class Ostream := { pointer_text : Z -> bytes }.

Definition endl : bytes := [10].

Section listener.
  Context `{Platform} `{UnorderedMap} `{Ostream}.

(** The types of one byte are characters for a stream.  [None] is a value that
    is not of the type of its field, or the assertion for a type that is not in the
    list. *)
Definition print_field_value (v : Value) : option bytes :=
  text ← match get_field_type_id v.2 with
         | UINT8 | INT8 => z ← read_num 1 v.1; Some [z]
         | UINT16 => print_int 2 false v.1
         | INT16 => print_int 2 true v.1
         | UINT32 => print_int 4 false v.1
         | INT32 => print_int 4 true v.1
         | UINT64 => print_int 8 false v.1
         | INT64 => print_int 8 true v.1
         | STRING => match v.1 with FString s => Some s | _ => None end
         | POINTER => z ← read_num 8 v.1; Some (pointer_text z)
         | STRUCT => None
         end;
  Some (text ++ endl).

Section values.
  Context (print_event : parser_Event -> nat -> option bytes).

(** What is printed for one value. *)
Definition print_value (v : Value) (indent : nat) : option bytes :=
  let head := replicate indent 32 ++ get_type_name v.2 ++ [32] ++ get_name v.2 ++ string_bytes ": " in
  if decide (get_field_type_id v.2 = STRUCT) then
    match v.1 with FEvent e => text ← print_event e (indent + 2)%nat; Some (head ++ endl ++ text) | _ => None end
  else text ← print_field_value v; Some (head ++ text).

Fixpoint print_values (l : list (bytes * Value)) (indent : nat) : option bytes :=
  match l with
  | [] => Some []
  | (_, v) :: l => x ← print_value v indent; y ← print_values l indent; Some (x ++ y)
  end.

End values.

(** [fuel] bounds the depth of the structures. *)
Fixpoint print_event (fuel : nat) (event : parser_Event) (indent : nat) : option bytes :=
  match fuel with
  | O => None
  | S fuel => print_values (print_event fuel) (elements_of (get_values event)) indent
  end.

(** The listener and the output. *)
Record DebugEventListener := MkDebug { _event_stats : gmap bytes Z; d_out : bytes }.

Definition _process_event (fuel : nat) (register : klass_map) (event : parser_Event) (l : DebugEventListener) : option DebugEventListener :=
  id ← get_klass_of event; klass ← register !! id;
  text ← print_event fuel event 2;
  let name := get_klass_name klass in
  let count := default 0 (_event_stats l !! name) in
  Some (MkDebug (<[name := u64 (count + 1)]> (_event_stats l)) (d_out l ++ endl ++ name ++ endl ++ text)).

Fixpoint statistics_loop (l : list (bytes * Z)) (total_count : Z) : bytes * Z :=
  match l with
  | [] => ([], total_count)
  | (name, count) :: l =>
      let '(text, total) := statistics_loop l (u64 (total_count + count)) in
      (string_bytes "  " ++ name ++ string_bytes ": " ++ to_string count ++ endl ++ text, total)
  end.

Definition print_statistics (l : DebugEventListener) : bytes :=
  let '(text, total_count) := statistics_loop (elements_of (_event_stats l)) 0 in
  string_bytes "Statistics: " ++ endl ++ text ++ string_bytes "Total number of events: " ++ to_string total_count ++ endl.

(** The listener called for one event after the other. *)
Fixpoint listen (fuel : nat) (register : klass_map) (events : list parser_Event) (l : DebugEventListener) : option DebugEventListener :=
  match events with
  | [] => Some l
  | e :: events => l ← _process_event fuel register e l; listen fuel register events l
  end.

End listener.

(** ** What the statistics say *)

(** Values have the types of their fields, structures are at most [fuel]
    deep. *)
Fixpoint printable (fuel : nat) (e : parser_Event) : Prop :=
  match fuel with
  | O => False
  | S fuel => map_Forall (fun _ v =>
      match get_field_type_id v.2, v.1 with
      | STRUCT, FEvent e => printable fuel e
      | STRING, FString _ => True
      | (UINT8 | INT8), FNum n _ => (1 <= n)%nat
      | (UINT16 | INT16), FNum n _ => (2 <= n)%nat
      | (UINT32 | INT32), FNum n _ => (4 <= n)%nat
      | (UINT64 | INT64 | POINTER), FNum n _ => (8 <= n)%nat
      | _, _ => False
      end) (get_values e)
  end.

Definition name_of (register : klass_map) (e : parser_Event) : option bytes :=
  id ← get_klass_of e; get_klass_name <$> register !! id.

Definition occurrences (name : bytes) (names : list bytes) : Z := Z.of_nat (length (filter (name =.) names)).

Definition count_name (m : gmap bytes Z) (name : bytes) : gmap bytes Z := <[name := u64 (default 0 (m !! name) + 1)]> m.

Definition total_of (m : gmap bytes Z) : Z := foldr (fun kv t => kv.2 + t) 0 (map_to_list m).

Definition statistics_line (kv : bytes * Z) : bytes := string_bytes "  " ++ kv.1 ++ string_bytes ": " ++ to_string kv.2 ++ endl.

Section facts.
  Context `{Platform} `{UnorderedMap} `{Ostream}.

Lemma read_num_enough n m z : (n <= m)%nat -> exists x, read_num n (FNum m z) = Some x.
Proof. intros Hn. cbn. rewrite decide_True by done. by eexists. Qed.

Lemma print_value_total fuel v indent :
  (forall e k, printable fuel e -> is_Some (print_event fuel e k)) -> printable (S fuel) (MkEvent None {[ [] := v ]} 0) ->
  is_Some (print_value (print_event fuel) v indent).
Proof.
  intros IH Hv. cbn [printable get_values] in Hv. apply map_Forall_singleton in Hv. destruct v as [v f]. cbn [fst snd] in Hv. unfold print_value, print_field_value, print_int.
  cbn [fst snd]. destruct (get_field_type_id f), v as [|n z|s|e]; try done; cbn [decide_rel] ; try (destruct (read_num_enough _ n z Hv) as [x E]; rewrite E; by eexists);
    try (by eexists).
  destruct (IH e (indent + 2)%nat Hv) as [x E]. rewrite decide_True by done. rewrite E. by eexists.
Qed.

Lemma print_event_total fuel e indent : printable fuel e -> is_Some (print_event fuel e indent).
Proof.
  revert e indent. induction fuel as [|fuel IH]; intros e indent He; [done|]. cbn [print_event].
  assert (HF : Forall (fun kv => printable (S fuel) (MkEvent None {[ [] := kv.2 ]} 0)) (elements_of (get_values e))).
  { rewrite elements_of_perm. apply Forall_forall. intros [k v] Hk%elem_of_map_to_list. cbn [printable get_values]. apply map_Forall_singleton. apply (He _ _ Hk). }
  induction HF as [|[k v] l Hv _ IHl]; cbn [print_values]; [by eexists|].
  destruct (print_value_total fuel v indent IH Hv) as [x ->]. destruct IHl as [y ->]. by eexists.
Qed.

Lemma listen_counts fuel register evs names l : Forall (printable fuel) evs -> mapM (name_of register) evs = Some names ->
  exists out, listen fuel register evs l = Some (MkDebug (foldl count_name (_event_stats l) names) out).
Proof.
  intros HF. revert names l. induction HF as [|e evs He _ IH]; intros names l Hn.
  { injection Hn as <-. exists (d_out l). by destruct l. }
  apply bind_Some in Hn as (name&Hname&Hn). apply bind_Some in Hn as (names'&Hn'&[= <-]). cbn [listen].
  unfold name_of in Hname. apply bind_Some in Hname as (id&Eid&Hname). apply fmap_Some in Hname as (k&Ek&->).
  destruct (print_event_total fuel e 2 He) as [text Et]. unfold _process_event. rewrite Eid. cbn [mbind option_bind]. rewrite Ek. cbn [mbind option_bind]. rewrite Et.
  cbn [mbind option_bind]. apply (IH names' (MkDebug (count_name (_event_stats l) (get_klass_name k)) _) Hn').
Qed.

(** *** Counting *)

Lemma total_perm (l l' : list (bytes * Z)) : l ≡ₚ l' -> foldr (fun kv t => kv.2 + t) 0 l = foldr (fun kv t => kv.2 + t) 0 l'.
Proof. induction 1 as [|kv l l' _ IH|a b l|]; simpl; lia. Qed.

Lemma total_insert m name c : m !! name = None -> total_of (<[name := c]> m) = c + total_of m.
Proof. intros Hm. unfold total_of. by rewrite (total_perm _ _ (map_to_list_insert m name c Hm)). Qed.

Lemma total_update m name c : total_of (<[name := c]> m) = total_of m + (c - default 0 (m !! name)).
Proof.
  destruct (m !! name) as [d|] eqn:E; cbn; [|rewrite total_insert by done; lia].
  rewrite <- (insert_delete_eq m name c). rewrite total_insert by apply lookup_delete_eq.
  rewrite <- (insert_delete_id m name d E) at 2. rewrite total_insert by apply lookup_delete_eq. lia.
Qed.

(** Every count leaves room for [n] more. *)
Definition counts_below (n : Z) (m : gmap bytes Z) : Prop := map_Forall (fun _ c => 0 <= c /\ c + n < 2 ^ 64) m.

Lemma counts_default n m name : counts_below n m -> n < 2 ^ 64 -> 0 <= default 0 (m !! name) /\ default 0 (m !! name) + n < 2 ^ 64.
Proof. intros Hm Hn. destruct (m !! name) as [c|] eqn:E; [apply (Hm _ _ E)|simpl; lia]. Qed.

Lemma count_below n m name : 0 <= n -> counts_below (n + 1) m -> n + 1 < 2 ^ 64 ->
  counts_below n (count_name m name) /\ count_name m name !! name = Some (default 0 (m !! name) + 1) /\
  total_of (count_name m name) = total_of m + 1.
Proof.
  intros Hpos Hm Hn. destruct (counts_default _ m name Hm Hn) as [Hc Hcn]. unfold count_name. rewrite u64_small by lia. split_and!.
  - apply map_Forall_insert_2; [lia|]. eapply map_Forall_impl; [exact Hm|]. simpl. lia.
  - apply lookup_insert_eq.
  - rewrite total_update. lia.
Qed.

Lemma fold_counts names m : counts_below (Z.of_nat (length names)) m -> Z.of_nat (length names) < 2 ^ 64 ->
  let m' := foldl count_name m names in
  total_of m' = total_of m + Z.of_nat (length names) /\
  forall name, m' !! name = if decide (name ∈ names) then Some (default 0 (m !! name) + occurrences name names) else m !! name.
Proof.
  revert m. induction names as [|x names IH]; intros m Hm Hn; cbn [foldl length]; [split; [simpl; lia|done]|].
  assert (Z.of_nat (length (x :: names)) = Z.of_nat (length names) + 1) as El by (simpl; lia). rewrite El in Hm, Hn. cbn [length] in El. rewrite El.
  destruct (count_below (Z.of_nat (length names)) m x) as (Hb&Hx&Ht); [lia|done..|].
  destruct (IH (count_name m x) Hb) as [Htot Hlk]; [lia|]. split; [lia|]. intros name. rewrite Hlk. unfold occurrences. rewrite filter_cons.
  destruct (decide (name = x)) as [->|Hne].
  - rewrite Hx. rewrite (decide_True (P := x ∈ x :: names)) by constructor. cbn [default length]. rewrite Nat2Z.inj_succ. destruct (decide (x ∈ names)) as [Hin|Hin]; f_equal; simpl; [lia|].
    assert (filter (x =.) names = []) as ->; [|simpl; lia]. apply elem_of_nil_inv. intros y [<- Hy]%list_elem_of_filter. done.
  - unfold count_name. rewrite lookup_insert_ne by done. destruct (decide (name ∈ names)) as [Hin|Hin].
    + by rewrite (decide_True (P := name ∈ x :: names)) by (by right).
    + rewrite (decide_False (P := name ∈ x :: names)); [done|]. rewrite elem_of_cons. tauto.
Qed.

Lemma statistics_loop_eq l t : 0 <= t < 2 ^ 64 ->
  statistics_loop l t = (l ≫= statistics_line, u64 (t + foldr (fun kv t => kv.2 + t) 0 l)).
Proof.
  revert t. induction l as [|[name c] l IH]; intros t Ht; cbn [statistics_loop foldr]; [by rewrite Z.add_0_r, u64_small|].
  rewrite IH by apply u64_range. rewrite bind_cons. unfold statistics_line at 2. cbn [fst snd].
  assert (u64 (u64 (t + c) + foldr (fun kv t => kv.2 + t) 0 l) = u64 (t + (c + foldr (fun kv t => kv.2 + t) 0 l))) as ->
    by (unfold u64; rewrite Z.add_mod_idemp_l by lia; f_equal; lia).
  by rewrite <- !app_assoc.
Qed.

End facts.

(** The statistics of the events that were printed.  If the values of
    the events have the types of their fields, structures nested at most
    [fuel] deep, the listener processes all of them, and its statistics have
    one line for each klass that occurred, with the number of its events, in
    some order, and the number of all events. *)
Theorem statistics_count_events `{Platform} `{UnorderedMap} `{Ostream} fuel register evs names :
  Forall (printable fuel) evs -> mapM (name_of register) evs = Some names -> Z.of_nat (length evs) < 2 ^ 64 ->
  exists l lines, listen fuel register evs (MkDebug ∅ []) = Some l /\
    NoDup lines.*1 /\ (forall name count, (name, count) ∈ lines <-> name ∈ names /\ count = occurrences name names) /\
    print_statistics l = string_bytes "Statistics: " ++ endl ++ (lines ≫= statistics_line) ++
      string_bytes "Total number of events: " ++ to_string (Z.of_nat (length evs)) ++ endl.
Proof.
  intros HF Hn Hlen. destruct (listen_counts fuel register evs names (MkDebug ∅ []) HF Hn) as [out Hl]. cbn [_event_stats] in Hl.
  assert (length names = length evs) as El by (symmetry; eapply length_mapM; exact Hn).
  destruct (fold_counts names ∅) as [Ht Hlk]; [apply map_Forall_empty|lia|]. set (m := foldl count_name ∅ names) in *.
  exists (MkDebug m out), (elements_of m). split_and!; [done|rewrite elements_of_perm; apply NoDup_fst_map_to_list|..].
  - intros name c. rewrite elements_of_perm, elem_of_map_to_list, Hlk, lookup_empty. cbn [default]. destruct (decide (name ∈ names)); naive_solver.
  - unfold print_statistics. cbn [_event_stats]. rewrite statistics_loop_eq by lia. rewrite (total_perm _ _ (elements_of_perm m)).
    fold (total_of m). rewrite Ht. change (total_of ∅) with 0. by rewrite !Z.add_0_l, u64_small, El by lia.
Qed.

(** ** Samples *)

Section samples.

#[local] Existing Instance map_order.
#[local] Instance sample_platform : Platform := {| endianness := HT_ENDIANNESS_LITTLE |}.
#[local] Instance sample_stream : Ostream := {| pointer_text z := string_bytes "0x" ++ to_string z |}.

Definition sample_field (name type : string) (t : FieldTypeId) : EventKlassField := MkField (string_bytes name) (string_bytes type) t None.

Definition sample_inner : parser_Event := MkEvent (Some 2) {[ string_bytes "b" := (FNum 4 66, sample_field "b" "int" INT32) ]} 0.

Definition sample_event : parser_Event :=
  MkEvent (Some 1) {[ string_bytes "s" := (FEvent sample_inner, sample_field "s" "Inner" STRUCT) ]} 0.

Definition sample_byte_event : parser_Event :=
  MkEvent (Some 2) {[ string_bytes "b" := (FNum 1 66, sample_field "b" "uint8_t" UINT8) ]} 0.

Definition sample_register : klass_map := {[ 1 := MkKlass (string_bytes "Outer") 1 []; 2 := MkKlass (string_bytes "Inner") 2 [] ]}.

Lemma statistics_count_events_witness : exists l lines,
  listen 2 sample_register [sample_event; sample_byte_event; sample_event] (MkDebug ∅ []) = Some l /\
  NoDup lines.*1 /\
  (forall name count, (name, count) ∈ lines <->
     name ∈ [string_bytes "Outer"; string_bytes "Inner"; string_bytes "Outer"] /\ count = occurrences name [string_bytes "Outer"; string_bytes "Inner"; string_bytes "Outer"]) /\
  print_statistics l = string_bytes "Statistics: " ++ endl ++ (lines ≫= statistics_line) ++
    string_bytes "Total number of events: " ++ to_string 3 ++ endl.
Proof.
  apply (statistics_count_events 2 sample_register [sample_event; sample_byte_event; sample_event]).
  - repeat first [apply Forall_nil_2|apply Forall_cons_2]; (apply map_Forall_singleton; cbn; first [lia|apply map_Forall_singleton; cbn; lia]).
  - by vm_compute.
  - by vm_compute.
Defined.

(** Structures are indented; a number of one byte is printed as a character. *)
Lemma printed_events :
  print_event 2 sample_event 2 = Some (string_bytes "  Inner s: " ++ [10] ++ string_bytes "    int b: 66" ++ [10]) /\
  print_event 1 sample_byte_event 2 = Some (string_bytes "  uint8_t b: B" ++ [10]).
Proof. split; by vm_compute. Qed.

End samples.
