(* ===== verification/PythonContext.v ===== *)
(** The context of the Python client (bindings/python3/client_context.cpp): it
    keeps the events of the reader until the program polls them, or hands each
    to a function of the program.

    Python is a parameter with the documented behaviour of the few functions
    that are used.  Reference counts are not modelled. *)
From S2P Require Import Prelude Alloc BaseTypes Memory Events Listeners Registry Endian Parser Reader Client.

#[local] Open Scope Z_scope.
#[local] Arguments string_bytes : simpl never.

(** ** Python *)

(** Integers, strings (not every string of bytes is one) and dictionaries whose
    keys are strings. *)
Class Python := {
  PyObject : Type;
  PyDict : Type;
  PyLong_FromUnsignedLongLong : Z -> PyObject;
  PyUnicode_FromString : bytes -> option PyObject;
  PyDict_New : PyDict;
  PyDict_SetItem : PyDict -> bytes -> PyObject -> PyDict;
  PyDict_GetItem : PyDict -> bytes -> option PyObject;
  get_new key : PyDict_GetItem PyDict_New key = None;
  get_set d key x key' : PyDict_GetItem (PyDict_SetItem d key x) key' = if decide (key' = key) then Some x else PyDict_GetItem d key'
}.

Section context.
  Context `{Platform} `{UnorderedMap} `{Python}.

(** ** Events as dictionaries *)

Definition unsigned_object (n : nat) (v : FieldType) : option PyObject := z ← read_num n v; Some (PyLong_FromUnsignedLongLong z).
(** (int64_t) is converted to unsigned long long by the call. *)
Definition signed_object (n : nat) (v : FieldType) : option PyObject :=
  z ← read_num n v; Some (PyLong_FromUnsignedLongLong (u64 (signed_value n z))).

(** The object of a value; [Some None] is nullptr, [None] a value that is not of
    the type of its field. *)
Definition value_object (v : Value) : option (option PyObject) :=
  match get_field_type_id v.2 with
  | UINT8 => Some <$> unsigned_object 1 v.1
  | UINT16 => Some <$> unsigned_object 2 v.1
  | UINT32 => Some <$> unsigned_object 4 v.1
  | UINT64 | POINTER => Some <$> unsigned_object 8 v.1
  | INT8 => Some <$> signed_object 1 v.1
  | INT16 => Some <$> signed_object 2 v.1
  | INT32 => Some <$> signed_object 4 v.1
  | INT64 => Some <$> signed_object 8 v.1
  | STRING => match v.1 with FString s => Some (PyUnicode_FromString s) | _ => None end
  | STRUCT => Some None
  end.

(** A key that is no string for Python is a null pointer in PyDict_SetItem. *)
Fixpoint dictionary_loop (l : list (bytes * Value)) (dict : PyDict) : option PyDict :=
  match l with
  | [] => Some dict
  | (key, v) :: l =>
      val ← value_object v;
      match val with
      | None => dictionary_loop l dict
      | Some val => PyUnicode_FromString key;; dictionary_loop l (PyDict_SetItem dict key val)
      end
  end.

Definition event_to_dictionary (event : parser_Event) : option PyDict := dictionary_loop (elements_of (get_values event)) PyDict_New.

(** ** The context *)







(** ** The two threads *)



End context.

(** ** What the program gets *)



Section facts.
  Context `{Platform} `{UnorderedMap} `{Python}.

Lemma dictionary_loop_get l dict d : NoDup l.*1 -> dictionary_loop l dict = Some d ->
  (forall key, key ∉ l.*1 -> PyDict_GetItem d key = PyDict_GetItem dict key) /\
  (forall key v, (key, v) ∈ l -> exists o, value_object v = Some o /\
     PyDict_GetItem d key = match o with Some x => Some x | None => PyDict_GetItem dict key end).
Proof.
  revert dict. induction l as [|[key v] l IH]; intros dict Hnd; cbn [dictionary_loop].
  { intros [= ->]. split; [done|]. by intros ? ? ?%elem_of_nil. }
  apply NoDup_cons in Hnd as [Hk Hnd]. cbn [fst] in Hk. intros Hd. apply bind_Some in Hd as (val&Ev&Hd).
  assert (exists dict', dictionary_loop l dict' = Some d /\
    forall key', PyDict_GetItem dict' key' = match val with Some x => if decide (key' = key) then Some x else PyDict_GetItem dict key' | None => PyDict_GetItem dict key' end)
    as (dict'&Hl&Hget).
  { destruct val as [x|]; [|by exists dict]. apply bind_Some in Hd as (u&_&Hd). exists (PyDict_SetItem dict key x). split; [done|]. intros key'. apply get_set. }
  destruct (IH dict' Hnd Hl) as [Hout Hin]. split.
  - intros key' Hn. rewrite fmap_cons, not_elem_of_cons in Hn. destruct Hn as [Hne Hn]. cbn [fst] in Hne. rewrite Hout, Hget by done. destruct val; [|done]. by rewrite decide_False.
  - intros key' v' [[= -> ->]|Hv']%elem_of_cons.
    + exists val. split; [done|]. rewrite Hout, Hget by done. destruct val; [by rewrite decide_True|done].
    + destruct (Hin key' v' Hv') as (o&Eo&Hg). exists o. split; [done|]. rewrite Hg. destruct o; [done|]. rewrite Hget. destruct val; [|done].
      rewrite decide_False; [done|]. intros ->. apply Hk. apply (list_elem_of_fmap_2 fst _ _ Hv').
Qed.

(** The dictionary of an event has the object of every value under its name,
    and nothing else; structures and strings Python does not accept are left
    out.  A negative number is given as the number of 64 bits it is stored
    as. *)
Theorem dictionary_has_values event d : event_to_dictionary event = Some d -> forall key,
  match get_values event !! key with
  | Some v => exists o, value_object v = Some o /\ PyDict_GetItem d key = o
  | None => PyDict_GetItem d key = None
  end.
Proof.
  intros Hd key. unfold event_to_dictionary in Hd.
  assert (NoDup (elements_of (get_values event)).*1) as Hnd by (rewrite elements_of_perm; apply NoDup_fst_map_to_list).
  destruct (dictionary_loop_get _ _ _ Hnd Hd) as [Hout Hin].
  destruct (get_values event !! key) as [v|] eqn:E.
  - destruct (Hin key v) as (o&Eo&Hg); [by rewrite elements_of_perm, elem_of_map_to_list|]. exists o. split; [done|]. rewrite Hg. destruct o; [done|]. apply get_new.
  - rewrite Hout; [apply get_new|]. rewrite elements_of_perm. intros Hi. apply list_elem_of_fmap in Hi as ([k v]&->&Hk). apply elem_of_map_to_list in Hk. cbn in E. congruence.
Qed.



End facts.


(** ** Samples *)

Section samples.

#[local] Existing Instance map_order.
#[local] Instance python_platform : Platform := {| endianness := HT_ENDIANNESS_LITTLE |}.

(** Objects are numbers and strings, dictionaries finite maps. *)
#[local] Program Instance sample_python : Python := {|
  PyObject := Z + bytes;
  PyDict := gmap bytes (Z + bytes);
  PyLong_FromUnsignedLongLong := inl;
  PyUnicode_FromString s := Some (inr s);
  PyDict_New := ∅;
  PyDict_SetItem d key x := <[key := x]> d;
  PyDict_GetItem d key := d !! key
|}.
Next Obligation. intros key. apply lookup_empty. Qed.
Next Obligation. intros d key x key'. cbn. case_decide as Ek; [subst; by rewrite lookup_insert_eq|by rewrite lookup_insert_ne by done]. Qed.





End samples.
