(* ===== verification/CallGraph.v ===== *)
(** The call graph of the client (client/call_graph.cpp): the events of a
    thread, sorted by time, are nested by their intervals and aggregated by
    label into a tree of calls.

    The tree nodes are objects with shared and weak pointers: a store from
    addresses to nodes.  The reference is the map from call paths (the labels
    from the root to the call) to what was accumulated for them. *)
From stdpp Require Import sorting.
From S2P Require Import Prelude Alloc BaseTypes Memory Events Listeners Registry Endian Parser Reader Client.

#[local] Open Scope Z_scope.

(** ** Data (call_graph.hpp) *)

Record NodeData := MkNodeData { label : bytes; start_ts : Z; stop_ts : Z }.

#[export] Instance NodeData_eq_dec : EqDecision NodeData.
Proof. solve_decision. Defined.

(** NodeData(name, start, dur). *)
Definition new_node_data (name : bytes) (start dur : Z) : NodeData := MkNodeData name start (u64 (start + dur)).

Definition get_duration (d : NodeData) : Z := u64 (stop_ts d - start_ts d).

Record TreeNode := MkTreeNode {
  ndata : NodeData;
  total_duration : Z;
  total_children_duration : Z;
  children : list (ptr * Z);
  parent : option ptr
}.

(** TreeNode(node_data); event_node->parent = parent. *)
Definition new_tree_node (d : NodeData) (parent : option ptr) : TreeNode := MkTreeNode d (get_duration d) 0 [] parent.

Record CallGraph := MkCallGraph {
  nodes : gmap ptr TreeNode;
  _root_calls : list (ptr * Z);
  _current_call : option ptr
}.

Definition new_call_graph : CallGraph := MkCallGraph ∅ [] None.

Abbreviation CG := (ST CallGraph).

Definition load_node (p : ptr) : CG TreeNode := fun g => some_or_undef (nodes g !! p) g.
Definition store_node (p : ptr) (n : TreeNode) : CG () :=
  modify (fun g => MkCallGraph (<[p := n]> (nodes g)) (_root_calls g) (_current_call g)).
Definition set_current (c : option ptr) : CG () :=
  modify (fun g => MkCallGraph (nodes g) (_root_calls g) c).

(** The vector a call is added to: the children of a node, or the roots. *)
Definition get_calls (owner : option ptr) : CG (list (ptr * Z)) :=
  match owner with
  | None => gets _root_calls
  | Some p => n ← load_node p; mret (children n)
  end.

Definition set_calls (owner : option ptr) (calls : list (ptr * Z)) : CG () :=
  match owner with
  | None => modify (fun g => MkCallGraph (nodes g) calls (_current_call g))
  | Some p => n ← load_node p;
              store_node p (MkTreeNode (ndata n) (total_duration n) (total_children_duration n) calls (parent n))
  end.

(** std::make_shared<TreeNode>. *)
Definition alloc_node (n : TreeNode) : CG ptr :=
  g ← get; let p := fresh (dom (nodes g)) in store_node p n;; mret p.

(** std::find_if over a vector of calls: the position of the first call with
    that label. *)
Fixpoint find_call (lab : bytes) (calls : list (ptr * Z)) (i : nat) : CG (option nat) :=
  match calls with
  | [] => mret None
  | (p, _) :: calls =>
      n ← load_node p;
      if decide (label (ndata n) = lab) then mret (Some i) else find_call lab calls (S i)
  end.

(** _add_new_call; the counter is an int. *)
Definition _add_new_call (d : NodeData) (parent_ptr : option ptr) (owner : option ptr) : CG ptr :=
  calls ← get_calls owner;
  found ← find_call (label d) calls 0;
  match found with
  | Some i =>
      '(p, count) ← some_or_undef (calls !! i);
      n ← load_node p;
      store_node p (MkTreeNode d (u64 (total_duration n + get_duration d)) (total_children_duration n) (children n) (parent n));;
      require (bool_decide (count < HT_INT32_MAX));;
      calls ← get_calls owner;
      set_calls owner (<[i := (p, count + 1)]> calls);;
      mret p
  | None =>
      p ← alloc_node (new_tree_node d parent_ptr);
      calls ← get_calls owner;
      set_calls owner (calls ++ [(p, 1)]);;
      mret p
  end.

Definition _add_new_calltree (d : NodeData) : CG () :=
  p ← _add_new_call d None None; set_current (Some p).

Definition _add_new_event_call (caller : ptr) (d : NodeData) : CG () :=
  n ← load_node caller;
  store_node caller (MkTreeNode (ndata n) (total_duration n) (u64 (total_children_duration n + get_duration d)) (children n) (parent n));;
  p ← _add_new_call d (Some caller) (Some caller); set_current (Some p).

Definition contains (c d : NodeData) : bool := bool_decide (start_ts c <= start_ts d /\ stop_ts d <= stop_ts c).

(** while (_current_call). *)
Fixpoint _try_add_event_to_existing_calltree (fuel : nat) (d : NodeData) : CG bool :=
  match fuel with
  | O => nofuel
  | S fuel =>
      g ← get;
      match _current_call g with
      | None => mret false
      | Some p =>
          n ← load_node p;
          if contains (ndata n) d then _add_new_event_call p d;; mret true
          else set_current (parent n);; _try_add_event_to_existing_calltree fuel d
      end
  end.

Definition _add_event (fuel : nat) (d : NodeData) : CG () :=
  added ← _try_add_event_to_existing_calltree fuel d;
  if (added : bool) then mret () else _add_new_calltree d.

Fixpoint add_events (fuel : nat) (ds : list NodeData) : CG () :=
  match ds with
  | [] => mret ()
  | d :: ds => _add_event fuel d;; add_events fuel ds
  end.

(** std::sort: some order of the elements in which none comes before an
    earlier one; what it does with equal start times is not specified. *)
Class Sort := {
  sort_events : list NodeData -> list NodeData;
  sort_perm : forall l, sort_events l ≡ₚ l;
  sort_sorted : forall l, Sorted (fun a b => start_ts a <= start_ts b) (sort_events l)
}.

Definition make `{Sort} (fuel : nat) (events : list NodeData) : CG (list (ptr * Z)) :=
  add_events fuel (sort_events events);; gets _root_calls.

(** ** The reference *)

(** What was accumulated for the calls of one path. *)
Record entry := MkEntry { calls : Z; total : Z; in_children : Z }.

Abbreviation call_path := (list bytes).

(** [stack]: the calls that are open, innermost first. *)
Record ref_graph := MkRef { table : gmap call_path entry; stack : list NodeData }.

Definition path_of (st : list NodeData) : call_path := reverse (label <$> st).

Fixpoint enclosing (d : NodeData) (st : list NodeData) : list NodeData :=
  match st with
  | [] => []
  | c :: st' => if contains c d then st else enclosing d st'
  end.

Definition add_child_time (p : call_path) (dur : Z) (t : gmap call_path entry) : gmap call_path entry :=
  alter (fun e => MkEntry (calls e) (total e) (u64 (in_children e + dur))) p t.

Definition add_call (p : call_path) (dur : Z) (t : gmap call_path entry) : gmap call_path entry :=
  <[p := match t !! p with
         | Some e => MkEntry (calls e + 1) (u64 (total e + dur)) (in_children e)
         | None => MkEntry 1 dur 0
         end]> t.

Definition ref_add (g : ref_graph) (d : NodeData) : ref_graph :=
  let st := enclosing d (stack g) in
  let t := match st with [] => table g | _ => add_child_time (path_of st) (get_duration d) (table g) end in
  MkRef (add_call (path_of (d :: st)) (get_duration d) t) (d :: st).

(** ** The representation

    Without its children a node is a [core]; the vectors of calls are a
    function of their owner. *)

Record core := MkCore { c_data : NodeData; c_total : Z; c_child : Z; c_parent : option ptr }.

Definition core_of (n : TreeNode) : core := MkCore (ndata n) (total_duration n) (total_children_duration n) (parent n).

Abbreviation vectors := (option ptr -> list (ptr * Z)).

Definition cores (g : CallGraph) : gmap ptr core := core_of <$> nodes g.

Definition vectors_of (g : CallGraph) : vectors := fun o =>
  match o with None => _root_calls g | Some p => default [] (children <$> nodes g !! p) end.

Definition set_vector (L : vectors) (o : option ptr) (l : list (ptr * Z)) : vectors :=
  fun o' => if decide (o' = o) then l else L o'.

Definition owner_path (phi : gmap ptr call_path) (o : option ptr) : option call_path :=
  match o with None => Some [] | Some p => phi !! p end.

(** [phi] gives the path of every node.  The nodes are the entries of the
    table; a call is in the vector of its parent, with the number of calls
    of the entry, which is at most [N]. *)
Record rep (K : gmap ptr core) (L : vectors) (phi : gmap ptr call_path) (t : gmap call_path entry) (N : Z) : Prop := {
  rp_dom : forall i, is_Some (phi !! i) <-> is_Some (K !! i);
  rp_inj : forall i j p, phi !! i = Some p -> phi !! j = Some p -> i = j;
  rp_node : forall i x p, K !! i = Some x -> phi !! i = Some p -> exists q c,
    p = q ++ [label (c_data x)] /\ owner_path phi (c_parent x) = Some q /\
    t !! p = Some (MkEntry c (c_total x) (c_child x)) /\ (i, c) ∈ L (c_parent x);
  rp_nodup : forall o, NoDup (L o).*1;
  rp_vector : forall o i c, (i, c) ∈ L o -> exists x, K !! i = Some x /\ c_parent x = o;
  rp_table : forall p e, t !! p = Some e -> calls e <= N /\ exists i, phi !! i = Some p
}.

Section rep.
  Implicit Types (K : gmap ptr core) (L : vectors) (phi : gmap ptr call_path) (t : gmap call_path entry) (N : Z).

Lemma rep_empty : rep ∅ (fun _ => []) ∅ ∅ 0.
Proof.
  split; try done; [intros i; split; intros [x Hx]; by rewrite lookup_empty in Hx|intros o; apply NoDup_nil_2|]. intros o i c Hin. by apply not_elem_of_nil in Hin.
Qed.

Lemma rep_path_of_node K L phi t N i x : rep K L phi t N -> K !! i = Some x -> exists q c,
  phi !! i = Some (q ++ [label (c_data x)]) /\ owner_path phi (c_parent x) = Some q /\
  t !! (q ++ [label (c_data x)]) = Some (MkEntry c (c_total x) (c_child x)) /\ (i, c) ∈ L (c_parent x).
Proof.
  intros R Hi. destruct (proj2 (rp_dom _ _ _ _ _ R i)) as [p Hp]; [by eexists|].
  destruct (rp_node _ _ _ _ _ R _ _ _ Hi Hp) as (q&c&->&Ho&Ht&Hin). by exists q, c.
Qed.

(** Owners with the same path are the same. *)
Lemma owner_path_inj K L phi t N o o' q : rep K L phi t N ->
  owner_path phi o = Some q -> owner_path phi o' = Some q -> o = o'.
Proof.
  intros R. assert (Hne : forall p, phi !! p <> Some []).
  { intros p Hp. destruct (proj1 (rp_dom _ _ _ _ _ R p)) as [x Hx]; [by eexists|].
    destruct (rp_node _ _ _ _ _ R _ _ _ Hx Hp) as (q'&c&E&_). by destruct q'. }
  destruct o as [p|], o' as [p'|]; simpl; intros E1 E2; simplify_eq; try done.
  - f_equal. by eapply rp_inj.
  - by destruct (Hne p).
  - by destruct (Hne p').
Qed.

(** The call of a label below an owner, if there is one. *)
Lemma rep_find K L phi t N o q lab e : rep K L phi t N -> owner_path phi o = Some q -> t !! (q ++ [lab]) = Some e ->
  exists i x c, (i, c) ∈ L o /\ K !! i = Some x /\ label (c_data x) = lab /\ e = MkEntry c (c_total x) (c_child x).
Proof.
  intros R Ho Ht. destruct (rp_table _ _ _ _ _ R _ _ Ht) as (_&i&Hi).
  destruct (proj1 (rp_dom _ _ _ _ _ R i)) as [x Hx]; [by eexists|].
  destruct (rp_node _ _ _ _ _ R _ _ _ Hx Hi) as (q'&c&E&Ho'&Ht'&Hin). apply app_inj_tail in E as [-> ->].
  assert (c_parent x = o) as <- by (by eapply owner_path_inj). exists i, x, c. split_and!; try done. congruence.
Qed.

Lemma rep_in_vector K L phi t N o q i c x : rep K L phi t N -> owner_path phi o = Some q -> (i, c) ∈ L o -> K !! i = Some x ->
  phi !! i = Some (q ++ [label (c_data x)]) /\ t !! (q ++ [label (c_data x)]) = Some (MkEntry c (c_total x) (c_child x)).
Proof.
  intros R Ho Hin Hx. destruct (rp_vector _ _ _ _ _ R _ _ _ Hin) as (x'&Hx'&Hp). assert (x' = x) as -> by congruence. subst o.
  destruct (rep_path_of_node _ _ _ _ _ _ _ R Hx) as (q'&c'&Hphi&Ho'&Ht&Hin'). assert (q' = q) as -> by congruence.
  split; [done|]. assert (c' = c) as ->; [|done].
  apply list_elem_of_lookup_1 in Hin as [a Ha], Hin' as [b Hb].
  assert (a = b) as ->; [|congruence].
  eapply (NoDup_lookup _ _ _ i (rp_nodup _ _ _ _ _ R (c_parent x))); by rewrite list_lookup_fmap, ?Ha, ?Hb.
Qed.

(** Time spent in a child. *)
Lemma rep_child_time K L phi t N i x q dur : rep K L phi t N -> K !! i = Some x -> phi !! i = Some q ->
  rep (<[i := MkCore (c_data x) (c_total x) (u64 (c_child x + dur)) (c_parent x)]> K) L phi (add_child_time q dur t) N.
Proof.
  intros R Hx Hq. destruct (rp_node _ _ _ _ _ R _ _ _ Hx Hq) as (q0&c&Eq&Ho&Ht&Hin). unfold add_child_time. split.
  - intros j. rewrite lookup_insert_is_Some', (rp_dom _ _ _ _ _ R). split; [by right|]. intros [<-|?]; [by eexists|done].
  - apply (rp_inj _ _ _ _ _ R).
  - intros j y p Hy Hp. destruct (decide (j = i)) as [->|Hne].
    + rewrite lookup_insert_eq in Hy. simplify_eq. exists q0, c. simpl. split_and!; try done. by rewrite lookup_alter_eq, Ht.
    + rewrite lookup_insert_ne in Hy by done. destruct (rp_node _ _ _ _ _ R _ _ _ Hy Hp) as (q'&c'&E&Ho'&Ht'&Hin').
      exists q', c'. split_and!; try done. rewrite lookup_alter_ne; [done|]. intros ->. apply Hne. by eapply (rp_inj _ _ _ _ _ R).
  - apply (rp_nodup _ _ _ _ _ R).
  - intros o j c' Hj. destruct (rp_vector _ _ _ _ _ R _ _ _ Hj) as (y&Hy&Hpy). destruct (decide (j = i)) as [->|Hne].
    + rewrite lookup_insert_eq. eexists. split; [done|]. simpl. congruence.
    + rewrite lookup_insert_ne by done. by exists y.
  - intros p e Hp. destruct (decide (p = q)) as [->|Hne].
    + rewrite lookup_alter_eq, Ht in Hp. simplify_eq/=. destruct (rp_table _ _ _ _ _ R _ _ Ht) as [Hc _]. split; [done|]. by exists i.
    + rewrite lookup_alter_ne in Hp by done. by apply (rp_table _ _ _ _ _ R).
Qed.

Lemma set_vector_eq L o l : set_vector L o l o = l.
Proof. unfold set_vector. by rewrite decide_True. Qed.

Lemma set_vector_ne L o l o' : o' <> o -> set_vector L o l o' = L o'.
Proof. intros Hne. unfold set_vector. by rewrite decide_False. Qed.

(** One more call of a node that is there. *)
Lemma rep_existing K L phi t N o q k i c x d : rep K L phi t N -> owner_path phi o = Some q ->
  L o !! k = Some (i, c) -> K !! i = Some x -> label (c_data x) = label d ->
  rep (<[i := MkCore d (u64 (c_total x + get_duration d)) (c_child x) (c_parent x)]> K)
      (set_vector L o (<[k := (i, c + 1)]> (L o))) phi (add_call (q ++ [label d]) (get_duration d) t) (N + 1).
Proof.
  intros R Ho Hk Hx Hlab. pose proof (list_elem_of_lookup_2 _ _ _ Hk) as Hin.
  destruct (rep_in_vector _ _ _ _ _ _ _ _ _ _ R Ho Hin Hx) as [Hphi Ht]. rewrite Hlab in Hphi, Ht.
  assert (Hids : (<[k := (i, c + 1)]> (L o)).*1 = (L o).*1).
  { rewrite list_fmap_insert. apply list_insert_id. by rewrite list_lookup_fmap, Hk. }
  destruct (rp_vector _ _ _ _ _ R _ _ _ Hin) as (x'&Hx'&Hpar). assert (x' = x) as -> by congruence. clear Hx'.
  assert (Hother : forall j b, j <> i -> (j, b) ∈ set_vector L o (<[k := (i, c + 1)]> (L o)) o <-> (j, b) ∈ L o).
  { intros j b Hne. rewrite set_vector_eq. split; intros Hj; apply list_elem_of_lookup_1 in Hj as [a Ha]; apply (list_elem_of_lookup_2 _ a).
    - destruct (decide (a = k)) as [->|Hak]; [|by rewrite list_lookup_insert_ne in Ha].
      rewrite list_lookup_insert_eq in Ha by (by eapply lookup_lt_Some). congruence.
    - rewrite list_lookup_insert_ne; [done|]. intros ->. congruence. }
  unfold add_call. rewrite Ht. split.
  - intros j. rewrite lookup_insert_is_Some', (rp_dom _ _ _ _ _ R). split; [by right|]. intros [<-|?]; [by eexists|done].
  - apply (rp_inj _ _ _ _ _ R).
  - intros j y p Hy Hp. destruct (decide (j = i)) as [->|Hne].
    + rewrite lookup_insert_eq in Hy. simplify_eq. simpl. exists q, (c + 1). split_and!; try done.
      * by rewrite lookup_insert_eq.
      * rewrite set_vector_eq. apply (list_elem_of_lookup_2 _ k). apply list_lookup_insert_eq. by eapply lookup_lt_Some.
    + rewrite lookup_insert_ne in Hy by done. destruct (rp_node _ _ _ _ _ R _ _ _ Hy Hp) as (q'&c'&E&Ho'&Ht'&Hin').
      exists q', c'. split_and!; try done.
      * rewrite lookup_insert_ne; [done|]. intros <-. apply Hne. by eapply (rp_inj _ _ _ _ _ R).
      * destruct (decide (c_parent y = o)) as [Eo|Hno]; [rewrite Eo in *; by apply Hother|by rewrite set_vector_ne].
  - intros o'. destruct (decide (o' = o)) as [->|Hne]; [rewrite set_vector_eq, Hids|rewrite set_vector_ne by done]; apply (rp_nodup _ _ _ _ _ R).
  - intros o' j b Hj. destruct (decide (j = i)) as [->|Hne].
    + rewrite lookup_insert_eq. eexists. split; [done|]. simpl. destruct (decide (o' = o)) as [->|Hno]; [done|].
      rewrite set_vector_ne in Hj by done. destruct (rp_vector _ _ _ _ _ R _ _ _ Hj) as (y&Hy&Hpy). congruence.
    + rewrite lookup_insert_ne by done. apply (rp_vector _ _ _ _ _ R _ _ b).
      destruct (decide (o' = o)) as [->|Hno]; [by apply Hother|by rewrite set_vector_ne in Hj].
  - intros p e Hp. destruct (decide (p = q ++ [label d])) as [->|Hne].
    + rewrite lookup_insert_eq in Hp. simplify_eq/=. destruct (rp_table _ _ _ _ _ R _ _ Ht) as [Hc _]. simpl in Hc. split; [lia|]. by exists i.
    + rewrite lookup_insert_ne in Hp by done. destruct (rp_table _ _ _ _ _ R _ _ Hp) as [Hc ?]. split; [lia|done].
Qed.

(** A new node. *)
Lemma rep_new K L phi t N o q i d : rep K L phi t N -> owner_path phi o = Some q -> 0 <= N ->
  K !! i = None -> L (Some i) = [] -> o <> Some i -> t !! (q ++ [label d]) = None ->
  rep (<[i := MkCore d (get_duration d) 0 o]> K) (set_vector L o (L o ++ [(i, 1)])) (<[i := q ++ [label d]]> phi)
      (add_call (q ++ [label d]) (get_duration d) t) (N + 1).
Proof.
  intros R Ho HN Hi HLi Hoi Ht.
  assert (Hphi : phi !! i = None).
  { apply eq_None_not_Some. rewrite (rp_dom _ _ _ _ _ R), Hi. by intros []. }
  assert (Hnew : forall j p, phi !! j = Some p -> p <> q ++ [label d]).
  { intros j p Hj ->. destruct (proj1 (rp_dom _ _ _ _ _ R j)) as [x Hx]; [by eexists|].
    destruct (rp_node _ _ _ _ _ R _ _ _ Hx Hj) as (?&?&_&_&Ht'&_). congruence. }
  assert (Hnin : forall o' b, (i, b) ∉ L o').
  { intros o' b Hb. destruct (rp_vector _ _ _ _ _ R _ _ _ Hb) as (x&Hx&_). congruence. }
  assert (Hown : forall o' q', owner_path phi o' = Some q' -> owner_path (<[i := q ++ [label d]]> phi) o' = Some q').
  { intros [p|] q' E; [|done]. simpl in *. rewrite lookup_insert_ne; [done|]. congruence. }
  unfold add_call. rewrite Ht. split.
  - intros j. by rewrite !lookup_insert_is_Some', (rp_dom _ _ _ _ _ R).
  - intros j j' p. rewrite !lookup_insert_Some. intros [[<- <-]|[? Hj]] [[<- ?]|[? Hj']]; try done.
    + by destruct (Hnew _ _ Hj').
    + subst. by destruct (Hnew _ _ Hj).
    + by eapply (rp_inj _ _ _ _ _ R).
  - intros j x p Hx Hp. destruct (decide (j = i)) as [->|Hne].
    + rewrite lookup_insert_eq in Hx. rewrite lookup_insert_eq in Hp. simplify_eq. simpl. exists q, 1. split_and!; try done; [by apply Hown|by rewrite lookup_insert_eq|].
      rewrite set_vector_eq. apply elem_of_app. right. by apply list_elem_of_singleton.
    + rewrite lookup_insert_ne in Hx by done. rewrite lookup_insert_ne in Hp by done. destruct (rp_node _ _ _ _ _ R _ _ _ Hx Hp) as (q'&c'&E&Ho'&Ht'&Hin').
      exists q', c'. split_and!; try done; [by apply Hown|rewrite lookup_insert_ne; [done|]; by apply not_eq_sym, (Hnew j)|].
      destruct (decide (c_parent x = o)) as [Eo|Hno]; [rewrite Eo in *; rewrite set_vector_eq; apply elem_of_app; by left|by rewrite set_vector_ne].
  - intros o'. destruct (decide (o' = o)) as [->|Hne]; [|rewrite set_vector_ne by done; apply (rp_nodup _ _ _ _ _ R)].
    rewrite set_vector_eq, fmap_app. apply NoDup_app. split; [apply (rp_nodup _ _ _ _ _ R)|]. split; [|by apply NoDup_singleton].
    intros j Hj Hj'. apply list_elem_of_singleton in Hj'. simpl in Hj'. subst j. apply list_elem_of_fmap in Hj as ([? b]&E&Hb). simpl in E. subst.
    by apply (Hnin o b).
  - intros o' j b Hj. assert (Hcase : (j, b) ∈ L o' \/ j = i /\ o' = o).
    { destruct (decide (o' = o)) as [->|Hne]; [|left; by rewrite set_vector_ne in Hj]. rewrite set_vector_eq in Hj.
      apply elem_of_app in Hj as [Hj|Hj]; [by left|]. apply list_elem_of_singleton in Hj. right. by simplify_eq. }
    destruct Hcase as [Hj'|[-> ->]]; [|rewrite lookup_insert_eq; by eexists].
    destruct (rp_vector _ _ _ _ _ R _ _ _ Hj') as (y&Hy&Hpy). exists y. rewrite lookup_insert_ne; [done|]. congruence.
  - intros p e Hp. apply lookup_insert_Some in Hp as [[<- <-]|[Hne Hp]].
    + simpl. split; [lia|]. exists i. by rewrite lookup_insert_eq.
    + destruct (rp_table _ _ _ _ _ R _ _ Hp) as [Hc [j Hj]]. split; [lia|]. exists j. rewrite lookup_insert_ne; [done|]. congruence.
Qed.

End rep.

(** ** The operations *)

Definition alive (g : CallGraph) (o : option ptr) : Prop :=
  match o with None => True | Some p => is_Some (nodes g !! p) end.

Lemma rep_ext K L L' phi t N : (forall o, L o = L' o) -> rep K L phi t N -> rep K L' phi t N.
Proof.
  intros E [H1 H2 H3 H4 H5 H6]. split; try done.
  - intros i x p Hx Hp. destruct (H3 i x p Hx Hp) as (q&c&?&?&?&?). exists q, c. by rewrite <- E.
  - intros o. by rewrite <- E.
  - intros o i c. rewrite <- E. apply H5.
Qed.

Lemma cores_lookup g i x : cores g !! i = Some x -> exists n, nodes g !! i = Some n /\ core_of n = x.
Proof. unfold cores. rewrite lookup_fmap. intros E. destruct (nodes g !! i) as [n|]; simplify_eq/=. by exists n. Qed.

Lemma load_node_spec g p n : nodes g !! p = Some n -> wp (load_node p) (fun m g' => m = n /\ g' = g) g.
Proof. intros E. unfold wp, load_node. by rewrite E. Qed.

Lemma get_calls_spec g o : alive g o -> wp (get_calls o) (fun l g' => l = vectors_of g o /\ g' = g) g.
Proof.
  destruct o as [p|]; [|done]. intros [n Hn]. unfold get_calls. eapply wp_call; [by apply load_node_spec|].
  intros m g' [-> ->]. apply wp_ret. simpl. by rewrite Hn.
Qed.

Lemma set_calls_spec g o l : alive g o ->
  wp (set_calls o l) (fun _ g' => cores g' = cores g /\ (forall o', vectors_of g' o' = set_vector (vectors_of g) o l o') /\
    _current_call g' = _current_call g) g.
Proof.
  destruct o as [p|].
  - intros [n Hn]. unfold set_calls. eapply wp_call; [by apply load_node_spec|]. intros m g' [-> ->].
    unfold wp, store_node, modify, cores. simpl. split_and!; [|intros [p'|]|done].
    + rewrite fmap_insert. apply insert_id. by rewrite lookup_fmap, Hn.
    + simpl. destruct (decide (p' = p)) as [->|Hne]; [by rewrite lookup_insert_eq, set_vector_eq|].
      rewrite lookup_insert_ne by done. by rewrite set_vector_ne by congruence.
    + by rewrite set_vector_ne.
  - intros _. unfold wp, set_calls, modify. simpl. split_and!; [done| |done].
    intros [p'|]; [by rewrite set_vector_ne|by rewrite set_vector_eq].
Qed.

(** A node is replaced by one with the same children. *)
Lemma store_node_spec g p n n' : nodes g !! p = Some n -> children n' = children n ->
  wp (store_node p n') (fun _ g' => cores g' = <[p := core_of n']> (cores g) /\ (forall o, vectors_of g' o = vectors_of g o) /\
    (forall o, alive g o -> alive g' o) /\ _current_call g' = _current_call g) g.
Proof.
  intros Hn Hc. unfold wp, store_node, modify. simpl. split_and!; [apply fmap_insert| | |done].
  - intros [p'|]; [|done]. simpl. destruct (decide (p' = p)) as [->|Hne]; [|by rewrite lookup_insert_ne].
    rewrite lookup_insert_eq, Hn. simpl. by rewrite Hc.
  - intros [p'|]; [|done]. simpl. rewrite lookup_insert_is_Some'. by right.
Qed.

Lemma alloc_node_spec g d o :
  wp (alloc_node (new_tree_node d o)) (fun p g' => nodes g !! p = None /\ vectors_of g (Some p) = [] /\
    cores g' = <[p := MkCore d (get_duration d) 0 o]> (cores g) /\ (forall o', vectors_of g' o' = vectors_of g o') /\
    (forall o', alive g o' -> alive g' o') /\ _current_call g' = _current_call g) g.
Proof.
  unfold alloc_node. apply wp_bind, wp_get. set (p := fresh (dom (nodes g))).
  assert (Hp : nodes g !! p = None) by (apply not_elem_of_dom, is_fresh).
  apply wp_bind. unfold wp at 1, store_node, modify. apply wp_ret. simpl. rewrite Hp. split_and!; try done.
  - apply (fmap_insert core_of (nodes g) p (new_tree_node d o)).
  - intros [p'|]; [|done]. simpl. destruct (decide (p' = p)) as [->|Hne]; [by rewrite lookup_insert_eq, Hp|by rewrite lookup_insert_ne].
  - intros [p'|]; [|done]. simpl. rewrite lookup_insert_is_Some'. by right.
Qed.

Lemma find_call_spec g lab l i :
  Forall (fun pc : ptr * Z => is_Some (cores g !! pc.1)) l ->
  wp (find_call lab l i) (fun r g' => g' = g /\ match r with
    | Some k => exists p c x, (i <= k)%nat /\ l !! (k - i)%nat = Some (p, c) /\ cores g !! p = Some x /\ label (c_data x) = lab
    | None => Forall (fun pc : ptr * Z => forall x, cores g !! pc.1 = Some x -> label (c_data x) <> lab) l
    end) g.
Proof.
  revert i. induction l as [|[p c] l IH]; intros i HF; [by apply wp_ret|].
  apply Forall_cons in HF as [[x Hx] HF]. destruct (cores_lookup _ _ _ Hx) as (n&Hn&<-). cbn [find_call].
  eapply wp_call; [by apply load_node_spec|]. intros m g' [-> ->]. case_decide as Hl.
  - apply wp_ret. split; [done|]. exists p, c, (core_of n). by rewrite Nat.sub_diag.
  - eapply wp_mono; [by apply IH|]. intros [k|] g' [-> Hr]; (split; [done|]).
    + destruct Hr as (p'&c'&x'&Hk&Hl'&?). exists p', c', x'. split; [lia|]. split; [|done].
      by replace (k - i)%nat with (S (k - S i)) by lia.
    + constructor; [|done]. intros y Hy. simpl in *. by simplify_eq.
Qed.

(** What adding a call leaves: the call is at [i], nothing else has moved. *)
Definition call_added (g : CallGraph) (phi : gmap ptr call_path) (t : gmap call_path entry) (N : Z) (o : option ptr)
    (q : call_path) (d : NodeData) (i : ptr) (g' : CallGraph) : Prop :=
  exists phi', rep (cores g') (vectors_of g') phi' (add_call (q ++ [label d]) (get_duration d) t) (N + 1) /\
    phi' !! i = Some (q ++ [label d]) /\ (exists x, cores g' !! i = Some x /\ c_data x = d /\ c_parent x = o) /\
    (forall j, j <> i -> cores g' !! j = cores g !! j) /\ (forall j p, phi !! j = Some p -> phi' !! j = Some p) /\
    _current_call g' = _current_call g.

Lemma rep_alive g phi t N o q : rep (cores g) (vectors_of g) phi t N -> owner_path phi o = Some q -> alive g o.
Proof.
  intros R Ho. destruct o as [p|]; [|done]. simpl in *. destruct (proj1 (rp_dom _ _ _ _ _ R p)) as [x Hx]; [by eexists|].
  destruct (cores_lookup _ _ _ Hx) as (n&Hn&_). by eexists.
Qed.

Lemma rep_vectors_alive g phi t N o : rep (cores g) (vectors_of g) phi t N ->
  Forall (fun pc : ptr * Z => is_Some (cores g !! pc.1)) (vectors_of g o).
Proof.
  intros R. apply Forall_forall. intros [i c] Hin. destruct (rp_vector _ _ _ _ _ R _ _ _ Hin) as (x&Hx&_). by eexists.
Qed.

Lemma add_new_call_spec g phi t N o q d :
  rep (cores g) (vectors_of g) phi t N -> owner_path phi o = Some q -> 0 <= N < HT_INT32_MAX ->
  wp (_add_new_call d o o) (call_added g phi t N o q d) g.
Proof.
  intros R Ho HN. pose proof (rep_alive _ _ _ _ _ _ R Ho) as Ha. unfold _add_new_call.
  eapply wp_call; [by apply get_calls_spec|]. intros l g1 [-> ->].
  eapply wp_call; [apply find_call_spec; by eapply rep_vectors_alive|]. intros [k|] g1 [-> Hr].
  - destruct Hr as (i&c&x&_&Hk&Hx&Hlab). rewrite Nat.sub_0_r in Hk. rewrite Hk, some_bind. cbn beta iota.
    destruct (cores_lookup _ _ _ Hx) as (n&Hn&Hcore). eapply wp_call; [by apply load_node_spec|]. intros m g1 [-> ->].
    eapply wp_call; [by apply (store_node_spec g i n)|]. intros [] g1 (Ec1&Ev1&Ha1&Ecur1).
    pose proof (list_elem_of_lookup_2 _ _ _ Hk) as Hin.
    destruct (rep_in_vector _ _ _ _ _ _ _ _ _ _ R Ho Hin Hx) as [Hphi Ht].
    destruct (rp_table _ _ _ _ _ R _ _ Ht) as [Hc _]. simpl in Hc.
    unfold require. rewrite bool_decide_eq_true_2 by lia. rewrite ret_bind.
    eapply wp_call; [by apply get_calls_spec, Ha1|]. intros l g2 [-> ->].
    eapply wp_call; [by apply set_calls_spec, Ha1|]. intros [] g2 (Ec2&Ev2&Ecur2). apply wp_ret.
    assert (Hpar : c_parent x = o) by (destruct (rp_vector _ _ _ _ _ R _ _ _ Hin) as (?&?&?); congruence).
    exists phi. subst x. cbn [core_of c_data] in *. split_and!.
    + rewrite Ec2, Ec1. eapply rep_ext; [|by apply (rep_existing _ _ _ _ _ o q k i c (core_of n) d R Ho Hk Hx)].
      intros o'. rewrite Ev2, Ev1. unfold set_vector. case_decide; [done|]. symmetry. apply Ev1.
    + by rewrite Hphi, Hlab.
    + rewrite Ec2, Ec1, lookup_insert_eq. by eexists.
    + intros j Hj. by rewrite Ec2, Ec1, lookup_insert_ne.
    + done.
    + congruence.
  - eapply wp_call; [apply alloc_node_spec|]. intros i g1 (Hi&Hv&Ec1&Ev1&Ha1&Ecur1).
    eapply wp_call; [by apply get_calls_spec, Ha1|]. intros l g2 [-> ->].
    eapply wp_call; [by apply set_calls_spec, Ha1|]. intros [] g2 (Ec2&Ev2&Ecur2). apply wp_ret.
    assert (Hci : cores g !! i = None) by (unfold cores; by rewrite lookup_fmap, Hi).
    assert (Hphi : phi !! i = None) by (apply eq_None_not_Some; rewrite (rp_dom _ _ _ _ _ R), Hci; by intros []).
    assert (Ht : t !! (q ++ [label d]) = None).
    { destruct (t !! (q ++ [label d])) as [e|] eqn:Ee; [|done]. exfalso.
      destruct (rep_find _ _ _ _ _ _ _ _ _ R Ho Ee) as (j&x&c&Hin&Hx&Hl&_).
      by apply (proj1 (Forall_forall _ _) Hr _ Hin x). }
    exists (<[i := q ++ [label d]]> phi). split_and!.
    + rewrite Ec2, Ec1. eapply rep_ext; [|apply (rep_new _ _ _ _ _ o q i d R Ho); try done; [lia|]].
      * intros o'. rewrite Ev2, Ev1. unfold set_vector. case_decide; [done|]. symmetry. apply Ev1.
      * intros ->. simpl in Ho. congruence.
    + apply lookup_insert_eq.
    + rewrite Ec2, Ec1, lookup_insert_eq. by eexists.
    + intros j Hj. by rewrite Ec2, Ec1, lookup_insert_ne.
    + intros j p Hj. rewrite lookup_insert_ne; [done|]. congruence.
    + congruence.
Qed.

(** ** The open calls *)

Definition links (K : gmap ptr core) : gmap ptr (NodeData * option ptr) := (fun x => (c_data x, c_parent x)) <$> K.

(** From a call up to its root. *)
Fixpoint chain (M : gmap ptr (NodeData * option ptr)) (o : option ptr) (st : list NodeData) : Prop :=
  match st with
  | [] => o = None
  | d :: st => exists p o', o = Some p /\ M !! p = Some (d, o') /\ chain M o' st
  end.

Lemma path_of_cons d st : path_of (d :: st) = path_of st ++ [label d].
Proof. unfold path_of. simpl. by rewrite reverse_cons. Qed.

Lemma links_lookup K i d o : links K !! i = Some (d, o) <-> exists x, K !! i = Some x /\ c_data x = d /\ c_parent x = o.
Proof.
  unfold links. rewrite lookup_fmap_Some. split; intros (x&E1&E2); [|destruct E2 as [<- <-]]; exists x; by simplify_eq.
Qed.

Lemma chain_path K L phi t N o st : rep K L phi t N -> chain (links K) o st -> owner_path phi o = Some (path_of st).
Proof.
  intros R. revert o. induction st as [|d st IH]; intros o Hc; simpl in Hc; [by subst|].
  destruct Hc as (p&o'&->&Hl&Hc). apply links_lookup in Hl as (x&Hx&<-&<-).
  destruct (rep_path_of_node _ _ _ _ _ _ _ R Hx) as (q&c&Hphi&Ho&_). rewrite (IH _ Hc) in Ho. simplify_eq.
  simpl. by rewrite Hphi, path_of_cons.
Qed.

Lemma length_path_of st : length (path_of st) = length st.
Proof. unfold path_of. by rewrite length_reverse, length_fmap. Qed.

(** A change deeper than the chain does not touch it. *)
Lemma chain_keep K L phi t N M' i o st :
  rep K L phi t N -> (forall j, j <> i -> M' !! j = links K !! j) ->
  (forall p, phi !! i = Some p -> (length st < length p)%nat) -> chain (links K) o st -> chain M' o st.
Proof.
  intros R HM. revert o. induction st as [|d st IH]; intros o Hi Hc; [done|].
  pose proof (chain_path _ _ _ _ _ _ _ R Hc) as Hp. destruct Hc as (p&o'&->&Hl&Hc). simpl in Hp.
  assert (p <> i) as Hne.
  { intros ->. specialize (Hi _ Hp). rewrite length_path_of in Hi. lia. }
  exists p, o'. split_and!; [done|by rewrite HM|]. apply IH; [|done]. intros q Hq. specialize (Hi _ Hq). simpl in Hi. lia.
Qed.

Definition ginv (g : CallGraph) (r : ref_graph) (N : Z) : Prop :=
  exists phi, rep (cores g) (vectors_of g) phi (table r) N /\ chain (links (cores g)) (_current_call g) (stack r).

(** Adding the call below the open calls [st] opens it. *)
Lemma call_added_inv g phi t N o d st i g' :
  rep (cores g) (vectors_of g) phi t N -> chain (links (cores g)) o st -> call_added g phi t N o (path_of st) d i g' ->
  wp (set_current (Some i)) (fun _ g'' => ginv g'' (MkRef (add_call (path_of (d :: st)) (get_duration d) t) (d :: st)) (N + 1)) g'.
Proof.
  intros R Hc (phi'&R'&Hi&(x&Hx&Hxd&Hxp)&Hsame&Hmono&_). unfold wp, set_current, modify. exists phi'.
  change (cores (MkCallGraph (nodes g') (_root_calls g') (Some i))) with (cores g').
  cbn [table stack _current_call]. rewrite path_of_cons. split.
  - eapply rep_ext; [|exact R']. by intros [p|].
  - exists i, o. split_and!; [done|apply links_lookup; by exists x|].
    eapply (chain_keep _ _ _ _ _ _ i _ _ R); [| |exact Hc].
    + intros j Hj. unfold links. by rewrite !lookup_fmap, Hsame.
    + intros p Hp. apply Hmono in Hp. rewrite Hi in Hp. simplify_eq. rewrite length_app, length_path_of. simpl. lia.
Qed.

Lemma links_child_time K i x dur : K !! i = Some x ->
  links (<[i := MkCore (c_data x) (c_total x) (u64 (c_child x + dur)) (c_parent x)]> K) = links K.
Proof. intros Hx. unfold links. rewrite fmap_insert. apply insert_id. by rewrite lookup_fmap, Hx. Qed.

Lemma add_new_event_call_spec g phi t N p d c st :
  rep (cores g) (vectors_of g) phi t N -> chain (links (cores g)) (Some p) (c :: st) -> 0 <= N < HT_INT32_MAX ->
  wp (_add_new_event_call p d) (fun _ g' => ginv g' (MkRef (add_call (path_of (d :: c :: st)) (get_duration d)
    (add_child_time (path_of (c :: st)) (get_duration d) t)) (d :: c :: st)) (N + 1)) g.
Proof.
  intros R Hc HN. pose proof (chain_path _ _ _ _ _ _ _ R Hc) as Hp. simpl in Hp.
  destruct (proj1 (rp_dom _ _ _ _ _ R p)) as [x Hx]; [by eexists|]. destruct (cores_lookup _ _ _ Hx) as (n&Hn&Ex).
  unfold _add_new_event_call. eapply wp_call; [by apply load_node_spec|]. intros m g1 [-> ->].
  eapply wp_call; [by apply (store_node_spec g p n)|]. intros [] g1 (Ec1&Ev1&_&Ecur1).
  pose proof (rep_child_time _ _ _ _ _ p x _ (get_duration d) R Hx Hp) as R1.
  assert (Ecore : cores g1 = <[p := MkCore (c_data x) (c_total x) (u64 (c_child x + get_duration d)) (c_parent x)]> (cores g)).
  { rewrite Ec1. by subst x. }
  apply (rep_ext _ _ (vectors_of g1)) in R1; [|done]. rewrite <- Ecore in R1.
  assert (Hc1 : chain (links (cores g1)) (Some p) (c :: st)) by (by rewrite Ecore, links_child_time).
  eapply wp_call; [by apply (add_new_call_spec g1 phi _ N (Some p) _ d R1 Hp)|]. intros i g2 Hadd.
  by eapply call_added_inv.
Qed.

Lemma add_new_calltree_spec g phi t N d :
  rep (cores g) (vectors_of g) phi t N -> 0 <= N < HT_INT32_MAX ->
  wp (_add_new_calltree d) (fun _ g' => ginv g' (MkRef (add_call (path_of [d]) (get_duration d) t) [d]) (N + 1)) g.
Proof.
  intros R HN. unfold _add_new_calltree. eapply wp_call; [by apply (add_new_call_spec g phi t N None [] d R)|].
  intros i g1 Hadd. by eapply (call_added_inv g phi t N None d [] i g1).
Qed.

Lemma try_add_spec fuel g phi t N d st :
  rep (cores g) (vectors_of g) phi t N -> chain (links (cores g)) (_current_call g) st -> (length st < fuel)%nat ->
  0 <= N < HT_INT32_MAX ->
  wp (_try_add_event_to_existing_calltree fuel d) (fun added g' =>
    match enclosing d st with
    | [] => added = false /\ rep (cores g') (vectors_of g') phi t N
    | st' => added = true /\ ginv g' (MkRef (add_call (path_of (d :: st')) (get_duration d)
               (add_child_time (path_of st') (get_duration d) t)) (d :: st')) (N + 1)
    end) g.
Proof.
  revert g st. induction fuel as [|fuel IH]; intros g st R Hc Hf HN; [lia|]. cbn [_try_add_event_to_existing_calltree].
  apply wp_bind, wp_get. destruct st as [|c st].
  - simpl in Hc. rewrite Hc. by apply wp_ret.
  - pose proof Hc as (p&o&Ecur&Hl&Hc'). rewrite Ecur. apply links_lookup in Hl as (x&Hx&Hxd&Hxp).
    destruct (cores_lookup _ _ _ Hx) as (n&Hn&Ex). eapply wp_call; [by apply load_node_spec|]. intros m g1 [-> ->].
    cbn [enclosing]. assert (ndata n = c) as -> by (by rewrite <- Hxd, <- Ex). destruct (contains c d).
    + rewrite Ecur in Hc. eapply wp_call; [by apply (add_new_event_call_spec g phi t N p d c st)|]. intros [] g1 Hg. by apply wp_ret.
    + apply wp_bind. unfold wp at 1, set_current, modify. set (g1 := MkCallGraph _ _ _).
      assert (parent n = o) as Ho by (by rewrite <- Hxp, <- Ex).
      apply IH; [|unfold g1; cbn [_current_call]; by rewrite Ho|simpl in Hf; lia|done]. eapply rep_ext; [|exact R]. by intros [?|].
Qed.

Lemma add_event_spec fuel g r N d :
  ginv g r N -> (length (stack r) < fuel)%nat -> 0 <= N < HT_INT32_MAX ->
  wp (_add_event fuel d) (fun _ g' => ginv g' (ref_add r d) (N + 1)) g.
Proof.
  intros (phi&R&Hc) Hf HN. unfold _add_event. eapply wp_call; [by apply (try_add_spec fuel g phi (table r) N d (stack r))|].
  intros added g1 Hr. unfold ref_add. destruct (enclosing d (stack r)) as [|c st].
  - destruct Hr as [-> R1]. by eapply add_new_calltree_spec.
  - destruct Hr as [-> G1]. by apply wp_ret.
Qed.

Lemma enclosing_length d st : (length (enclosing d st) <= length st)%nat.
Proof. induction st as [|c st IH]; [done|]. simpl. destruct (contains c d); simpl; lia. Qed.

Lemma add_events_spec fuel ds g r N :
  ginv g r N -> (length (stack r) + length ds <= fuel)%nat -> 0 <= N -> N + Z.of_nat (length ds) <= HT_INT32_MAX ->
  wp (add_events fuel ds) (fun _ g' => ginv g' (foldl ref_add r ds) (N + Z.of_nat (length ds))) g.
Proof.
  revert g r N. induction ds as [|d ds IH]; intros g r N G Hf HN Hmax; simpl in *.
  - rewrite Z.add_0_r. by apply wp_ret.
  - eapply wp_call; [apply (add_event_spec fuel g r N d G); lia|]. intros [] g1 G1.
    eapply wp_mono; [apply (IH g1 (ref_add r d) (N + 1) G1)|].
    + simpl. pose proof (enclosing_length d (stack r)). lia.
    + lia.
    + lia.
    + intros [] g2. by replace (N + 1 + Z.of_nat (length ds)) with (N + Z.of_nat (S (length ds))) by lia.
Qed.

(** The graph holds the table: [phi] gives the path of every node. *)
Definition graph_of (g : CallGraph) (t : gmap call_path entry) : Prop :=
  exists phi N, rep (cores g) (vectors_of g) phi t N.

(** ** What the table says *)

(** The path and the duration of every event. *)
Fixpoint ref_paths (st : list NodeData) (ds : list NodeData) : list (call_path * Z) :=
  match ds with
  | [] => []
  | d :: ds => let st := d :: enclosing d st in (path_of st, get_duration d) :: ref_paths st ds
  end.

Definition times_of (p : call_path) (l : list (call_path * Z)) : list Z := snd <$> filter (fun x => x.1 = p) l.

Definition sum_Z (l : list Z) : Z := foldr Z.add 0 l.

Definition entry_at (t : gmap call_path entry) (p : call_path) : entry := default (MkEntry 0 0 0) (t !! p).

Lemma u64_add_l a b : u64 (u64 a + b) = u64 (a + b).
Proof. unfold u64. by rewrite Z.add_mod_idemp_l. Qed.

Lemma get_duration_u64 d : u64 (get_duration d) = get_duration d.
Proof. unfold get_duration, u64. by rewrite Z.mod_mod. Qed.

Lemma add_child_time_entry p q dur t :
  calls (entry_at (add_child_time q dur t) p) = calls (entry_at t p) /\
  total (entry_at (add_child_time q dur t) p) = total (entry_at t p) /\
  (is_Some (add_child_time q dur t !! p) <-> is_Some (t !! p)).
Proof.
  unfold add_child_time, entry_at. destruct (decide (p = q)) as [->|Hne]; [|by rewrite lookup_alter_ne].
  rewrite lookup_alter_eq. destruct (t !! q); by simpl; rewrite ?is_Some_alt.
Qed.

Lemma table_spec ds r p :
  u64 (total (entry_at (table r) p)) = total (entry_at (table r) p) ->
  let t := table (foldl ref_add r ds) in let times := times_of p (ref_paths (stack r) ds) in
  calls (entry_at t p) = calls (entry_at (table r) p) + Z.of_nat (length times) /\
  total (entry_at t p) = u64 (total (entry_at (table r) p) + sum_Z times) /\
  (is_Some (t !! p) <-> is_Some (table r !! p) \/ times <> []).
Proof.
  revert r. induction ds as [|d ds IH]; intros r Hu; cbn zeta.
  - cbn. rewrite !Z.add_0_r. split_and!; [done..|]. split; [by left|by intros [?|?]].
  - cbn [foldl ref_paths]. set (st := enclosing d (stack r)).
    set (t0 := match st with [] => table r | _ => add_child_time (path_of st) (get_duration d) (table r) end).
    assert (E0 : calls (entry_at t0 p) = calls (entry_at (table r) p) /\ total (entry_at t0 p) = total (entry_at (table r) p) /\
      (is_Some (t0 !! p) <-> is_Some (table r !! p))).
    { unfold t0. destruct st; [done|apply add_child_time_entry]. }
    destruct E0 as (Ec&Et&Es). change (ref_add r d) with (MkRef (add_call (path_of (d :: st)) (get_duration d) t0) (d :: st)).
    set (r1 := MkRef _ _). set (p1 := path_of (d :: st)) in *.
    assert (E1 : calls (entry_at (table r1) p) = calls (entry_at t0 p) + (if decide (p1 = p) then 1 else 0) /\
      total (entry_at (table r1) p) = u64 (total (entry_at t0 p) + (if decide (p1 = p) then get_duration d else 0)) /\
      (is_Some (table r1 !! p) <-> is_Some (t0 !! p) \/ p1 = p)).
    { unfold r1, add_call. cbn [table]. case_decide as Hp.
      - subst p. unfold entry_at at 1 3. rewrite !lookup_insert_eq. unfold entry_at. destruct (t0 !! p1) as [e|]; simpl; split_and!; try done.
        all: try (by rewrite ?Z.add_0_l, get_duration_u64). all: split; [by right|by eexists].
      - unfold entry_at at 1 3. rewrite lookup_insert_ne by done. fold (entry_at t0 p). rewrite !Z.add_0_r, Et, Hu. split_and!; try done. split; [by left|by intros [?|?]]. }
    destruct E1 as (Ec1&Et1&Es1).
    destruct (IH r1) as (IHc&IHt&IHs).
    { rewrite Et1. unfold u64. by rewrite Z.mod_mod. }
    cbn zeta in IHc, IHt, IHs. change (stack r1) with (d :: st) in *.
    unfold times_of. rewrite filter_cons. cbn [fst]. rewrite IHc, IHt, Ec1, Et1, Ec, Et. rewrite IHs, Es1, Es. unfold times_of.
    case_decide as Hp; cbn [fmap list_fmap length snd sum_Z foldr].
    + split_and!; [lia|by rewrite u64_add_l, <- Z.add_assoc|]. split; [by right|]. intros _. left. by right.
    + split_and!; [lia|by rewrite u64_add_l, Z.add_0_r|]. tauto.
Qed.

(** ** Nested calls *)

(** Calls of one thread: one begins after the other, and is either inside of
    it or begins when it is over. *)
Definition follows (c d : NodeData) : Prop :=
  start_ts c < start_ts d /\ (stop_ts d <= stop_ts c \/ stop_ts c <= start_ts d).

Definition proper (d : NodeData) : Prop := start_ts d <= stop_ts d.

Definition well_nested (ds : list NodeData) : Prop := StronglySorted follows ds /\ Forall proper ds.

(** The labels of the calls around a call, from the outside in, and its own. *)
Definition nesting_path (before : list NodeData) (d : NodeData) : call_path :=
  (label <$> filter (fun c => contains c d = true) before) ++ [label d].

Fixpoint nesting_paths (before ds : list NodeData) : list (call_path * Z) :=
  match ds with
  | [] => []
  | d :: ds => (nesting_path before d, get_duration d) :: nesting_paths (before ++ [d]) ds
  end.

Lemma contains_spec c d : contains c d = true <-> start_ts c <= start_ts d /\ stop_ts d <= stop_ts c.
Proof. apply bool_decide_eq_true. Qed.

Lemma enclosing_subset d st : enclosing d st ⊆ st.
Proof.
  induction st as [|c st IH]; [done|]. simpl. destruct (contains c d); [done|]. intros x Hx. right. by apply IH.
Qed.

Lemma enclosing_skip d e st : (forall c, c ∈ st -> contains c d = true -> contains c e = true) ->
  enclosing d (enclosing e st) = enclosing d st.
Proof.
  induction st as [|c st IH]; intros Hc; [done|]. simpl. destruct (contains c e) eqn:Ee; [done|].
  rewrite IH by (intros x Hx; apply Hc; by right). destruct (contains c d) eqn:Ed; [|done].
  rewrite (Hc c) in Ee; [done|by left|done].
Qed.

Lemma filter_ext_Forall {A} (P Q : A -> Prop) `{!forall x, Decision (P x)} `{!forall x, Decision (Q x)} (l : list A) :
  Forall (fun x => P x <-> Q x) l -> filter P l = filter Q l.
Proof.
  induction 1 as [|x l Hx _ IH]; [done|]. rewrite !filter_cons, IH. repeat case_decide; tauto.
Qed.

(** [st] holds what is open after [pre]. *)
Definition open_after (pre st : list NodeData) : Prop :=
  st ⊆ pre /\ forall d, Forall (fun c => follows c d) pre -> proper d ->
    enclosing d st = reverse (filter (fun c => contains c d = true) pre).

Lemma open_after_snoc pre st e :
  open_after pre st -> Forall (fun c => follows c e) pre -> proper e -> open_after (pre ++ [e]) (e :: enclosing e st).
Proof.
  intros [Hsub Hopen] He Hpe. split.
  - intros x Hx. apply elem_of_cons in Hx as [->|Hx]; apply elem_of_app; [right; by apply list_elem_of_singleton|].
    left. by apply Hsub, (enclosing_subset e).
  - intros d HF Hpd. apply Forall_app in HF as [HF Hed]. apply Forall_singleton in Hed as [Hs _].
    rewrite filter_app, reverse_app. cbn [enclosing]. unfold proper in *. destruct (contains e d) eqn:Ed.
    + rewrite filter_cons_True, filter_nil by done. cbn [reverse app]. rewrite (Hopen e He Hpe). f_equal. f_equal.
      apply filter_ext_Forall, Forall_forall. intros c Hc.
      pose proof (proj1 (Forall_forall _ _) He _ Hc) as [Hce1 Hce2]. apply contains_spec in Ed. rewrite !contains_spec. lia.
    + rewrite filter_cons_False, filter_nil by (by rewrite Ed). cbn [reverse app].
      rewrite enclosing_skip; [by apply Hopen|]. intros c Hc Hcd. apply Hsub in Hc.
      pose proof (proj1 (Forall_forall _ _) He _ Hc) as [Hce1 Hce2]. apply contains_spec in Hcd. apply contains_spec. lia.
Qed.

Lemma paths_are_nesting pre st ds :
  open_after pre st -> well_nested (pre ++ ds) -> ref_paths st ds = nesting_paths pre ds.
Proof.
  revert pre st. induction ds as [|d ds IH]; intros pre st Ho Hw; [done|]. cbn [ref_paths nesting_paths].
  pose proof Hw as [Hs Hp]. apply Forall_app in Hp as [_ Hp]. apply Forall_cons in Hp as [Hpd _].
  assert (HF : Forall (fun c => follows c d) pre).
  { apply Forall_forall. intros c Hc. apply (StronglySorted_app_1_elem_of follows pre (d :: ds) c d Hs Hc). by left. }
  f_equal.
  - f_equal. unfold nesting_path. rewrite path_of_cons. f_equal. destruct Ho as [_ Ho]. rewrite (Ho d HF Hpd).
    unfold path_of. by rewrite fmap_reverse, reverse_involutive.
  - apply IH; [by apply open_after_snoc|]. by rewrite <- app_assoc.
Qed.

Lemma ginv_empty : ginv new_call_graph (MkRef ∅ []) 0.
Proof. exists ∅. split; [|done]. eapply rep_ext; [|apply rep_empty]. by intros [?|]. Qed.

(** The table and the graph. *)
Definition graph_counts (g : CallGraph) (l : list (call_path * Z)) : Prop :=
  exists t, graph_of g t /\ forall p, (is_Some (t !! p) <-> p ∈ l.*1) /\
    forall e, t !! p = Some e -> calls e = Z.of_nat (length (times_of p l)) /\ total e = u64 (sum_Z (times_of p l)).

Lemma times_of_nil p l : times_of p l <> [] <-> p ∈ l.*1.
Proof.
  induction l as [|[q z] l IH]; [split; [done|intros Hin; by apply not_elem_of_nil in Hin]|]. unfold times_of in *. rewrite filter_cons. cbn [fst snd fmap list_fmap].
  rewrite elem_of_cons. case_decide as Hq; [|rewrite IH; split; [by right|]; intros [->|?]; done].
  split; [by left|done].
Qed.

Lemma table_counts ds : forall p, let t := table (foldl ref_add (MkRef ∅ []) ds) in let l := ref_paths [] ds in
  (is_Some (t !! p) <-> p ∈ l.*1) /\
  forall e, t !! p = Some e -> calls e = Z.of_nat (length (times_of p l)) /\ total e = u64 (sum_Z (times_of p l)).
Proof.
  intros p t l. destruct (table_spec ds (MkRef ∅ []) p) as (Hc&Ht&Hs).
  { cbn [table]. unfold entry_at. by rewrite lookup_empty. }
  fold t in Hc, Ht, Hs. change (stack (MkRef ∅ [])) with (@nil NodeData) in *. fold l in Hc, Ht, Hs. split.
  - rewrite Hs, <- times_of_nil. cbn [table]. rewrite lookup_empty. split; [by intros [[]|]|by right].
  - intros e He. unfold entry_at in Hc, Ht. rewrite He in Hc, Ht. cbn [table] in Hc, Ht. rewrite lookup_empty in Hc, Ht. simpl in Hc, Ht.
    split; [lia|]. by rewrite Ht.
Qed.

Lemma make_spec `{Sort} fuel events :
  (length events <= fuel)%nat -> Z.of_nat (length events) <= HT_INT32_MAX ->
  wp (make fuel events) (fun roots g => roots = _root_calls g /\ graph_counts g (ref_paths [] (sort_events events))) new_call_graph.
Proof.
  intros Hf Hn. unfold make. assert (length (sort_events events) = length events) as El by (by rewrite sort_perm).
  eapply wp_call; [apply (add_events_spec fuel (sort_events events) new_call_graph (MkRef ∅ []) 0 ginv_empty); rewrite ?El; simpl; lia|].
  intros [] g (phi&R&_). unfold wp, gets. split; [done|]. eexists. split; [exists phi; by eexists|]. apply table_counts.
Qed.

(** C21: the call graph is the nesting of the calls.  For the events of a
    thread whose intervals are nested and begin one after the other, make()
    returns (it needs no more rounds than there are events, and reads no node
    that is not there), and the tree it builds has one node for every distinct path of
    labels around an event, reached from the roots along that path, with the number
    of events of that path as its number of calls and the sum of their
    durations as its total time. *)
Theorem call_graph_is_nesting `{Sort} fuel events :
  (length events <= fuel)%nat -> Z.of_nat (length events) <= HT_INT32_MAX -> well_nested (sort_events events) ->
  wp (make fuel events) (fun roots g => roots = _root_calls g /\ graph_counts g (nesting_paths [] (sort_events events))) new_call_graph.
Proof.
  intros Hf Hn Hw. rewrite <- (paths_are_nesting [] []); [by apply make_spec| |done].
  split; [done|]. by intros d _ _.
Qed.

(** ** Samples *)

Section samples.

Definition starts_before (a b : NodeData) : Prop := start_ts a <= start_ts b.

#[export] Instance starts_before_dec : RelDecision starts_before.
Proof. intros a b. unfold starts_before. apply _. Defined.

#[export] Instance starts_before_total : Total starts_before.
Proof. intros a b. unfold starts_before. lia. Qed.

#[export] Instance starts_before_trans : Transitive starts_before.
Proof. intros a b c. unfold starts_before. lia. Qed.

(** A sort that keeps the order of events that start together. *)
#[export, refine] Instance stable_sort : Sort := {| sort_events := merge_sort starts_before |}.
Proof.
  - intros l. apply merge_sort_Permutation.
  - intros l. apply (Sorted_merge_sort starts_before).
Defined.

Definition ev (name : string) (start dur : Z) : NodeData := new_node_data (string_bytes name) start dur.

Definition sample_calls : list NodeData := [ev "draw" 10 30; ev "tick" 20 10; ev "draw" 50 10; ev "main" 0 100].

Lemma call_graph_is_nesting_witness :
  well_nested (sort_events sample_calls) /\
  wp (make 4 sample_calls) (fun roots g => roots = _root_calls g /\
    graph_counts g (nesting_paths [] (sort_events sample_calls))) new_call_graph.
Proof.
  assert (Hw : well_nested (sort_events sample_calls)).
  { assert (sort_events sample_calls = [ev "main" 0 100; ev "draw" 10 30; ev "tick" 20 10; ev "draw" 50 10]) as -> by reflexivity.
    split; [repeat constructor; vm_compute; intuition congruence|repeat constructor; vm_compute; congruence]. }
  split; [exact Hw|]. apply (call_graph_is_nesting 4 sample_calls).
  - vm_compute. lia.
  - vm_compute. congruence.
  - exact Hw.
Defined.

(** The labels of the roots with their number of calls. *)
Definition root_labels (o : outcome (list (ptr * Z) * CallGraph)) : option (list (bytes * Z)) :=
  match o with
  | Done (roots, g) => mapM (fun '(p, n) => x ← nodes g !! p; Some (label (ndata x), n)) roots
  | _ => None
  end.

(** Events that start together are nested or not depending on the order in
    which sort() leaves them. *)
Lemma equal_starts_depend_on_order :
  root_labels (make 2 [ev "outer" 5 10; ev "inner" 5 3] new_call_graph) = Some [(string_bytes "outer", 1)] /\
  root_labels (make 2 [ev "inner" 5 3; ev "outer" 5 10] new_call_graph) =
    Some [(string_bytes "inner", 1); (string_bytes "outer", 1)].
Proof. split; reflexivity. Qed.

End samples.
