(* ===== verification/Callgrind.v ===== *)
(** The converter to the callgrind format (client/callgrind_converter.cpp):
    the labelled events of a trace, kept per thread, and for every thread a
    file with its call graph. *)
From stdpp Require Import pretty.
From S2P Require Import Prelude Alloc BaseTypes Memory Events Listeners Registry Endian Parser Reader Client CallGraph.

#[local] Open Scope Z_scope.
#[local] Arguments string_bytes : simpl never.

Record CallgrindConverter := MkCallgrind {
  cg_base : Converter;
  _file_name : bytes;
  _events : gmap Z (list NodeData)
}.

Definition newline : bytes := [10].
Definition _callgrind_header : bytes := string_bytes "# callgrind format".

Definition callgrind_init (file_name : bytes) (c : CallgrindConverter) : bool * CallgrindConverter :=
  (true, MkCallgrind (cg_base c) file_name (_events c)).

Section process.
  Context `{Platform}.

Definition callgrind_process_event (event : parser_Event) (c : CallgrindConverter) : option CallgrindConverter :=
  '(lab, base) ← _get_label event (cg_base c);
  match lab with
  | [] => Some (MkCallgrind base (_file_name c) (_events c))
  | _ =>
      thread_id ← get_value_or_default 4 (string_bytes "thread_id") 0 event;
      duration ← get_value_or_default 8 (string_bytes "duration") 0 event;
      let d := new_node_data lab (get_event_timestamp event) duration in
      Some (MkCallgrind base (_file_name c) (<[thread_id := default [] (_events c !! thread_id) ++ [d]]> (_events c)))
  end.

Fixpoint callgrind_run (evs : list parser_Event) (c : CallgrindConverter) : option CallgrindConverter :=
  match evs with
  | [] => Some c
  | e :: evs => c ← callgrind_process_event e c; callgrind_run evs c
  end.

End process.

(** ** Printing the graph *)

(** The lines for the children of a function, and what they add to the
    queue. *)
Fixpoint print_children (g : CallGraph) (name : bytes) (l : list (ptr * Z)) : option (bytes * list (ptr * bytes)) :=
  match l with
  | [] => Some ([], [])
  | (p, count) :: l =>
      n ← nodes g !! p;
      let child_label := label (ndata n) ++ string_bytes "()'" ++ name in
      '(text, queue) ← print_children g name l;
      Some (string_bytes "cfn=" ++ child_label ++ newline ++
            string_bytes "calls=" ++ to_string count ++ string_bytes " 1" ++ newline ++
            string_bytes "1 " ++ to_string (total_duration n) ++ newline ++ text, (p, child_label) :: queue)
  end.

(** while (!fnc_queue.empty()). *)
Fixpoint print_loop (fuel : nat) (g : CallGraph) (queue : list (ptr * bytes)) : outcome bytes :=
  match fuel with
  | O => NoFuel
  | S fuel =>
      match queue with
      | [] => Done []
      | (p, name) :: queue =>
          match nodes g !! p with
          | None => Undef
          | Some n =>
              match print_children g name (children n) with
              | None => Undef
              | Some (text, more) =>
                  match print_loop fuel g (queue ++ more) with
                  | Done rest => Done (string_bytes "fn=" ++ name ++ newline ++
                      string_bytes "1 " ++ to_string (u64 (total_duration n - total_children_duration n)) ++ newline ++ text ++ rest)
                  | o => o
                  end
              end
          end
      end
  end.

Definition _print_function (fuel : nat) (g : CallGraph) (root : ptr) : outcome bytes :=
  match nodes g !! root with
  | Some n => print_loop fuel g [(root, label (ndata n) ++ string_bytes "()")]
  | None => Undef
  end.

Fixpoint print_roots (fuel : nat) (g : CallGraph) (roots : list (ptr * Z)) : outcome bytes :=
  match roots with
  | [] => Done []
  | (p, _) :: roots =>
      match _print_function fuel g p with
      | Done text => match print_roots fuel g roots with Done rest => Done (text ++ rest) | o => o end
      | o => o
      end
  end.

Definition thread_head (thread : Z) : bytes :=
  _callgrind_header ++ newline ++ string_bytes "thread: " ++ to_string thread ++ newline ++ newline ++
  string_bytes "events: Duration" ++ newline.

(** stop: the files that are written.  [fuel] bounds the number of events
    of a thread, [opens] tells which files can be opened. *)
Section stop.
  Context `{UnorderedMap} `{Sort} (opens : bytes -> bool).

Definition thread_file_name (c : CallgrindConverter) (thread : Z) : bytes :=
  _file_name c ++ string_bytes "." ++ to_string thread.

Definition write_thread (fuel : nat) (c : CallgrindConverter) (thread : Z) (events : list NodeData) : outcome (list (bytes * bytes)) :=
  match make fuel events new_call_graph with
  | Done (roots, g) =>
      if opens (thread_file_name c thread) then
        match print_roots (S fuel) g roots with
        | Done text => Done [(thread_file_name c thread, thread_head thread ++ text)]
        | Undef => Undef
        | NoFuel => NoFuel
        end
      else Done []
  | Undef => Undef
  | NoFuel => NoFuel
  end.

Fixpoint write_threads (fuel : nat) (c : CallgrindConverter) (l : list (Z * list NodeData)) : outcome (list (bytes * bytes)) :=
  match l with
  | [] => Done []
  | (thread, events) :: l =>
      match write_thread fuel c thread events with
      | Done files => match write_threads fuel c l with Done rest => Done (files ++ rest) | o => o end
      | o => o
      end
  end.

Definition callgrind_stop (fuel : nat) (c : CallgrindConverter) : outcome (list (bytes * bytes)) :=
  write_threads fuel c (elements_of (_events c)).

End stop.

(** ** Printing ends

    Every round takes a node from the queue, and the subtrees of the nodes
    in the queue are disjoint. *)

(** The nodes below a path, and below one of the children of a path. *)
Definition below (phi : gmap ptr call_path) (q : call_path) : gset ptr := dom (filter (fun ip => q `prefix_of` ip.2) phi).

Definition below_some (phi : gmap ptr call_path) (q : call_path) (labs : list bytes) : gset ptr :=
  dom (filter (fun ip => Exists (fun lab => (q ++ [lab]) `prefix_of` ip.2) labs) phi).

Lemma elem_of_below phi q i : i ∈ below phi q <-> exists p, phi !! i = Some p /\ q `prefix_of` p.
Proof. unfold below. rewrite elem_of_dom. unfold is_Some. setoid_rewrite map_lookup_filter_Some. done. Qed.

Lemma elem_of_below_some phi q labs i : i ∈ below_some phi q labs <->
  exists p, phi !! i = Some p /\ Exists (fun lab => (q ++ [lab]) `prefix_of` p) labs.
Proof. unfold below_some. rewrite elem_of_dom. unfold is_Some. setoid_rewrite map_lookup_filter_Some. done. Qed.

Lemma prefix_snoc_eq (q p : call_path) a b : (q ++ [a]) `prefix_of` p -> (q ++ [b]) `prefix_of` p -> a = b.
Proof.
  intros [x ->] [y E]. rewrite <- !app_assoc in E. apply app_inv_head in E. by simplify_eq/=.
Qed.

Definition sum_sizes (phi : gmap ptr call_path) (ps : list call_path) : nat := sum_list ((fun q => size (below phi q)) <$> ps).

Lemma below_some_size phi q labs : NoDup labs ->
  size (below_some phi q labs) = sum_sizes phi ((fun lab => q ++ [lab]) <$> labs).
Proof.
  induction 1 as [|lab labs Hnin _ IH].
  - unfold sum_sizes. simpl. apply size_empty_iff, elem_of_equiv_empty. intros i. rewrite elem_of_below_some.
    intros (p&_&Hex). by apply Exists_nil in Hex.
  - assert (E : below_some phi q (lab :: labs) ≡ below phi (q ++ [lab]) ∪ below_some phi q labs).
    { intros i. rewrite elem_of_union, elem_of_below, !elem_of_below_some. setoid_rewrite Exists_cons.
      split; [intros (p&?&[?|?]); [left|right]; by exists p|intros [(p&?&?)|(p&?&?)]; exists p; auto]. }
    apply leibniz_equiv in E. rewrite E, size_union, IH; [done|].
    intros i. rewrite elem_of_below, elem_of_below_some. intros (p&Hp&Hpre) (p'&Hp'&Hex). simplify_eq.
    apply Exists_exists in Hex as (lab'&Hin&Hpre'). by rewrite (prefix_snoc_eq _ _ _ _ Hpre Hpre') in Hnin.
Qed.

(** The children of a node take less than the node. *)
Lemma children_below phi q i labs : phi !! i = Some q -> NoDup labs ->
  (sum_sizes phi ((fun lab => q ++ [lab]) <$> labs) < size (below phi q))%nat.
Proof.
  intros Hi Hnd. rewrite <- below_some_size by done. apply subset_size. split.
  - intros j. rewrite elem_of_below, elem_of_below_some. intros (p&Hp&Hex). exists p. split; [done|].
    apply Exists_exists in Hex as (lab&_&Hpre). etrans; [|exact Hpre]. by apply prefix_app_r.
  - intros Hsub. specialize (Hsub i). rewrite elem_of_below, elem_of_below_some in Hsub.
    destruct Hsub as (p&Hp&Hex); [by exists q|]. simplify_eq. apply Exists_exists in Hex as (lab&_&Hpre).
    apply prefix_length in Hpre. rewrite length_app in Hpre. simpl in Hpre. lia.
Qed.

Section printing.
  Context (g : CallGraph) (phi : gmap ptr call_path) (t : gmap call_path entry) (N : Z).
  Context (R : rep (cores g) (vectors_of g) phi t N).

Lemma child_path p n i c q : nodes g !! p = Some n -> phi !! p = Some q -> (i, c) ∈ children n ->
  exists m, nodes g !! i = Some m /\ phi !! i = Some (q ++ [label (ndata m)]).
Proof.
  intros Hn Hq Hin. assert (Hin' : (i, c) ∈ vectors_of g (Some p)) by (simpl; by rewrite Hn).
  destruct (rp_vector _ _ _ _ _ R _ _ _ Hin') as (x&Hx&_). destruct (cores_lookup _ _ _ Hx) as (m&Hm&<-).
  destruct (rep_in_vector _ _ _ _ _ (Some p) q _ _ _ R Hq Hin' Hx) as [Hphi _]. by exists m.
Qed.

Definition label_at (i : ptr) : bytes := match nodes g !! i with Some n => label (ndata n) | None => [] end.

Lemma children_labels p n q : nodes g !! p = Some n -> phi !! p = Some q -> NoDup (label_at <$> (children n).*1).
Proof.
  intros Hn Hq. assert (Hnd : NoDup (children n).*1).
  { pose proof (rp_nodup _ _ _ _ _ R (Some p)) as Hnd. simpl in Hnd. by rewrite Hn in Hnd. }
  assert (HF : forall i, i ∈ (children n).*1 -> exists m, nodes g !! i = Some m /\ phi !! i = Some (q ++ [label (ndata m)])).
  { intros i Hi. apply list_elem_of_fmap in Hi as ([? c]&->&Hin). by eapply child_path. }
  revert HF. induction Hnd as [|i l Hnin Hnd IH]; intros HF; [apply NoDup_nil_2|]. apply NoDup_cons. split.
  - intros Hin. apply list_elem_of_fmap in Hin as (j&E&Hj). destruct (HF i) as (m&Hm&Hi); [by left|]. destruct (HF j) as (m'&Hm'&Hj'); [by right|].
    unfold label_at in E. rewrite Hm, Hm' in E. rewrite <- E in Hj'. by rewrite (rp_inj _ _ _ _ _ R _ _ _ Hi Hj') in Hnin.
  - apply IH. intros j Hj. apply HF. by right.
Qed.

Lemma print_children_spec p n q name : nodes g !! p = Some n -> phi !! p = Some q ->
  exists text more, print_children g name (children n) = Some (text, more) /\ more.*1 = (children n).*1.
Proof.
  intros Hn Hq. assert (HF : forall i c, (i, c) ∈ children n -> is_Some (nodes g !! i)).
  { intros i c Hin. destruct (child_path _ _ _ _ _ Hn Hq Hin) as (m&Hm&_). by eexists. }
  revert HF. induction (children n) as [|[i c] l IH]; intros HF; [by exists [], []|]. simpl.
  destruct (HF i c) as [m Hm]; [by left|]. rewrite Hm. simpl. destruct IH as (text&more&E&E'); [intros; eapply HF; by right|].
  rewrite E. simpl. eexists _, _. split; [done|]. simpl. by f_equal.
Qed.

Definition queue_size (queue : list (ptr * bytes)) : nat := sum_sizes phi (omap (fun pn => phi !! pn.1) queue).

Lemma sum_sizes_app a b : sum_sizes phi (a ++ b) = (sum_sizes phi a + sum_sizes phi b)%nat.
Proof.
  induction a as [|x a IH]; [done|]. change (size (below phi x) + sum_sizes phi (a ++ b) = size (below phi x) + sum_sizes phi a + sum_sizes phi b)%nat.
  lia.
Qed.

Lemma more_size p n q (more : list (ptr * bytes)) : nodes g !! p = Some n -> phi !! p = Some q -> more.*1 = (children n).*1 ->
  (queue_size more < size (below phi q))%nat.
Proof.
  intros Hn Hq Em. pose proof (children_below phi q p _ Hq (children_labels _ _ _ Hn Hq)) as Hlt.
  assert (omap (fun pn : ptr * bytes => phi !! pn.1) more = (fun lab => q ++ [lab]) <$> (label_at <$> (children n).*1)) as E; [|by unfold queue_size; rewrite E].
  rewrite <- Em. assert (HF : forall i, i ∈ more.*1 -> phi !! i = Some (q ++ [label_at i])).
  { intros i Hi. rewrite Em in Hi. apply list_elem_of_fmap in Hi as ([? c]&->&Hin). destruct (child_path _ _ _ _ _ Hn Hq Hin) as (m&Hm&Hphi).
    unfold label_at. simpl in *. by rewrite Hm. }
  clear Em Hlt. induction more as [|[i nm] more IH]; [done|]. cbn [omap list_omap fst]. cbn [fmap list_fmap fst].
  rewrite (HF i) by (by left). f_equal. apply IH. intros j Hj. apply HF. by right.
Qed.

Lemma print_loop_done fuel queue :
  Forall (fun pn => is_Some (phi !! pn.1)) queue -> (queue_size queue < fuel)%nat -> exists text, print_loop fuel g queue = Done text.
Proof.
  revert queue. induction fuel as [|fuel IH]; intros queue HF Hf; [lia|]. cbn [print_loop].
  destruct queue as [|[p name] queue]; [by exists []|]. apply Forall_cons in HF as [[q Hq] HF]. simpl in Hq.
  destruct (proj1 (rp_dom _ _ _ _ _ R p)) as [x Hx]; [by eexists|]. destruct (cores_lookup _ _ _ Hx) as (n&Hn&_). rewrite Hn.
  destruct (print_children_spec p n q name Hn Hq) as (text&more&->&Em).
  pose proof (more_size p n q more Hn Hq Em) as Hlt.
  destruct (IH (queue ++ more)) as [rest ->]; [| |by eexists].
  - apply Forall_app. split; [done|]. apply Forall_forall. intros [i nm] Hin.
    assert (Hi : i ∈ (children n).*1) by (rewrite <- Em; apply list_elem_of_fmap; by exists (i, nm)).
    apply list_elem_of_fmap in Hi as ([? c]&->&Hin'). destruct (child_path _ _ _ _ _ Hn Hq Hin') as (m&_&Hphi). by eexists.
  - unfold queue_size in *. rewrite omap_app, sum_sizes_app. cbn [omap list_omap fst] in Hf. rewrite Hq in Hf.
    change (sum_sizes phi (q :: omap (fun pn : ptr * bytes => phi !! pn.1) queue)) with
      (size (below phi q) + sum_sizes phi (omap (fun pn : ptr * bytes => phi !! pn.1) queue))%nat in Hf. lia.
Qed.

Lemma print_roots_done fuel roots : (size (dom phi : gset ptr) < fuel)%nat ->
  Forall (fun pc : ptr * Z => is_Some (phi !! pc.1)) roots -> exists text, print_roots fuel g roots = Done text.
Proof.
  intros Hf. induction 1 as [|[p c] roots [q Hq] _ IH]; [by exists []|]. simpl in Hq. cbn [print_roots]. unfold _print_function.
  destruct (proj1 (rp_dom _ _ _ _ _ R p)) as [x Hx]; [by eexists|]. destruct (cores_lookup _ _ _ Hx) as (n&Hn&_). rewrite Hn.
  destruct (print_loop_done fuel [(p, label (ndata n) ++ string_bytes "()")]) as [text ->].
  - constructor; [by eexists|done].
  - unfold queue_size. cbn [omap list_omap fst]. rewrite Hq. unfold sum_sizes. simpl. rewrite Nat.add_0_r.
    eapply Nat.le_lt_trans; [|exact Hf]. apply subseteq_size. intros i. rewrite elem_of_below, elem_of_dom. intros (p'&Hp&_). by eexists.
  - destruct IH as [rest ->]. by eexists.
Qed.

(** There are no more nodes than entries. *)
Lemma nodes_le_entries : (size (dom phi : gset ptr) <= size t)%nat.
Proof.
  assert (Hnd : NoDup (map_to_list phi).*2).
  { apply NoDup_fmap_2_strong; [|apply NoDup_map_to_list]. intros [i p] [j p'] Hi Hj E. simpl in E. subst p'.
    apply elem_of_map_to_list in Hi, Hj. by rewrite (rp_inj _ _ _ _ _ R _ _ _ Hi Hj). }
  rewrite size_dom, <- length_map_to_list, <- (length_fmap snd), <- (size_dom (D := gset call_path) t), <- (size_list_to_set (C := gset call_path) _ Hnd).
  apply subseteq_size. intros p. rewrite elem_of_list_to_set, elem_of_dom. intros Hp. apply list_elem_of_fmap in Hp as ([i ?]&->&Hi).
  apply elem_of_map_to_list in Hi. destruct (proj1 (rp_dom _ _ _ _ _ R i)) as [x Hx]; [by eexists|].
  destruct (rp_node _ _ _ _ _ R _ _ _ Hx Hi) as (?&?&_&_&Ht&_). by eexists.
Qed.

End printing.

Lemma length_ref_paths st ds : length (ref_paths st ds) = length ds.
Proof. revert st. induction ds as [|d ds IH]; intros st; simpl; [done|]. by rewrite IH. Qed.

Lemma size_list_to_set_le (l : list call_path) : (size (list_to_set l : gset call_path) <= length l)%nat.
Proof.
  induction l as [|x l IH]; [by rewrite list_to_set_nil, size_empty|]. rewrite list_to_set_cons, size_union_alt, size_singleton. simpl.
  assert (size (list_to_set l ∖ {[x]} : gset call_path) <= size (list_to_set l : gset call_path))%nat by (apply subseteq_size, subseteq_difference_l; done).
  lia.
Qed.

Section stop_spec.
  Context `{UnorderedMap} `{Sort} (opens : bytes -> bool).

Definition file_of (c : CallgrindConverter) (thread : Z) : list bytes :=
  if opens (thread_file_name c thread) then [thread_file_name c thread] else [].

Definition small_thread (fuel : nat) (events : list NodeData) : Prop :=
  (length events <= fuel)%nat /\ Z.of_nat (length events) <= HT_INT32_MAX.

Lemma write_thread_done fuel c thread events : small_thread fuel events ->
  exists files, write_thread opens fuel c thread events = Done files /\ files.*1 = file_of c thread.
Proof.
  intros [Hf Hn]. pose proof (make_spec fuel events Hf Hn) as W. unfold write_thread, wp in *.
  destruct (make fuel events new_call_graph) as [[roots g]| |]; [|done|done]. destruct W as (->&t&(phi&N&R)&Ht).
  unfold file_of. destruct (opens _); [|by exists []].
  assert (Hsize : (size t <= length events)%nat).
  { rewrite <- (size_dom (D := gset call_path)). transitivity (size (list_to_set (ref_paths [] (sort_events events)).*1 : gset call_path)).
    - apply subseteq_size. intros p. rewrite elem_of_dom, elem_of_list_to_set. apply Ht.
    - assert (Hl : length (ref_paths [] (sort_events events)).*1 = length events) by (by rewrite length_fmap, length_ref_paths, sort_perm).
      rewrite <- Hl. apply size_list_to_set_le. }
  pose proof (nodes_le_entries g phi t N R) as Hle.
  destruct (print_roots_done g phi t N R (S fuel) (_root_calls g)) as [text ->]; [lia| |by eexists].
  apply Forall_forall. intros [i c0] Hin. destruct (rp_vector _ _ _ _ _ R None _ _ Hin) as (x&Hx&_).
  apply (rp_dom _ _ _ _ _ R). by eexists.
Qed.

Lemma write_threads_done fuel c l : Forall (fun te => small_thread fuel te.2) l ->
  exists files, write_threads opens fuel c l = Done files /\ files.*1 = l.*1 ≫= file_of c.
Proof.
  induction 1 as [|[thread events] l Ht _ IH]; [by exists []|]. cbn [write_threads].
  destruct (write_thread_done fuel c thread events Ht) as (files&->&E). destruct IH as (rest&->&E').
  exists (files ++ rest). split; [done|]. rewrite fmap_app, E, E'. done.
Qed.

End stop_spec.

(** Writing the call graphs ends.  Whatever the events (nested or not,
    with whatever times), stop() terminates and writes one file per thread
    that has a labelled event, unless it cannot be opened: printing a graph
    takes every node from the queue once, so as many rounds as the thread has
    events suffice, and no pointer that is followed is null. *)
Theorem callgrind_stop_terminates `{UnorderedMap} `{Sort} opens fuel c :
  map_Forall (fun _ events => small_thread fuel events) (_events c) ->
  exists files, callgrind_stop opens fuel c = Done files /\
    files.*1 ≡ₚ (map_to_list (_events c)).*1 ≫= file_of opens c.
Proof.
  intros Hm. unfold callgrind_stop.
  destruct (write_threads_done opens fuel c (elements_of (_events c))) as (files&E&En).
  - rewrite elements_of_perm. apply map_Forall_to_list in Hm. eapply Forall_impl; [exact Hm|]. by intros [??].
  - exists files. split; [done|]. by rewrite En, elements_of_perm.
Qed.

(** ** Threads *)

Section threads.
  Context `{Platform}.

(** The call of a labelled event, with its thread. *)
Definition call_of (el : parser_Event * bytes) : option (Z * NodeData) :=
  thread_id ← get_value_or_default 4 (string_bytes "thread_id") 0 el.1;
  duration ← get_value_or_default 8 (string_bytes "duration") 0 el.1;
  Some (thread_id, new_node_data el.2 (get_event_timestamp el.1) duration).

Definition of_thread (thread : Z) (l : list (Z * NodeData)) : list NodeData := snd <$> filter (fun x => x.1 = thread) l.

Lemma of_thread_cons thread th d l :
  of_thread thread ((th, d) :: l) = (if decide (th = thread) then [d] else []) ++ of_thread thread l.
Proof. unfold of_thread. rewrite filter_cons. cbn [fst]. by case_decide. Qed.

Lemma callgrind_run_spec evs base name m :
  match ('(ls, _) ← run_labels _get_label evs base; mapM call_of (labelled evs ls)) with
  | Some l => exists c, callgrind_run evs (MkCallgrind base name m) = Some c /\ _file_name c = name /\
      forall thread, default [] (_events c !! thread) = default [] (m !! thread) ++ of_thread thread l
  | None => callgrind_run evs (MkCallgrind base name m) = None
  end.
Proof.
  revert base m. induction evs as [|e evs IH]; intros base m.
  - simpl. eexists. split; [done|]. split; [done|]. intros thread. by rewrite app_nil_r.
  - cbn [run_labels callgrind_run]. unfold callgrind_process_event. cbn [cg_base _file_name _events].
    destruct (_get_label e base) as [[l base']|]; [|done]. cbn [mbind option_bind]. destruct l as [|b l].
    + cbn [mbind option_bind]. specialize (IH base' m). by destruct (run_labels _get_label evs base') as [[ls s]|].
    + set (lab := b :: l).
      assert (Ej : forall ls, mapM call_of (labelled (e :: evs) (lab :: ls)) =
        x ← call_of (e, lab); xs ← mapM call_of (labelled evs ls); Some (x :: xs)) by done.
      destruct (call_of (e, lab)) as [x|] eqn:Ex; unfold call_of in Ex; cbn [fst snd] in Ex.
      2: { destruct (run_labels _get_label evs base') as [[ls s]|]; cbn [mbind option_bind]; rewrite ?Ej; cbn [mbind option_bind];
             (destruct (get_value_or_default 4 _ _ e) as [tid|]; [|done]); by destruct (get_value_or_default 8 _ _ e). }
      destruct (get_value_or_default 4 _ _ e) as [tid|]; [|done]. destruct (get_value_or_default 8 _ _ e) as [dur|]; [|done].
      cbn [mbind option_bind] in Ex |- *. injection Ex as <-. set (d := new_node_data lab (get_event_timestamp e) dur) in *.
      specialize (IH base' (<[tid := default [] (m !! tid) ++ [d]]> m)).
      destruct (run_labels _get_label evs base') as [[ls s]|]; [|done]. cbn [mbind option_bind] in *. rewrite Ej. cbn [mbind option_bind].
      destruct (mapM call_of (labelled evs ls)) as [xs|]; [|done]. cbn [mbind option_bind].
      destruct IH as (c&Ec&En&Ev). exists c. split; [done|]. split; [done|]. intros thread. rewrite Ev, of_thread_cons. case_decide as Ht.
      * subst tid. rewrite lookup_insert_eq. simpl. by rewrite <- app_assoc.
      * by rewrite lookup_insert_ne.
Qed.

End threads.

(** The events of the threads.  For every list of events, the converter
    keeps for every thread the calls of that thread: the events that have a
    label (the one the reference gives), in the order in which they came,
    with their timestamps and durations; it throws exactly when a value that
    it needs is missing or of another type. *)
Theorem callgrind_keeps_threads `{Platform} evs m name :
  match ('(ls, _) ← run_labels ref_label evs (MkLabels (map_label <$> m) 0); mapM call_of (labelled evs ls)) with
  | Some l => exists c, callgrind_run evs (MkCallgrind (MkConverter m 0) name ∅) = Some c /\ _file_name c = name /\
      forall thread, default [] (_events c !! thread) = of_thread thread l
  | None => callgrind_run evs (MkCallgrind (MkConverter m 0) name ∅) = None
  end.
Proof.
  pose proof (labels_spec evs m) as L. pose proof (callgrind_run_spec evs (MkConverter m 0) name ∅) as C.
  destruct (run_labels ref_label evs (MkLabels (map_label <$> m) 0)) as [[ls s]|].
  - destruct L as [c' L]. rewrite L in C. cbn [mbind option_bind] in *. destruct (mapM call_of (labelled evs ls)) as [l|]; [|done].
    destruct C as (c&Ec&En&Ev). exists c. split; [done|]. split; [done|]. intros thread. rewrite Ev. by rewrite lookup_empty.
  - rewrite L in C. done.
Qed.

Section samples.

#[local] Existing Instance map_order.

Definition sample_converter : CallgrindConverter :=
  MkCallgrind (MkConverter ∅ 0) (string_bytes "out") {[1 := sample_calls]}.

Lemma callgrind_stop_terminates_witness : exists files,
  callgrind_stop (fun _ => true) 4 sample_converter = Done files /\
  files.*1 ≡ₚ (map_to_list (_events sample_converter)).*1 ≫= file_of (fun _ => true) sample_converter.
Proof.
  apply (callgrind_stop_terminates (fun _ => true) 4 sample_converter).
  apply map_Forall_singleton. split; [vm_compute; lia|vm_compute; congruence].
Defined.

End samples.
