(* ===== verification/Profile.v ===== *)
(** * From the calls of a thread to its call graph

    The call stack feature reports the calls of a thread in the order in
    which they end; the client sorts them by their start and builds a call
    graph of them.  With a clock that advances, the graph is the nesting of
    the calls. *)

From Stdlib Require Import Sorted.
From S2P Require Import Prelude Alloc BaseTypes Memory Events Endian Parser Listeners Registry Timeline Features Callstack CallGraph.

(** A clock that advances with every reading. *)
Class TickingClock (E : Type) `{MonotonicClock E} := {
  clock_ticks e : (read_clock e).1 < time_of (read_clock e).2
}.

Section ticking.
  Context `{Platform} {E : Type} `{TickingClock E}.

(** The starts of the calls, open and closed, are apart and in the past. *)
Record starts_apart (r : ref_state (E := E)) : Prop := {
  sa_nodup : NoDup ((c_start <$> r_calls r) ++ (oc_start <$> r_open r));
  sa_past : Forall (fun t => t < time_of (r_env r)) ((c_start <$> r_calls r) ++ (oc_start <$> r_open r))
}.

Lemma starts_apart_step ks es ser cap thread op r : starts_apart r -> starts_apart (ref_step ks es ser cap thread r op).
Proof.
  intros [Hn Hp]. destruct op as [l|]; simpl.
  - unfold ref_start. pose proof (clock_reads (r_env r)) as Ht. pose proof (clock_ticks (r_env r)) as Hk.
    destruct (read_clock (r_env r)) as [now env]. simpl in Ht, Hk. split; simpl.
    + rewrite <- Permutation_middle. apply NoDup_cons. split; [|done]. intros Hin. rewrite Forall_forall in Hp. specialize (Hp _ Hin). lia.
    + rewrite <- Permutation_middle. apply Forall_cons. split; [done|]. eapply Forall_impl; [exact Hp|]. simpl. lia.
  - unfold ref_stop. destruct (r_open r) as [|o opened] eqn:Eo; [split; by rewrite Eo|].
    pose proof (clock_reads (r_env r)) as Ht. destruct (read_clock (r_env r)) as [now env]. simpl in Ht.
    set (c := Call _ _ _ _). destruct (push_ref _ _ _ _) as [out buf]. pose proof (deliver_time es ser out env) as Hd.
    assert ((c_start <$> r_calls r ++ [c]) ++ (oc_start <$> opened) ≡ₚ (c_start <$> r_calls r) ++ (oc_start <$> o :: opened)) as Hperm.
    { rewrite fmap_app, <- app_assoc. done. }
    split; simpl; rewrite Hperm; [done|]. eapply Forall_impl; [exact Hp|]. simpl. lia.
Qed.

Lemma starts_apart_run ks es ser cap thread ops (env : E) next :
  starts_apart (ref_run ks es ser cap thread ops (ref_init env next)).
Proof.
  unfold ref_run. assert (starts_apart (ref_init env next)) as Hr by (split; simpl; [apply NoDup_nil_2|apply Forall_nil; exact I]).
  revert Hr. generalize (ref_init env next). induction ops as [|op ops IH]; intros r Hr; simpl; [done|]. by apply IH, starts_apart_step.
Qed.

(** What the client makes of the event of a call whose label has the name
    [name]. *)
Definition call_node (name : call_label -> bytes) (c : closed_call) : NodeData :=
  new_node_data (name (c_label c)) (c_start c) (u64 (c_stop c - c_start c)).

(** Times that fit into 64 bits. *)
Definition timely (c : closed_call) : Prop := 0 <= c_start c /\ c_start c <= c_stop c /\ c_stop c < 2 ^ 64.

Lemma call_node_times name c : timely c -> start_ts (call_node name c) = c_start c /\ stop_ts (call_node name c) = c_stop c.
Proof.
  intros (?&?&?). unfold call_node, new_node_data. simpl. split; [done|]. rewrite (u64_small (_ - _)) by lia. rewrite u64_small by lia. lia.
Qed.

Lemma calls_nested_pairs calls c d :
  calls_nested calls -> c ∈ calls -> d ∈ calls -> c_start c < c_start d -> c_stop d <= c_stop c \/ c_stop c <= c_start d.
Proof.
  induction calls as [|x calls IH]; intros Hn Hc Hd Hlt; [by apply not_elem_of_nil in Hc|]. destruct Hn as (Hx&HF&Hn). rewrite Forall_forall in HF.
  apply elem_of_cons in Hc as [->|Hc]; apply elem_of_cons in Hd as [->|Hd]; [lia| | |by apply IH].
  - destruct (HF d Hd) as [?|[? ?]]; lia.
  - assert (c_start c <= c_stop c) as Hcc.
    { clear -Hn Hc. induction calls as [|y calls IH]; [by apply not_elem_of_nil in Hc|]. destruct Hn as (?&_&?). apply elem_of_cons in Hc as [->|Hc]; [done|by apply IH]. }
    destruct (HF c Hc) as [?|[? ?]]; lia.
Qed.

Lemma calls_nested_proper calls : calls_nested calls -> Forall (fun c => c_start c <= c_stop c) calls.
Proof. induction calls as [|c calls IH]; [constructor|]. intros (?&_&?). constructor; [done|by apply IH]. Qed.

(** A list that is sorted by keys that are apart is strictly sorted. *)
Lemma strictly_sorted (l : list NodeData) :
  Sorted (fun a b => start_ts a <= start_ts b) l -> NoDup (start_ts <$> l) -> StronglySorted (fun a b => start_ts a < start_ts b) l.
Proof.
  intros Hs Hn. apply Sorted_StronglySorted in Hs; [|intros a b d; lia]. induction Hs as [|a l Hs IH HF]; [constructor|].
  rewrite fmap_cons in Hn. apply NoDup_cons in Hn as [Ha Hn]. constructor; [by apply IH|]. apply Forall_forall. intros b Hb.
  rewrite Forall_forall in HF. specialize (HF b Hb). assert (start_ts a <> start_ts b); [|lia].
  intros E1. apply Ha. rewrite E1. by apply list_elem_of_fmap_2.
Qed.

Lemma nested_calls_sort `{Sort} name calls :
  calls_nested calls -> NoDup (c_start <$> calls) -> Forall timely calls -> well_nested (sort_events (call_node name <$> calls)).
Proof.
  intros Hn Hd Ht. pose proof (sort_perm (call_node name <$> calls)) as Hperm. set (l := sort_events (call_node name <$> calls)) in *.
  assert (start_ts <$> (call_node name <$> calls) = c_start <$> calls) as Es.
  { rewrite <- list_fmap_compose. apply list_fmap_ext. intros i c Hi. by apply call_node_times, (Forall_lookup_1 _ _ _ _ Ht Hi). }
  assert (forall x, x ∈ l -> exists c, x = call_node name c /\ c ∈ calls /\ timely c) as Hin.
  { intros x Hx. rewrite Hperm in Hx. apply list_elem_of_fmap in Hx as (c&->&Hc). exists c. split_and!; try done. rewrite Forall_forall in Ht. by apply Ht. }
  split.
  - assert (StronglySorted (fun a b => start_ts a < start_ts b) l) as Hs.
    { apply strictly_sorted; [apply sort_sorted|]. by rewrite Hperm, Es. }
    clear -Hs Hin Hn. induction Hs as [|a l Hs IH HF]; [constructor|]. constructor; [apply IH; intros x Hx; apply Hin; by right|].
    apply Forall_forall. intros b Hb. rewrite Forall_forall in HF. specialize (HF b Hb). split; [done|].
    destruct (Hin a) as (c&->&Hc&Hct); [by left|]. destruct (Hin b) as (d&->&Hdd&Hdt); [by right|].
    destruct (call_node_times name c Hct) as [E1 E2], (call_node_times name d Hdt) as [E3 E4]. rewrite E1, E3 in HF. rewrite E2, E3, E4.
    by eapply calls_nested_pairs.
  - apply Forall_forall. intros x Hx. destruct (Hin x Hx) as (c&->&Hc&Hct). unfold proper.
    destruct (call_node_times name c Hct) as [-> ->]. apply Hct.
Qed.

(** C23: the graph of a program is its calls.  For every sequence of calls
    that a thread opens and closes, with a clock that advances (and times of
    64 bits), the call graph the client makes of the reported events, whatever
    the order in which sort() finds them, has one node for every distinct
    chain of calls around a call, with the number of these calls and the sum
    of their durations. *)
Theorem profile_is_nesting `{Sort} name fuel ks es ser cap thread ops (env : E) next :
  let calls := r_calls (ref_run ks es ser cap thread ops (ref_init env next)) in
  let events := call_node name <$> calls in
  Forall timely calls -> (length calls <= fuel)%nat -> Z.of_nat (length calls) <= HT_INT32_MAX ->
  wp (make fuel events) (fun roots g => roots = _root_calls g /\ graph_counts g (nesting_paths [] (sort_events events))) new_call_graph.
Proof.
  intros calls events Ht Hf Hl.
  assert (well_nested (sort_events events)) as Hw.
  { apply nested_calls_sort; [apply calls_nested_run| |done].
    destruct (starts_apart_run ks es ser cap thread ops env next) as [Hn _]. by apply NoDup_app in Hn as [? _]. }
  unfold events in *. rewrite <- (paths_are_nesting [] []); [apply make_spec; by rewrite length_fmap| |done].
  split; [done|]. by intros d _ _.
Qed.

End ticking.

(** ** A thread with three calls, two of them inside the first *)

(** A host in which reading the clock takes 10 ns and a listener 1 ns. *)
#[local] Instance profiled_host : Host Z := {
  run_listener _ _ _ _ := Z.succ;
  run_destroy _ _ e := e;
  read_clock e := (e, e + 10)
}.

#[local] Instance profiled_clock : MonotonicClock Z.
Proof. refine {| time_of := fun e : Z => e |}; simpl; lia. Defined.

#[local] Instance profiled_ticks : TickingClock Z.
Proof. constructor. simpl. lia. Defined.

Definition label_name (l : call_label) : bytes :=
  match l with
  | IntLabel n => [n]
  | StringLabel s => s
  end.

#[local] Abbreviation profiled_run :=
  (r_calls (ref_run (H0 := {| endianness := HT_ENDIANNESS_LITTLE |}) call_klass_store [] true 100 1 three_calls (ref_init 1000 0))).

Lemma profiled_calls :
  (fun c => (c_label c, c_start c, c_stop c)) <$> profiled_run =
  [(IntLabel 1, 1010, 1020); (IntLabel 2, 1030, 1040); (StringLabel [109], 1000, 1050)].
Proof. vm_compute. reflexivity. Qed.

Lemma profile_is_nesting_witness :
  let events := call_node label_name <$> profiled_run in
  wp (make 3 events) (fun roots g => roots = _root_calls g /\ graph_counts g (nesting_paths [] (sort_events events))) new_call_graph.
Proof.
  pose proof profiled_calls as Hc.
  assert (length profiled_run = 3%nat) as Hl by (apply (f_equal length) in Hc; by rewrite length_fmap in Hc).
  apply (profile_is_nesting (H := {| endianness := HT_ENDIANNESS_LITTLE |}) label_name 3 call_klass_store [] true 100 1 three_calls 1000 0).
  - apply (Forall_fmap (fun c => (c_label c, c_start c, c_stop c)) (fun k : call_label * Z * Z => 0 <= k.1.2 /\ k.1.2 <= k.2 /\ k.2 < 2 ^ 64)).
    rewrite Hc. repeat constructor; simpl; lia.
  - rewrite Hl. lia.
  - rewrite Hl. unfold HT_INT32_MAX. lia.
Defined.
