(* ===== verification/CommandLine.v ===== *)
(** Command lines: the options of the client
    (client_utils/command_line_parser.cpp), the source of a trace
    (client_utils/stream_factory.cpp), and the options of the library itself
    (lib/command_line_parser.c).

    What is printed is not modelled. *)
From S2P Require Import Prelude Alloc BaseTypes Memory Events Listeners Registry Endian Parser Reader Client.

#[local] Open Scope Z_scope.
#[local] Arguments string_bytes : simpl never.

(** ** The options of the client *)

Record OptionInfo := MkOptionInfo { help_msg : bytes; is_flag : bool; is_mandatory : bool }.

Record CommandLineParser := MkParser {
  _registered_options : gmap bytes OptionInfo;
  _actual_options : gmap bytes bytes;
  _prefix : bytes
}.

Definition new_parser (prefix : bytes) : CommandLineParser := MkParser ∅ ∅ prefix.

(** A mandatory flag is refused; the first registration counts. *)
Definition register_option (name : bytes) (info : OptionInfo) (p : CommandLineParser) : CommandLineParser :=
  if is_flag info && is_mandatory info then p
  else MkParser (insert_new name info (_registered_options p)) (_actual_options p) (_prefix p).

Definition get_option_value (option : bytes) (default_value : bytes) (p : CommandLineParser) : bytes :=
  match _actual_options p !! option with Some v => v | None => default_value end.

Definition has_option_value (option : bytes) (p : CommandLineParser) : bool :=
  bool_decide (is_Some (_actual_options p !! option)).

(** strlen(option) > _prefix.length() && !strncmp(...). *)
Definition _is_option_valid (option : bytes) (p : CommandLineParser) : bool :=
  bool_decide (length (_prefix p) < length option)%nat && bool_decide (take (length (_prefix p)) option = _prefix p).

Definition set_option (option value : bytes) (p : CommandLineParser) : CommandLineParser :=
  MkParser (_registered_options p) (insert_new option value (_actual_options p)) (_prefix p).

(** The loop of parse over argv[1], argv[2], ...; false is an early
    return. *)
Fixpoint parse_loop (args : list bytes) (p : CommandLineParser) : bool * CommandLineParser :=
  match args with
  | [] => (true, p)
  | a :: args =>
      if negb (_is_option_valid a p) then (false, p)
      else
        let option := drop (length (_prefix p)) a in
        match _registered_options p !! option with
        | None => (false, p)
        | Some info =>
            if is_flag info then parse_loop args (set_option option [] p)
            else match args with
                 | [] => (false, p)
                 | value :: args => parse_loop args (set_option option value p)
                 end
        end
  end.

Section parse.
  Context `{UnorderedMap}.

Definition _validate_user_options (p : CommandLineParser) : bool :=
  forallb (fun kv : bytes * OptionInfo =>
             negb (is_mandatory kv.2 && negb (has_option_value kv.1 p))) (elements_of (_registered_options p)).

Definition parse (args : list bytes) (p : CommandLineParser) : bool * CommandLineParser :=
  let '(ok, p) := parse_loop args p in
  if (ok : bool) then (_validate_user_options p, p) else (false, p).

End parse.

(** *** What can be said on a command line *)

Inductive item := Flag (option : bytes) | Setting (option value : bytes).

Definition item_option (i : item) : bytes := match i with Flag o => o | Setting o _ => o end.
Definition item_value (i : item) : bytes := match i with Flag _ => [] | Setting _ v => v end.

Definition spell (prefix : bytes) (i : item) : list bytes :=
  match i with Flag o => [prefix ++ o] | Setting o v => [prefix ++ o; v] end.

Definition item_ok (options : gmap bytes OptionInfo) (i : item) : Prop :=
  item_option i <> [] /\ exists info, options !! item_option i = Some info /\
    is_flag info = match i with Flag _ => true | Setting _ _ => false end.

(** Of an option that is given twice, the first value counts. *)
Definition values_of (items : list item) (m : gmap bytes bytes) : gmap bytes bytes :=
  m ∪ list_to_map ((fun i => (item_option i, item_value i)) <$> items).

Definition mandatory_given (options : gmap bytes OptionInfo) (m : gmap bytes bytes) : Prop :=
  map_Forall (fun o info => is_mandatory info = true -> is_Some (m !! o)) options.

Lemma is_option_valid_spec a p : _is_option_valid a p = true <-> exists o, a = _prefix p ++ o /\ o <> [].
Proof.
  unfold _is_option_valid. rewrite andb_true_iff, !bool_decide_eq_true. split.
  - intros [Hl Ht]. exists (drop (length (_prefix p)) a). rewrite <- Ht at 1. rewrite take_drop. split; [done|].
    intros E. apply (f_equal length) in E. rewrite length_drop in E. simpl in E. lia.
  - intros (o&->&Ho). rewrite length_app, take_app_length. split; [|done]. destruct o; [done|]. simpl. lia.
Qed.

Lemma insert_new_values (m : gmap bytes bytes) o v : insert_new o v m = m ∪ {[o := v]}.
Proof.
  unfold insert_new. destruct (m !! o) as [x|] eqn:E; [by erewrite union_singleton_r|]. by rewrite insert_union_singleton_r.
Qed.

Lemma values_of_cons i items m : values_of (i :: items) m = values_of items (insert_new (item_option i) (item_value i) m).
Proof.
  unfold values_of. cbn [fmap list_fmap list_to_map foldr]. rewrite insert_new_values. cbn. rewrite insert_union_singleton_l.
  by rewrite (assoc_L (∪)).
Qed.

(** The loop succeeds on exactly what can be spelled. *)
Lemma parse_loop_spell items p : Forall (item_ok (_registered_options p)) items ->
  parse_loop (items ≫= spell (_prefix p)) p =
    (true, MkParser (_registered_options p) (values_of items (_actual_options p)) (_prefix p)).
Proof.
  intros HF. revert p HF. induction items as [|i items IH]; intros p HF.
  - simpl. unfold values_of. simpl. rewrite (right_id_L ∅ (∪)). by destruct p.
  - apply Forall_cons in HF as [(Hne&info&Hi&Hflag) HF].
    assert (Hv : _is_option_valid (_prefix p ++ item_option i) p = true) by (apply is_option_valid_spec; by exists (item_option i)).
    rewrite values_of_cons. specialize (IH (set_option (item_option i) (item_value i) p) HF). cbn [_registered_options _actual_options _prefix set_option] in IH.
    rewrite <- IH. destruct i as [o|o v]; cbn [spell mbind list_bind app parse_loop item_option item_value] in *;
      rewrite Hv, drop_app_length, Hi, Hflag; done.
Qed.

Lemma parse_loop_true args p p' : parse_loop args p = (true, p') ->
  exists items, args = items ≫= spell (_prefix p) /\ Forall (item_ok (_registered_options p)) items.
Proof.
  remember (length args) as n eqn:En. revert args p En. induction (lt_wf n) as [n _ IH]. intros args p -> E.
  destruct args as [|a args]; [by exists []|]. cbn [parse_loop] in E.
  destruct (_is_option_valid a p) eqn:Hv; [|done]. cbn [negb] in E. apply is_option_valid_spec in Hv as (o&->&Ho).
  rewrite drop_app_length in E. destruct (_registered_options p !! o) as [info|] eqn:Hi; [|done].
  destruct (is_flag info) eqn:Hflag.
  - destruct (IH (length args)) with (args := args) (p := set_option o [] p) as (items&->&HF); [simpl; lia|done|done|].
    exists (Flag o :: items). split; [done|]. constructor; [|done]. split; [done|]. by exists info.
  - destruct args as [|v args]; [done|].
    destruct (IH (length args)) with (args := args) (p := set_option o v p) as (items&->&HF); [simpl; lia|done|done|].
    exists (Setting o v :: items). split; [done|]. constructor; [|done]. split; [done|]. by exists info.
Qed.

Lemma validate_spec `{UnorderedMap} p :
  _validate_user_options p = true <-> mandatory_given (_registered_options p) (_actual_options p).
Proof.
  unfold _validate_user_options, mandatory_given, has_option_value. rewrite forallb_forall. split.
  - intros Hf o info Hi Hm. specialize (Hf (o, info)). simpl in Hf. rewrite Hm, negb_true_iff, andb_true_l, negb_false_iff, bool_decide_eq_true in Hf.
    apply Hf, list_elem_of_In. rewrite elements_of_perm. by apply elem_of_map_to_list.
  - intros Hm [o info] Hin. apply list_elem_of_In in Hin. rewrite elements_of_perm in Hin. apply elem_of_map_to_list in Hin. simpl.
    destruct (is_mandatory info) eqn:E; [|done]. rewrite bool_decide_eq_true_2; [done|]. by apply (Hm o info).
Qed.

(** The command line of the client.  parse() accepts a command line
    exactly when it consists of registered options with their prefix, flags
    alone and the others followed by a value, and every mandatory option is among
    them (or was given before); every option then has the value it was first
    given. *)
Theorem command_line_accepts `{UnorderedMap} args p p' :
  parse args p = (true, p') <->
  exists items, args = items ≫= spell (_prefix p) /\ Forall (item_ok (_registered_options p)) items /\
    p' = MkParser (_registered_options p) (values_of items (_actual_options p)) (_prefix p) /\
    mandatory_given (_registered_options p) (values_of items (_actual_options p)).
Proof.
  unfold parse. split.
  - destruct (parse_loop args p) as [[|] p1] eqn:E; [|done]. destruct (parse_loop_true _ _ _ E) as (items&->&HF).
    rewrite parse_loop_spell in E by done. injection E as <-. intros Hp. injection Hp as Hv <-.
    exists items. split_and!; try done. by apply validate_spec in Hv.
  - intros (items&->&HF&->&Hm). rewrite parse_loop_spell by done. f_equal. by apply validate_spec.
Qed.

(** ** The source of a trace *)

Inductive source := FileSource (name : bytes) | TcpSource (ip : bytes) (port : Z).

(** The value strtoul gives to digits after an optional minus. *)
Definition scanned (neg : bool) (x : bytes) : Z :=
  let v := digits_value x in
  if decide (v < 2 ^ 64) then if neg then u64 (- v) else v else u64 (-1).

(** %u of sscanf: what strtoul gives modulo 2^32, and the rest. *)
Definition scan_unsigned (l : bytes) : option (Z * bytes) :=
  let l := (span is_space l).2 in
  let '(neg, l) := match l with
                   | b :: l' => if decide (b = 45) then (true, l') else if decide (b = 43) then (false, l') else (false, l)
                   | [] => (false, l)
                   end in
  let '(x, y) := span is_digit l in
  match x with
  | [] => None
  | _ => Some (u32 (scanned neg x), y)
  end.

(** A character of the format. *)
Definition scan_char (c : Z) (l : bytes) : option bytes :=
  match l with b :: l => if decide (b = c) then Some l else None | [] => None end.

(** sscanf(address, "%u.%u.%u.%u:%u"): how many numbers were read, and the
    last one. *)
Definition scan_address (l : bytes) : nat * Z :=
  match scan_unsigned l with
  | None => (0%nat, 0)
  | Some (_, l) =>
      match scan_char 46 l ≫= scan_unsigned with
      | None => (1%nat, 0)
      | Some (_, l) =>
          match scan_char 46 l ≫= scan_unsigned with
          | None => (2%nat, 0)
          | Some (_, l) =>
              match scan_char 46 l ≫= scan_unsigned with
              | None => (3%nat, 0)
              | Some (_, l) =>
                  match scan_char 58 l ≫= scan_unsigned with
                  | None => (4%nat, 0)
                  | Some (port, _) => (5%nat, port)
                  end
              end
          end
      end
  end.

Definition scan_ip_address (address : bytes) (default_port : Z) : option (bytes * Z) :=
  let '(num, port) := scan_address address in
  if decide (4 <= num)%nat then
    Some (substr 0 (find_from 58 0 address) address, if decide (num = 5%nat) then port mod 2 ^ 16 else default_port)
  else None.

Definition make_stream_from_string `{Files} (description : bytes) : option source :=
  match file_contents description with
  | Some _ => Some (FileSource description)
  | None => match scan_ip_address description 8765 with
            | Some (ip, port) => Some (TcpSource ip port)
            | None => None
            end
  end.

Definition digits (x : bytes) : Prop := x <> [] /\ Forall (fun b => 48 <= b <= 57) x.

Lemma span_digits x l : Forall (fun b => 48 <= b <= 57) x -> (forall b l', l = b :: l' -> is_digit b = false) -> span is_digit (x ++ l) = (x, l).
Proof.
  intros HF Hl. induction HF as [|b x Hb _ IH].
  - destruct l as [|b l]; [done|]. simpl. by rewrite (Hl b l).
  - simpl. unfold is_digit. rewrite bool_decide_eq_true_2 by done. fold is_digit. by rewrite IH.
Qed.

Lemma scan_unsigned_digits x l : digits x -> (forall b l', l = b :: l' -> is_digit b = false) ->
  scan_unsigned (x ++ l) = Some (u32 (scanned false x), l).
Proof.
  intros [Hne HF] Hl. unfold scan_unsigned. destruct x as [|b x]; [done|]. pose proof HF as HF'. apply Forall_cons in HF' as [Hb _].
  cbn [app span]. unfold is_space. rewrite bool_decide_eq_false_2 by lia. cbn [snd]. rewrite !decide_False by lia.
  pose proof (span_digits (b :: x) l HF Hl) as E. cbn [app] in E. by rewrite E.
Qed.

(** The address without a port. *)
Definition dotted (a b c d : bytes) : bytes := a ++ [46] ++ b ++ [46] ++ c ++ [46] ++ d.

Lemma find_colon (x l : bytes) : Forall (fun b => b <> 58) x -> find_from 58 0 (x ++ 58 :: l) = Some (length x).
Proof.
  intros HF. unfold find_from. rewrite drop_0. induction HF as [|b x Hb _ IH]; [done|]. simpl. rewrite decide_False by done.
  destruct (list_find (.= 58) (x ++ 58 :: l)) as [[i y]|]; by simplify_eq/=.
Qed.

Lemma find_no_colon (x : bytes) : Forall (fun b => b <> 58) x -> find_from 58 0 x = None.
Proof.
  intros HF. unfold find_from. rewrite drop_0. induction HF as [|b x Hb _ IH]; [done|]. simpl. rewrite decide_False by done.
  by destruct (list_find (.= 58) x) as [[i y]|].
Qed.

Lemma dotted_no_colon a b c d : digits a -> digits b -> digits c -> digits d -> Forall (fun x => x <> 58) (dotted a b c d).
Proof.
  assert (Hd : forall x, digits x -> Forall (fun b => b <> 58) x) by (intros x [_ HF]; eapply Forall_impl; [exact HF|]; simpl; lia).
  intros. unfold dotted. rewrite !Forall_app. split_and!; auto.
Qed.

Lemma scan_dotted a b c d rest : digits a -> digits b -> digits c -> digits d ->
  (forall x l', rest = x :: l' -> is_digit x = false) ->
  scan_address (dotted a b c d ++ rest) =
    match scan_char 58 rest ≫= scan_unsigned with None => (4%nat, 0) | Some (port, _) => (5%nat, port) end.
Proof.
  intros Ha Hb Hc Hd Hr. unfold scan_address, dotted. rewrite <- !app_assoc.
  assert (Hdot : forall l x l', 46 :: l = x :: l' -> is_digit x = false) by (intros; by simplify_eq).
  rewrite (scan_unsigned_digits a) by first [done|apply Hdot]. cbn [app scan_char]. rewrite decide_True by done. cbn [mbind option_bind].
  rewrite (scan_unsigned_digits b) by first [done|apply Hdot]. cbn [app scan_char]. rewrite decide_True by done. cbn [mbind option_bind].
  rewrite (scan_unsigned_digits c) by first [done|apply Hdot]. cbn [app scan_char]. rewrite decide_True by done. cbn [mbind option_bind].
  by rewrite (scan_unsigned_digits d).
Qed.

(** Where a trace comes from.  A name of a file that can be opened is
    that file, even if it looks like an address; otherwise four numbers with
    dots between them are the address of a server, at the port after the
    colon (what strtoul makes of it, modulo 2^16) or at 8765. *)
Theorem stream_sources `{Files} a b c d port :
  digits a -> digits b -> digits c -> digits d -> digits port ->
  let ip := dotted a b c d in
  (forall name, is_Some (file_contents name) -> make_stream_from_string name = Some (FileSource name)) /\
  (file_contents ip = None -> make_stream_from_string ip = Some (TcpSource ip 8765)) /\
  (file_contents (ip ++ 58 :: port) = None ->
     make_stream_from_string (ip ++ 58 :: port) = Some (TcpSource ip (u32 (scanned false port) mod 2 ^ 16))).
Proof.
  intros Ha Hb Hc Hd Hp ip. pose proof (dotted_no_colon a b c d Ha Hb Hc Hd) as Hcol. fold ip in Hcol. unfold make_stream_from_string.
  split_and!.
  - by intros name [l ->].
  - intros ->. unfold scan_ip_address. pose proof (scan_dotted a b c d [] Ha Hb Hc Hd) as E. rewrite app_nil_r in E. fold ip in E.
    rewrite E by done. cbn [scan_char mbind option_bind]. by rewrite find_no_colon.
  - intros ->. unfold scan_ip_address. unfold ip at 1. rewrite scan_dotted; [|done..|by intros; simplify_eq].
    cbn [scan_char]. rewrite decide_True by done. cbn [mbind option_bind].
    pose proof (scan_unsigned_digits port [] Hp) as E. rewrite app_nil_r in E. rewrite E by done.
    rewrite decide_True by lia. rewrite find_colon by done. unfold substr. by rewrite drop_0, take_app_length.
Qed.

(** ** The options of the library (lib/command_line_parser.c) *)

(** strtoul(s, &end, 10) with 64 bits: the value, whether it is out of range,
    and whether anything was read. *)
Definition strtoul (l : bytes) : Z * bool * bool :=
  let l := (span is_space l).2 in
  let '(neg, l) := match l with
                   | b :: l' => if decide (b = 45) then (true, l') else if decide (b = 43) then (false, l') else (false, l)
                   | [] => (false, l)
                   end in
  match (span is_digit l).1 with
  | [] => (0, false, false)
  | x => let v := digits_value x in
         if decide (v < 2 ^ 64) then (if (neg : bool) then u64 (- v) else v, false, true) else (u64 (-1), true, true)
  end.

(** The static variable of lib/global_timeline.cpp and its functions. *)
Record options := MkOptions { global_timeline_buffer_size : Z }.

Definition static_options : options := MkOptions 1024.

Definition ht_global_timeline_set_buffer_size (buffer_size : Z) (o : options) : options := MkOptions buffer_size.
Definition ht_global_timeline_get_buffer_size (o : options) : Z := global_timeline_buffer_size o.

(** set_global_timeline_buffer_size(argc, argv, pos) with the arguments after
    argv[pos]. *)
Definition set_global_timeline_buffer_size (rest : list bytes) (o : options) : HT_ErrorCode * options :=
  match rest with
  | [] => (HT_ERR_MISSING_ARGUMENT, o)
  | s :: _ =>
      let '(value, out_of_range, read) := strtoul s in
      if (out_of_range : bool) then (HT_ERR_OUT_OF_RANGE, o)
      else if negb read then (HT_ERR_INVALID_FORMAT, o)
      else (HT_ERR_OK, ht_global_timeline_set_buffer_size value o)
  end.

Definition size_option : bytes := string_bytes "--ht-global-timeline-buffer-size".
Definition help_option : bytes := string_bytes "--ht-help".

(** The loops of ht_command_line_parse_args over argv[1], argv[2], ...;
    [None] is exit(0). *)
Fixpoint ht_command_line_parse_args (args : list bytes) (o : options) : option options :=
  match args with
  | [] => Some o
  | a :: rest =>
      if decide (size_option = a) then
        let o := (set_global_timeline_buffer_size rest o).2 in
        match rest with
        | [] => Some o
        | _ :: rest => ht_command_line_parse_args rest o
        end
      else if decide (help_option = a) then None
      else ht_command_line_parse_args rest o
  end.

(** What can be said to the library: a size, the request for help, or
    anything that is for the program. *)
Inductive lib_item := SizeItem (value : bytes) | HelpItem | OtherItem (a : bytes).

Definition lib_spell (i : lib_item) : list bytes :=
  match i with SizeItem v => [size_option; v] | HelpItem => [help_option] | OtherItem a => [a] end.

(** The last size that is a number in range counts. *)
Fixpoint lib_run (items : list lib_item) (o : options) : option options :=
  match items with
  | [] => Some o
  | SizeItem v :: items =>
      lib_run items (match strtoul v with (value, false, true) => MkOptions value | _ => o end)
  | HelpItem :: _ => None
  | OtherItem _ :: items => lib_run items o
  end.

(** The library's own options.  On every command line made of sizes,
    requests for help and arguments of the program, ht_command_line_parse_args
    sets the buffer size to the last value that is a number within 64 bits,
    ignores everything else, and exits at the first request for help; a size
    without a value at the end changes nothing. *)
Theorem library_options items o :
  Forall (fun i => match i with OtherItem a => a <> size_option /\ a <> help_option | _ => True end) items ->
  ht_command_line_parse_args (items ≫= lib_spell) o = lib_run items o /\
  ht_command_line_parse_args ((items ≫= lib_spell) ++ [size_option]) o = lib_run items o.
Proof.
  intros HF. revert o. induction HF as [|i items Hi _ IH]; intros o; [done|].
  destruct i as [v| |a]; cbn [mbind list_bind lib_spell app ht_command_line_parse_args lib_run].
  - rewrite decide_True by done. unfold set_global_timeline_buffer_size. destruct (strtoul v) as [[value oor] rd].
    destruct oor; [apply IH|]. destruct rd; apply IH.
  - rewrite decide_False by (vm_compute; done). by rewrite decide_True.
  - destruct Hi as [H1 H2]. rewrite !decide_False by done. apply IH.
Qed.

(** ** Samples *)

Section samples.

#[local] Instance no_files : Files := {| file_contents _ := None |}.

Lemma library_options_witness :
  let items := [OtherItem (string_bytes "-v"); SizeItem (string_bytes "64")] in
  ht_command_line_parse_args (items ≫= lib_spell) static_options = lib_run items static_options /\
  ht_command_line_parse_args ((items ≫= lib_spell) ++ [size_option]) static_options = lib_run items static_options.
Proof.
  intros items. apply (library_options items static_options). repeat constructor; vm_compute; discriminate.
Defined.

Lemma stream_sources_witness :
  let ip := dotted (string_bytes "127") (string_bytes "0") (string_bytes "0") (string_bytes "1") in
  (forall name, is_Some (file_contents name) -> make_stream_from_string name = Some (FileSource name)) /\
  (file_contents ip = None -> make_stream_from_string ip = Some (TcpSource ip 8765)) /\
  (file_contents (ip ++ 58 :: string_bytes "99") = None ->
     make_stream_from_string (ip ++ 58 :: string_bytes "99") = Some (TcpSource ip (u32 (digits_value (string_bytes "99")) mod 2 ^ 16))).
Proof.
  apply (stream_sources (string_bytes "127") (string_bytes "0") (string_bytes "0") (string_bytes "1") (string_bytes "99"));
    (split; [discriminate|repeat constructor; vm_compute; congruence]).
Defined.

Lemma library_options_sample :
  ht_global_timeline_get_buffer_size <$>
    ht_command_line_parse_args (string_bytes <$> ["-v"; "--ht-global-timeline-buffer-size"; "64"]%string) static_options = Some 64.
Proof. reflexivity. Qed.

(** Not everything that is taken for an address is one. *)
Lemma odd_addresses :
  make_stream_from_string (string_bytes "1. 2.3.4x") = Some (TcpSource (string_bytes "1. 2.3.4x") 8765) /\
  make_stream_from_string (string_bytes "1.2.3.4:65537") = Some (TcpSource (string_bytes "1.2.3.4") 1).
Proof. split; reflexivity. Qed.

End samples.
