(* ===== verification/ProcUsage.v ===== *)
(** What a process uses, as the kernel says in /proc
    (lib/platform/linux/memory_usage.c and lib/platform/linux/cpu_usage.c).

    The files of /proc are a parameter, as other files are: their contents by
    name at the time of the call.  Floating point is that of IEEE 754 in single
    precision, with the library's SpecFloat. *)
From Stdlib Require Import SpecFloat.
From stdpp Require Import pretty.
From S2P Require Import Prelude Alloc BaseTypes Memory Events Listeners Registry Endian Parser Reader Client CommandLine.

#[local] Open Scope Z_scope.
#[local] Arguments string_bytes : simpl never.

(** ** sscanf *)

(** What the formats contain: %c, a blank, %d and %u, %lu or %llu with a
    number of bits. *)
Inductive directive := Char_ | Blank_ | Signed_ (w : Z) | Unsigned_ (w : Z).

(** An optional sign, and digits. *)
Definition scan_digits (l : bytes) : bool * bytes * bytes :=
  let l := (span is_space l).2 in
  let '(neg, l) := match l with
                   | b :: l' => if decide (b = 45) then (true, l') else if decide (b = 43) then (false, l') else (false, l)
                   | [] => (false, l)
                   end in
  (neg, (span is_digit l).1, (span is_digit l).2).

(** A number: [None] if there is none; a number that does not fit is undefined
    behaviour (C11 7.21.6.2). *)
Definition scan_number (fits : Z -> bool) (value : bool -> Z -> Z) (l : bytes) : outcome (option (Z * bytes)) :=
  let '(neg, x, y) := scan_digits l in
  match x with
  | [] => Done None
  | _ => if decide (digits_value x < 2 ^ 64) then
           let v := value neg (digits_value x) in if fits v then Done (Some (v, y)) else Undef
         else Undef
  end.

Definition scan_one (d : directive) (l : bytes) : outcome (option (option Z * bytes)) :=
  match d with
  | Char_ => match l with b :: l => Done (Some (Some b, l)) | [] => Done None end
  | Blank_ => Done (Some (None, (span is_space l).2))
  | Signed_ w =>
      match scan_number (fun v => bool_decide (- 2 ^ (w - 1) <= v < 2 ^ (w - 1))) (fun neg v => if neg then - v else v) l with
      | Done (Some (v, y)) => Done (Some (Some v, y)) | Done None => Done None | Undef => Undef | NoFuel => NoFuel
      end
  | Unsigned_ w =>
      match scan_number (fun v => bool_decide (v < 2 ^ w)) (fun neg v => if neg then u64 (- v) else v) l with
      | Done (Some (v, y)) => Done (Some (Some v, y)) | Done None => Done None | Undef => Undef | NoFuel => NoFuel
      end
  end.

(** The values that are assigned, up to the first directive that fails. *)
Fixpoint sscanf (format : list directive) (l : bytes) : outcome (list Z) :=
  match format with
  | [] => Done []
  | d :: format =>
      match scan_one d l with
      | Done None => Done []
      | Done (Some (v, l)) =>
          match sscanf format l with
          | Done vs => Done (match v with Some v => v :: vs | None => vs end)
          | Undef => Undef | NoFuel => NoFuel
          end
      | Undef => Undef | NoFuel => NoFuel
      end
  end.

(** The string at the start of a buffer. *)
Definition c_string (l : bytes) : bytes := (span (fun b => negb (bool_decide (b = 0))) l).1.

(** Where the last c is. *)
Fixpoint strrchr (c : Z) (l : bytes) : option nat :=
  match l with
  | [] => None
  | b :: l => match strrchr c l with Some i => Some (S i) | None => if decide (b = c) then Some 0%nat else None end
  end.

(** snprintf(buf, 32, "/proc/%d/" name, pid). *)
Definition proc_path (name : bytes) (pid : Z) : bytes := take 31 (string_bytes "/proc/" ++ to_string pid ++ [47] ++ name).

(** The system: getpid(), sysconf(), and what pthread_once returns. *)
Class System := { getpid : Z; page_size : Z; clk_tck : Z; once_status : Z }.

Section memory_usage.
  Context `{Malloc} `{System}.

(** *** Memory (memory_usage.c) *)

Record HT_MemoryUsageContext := MkMemoryUsage { mu_addr : ptr; mu_pid : Z }.

Definition ht_memory_usage_context_create (process_id : option Z) : ST heap (option HT_MemoryUsageContext) :=
  context ← ht_alloc 4;
  if decide (context = NULL) then mret None
  else mret (Some (MkMemoryUsage context (match process_id with None => getpid | Some pid => pid end))).

(** ht_free accepts NULL. *)
Definition ht_memory_usage_context_destroy (context : option HT_MemoryUsageContext) : ST heap () :=
  ht_free (match context with Some c => mu_addr c | None => NULL end).

(** The three variables the caller gave: [None] is NULL. *)
Record usage_out := UsageOut { virtual_memory_bytes : option Z; shared_memory_bytes : option Z; resident_memory_bytes : option Z }.

Definition statm_format : list directive := [Unsigned_ 64; Blank_; Unsigned_ 64; Blank_; Unsigned_ 64].

Definition ht_memory_usage_get_usage `{Files} (context : option HT_MemoryUsageContext) (out : usage_out) : outcome (HT_ErrorCode * usage_out) :=
  match context with
  | None => Done (HT_ERR_INVALID_ARGUMENT, out)
  | Some context =>
      if decide (virtual_memory_bytes out = None /\ shared_memory_bytes out = None /\ resident_memory_bytes out = None) then Done (HT_ERR_OK, out)
      else match file_contents (proc_path (string_bytes "statm") (mu_pid context)) with
      | None => Done (HT_ERR_CANT_OPEN_FILE, out)
      | Some contents =>
          let buf := take 63 contents in
          if decide (Z.of_nat (length buf) < 16) then Done (HT_ERR_INVALID_FORMAT, out)
          else match sscanf statm_format (c_string buf) with
          | Done [virt_mem; resident_mem; shared_mem] =>
              let store v := option_map (fun _ => u64 (v * page_size)) in
              Done (HT_ERR_OK, UsageOut (store virt_mem (virtual_memory_bytes out))
                                        (store shared_mem (shared_memory_bytes out))
                                        (store resident_mem (resident_memory_bytes out)))
          | Done _ => Done (HT_ERR_INVALID_FORMAT, out)
          | Undef => Undef
          | NoFuel => NoFuel
          end
      end
  end.

End memory_usage.

Section cpu_usage.
  Context `{Malloc} `{System}.

(** *** Processor time (cpu_usage.c) *)

(** float. *)
Definition to_float (z : Z) : spec_float := binary_normalize 24 128 z 0 false.
Definition fmul : spec_float -> spec_float -> spec_float := SFmul 24 128.
Definition fdiv : spec_float -> spec_float -> spec_float := SFdiv 24 128.

Record HT_CPUUsageContext := MkCPUUsage { cu_addr : ptr; last_probe : Z; last_total_time : Z; cu_pid : Z; cu_value : spec_float }.

(** The static variables, beside the heap. *)
Record cpu_state := MkCPUState { cpu_heap : heap; once_control : bool; _clock_ticks_per_sec : Z }.

#[export] Instance cpu_lens : Lens cpu_state heap.
Proof.
  refine {| view := cpu_heap; update h s := MkCPUState h (once_control s) (_clock_ticks_per_sec s) |}; by intros; destruct s.
Defined.

Definition _init_clock_ticks_per_sec (s : cpu_state) : cpu_state := MkCPUState (cpu_heap s) true clk_tck.

Definition init_once : ST cpu_state Z :=
  if decide (once_status = 0) then modify (fun s => if once_control s then s else _init_clock_ticks_per_sec s);; mret 0
  else mret once_status.

Definition stat_format : list directive :=
  [Char_; Blank_; Signed_ 32; Blank_; Signed_ 32; Blank_; Signed_ 32; Blank_; Signed_ 32; Blank_; Signed_ 32; Blank_; Unsigned_ 32; Blank_;
   Unsigned_ 64; Blank_; Unsigned_ 64; Blank_; Unsigned_ 64; Blank_; Unsigned_ 64; Blank_; Unsigned_ 64; Blank_; Unsigned_ 64].

(** strrchr(buf, ')') + 2 has to be in the buffer; what is behind the string
    that was read is indeterminate. *)
Definition _get_process_time `{Files} (pid : Z) : outcome (option Z) :=
  match file_contents (proc_path (string_bytes "stat") pid) with
  | None => Done None
  | Some contents =>
      let buf := take 1023 contents in
      if decide (Z.of_nat (length buf) < 80) then Done None
      else match strrchr 41 (c_string buf) with
      | None => Undef
      | Some i =>
          if decide (i + 2 <= length buf)%nat then
            match sscanf stat_format (c_string (drop (i + 2) buf)) with
            | Done [_; _; _; _; _; _; _; _; _; _; _; utime; stime] => Done (Some (u64 (utime + stime)))
            | Done _ => Done None
            | Undef => Undef
            | NoFuel => NoFuel
            end
          else Undef
      end
  end.

Definition ht_cpu_usage_get_percentage `{Files} (clock_ticks_per_sec current_ts : Z) (context : HT_CPUUsageContext) :
    outcome (spec_float * HT_CPUUsageContext) :=
  match _get_process_time (cu_pid context) with
  | Done None => Done (to_float (-1), context)
  | Done (Some total_time) =>
      let tics := u64 (total_time - last_total_time context) in
      let elapsed := fdiv (to_float (u64 (current_ts - last_probe context))) (to_float 1000000000) in
      let value := fdiv (fmul (to_float tics) (to_float 100)) (fmul (to_float clock_ticks_per_sec) elapsed) in
      Done (value, MkCPUUsage (cu_addr context) current_ts total_time (cu_pid context) value)
  | Undef => Undef
  | NoFuel => NoFuel
  end.

Definition lift_outcome {S A} (o : outcome A) : ST S A := fun s =>
  match o with Done a => Done (a, s) | Undef => Undef | NoFuel => NoFuel end.

Definition ht_cpu_usage_context_create `{Files} (process_id : option Z) (current_ts : Z) : ST cpu_state (option HT_CPUUsageContext) :=
  status ← init_once;
  if decide (status <> 0) then mret None
  else
    p ← zoom (ht_alloc 24);
    if decide (p = NULL) then mret None
    else
      let context := MkCPUUsage p 0 0 (match process_id with None => getpid | Some pid => pid end) (to_float 0) in
      ticks ← gets _clock_ticks_per_sec;
      '(_, context) ← lift_outcome (ht_cpu_usage_get_percentage ticks current_ts context);
      mret (Some (MkCPUUsage (cu_addr context) (last_probe context) (last_total_time context) (cu_pid context) (to_float 0))).

Definition ht_cpu_usage_context_destroy (context : option HT_CPUUsageContext) : ST heap () :=
  ht_free (match context with Some c => cu_addr c | None => NULL end).

End cpu_usage.

(** ** Texts that are scanned *)

(** A number as the kernel prints it. *)
Definition number (x : bytes) : Prop := digits x /\ (length x <= 20)%nat /\ digits_value x < 2 ^ 64.

Definition no_digit_first (l : bytes) : Prop := forall b l', l = b :: l' -> is_digit b = false.

Lemma no_digit_blank l : no_digit_first (32 :: l).
Proof. intros b l' E. by simplify_eq. Qed.
#[local] Hint Resolve no_digit_blank : core.

Lemma digit_no_space b l : 48 <= b <= 57 -> (span is_space (b :: l)).2 = b :: l.
Proof. intros Hb. cbn [span]. unfold is_space. by rewrite bool_decide_eq_false_2 by lia. Qed.

Lemma scan_digits_app x l : digits x -> no_digit_first l -> scan_digits (x ++ l) = (false, x, l).
Proof.
  intros [Hne HF] Hl. unfold scan_digits. pose proof (span_digits x l HF Hl) as E. destruct x as [|b x]; [done|].
  apply Forall_cons in HF as [Hb _]. cbn [app] in *. rewrite digit_no_space by done. rewrite !decide_False by lia. by rewrite E.
Qed.

Lemma scan_digits_neg x l : digits x -> no_digit_first l -> scan_digits (45 :: x ++ l) = (true, x, l).
Proof.
  intros [Hne HF] Hl. unfold scan_digits. cbn [span]. unfold is_space. rewrite bool_decide_eq_false_2 by lia. cbn [snd].
  rewrite decide_True by done. by rewrite span_digits.
Qed.

Lemma scan_unsigned_number w x l : digits x -> no_digit_first l -> digits_value x < 2 ^ w -> w <= 64 ->
  scan_one (Unsigned_ w) (x ++ l) = Done (Some (Some (digits_value x), l)).
Proof.
  intros Hx Hl Hv Hw. assert (2 ^ w <= 2 ^ 64) by (apply Z.pow_le_mono_r; lia).
  unfold scan_one, scan_number. rewrite scan_digits_app by done. destruct x as [|b x]; [by destruct Hx|].
  rewrite decide_True by lia. by rewrite bool_decide_eq_true_2.
Qed.

(** A number of a signed type, as %d prints it. *)
Record signed_number := SignedNumber { minus : bool; magnitude : bytes }.
Definition signed_text (x : signed_number) : bytes := if minus x then 45 :: magnitude x else magnitude x.
Definition signed_number_value (x : signed_number) : Z := if minus x then - digits_value (magnitude x) else digits_value (magnitude x).
Definition int_number (x : signed_number) : Prop :=
  digits (magnitude x) /\ (length (magnitude x) <= 10)%nat /\ - 2 ^ 31 <= signed_number_value x < 2 ^ 31.

Lemma scan_signed_number x l : int_number x -> no_digit_first l ->
  scan_one (Signed_ 32) (signed_text x ++ l) = Done (Some (Some (signed_number_value x), l)).
Proof.
  intros (Hx&_&Hv) Hl. destruct x as [neg x]. unfold signed_text, signed_number_value in *. cbn [minus magnitude] in *. unfold scan_one, scan_number.
  destruct neg; [cbn [app]; rewrite scan_digits_neg by done|rewrite scan_digits_app by done]; (destruct x as [|b x]; [by destruct Hx|]);
    rewrite decide_True by lia; by rewrite bool_decide_eq_true_2.
Qed.

Lemma skip_blank l : (span is_space (32 :: l)).2 = (span is_space l).2.
Proof. cbn [span]. by destruct (span is_space l). Qed.

Lemma scan_blank x l : digits x -> scan_one Blank_ (32 :: x ++ l) = Done (Some (None, x ++ l)).
Proof.
  intros [Hne HF]. destruct x as [|b x]; [done|]. apply Forall_cons in HF as [Hb _]. unfold scan_one.
  rewrite skip_blank. cbn [app]. by rewrite digit_no_space.
Qed.

Lemma scan_blank_signed x l : int_number x -> scan_one Blank_ (32 :: signed_text x ++ l) = Done (Some (None, signed_text x ++ l)).
Proof. intros [Hx _]. destruct x as [[] x]; [reflexivity|by apply scan_blank]. Qed.

(** *** Strings in buffers *)

Definition no_nul (l : bytes) : Prop := Forall (fun b => b <> 0) l.

Lemma c_string_app p r : no_nul p -> c_string (p ++ r) = p ++ c_string r.
Proof.
  intros HF. unfold c_string. induction HF as [|b p Hb _ IH]; [done|]. cbn [app span]. rewrite bool_decide_eq_false_2 by done. cbn [negb].
  by destruct (span _ (p ++ r)) as [x y]; cbn [fst] in *; rewrite IH.
Qed.

Lemma digits_no_nul x : digits x -> no_nul x.
Proof. intros [_ HF]. eapply Forall_impl; [exact HF|]. simpl. lia. Qed.

Lemma signed_no_nul x : int_number x -> no_nul (signed_text x).
Proof. intros [Hx _]. destruct x as [[] x]; [constructor; [done|]|]; by apply digits_no_nul. Qed.

(** *** The names of the files *)

Lemma pretty_N_go_length k x s : (x < 10 ^ N.of_nat k)%N -> (String.length (pretty_N_go x s) <= k + String.length s)%nat.
Proof.
  revert x s. induction k as [|k IH]; intros x s Hx.
  { assert (x = 0%N) as -> by (simpl in Hx; lia). by rewrite pretty_N_go_0. }
  destruct (decide (x = 0%N)) as [->|Hne]; [rewrite pretty_N_go_0; lia|]. rewrite pretty_N_go_step by lia.
  etrans; [apply IH|simpl; lia]. apply N.Div0.div_lt_upper_bound. by rewrite Nat2N.inj_succ, N.pow_succ_r' in Hx.
Qed.

Lemma pretty_positive_length p : (N.pos p < 10 ^ 10)%N -> (String.length (pretty p) <= 10)%nat.
Proof. intros Hp. pose proof (pretty_N_go_length 10 (N.pos p) EmptyString Hp) as H. simpl in H. unfold pretty, pretty_positive, pretty, pretty_N. by rewrite decide_False by done. Qed.

Lemma string_bytes_length s : length (string_bytes s) = String.length s.
Proof. induction s as [|a s IH]; [done|]. change (S (length (string_bytes s)) = S (String.length s)). by rewrite IH. Qed.

Lemma to_string_length z : - 2 ^ 31 <= z < 2 ^ 31 -> (length (to_string z) <= 11)%nat.
Proof.
  intros Hz. unfold to_string. rewrite string_bytes_length. destruct z as [|p|p]; [simpl; lia|..].
  - change (pretty (Z.pos p)) with (pretty p). pose proof (pretty_positive_length p ltac:(lia)). lia.
  - change (pretty (Z.neg p)) with (String.append "-" (pretty p)). pose proof (pretty_positive_length p ltac:(lia)). change (S (String.length (pretty p)) <= 11)%nat. lia.
Qed.

(** The file of a process. *)
Definition proc_file (name : string) (pid : Z) : bytes := string_bytes "/proc/" ++ to_string pid ++ [47] ++ string_bytes name.

(** No name is cut off. *)
Lemma proc_path_whole name pid : - 2 ^ 31 <= pid < 2 ^ 31 -> (String.length name <= 13)%nat ->
  proc_path (string_bytes name) pid = proc_file name pid.
Proof.
  intros Hp Hn. pose proof (to_string_length pid Hp). unfold proc_path, proc_file. apply take_ge. rewrite !length_app, !string_bytes_length. cbn. lia.
Qed.

(** ** The memory of a process *)

(** /proc/pid/statm: size, resident, shared and more (proc(5)). *)
Definition statm (size resident shared rest : bytes) : bytes := size ++ 32 :: resident ++ 32 :: shared ++ 32 :: rest.

Section memory_facts.
  Context `{System}.

(** The part of the file that is read holds the three numbers. *)
Lemma statm_read size resident shared rest : number size -> number resident -> number shared ->
  exists r, c_string (take 63 (statm size resident shared rest)) = statm size resident shared r.
Proof.
  intros (Hs&Ls&_) (Hr&Lr&_) (Hh&Lh&_). pose (p := size ++ 32 :: resident ++ 32 :: shared ++ [32]).
  assert (E : forall r, statm size resident shared r = p ++ r) by (intros r; unfold statm, p; by rewrite <- !app_assoc; cbn; rewrite <- !app_assoc; cbn; rewrite <- !app_assoc).
  assert (no_nul p) as Hp by (unfold no_nul, p; repeat first [apply Forall_app_2|apply Forall_cons_2]; first [by apply digits_no_nul|done|by constructor]).
  assert (length p <= 63)%nat as Hl by (unfold p; rewrite !length_app; simpl; rewrite !length_app; simpl; rewrite !length_app; simpl; lia).
  exists (c_string (take (63 - length p) rest)). rewrite !E, take_app_ge by done. by apply c_string_app.
Qed.

Lemma scan_statm size resident shared rest : number size -> number resident -> number shared ->
  sscanf statm_format (statm size resident shared rest) = Done [digits_value size; digits_value resident; digits_value shared].
Proof.
  intros (Hs&_&Vs) (Hr&_&Vr) (Hh&_&Vh). unfold statm_format, statm. cbn [sscanf].
  rewrite (scan_unsigned_number 64 size), scan_blank, (scan_unsigned_number 64 resident), scan_blank, (scan_unsigned_number 64 shared) by (done || auto).
  reflexivity.
Qed.

End memory_facts.

Definition asked (out : usage_out) : Prop :=
  ~ (virtual_memory_bytes out = None /\ shared_memory_bytes out = None /\ resident_memory_bytes out = None).

(** C39: the memory of a process.  Of whatever the kernel writes to
    /proc/pid/statm, numbers of up to 64 bits, the 63 bytes that are read hold
    the first three, and each variable the caller asked for gets its number of
    pages in bytes modulo 2^64; the others are left alone.  A file that cannot
    be opened and one of fewer than 16 bytes are reported, and nothing is
    stored then. *)
Theorem memory_usage_reported `{System} `{Files} context out size resident shared rest :
  - 2 ^ 31 <= mu_pid context < 2 ^ 31 -> number size -> number resident -> number shared ->
  let pages x := option_map (fun _ : Z => u64 (digits_value x * page_size)) in
  let file := file_contents (proc_file "statm" (mu_pid context)) in
  (file = Some (statm size resident shared rest) -> (16 <= length (statm size resident shared rest))%nat ->
     ht_memory_usage_get_usage (Some context) out =
       Done (HT_ERR_OK, UsageOut (pages size (virtual_memory_bytes out)) (pages shared (shared_memory_bytes out)) (pages resident (resident_memory_bytes out)))) /\
  (file = None -> asked out -> ht_memory_usage_get_usage (Some context) out = Done (HT_ERR_CANT_OPEN_FILE, out)) /\
  (forall text, file = Some text -> (length text < 16)%nat -> asked out -> ht_memory_usage_get_usage (Some context) out = Done (HT_ERR_INVALID_FORMAT, out)).
Proof.
  intros Hpid Hs Hr Hh pages file. unfold ht_memory_usage_get_usage.
  rewrite proc_path_whole by (done || simpl; lia).
  fold file. split_and!.
  - intros -> Hl. destruct (decide _) as [(Ev&Eh&Er)|_]; [destruct out; simpl in *; by subst|].
    rewrite decide_False by (rewrite length_take; lia). destruct (statm_read size resident shared rest Hs Hr Hh) as [r ->].
    by rewrite scan_statm.
  - intros -> Ha. by rewrite decide_False.
  - intros text -> Hl Ha. rewrite decide_False by done. by rewrite decide_True by (rewrite length_take; lia).
Qed.

(** ** The time of a process *)

(** /proc/pid/stat (proc(5)). *)
Record stat := Stat {
  st_pid : signed_number; comm : bytes; st_state : Z;
  ppid : signed_number; pgrp : signed_number; session : signed_number; tty_nr : signed_number; tpgid : signed_number;
  st_flags : bytes; minflt : bytes; cminflt : bytes; majflt : bytes; cmajflt : bytes; utime : bytes; stime : bytes;
  st_rest : bytes
}.

Definition stat_name (s : stat) : bytes := signed_text (st_pid s) ++ 32 :: 40 :: comm s.
Definition stat_fields (s : stat) (rest : bytes) : bytes :=
  st_state s :: 32 :: signed_text (ppid s) ++ 32 :: signed_text (pgrp s) ++ 32 :: signed_text (session s) ++ 32 :: signed_text (tty_nr s) ++ 32 ::
  signed_text (tpgid s) ++ 32 :: st_flags s ++ 32 :: minflt s ++ 32 :: cminflt s ++ 32 :: majflt s ++ 32 :: cmajflt s ++ 32 :: utime s ++ 32 ::
  stime s ++ 32 :: rest.
Definition stat_text (s : stat) : bytes := stat_name s ++ 41 :: 32 :: stat_fields s (st_rest s).

(** What the kernel writes: the name of the program is any bytes that are not
    NUL, up to 64 of them; the rest are numbers. *)
Record stat_ok (s : stat) : Prop := {
  ok_signed : Forall int_number [st_pid s; ppid s; pgrp s; session s; tty_nr s; tpgid s];
  ok_comm : no_nul (comm s) /\ (length (comm s) <= 64)%nat;
  ok_state : 65 <= st_state s <= 122;
  ok_flags : number (st_flags s) /\ digits_value (st_flags s) < 2 ^ 32;
  ok_unsigned : Forall number [minflt s; cminflt s; majflt s; cmajflt s; utime s; stime s];
  ok_rest : Forall (fun b => b <> 41) (st_rest s)
}.

Definition no_space_first (l : bytes) : Prop := (span is_space l).2 = l.

Lemma no_space_digits x l : digits x -> no_space_first (x ++ l).
Proof. intros [Hne HF]. destruct x as [|b x]; [done|]. apply Forall_cons in HF as [Hb _]. by apply digit_no_space. Qed.

Lemma no_space_signed x l : int_number x -> no_space_first (signed_text x ++ l).
Proof. intros [Hx _]. destruct x as [[] x]; [reflexivity|by apply no_space_digits]. Qed.

Definition outcome_cons (v : Z) (o : outcome (list Z)) : outcome (list Z) :=
  match o with Done vs => Done (v :: vs) | Undef => Undef | NoFuel => NoFuel end.

Lemma scan_signed_field x l format : int_number x -> no_space_first l ->
  sscanf (Signed_ 32 :: Blank_ :: format) (signed_text x ++ 32 :: l) = outcome_cons (signed_number_value x) (sscanf format l).
Proof.
  intros Hx Hl. cbn [sscanf]. rewrite scan_signed_number by auto. cbn [scan_one]. rewrite skip_blank, Hl. by destruct (sscanf format l).
Qed.

Lemma scan_unsigned_field w x l format : digits x -> digits_value x < 2 ^ w -> w <= 64 -> no_space_first l ->
  sscanf (Unsigned_ w :: Blank_ :: format) (x ++ 32 :: l) = outcome_cons (digits_value x) (sscanf format l).
Proof.
  intros Hx Hv Hw Hl. cbn [sscanf]. rewrite scan_unsigned_number by auto. cbn [scan_one]. rewrite skip_blank, Hl. by destruct (sscanf format l).
Qed.

Lemma scan_char_field c l format : no_space_first l -> sscanf (Char_ :: Blank_ :: format) (c :: 32 :: l) = outcome_cons c (sscanf format l).
Proof. intros Hl. cbn [sscanf scan_one]. rewrite skip_blank, Hl. by destruct (sscanf format l). Qed.

Ltac stat_facts H :=
  let Hi := fresh "Hi" in let Hu := fresh "Hu" in let Hf := fresh "Hf" in
  pose proof (ok_signed _ H) as Hi; pose proof (ok_unsigned _ H) as Hu; pose proof (ok_flags _ H) as Hf;
  rewrite !Forall_cons in Hi; rewrite !Forall_cons in Hu; destruct_and!; unfold number in *; destruct_and!.

Lemma scan_stat s rest : stat_ok s -> exists a b c d e f g h i j k,
  sscanf stat_format (stat_fields s rest) = Done [a; b; c; d; e; f; g; h; i; j; k; digits_value (utime s); digits_value (stime s)].
Proof.
  intros Hs. stat_facts Hs. unfold stat_fields, stat_format.
  rewrite scan_char_field by auto using no_space_signed.
  rewrite !scan_signed_field by auto using no_space_signed, no_space_digits.
  rewrite !scan_unsigned_field by (try lia; auto using no_space_digits).
  cbn [sscanf]. rewrite scan_unsigned_number by (try lia; auto). cbn [outcome_cons]. repeat eexists.
Qed.

Lemma stat_fields_app s r : stat_fields s r = stat_fields s [] ++ r.
Proof. unfold stat_fields. by repeat (rewrite <- app_assoc || cbn [app]). Qed.

Lemma signed_text_length x : int_number x -> (length (signed_text x) <= 11)%nat.
Proof. intros (_&Hl&_). destruct x as [[] x]; unfold signed_text; cbn in *; lia. Qed.

(** Text between the parentheses and the end. *)
Lemma digits_plain x : digits x -> Forall (fun b => b <> 0 /\ b <> 41) x.
Proof. intros [_ HF]. eapply Forall_impl; [exact HF|]. simpl. lia. Qed.

Lemma signed_plain x : int_number x -> Forall (fun b => b <> 0 /\ b <> 41) (signed_text x).
Proof. intros [Hx _]. destruct x as [[] x]; [constructor; [done|]|]; by apply digits_plain. Qed.

Lemma stat_fields_plain s : stat_ok s -> Forall (fun b => b <> 0 /\ b <> 41) (stat_fields s []) /\ (length (stat_fields s []) <= 230)%nat.
Proof.
  intros Hs. stat_facts Hs. pose proof (ok_state _ Hs). unfold stat_fields. split.
  - repeat first [apply Forall_nil_2|apply Forall_cons_2; [lia|]|apply Forall_app_2; [by first [apply signed_plain|apply digits_plain]|]].
  - pose proof (signed_text_length (ppid s)). pose proof (signed_text_length (pgrp s)). pose proof (signed_text_length (session s)).
    pose proof (signed_text_length (tty_nr s)). pose proof (signed_text_length (tpgid s)). repeat (rewrite length_app || cbn [length]). intuition lia.
Qed.

Lemma strrchr_none c l : Forall (fun b => b <> c) l -> strrchr c l = None.
Proof. induction 1 as [|b l Hb _ IH]; [done|]. cbn [strrchr]. by rewrite IH, decide_False. Qed.

Lemma strrchr_last c x y : Forall (fun b => b <> c) y -> strrchr c (x ++ c :: y) = Some (length x).
Proof.
  intros Hy. induction x as [|b x IH]; cbn [app strrchr length]; [by rewrite strrchr_none, decide_True|by rewrite IH].
Qed.

Lemma c_string_forall P l : Forall P l -> Forall P (c_string l).
Proof.
  intros HF. unfold c_string. induction HF as [|b l Hb _ IH]; [constructor|]. cbn [span].
  destruct (negb _); [|constructor]. destruct (span _ l). by constructor.
Qed.

(** Whatever the name of the program, parentheses and blanks included. *)
Lemma process_time `{Files} s pid : stat_ok s -> - 2 ^ 31 <= pid < 2 ^ 31 -> file_contents (proc_file "stat" pid) = Some (stat_text s) -> (80 <= length (stat_text s))%nat ->
  _get_process_time pid = Done (Some (u64 (digits_value (utime s) + digits_value (stime s)))).
Proof.
  intros Hs Hpid Hf Hl. unfold _get_process_time.
  rewrite proc_path_whole by (done || simpl; lia).
  rewrite Hf. rewrite decide_False by (rewrite length_take; lia).
  destruct (stat_fields_plain s Hs) as [Hplain Hlen]. destruct (ok_comm s Hs) as [Hc Hcl].
  assert (int_number (st_pid s)) as Hp by (pose proof (ok_signed s Hs) as Hi; by apply Forall_cons in Hi as [? _]).
  pose proof (signed_text_length _ Hp) as Hpl.
  set (r := take (1023 - length (stat_name s ++ 41 :: 32 :: stat_fields s [])) (st_rest s)).
  assert (take 1023 (stat_text s) = stat_name s ++ 41 :: 32 :: stat_fields s r) as ->.
  { unfold stat_text. rewrite (stat_fields_app s (st_rest s)), (stat_fields_app s r), !app_comm_cons, app_assoc, take_app_ge, <- app_assoc; [done|].
    rewrite length_app. unfold stat_name. rewrite length_app. cbn [length]. lia. }
  assert (no_nul (stat_name s)) as Hn by (unfold stat_name; apply Forall_app_2; [by apply signed_no_nul|by repeat constructor]).
  assert (no_nul (stat_fields s [])) as Hn2 by (eapply Forall_impl; [exact Hplain|]; by intros ? []).
  rewrite c_string_app by done. rewrite (stat_fields_app s r).
  assert (forall y, c_string (41 :: 32 :: y) = 41 :: 32 :: c_string y) as Ec by (intros y; apply (c_string_app [41; 32]); by repeat constructor).
  rewrite Ec, (c_string_app (stat_fields s [])) by done. rewrite strrchr_last.
  - rewrite decide_True by (rewrite length_app; cbn [length]; lia).
    change (41 :: 32 :: stat_fields s [] ++ r) with ([41; 32] ++ stat_fields s [] ++ r).
    rewrite app_assoc, drop_app_length' by (rewrite length_app; done).
    rewrite c_string_app, <- stat_fields_app by done. destruct (scan_stat s (c_string r) Hs) as (?&?&?&?&?&?&?&?&?&?&?&->). reflexivity.
  - constructor; [done|]. apply Forall_app_2; [eapply Forall_impl; [exact Hplain|]; by intros ? []|].
    apply c_string_forall, Forall_take, (ok_rest s Hs).
Qed.

(** *** Percentages *)

(** A float that is not negative, or not a number. *)
Definition not_negative (f : spec_float) : Prop :=
  match f with S754_zero s | S754_infinity s | S754_finite s _ _ => s = false | S754_nan => True end.

Lemma round_not_negative m e l : not_negative (binary_round_aux 24 128 false m e l).
Proof.
  unfold binary_round_aux. destruct (shr_fexp _ _ _ _ _) as [r1 e1]. destruct (shr_fexp _ _ _ _ _) as [r2 e2].
  destruct (shr_m r2); [done| |done]. by destruct (e2 <=? 128 - 24).
Qed.
#[local] Hint Resolve round_not_negative : core.

Lemma to_float_not_negative z : 0 <= z -> not_negative (to_float z).
Proof.
  intros Hz. unfold to_float, binary_normalize. destruct z as [|p|p]; [done| |lia]. unfold binary_round.
  by destruct (shl_align _ _ _).
Qed.

Lemma fmul_not_negative x y : not_negative x -> not_negative y -> not_negative (fmul x y).
Proof. destruct x, y; cbn -[binary_round_aux]; intros; subst; done || apply round_not_negative. Qed.

Lemma fdiv_not_negative x y : not_negative x -> not_negative y -> not_negative (fdiv x y).
Proof.
  destruct x, y; cbn -[binary_round_aux SFdiv_core_binary]; intros; subst; try done.
  destruct (SFdiv_core_binary _ _ _ _ _ _) as [[? ?] ?]. apply round_not_negative.
Qed.

#[export] Instance spec_float_eq_dec : EqDecision spec_float.
Proof. solve_decision. Defined.

(** The share of one second of 100 ticks. *)
Definition second_share (n : Z) : spec_float :=
  fdiv (fmul (to_float n) (to_float 100)) (fmul (to_float 100) (fdiv (to_float (10 ^ 9)) (to_float 1000000000))).

Lemma seconds_checked : forallb (fun n => bool_decide (second_share n = to_float n)) (seqZ 0 6401) = true.
Proof. vm_compute. reflexivity. Qed.

Lemma second_exact n : 0 <= n <= 6400 -> second_share n = to_float n.
Proof.
  intros Hn. pose proof seconds_checked as H. rewrite forallb_forall in H. specialize (H n).
  rewrite <- list_elem_of_In, elem_of_seqZ, bool_decide_eq_true in H. apply H. lia.
Qed.

(** C40: the usage of the processor.  Whatever the name of the program
    contains, blanks and parentheses included, the time is that of the fields
    utime and stime, the context remembers it with the time of the probe, and
    the share reported is never negative; a file that cannot be opened is
    reported as -1, and the context is unchanged then (files of at least 80
    bytes are meant; shorter or malformed ones give -1 as well).  A second probe in the
    same nanosecond, with no tick in between, is not a number; of a second
    with 100 ticks the share is exact, up to 64 processors. *)
Theorem cpu_usage_reported `{Files} s ticks current_ts context :
  stat_ok s -> (80 <= length (stat_text s))%nat -> - 2 ^ 31 <= cu_pid context < 2 ^ 31 -> 0 <= ticks ->
  let file := file_contents (proc_file "stat" (cu_pid context)) in
  let total := u64 (digits_value (utime s) + digits_value (stime s)) in
  (file = Some (stat_text s) -> exists value,
     ht_cpu_usage_get_percentage ticks current_ts context = Done (value, MkCPUUsage (cu_addr context) current_ts total (cu_pid context) value) /\
     not_negative value /\
     (total = last_total_time context -> current_ts = last_probe context -> value = S754_nan) /\
     (ticks = 100 -> u64 (current_ts - last_probe context) = 10 ^ 9 -> u64 (total - last_total_time context) <= 6400 ->
        value = to_float (u64 (total - last_total_time context)))) /\
  (file = None -> ht_cpu_usage_get_percentage ticks current_ts context = Done (to_float (-1), context)).
Proof.
  intros Hs Hl Hp Ht file total. unfold ht_cpu_usage_get_percentage. split; intros Hf.
  - rewrite (process_time s) by done. fold total. eexists. split_and!; [reflexivity|..].
    + assert (forall z, 0 <= u64 z) as Hu by (intros z; apply u64_range).
      apply fdiv_not_negative; apply fmul_not_negative; try apply fdiv_not_negative; by apply to_float_not_negative.
    + intros -> ->. rewrite !Z.sub_diag. change (u64 0) with 0. destruct (to_float ticks) eqn:E; try done.
    + intros -> -> Hle. pose proof (u64_range (total - last_total_time context)). apply (second_exact (u64 (total - last_total_time context))). lia.
  - unfold _get_process_time.
    rewrite proc_path_whole by (done || simpl; lia).
    by fold file; rewrite Hf.
Qed.


(** A context starts with a probe. *)
Lemma cpu_context_created `{Malloc} `{System} `{Files} s pid current_ts st :
  stat_ok s -> (80 <= length (stat_text s))%nat -> - 2 ^ 31 <= pid < 2 ^ 31 -> file_contents (proc_file "stat" pid) = Some (stat_text s) ->
  once_status = 0 -> granted 24 ->
  wp (ht_cpu_usage_context_create (Some pid) current_ts) (fun c st' => exists p,
    c = Some (MkCPUUsage p current_ts (u64 (digits_value (utime s) + digits_value (stime s))) pid (to_float 0)) /\
    blocks (cpu_heap st') = <[p := 24]> (blocks (cpu_heap st)) /\
    once_control st' = true /\ (once_control st = false -> _clock_ticks_per_sec st' = clk_tck)) st.
Proof.
  intros Hs Hl Hp Hf Ho Hg. unfold ht_cpu_usage_context_create, init_once. rewrite decide_True by done. wp_steps. rewrite decide_False by (intros []; done).
  wp_steps. apply (ht_alloc_granted 24); [done|]. intros p h' Hnull _ _ (Hb&_&_). rewrite decide_False by done. wp_steps.
  unfold lift_outcome, wp, ht_cpu_usage_get_percentage. cbn [cu_pid]. rewrite (process_time s) by done.
  exists p. destruct st as [h [] t]; cbn in *; done.
Qed.

(** ** Samples *)

Section samples.

Definition sample_stat : stat :=
  let n x := SignedNumber false (string_bytes x) in
  Stat (n "7") (string_bytes "a) (b") 83 (n "1") (n "7") (n "7") (n "0") (SignedNumber true (string_bytes "1"))
    (string_bytes "4194560") (string_bytes "1") (string_bytes "2") (string_bytes "3") (string_bytes "4") (string_bytes "250") (string_bytes "50")
    (string_bytes "0 0 20 0 1 0 12 4096 77 0 0 0 0 0 0 0 0 0 0").

#[local] Instance sample_proc : Files := {|
  file_contents name :=
    if decide (name = proc_file "statm" 7) then Some (string_bytes "1200 300 200 1 0 2 0") else
    if decide (name = proc_file "statm" 2) then Some (string_bytes "0 0 0 0 0 0 0" ++ [10]) else
    if decide (name = proc_file "stat" 7) then Some (stat_text sample_stat) else None
|}.

#[local] Instance sample_system : System := {| getpid := 7; page_size := 4096; clk_tck := 100; once_status := 0 |}.

Definition sample_out : usage_out := UsageOut (Some 0) None (Some 0).

Lemma sample_digits x : bool_decide (string_bytes x <> [] /\ Forall (fun b => 48 <= b <= 57) (string_bytes x)) = true -> digits (string_bytes x).
Proof. by rewrite bool_decide_eq_true. Qed.

Lemma memory_usage_reported_witness :
  ht_memory_usage_get_usage (Some (MkMemoryUsage 16 7)) sample_out = Done (HT_ERR_OK, UsageOut (Some 4915200) None (Some 1228800)).
Proof.
  refine (proj1 (memory_usage_reported (MkMemoryUsage 16 7) sample_out (string_bytes "1200") (string_bytes "300") (string_bytes "200") (string_bytes "1 0 2 0") _ _ _ _) _ _).
  1: by vm_compute.
  1-3: split_and!; [apply sample_digits; by vm_compute|apply (bool_decide_unpack _); by vm_compute|by vm_compute].
  - by vm_compute.
  - apply (bool_decide_unpack _); by vm_compute.
Defined.

(** A thread of the kernel. *)
Lemma kernel_thread_refused :
  ht_memory_usage_get_usage (Some (MkMemoryUsage 16 2)) sample_out = Done (HT_ERR_INVALID_FORMAT, sample_out).
Proof. by vm_compute. Qed.

Lemma sample_stat_ok : stat_ok sample_stat.
Proof.
  split; unfold int_number, number, digits, no_nul; first [apply (bool_decide_unpack _); vm_compute; exact I
    | repeat (apply Forall_cons; split); try apply Forall_nil_2; apply (bool_decide_unpack _); vm_compute; exact I].
Qed.

Definition sample_context : HT_CPUUsageContext := MkCPUUsage 16 5000000000 260 7 (to_float 0).

Lemma cpu_usage_reported_witness : exists value,
  ht_cpu_usage_get_percentage 100 6000000000 sample_context = Done (value, MkCPUUsage 16 6000000000 300 7 value) /\
  not_negative value /\ (300 = 260 -> 6000000000 = 5000000000 -> value = S754_nan) /\
  (100 = 100 -> u64 (6000000000 - 5000000000) = 10 ^ 9 -> u64 (300 - 260) <= 6400 -> value = to_float (u64 (300 - 260))).
Proof.
  refine (proj1 (cpu_usage_reported sample_stat 100 6000000000 sample_context sample_stat_ok _ _ _) _).
  - apply (bool_decide_unpack _); by vm_compute.
  - by vm_compute.
  - by vm_compute.
  - by vm_compute.
Defined.

End samples.
