(* ===== verification/EndToEnd.v ===== *)
(** * From the program that is traced to the reader of the trace

    The two ways a trace takes, as compositions of the components: through a
    file listener, a file and the parser's file stream, and through a TCP
    listener, a server, a connection and the client's TCP stream. *)

From S2P Require Import TcpClient Prelude Alloc BaseTypes Memory Bag Events ListenerBuffer Listeners Registry Timeline FileDump TcpServer TcpListener Endian Parser Reader Decode RoundTrip.

#[local] Arguments string_bytes : simpl never.

(** A program whose klasses and events the parser can read: what [traced]
    asks for, but for the metadata, which the listeners make. *)
Record traceable {E} (P : Platform) `{UnorderedMap} `{Alphabet} (s : sys E) (ps : list ptr) (kl : list HT_EventKlass) (es : list pushed) : Prop := {
  ta_klasses : Forall2 (fun p k => klasses s !! p = Some k) ps kl;
  ta_core : take 4 ps = [at_HT_EndiannessInfoEvent; at_HT_Event; at_HT_EventKlassInfoEvent; at_HT_EventKlassFieldInfoEvent];
  ta_system : at_HT_SystemInfoEvent ∈ ps;
  ta_system_type : exists Y, klasses s !! at_HT_SystemInfoEvent = Some Y /\ ktype Y = HT_SystemInfoEvent;
  ta_table : klass_table kl;
  ta_names : Forall (fun k => describable_to_parser k (get_type_info (ktype k))) kl;
  ta_ok : Forall (pushed_ok (klasses s)) es;
  ta_known : Forall (fun e => pklass e ∈ kl /\ plain_id (klass_id (pklass e)) /\ Decode.c_strings (pv e)) es
}.

(** A depth of recursion that is enough to read the events. *)
Definition enough_depth (es : list pushed) : nat :=
  S (max_list_with (fun e => depth (ktype (pklass e)) + length (pbytes e) + 24)%nat es).

Lemma enough_depth_each es d : (enough_depth es <= d)%nat ->
  Forall (fun e => (depth (ktype (pklass e)) + length (pbytes e) + 24 < d)%nat) es.
Proof.
  intros Hd. apply Forall_forall. intros e He. unfold enough_depth in Hd.
  clear -Hd He. revert Hd. induction He as [e es|e x es _ IH]; cbn [max_list_with]; intros Hd; [lia|apply IH; lia].
Qed.

(** A prefix of the events is traced, with the metadata. *)
Lemma traceable_traced {E} P `{UnorderedMap} `{Alphabet} (s : sys E) ps kl es meta d :
  traceable P s ps kl es -> metadata_events s ps meta -> Forall (pushed_ok (klasses s)) meta -> (enough_depth (meta ++ es) <= d)%nat ->
  traced P d s ps kl meta es.
Proof.
  intros [A1 A2 A3 A4 A5 A6 A7 A8] Hm Hok Hd. split; try done; [by apply Forall_app|]. by apply enough_depth_each.
Qed.

Lemma traceable_prefix {E} P `{UnorderedMap} `{Alphabet} (s : sys E) ps kl es es' :
  traceable P s ps kl (es ++ es') -> traceable P s ps kl es.
Proof. intros [A1 A2 A3 A4 A5 A6 A7 A8]. apply Forall_app in A7 as [? _]. apply Forall_app in A8 as [? _]. by split. Qed.

(** The reader that starts on [s0] ends at the end of the stream, having
    reported the events [es] in order, and knows every klass. *)
Definition reads_back {S C} `{Stream S} `{EventListener C} `{UnorderedMap} (consumer : Platform) (kl : list HT_EventKlass) (es : list pushed) (s0 : S) (c : C) : Prop :=
  forall d fuel, (enough_depth es <= d)%nat -> (length es < fuel)%nat ->
  wp (@start_and_wait S C _ _ _ consumer d fuel) (fun _ r => _is_running r = false /\
    (exists evs, Forall2 decodes es evs /\ _listeners r = foldl (fun c ev => on_new_event ev c) c evs) /\
    forall j k, kl !! j = Some k -> knows (_klass_register r) (klass_id k) (ktype k)) (new_reader KlassRegister s0 true c).

Lemma traced_reads_back {E S C} (consumer P : Platform) `{StreamLaws S} `{EventListener C} `{UnorderedMap} (s : sys E) ps kl meta es (s0 : S) (c : C) :
  traceable P s ps kl es -> metadata_events s ps meta -> Forall (pushed_ok (klasses s)) meta ->
  stream_at s0 (stream_bytes (meta ++ es)) -> reads_back consumer kl (meta ++ es) s0 c.
Proof.
  intros T Hm Hok Hs d fuel Hd Hf. eapply (read_trace P consumer d s ps kl meta es); [|done|done]. by apply traceable_traced.
Qed.

(** The reader of a connection, stopped after [k] events: it has reported the
    first [k] of [es], or all of them.  stop() returns if the receiving thread can
    be joined and if the reader is not in a call for an event beyond [es], or
    learns that there is none; otherwise it never does. *)
Definition reads_until {C} `{CharType} `{EventListener C} `{UnorderedMap} (consumer : Platform) (es : list pushed) (end_seen recv_ends : bool) (k : nat) (datas : TcpClient.chunks) (c : C) : Prop :=
  forall d, (enough_depth es <= d)%nat -> exists evs, Forall2 decodes es evs /\
  let run := @start_and_stop _ C _ _ _ consumer (fun a => starved a && negb end_seen) (fun _ => recv_ends) d k
    (new_reader KlassRegister (Arriving datas false) true c) in
  if recv_ends && (end_seen || bool_decide (k <= length es)%nat)
  then exists r, run = Done (tt, r) /\ _is_running r = false /\ _listeners r = foldl (fun c ev => on_new_event ev c) c (take k evs)
  else run = NoFuel.

Lemma traced_reads_until {E C} `{CharType} (consumer P : Platform) `{EventListener C} `{UnorderedMap} (s : sys E) ps kl meta es end_seen recv_ends k datas (c : C) :
  traceable P s ps kl es -> metadata_events s ps meta -> Forall (pushed_ok (klasses s)) meta ->
  stream_at datas (stream_bytes (meta ++ es)) -> reads_until consumer (meta ++ es) end_seen recv_ends k datas c.
Proof.
  intros T Hm Hok Hs d Hd. assert (stream_at (Arriving datas false) (stream_bytes (meta ++ es))) as Hs' by exact Hs.
  destruct (read_trace_rounds P consumer d s ps kl meta es (traceable_traced _ _ _ _ _ _ d T Hm Hok Hd) k (Arriving datas false) c Hs') as (evs&r&HF&Er&Hl&Hend).
  exists evs. split; [done|]. cbn zeta. unfold start_and_stop, mbind, st_bind, modify, gets. rewrite Er. cbn [_stream set_running].
  destruct (decide (k <= length (meta ++ es))%nat) as [Hle|Hgt].
  - rewrite bool_decide_eq_true_2, orb_true_r, andb_true_r by done. cbn. destruct recv_ends; [|done]. eexists. by split_and!.
  - rewrite bool_decide_eq_false_2, orb_false_r by done. destruct Hend as (s1&Hs1&->); [lia|].
    rewrite (arriving_starves s1 [] 4 Hs1) by (simpl; lia). cbn. destruct end_seen, recv_ends; try done. eexists. by split_and!.
Qed.

Lemma wire_cells_app es es' : wire_cells (es ++ es') = wire_cells es ++ wire_cells es'.
Proof. apply bind_app. Qed.

(** ** The batches *)

(** The batches that the timelines hand to a listener: of serialised events
    from a timeline that serialises, as the global one does, and of event objects
    from another. *)
Definition batch_of (b : bool * list pushed) : batch := if b.1 then Serialized (wire_cells b.2) else Unserialized b.2.

Definition batches_of (ess : list (bool * list pushed)) : list batch := batch_of <$> ess.

(** The events in them, in order. *)
Definition events_in (ess : list (bool * list pushed)) : list pushed := ess ≫= snd.

Lemma events_in_app ess ess' : events_in (ess ++ ess') = events_in ess ++ events_in ess'.
Proof. apply bind_app. Qed.

Lemma batches_stream ess : (batches_of ess ≫= batch_stream) = wire_cells (events_in ess).
Proof.
  induction ess as [|[ser es] ess IH]; [done|]. unfold batches_of, events_in in *. rewrite fmap_cons, !bind_cons, IH. cbn [snd].
  rewrite wire_cells_app. by destruct ser.
Qed.

(** ** Through a file *)

Section file.
  Context `{Malloc} `{Stdio} {E C : Type} `{Host E} `{EventListener C} `{UnorderedMap}.
  Context (consumer producer : Platform).
  #[local] Existing Instance producer.
  #[local] Existing Instance all_bytes.

Lemma fd_stream_batches (bs : list batch) : fd_stream (FdBatch <$> bs) = (bs ≫= batch_stream).
Proof. induction bs as [|b bs IH]; [done|]. rewrite fmap_cons, bind_cons. cbn [fd_stream]. by rewrite IH. Qed.

(** The bytes that are left in the file. *)
Lemma file_spec filename n (ess : list (bool * list pushed)) (w : io_state E) B K F Y ps :
  io_wf w -> metadata_ready (io_sys w) B K F Y ps -> FileDump.reliable -> 0 < n ->
  Forall (batch_ok (klasses (io_sys w)) n) (batches_of ess) ->
  wp (file_dump_lifetime filename n (FdBatch <$> batches_of ess)) (fun r w' =>
    match r with
    | inl err => err = HT_ERR_OUT_OF_MEMORY \/ err = HT_ERR_CANT_OPEN_FILE
    | inr _ => exists meta ch, metadata_events (io_sys w) ps meta /\ Forall (pushed_ok (klasses (io_sys w))) meta /\
        disk w' !! filename = Some ch /\ concat ch = Byte <$> stream_bytes (meta ++ events_in ess)
    end) w.
Proof.
  intros Wf MR Hrel Hn HF. eapply wp_mono; [eapply (file_dump_lifetime_spec filename n (FdBatch <$> batches_of ess) w); try done|].
  { apply Forall_fmap. exact HF. }
  intros [err|[]] w' (_&_&_&_&Hr); [done|]. destruct Hr as (meta&ch&Hev&Hok&Hd&Hc). exists meta, ch. split_and!; try done.
  by rewrite Hc, fd_stream_batches, batches_stream, <- wire_cells_app, wire_cells_bytes.
Qed.

(** C5: what was traced to a file is what the parser reports.  A program
    with any klasses the parser can read hands batches of events, serialised or
    not, to a file listener (of a buffer that is not empty and holds every event
    object, on a disk that takes what is written), from its creation to its destruction: either the listener could
    not be created, or the parser, on a machine of either byte order, reads
    the file that is left to its end, reports to its listeners the metadata
    and then the events of the batches, in order, each with the klass and the
    values of the fields it was pushed with, and knows every klass of the
    program. *)
Theorem file_end_to_end filename n (ess : list (bool * list pushed)) (w : io_state E) B K F Y ps kl (c : C) :
  io_wf w -> metadata_ready (io_sys w) B K F Y ps -> FileDump.reliable -> 0 < n ->
  Forall (batch_ok (klasses (io_sys w)) n) (batches_of ess) -> traceable producer (io_sys w) ps kl (events_in ess) ->
  wp (file_dump_lifetime filename n (FdBatch <$> batches_of ess)) (fun r w' =>
    match r with
    | inl err => err = HT_ERR_OUT_OF_MEMORY \/ err = HT_ERR_CANT_OPEN_FILE
    | inr _ => exists meta file ch, metadata_events (io_sys w) ps meta /\ disk w' !! filename = Some ch /\ concat ch = Byte <$> file /\
        reads_back consumer kl (meta ++ events_in ess) (open_stream file) c
    end) w.
Proof.
  intros Wf MR Hrel Hn HF T. eapply wp_mono; [by eapply file_spec|].
  intros [err|[]] w'; [done|]. intros (meta&ch&Hev&Hok&Hd&Hc). exists meta, (stream_bytes (meta ++ events_in ess)), ch. split_and!; [done..|].
  eapply (traced_reads_back consumer producer (io_sys w) ps); [exact T|exact Hev|exact Hok|]. by split.
Qed.

End file.

(** ** Through a connection *)

Section connection.
  Context `{Malloc} `{Sockets} {E C : Type} `{Host E} `{ClientHost E} `{EventListener C} `{UnorderedMap} `{CharType}.
  Context (consumer producer : Platform).
  #[local] Existing Instance producer.

(** The bytes that the client was sent. *)
Lemma connection_spec (w : tcp_world E) fds fd (ess : list (bool * list pushed)) B K F Y ps kl :
  tl_rep w fds [] -> accepts w fds fd -> sent_to fd (tw_net w) = [] -> metadata_ready (net_sys (tw_net w)) B K F Y ps ->
  Forall (batch_ok (klasses (net_sys (tw_net w))) (buffer_size w)) (batches_of ess) ->
  traceable producer (net_sys (tw_net w)) ps kl (events_in ess) ->
  wp (tcp_listener_accept;; pushes (batches_of ess)) (fun _ w' => exists meta k,
    metadata_events (net_sys (tw_net w)) ps meta /\ Forall (pushed_ok (klasses (net_sys (tw_net w)))) meta /\
    sent_to fd (tw_net w') = Byte <$> stream_bytes (meta ++ events_in (take k ess)) /\
    (exists fds', tl_rep w' fds' (wire_cells (events_in (drop k ess)))) /\
    traceable producer (net_sys (tw_net w)) ps kl (events_in (take k ess))) w.
Proof.
  intros R A Hs MR HF T. eapply wp_mono; [by eapply client_trace_spec|].
  intros _ w' (meta&fds'&content'&x&Hev&Hok&R'&_&Hsent&W&Ex). simpl in Ex.
  assert (exists k, x = wire_cells (events_in (take k ess)) /\ content' = wire_cells (events_in (drop k ess))) as (k&->&->).
  { rewrite batches_stream in Ex. destruct W as [->|[k ->]].
    - exists 0%nat. by rewrite drop_0.
    - exists k. unfold batches_of in *. rewrite <- fmap_take in *. fold (batches_of (take k ess)) in *. simpl in *. rewrite batches_stream in *. split; [done|].
      rewrite <- (take_drop k ess) in Ex at 2. rewrite events_in_app, wire_cells_app in Ex. by apply (inj (app _)) in Ex. }
  exists meta, k. split_and!; [done..| |by exists fds'|].
  - by rewrite Hsent, Hs, app_nil_l, <- wire_cells_app, wire_cells_bytes.
  - eapply traceable_prefix. rewrite <- events_in_app, take_drop. exact T.
Qed.

(** C6: what was traced over TCP is what the client's parser reports.  A
    client connects to a running listener whose buffer is empty, while nothing
    is pushed, and batches of events are pushed then, serialised or not: the bytes the client was sent are the metadata and
    a number of whole batches (the others are still in the buffer); however
    these bytes arrive in chunks, once the connection is closed the client
    reads them to the end and reports exactly these events, in order, each
    with the klass and the values of the fields it was pushed with, and knows
    every klass.  (Strings whose bytes survive the conversion from char, as
    all do where char is unsigned.) *)
Theorem connection_end_to_end (w : tcp_world E) fds fd (ess : list (bool * list pushed)) B K F Y ps kl (c : C) :
  tl_rep w fds [] -> accepts w fds fd -> sent_to fd (tw_net w) = [] -> metadata_ready (net_sys (tw_net w)) B K F Y ps ->
  Forall (batch_ok (klasses (net_sys (tw_net w))) (buffer_size w)) (batches_of ess) ->
  traceable producer (net_sys (tw_net w)) ps kl (events_in ess) ->
  wp (tcp_listener_accept;; pushes (batches_of ess)) (fun _ w' => exists meta k bytes,
    metadata_events (net_sys (tw_net w)) ps meta /\ sent_to fd (tw_net w') = Byte <$> bytes /\
    (exists fds', tl_rep w' fds' (wire_cells (events_in (drop k ess)))) /\
    forall datas, queue_ok datas -> unread datas = bytes -> reads_back consumer kl (meta ++ events_in (take k ess)) datas c) w.
Proof.
  intros R A Hs MR HF T. eapply wp_mono; [by eapply connection_spec|]. intros _ w' (meta&k&Hev&Hok&Hsent&R'&T').
  exists meta, k, (stream_bytes (meta ++ events_in (take k ess))). split_and!; [done..|].
  intros datas Hq Hu. eapply (traced_reads_back consumer producer (net_sys (tw_net w)) ps); [exact T'|exact Hev|exact Hok|by split].
Qed.

End connection.

(** ** A trace of a big-endian machine, read on a little-endian one *)

Section samples.

#[local] Existing Instance always_granted.
#[local] Existing Instance log_host.
#[local] Existing Instance big_endian.
#[local] Existing Instance map_order.
#[local] Existing Instance good_disk.
#[local] Existing Instance one_client.
#[local] Existing Instance silent_client.

Definition sample_batches : list (bool * list pushed) := [(false, [main_event; main_event]); (false, []); (true, [main_event])].

Lemma sample_events : events_in sample_batches = [main_event; main_event; main_event].
Proof. done. Qed.

Lemma sample_batches_ok n : 64 <= n -> Forall (batch_ok (klasses ready_sys) n) (batches_of sample_batches).
Proof.
  intros Hn. assert (pushed_ok (klasses ready_sys) main_event) as Hok by (split; reflexivity).
  assert (Z.of_nat (length (pbytes main_event)) <= 64) as Hl by (vm_compute; discriminate).
  assert (forall k, (k <= 2)%nat -> Z.of_nat (length (objects (replicate k main_event))) < 2 ^ 63) as Hob.
  { intros k Hk. do 3 (destruct k as [|k]; [vm_compute; reflexivity|]). lia. }
  unfold batches_of, sample_batches. repeat (apply Forall_cons; split; [|]); [| | |apply Forall_nil; exact I].
  - split; [lia|]. split; [by repeat constructor|]. split; [repeat constructor; simpl; lia|]. apply (Hob 2%nat); lia.
  - split; [lia|]. split; [by repeat constructor|]. split; [by repeat constructor|]. apply (Hob 0%nat); lia.
  - vm_compute. reflexivity.
Qed.

(** Whatever bytes strings may have, as long as they may have these. *)
Lemma sample_traceable `{Alphabet} :
  Forall (fun k => describable_to_parser k (get_type_info (ktype k))) core_table -> Decode.c_strings (pv main_event) ->
  traceable big_endian ready_sys [1; 2; 3; 4; 5; 6; 7; 8; 9] core_table (events_in sample_batches).
Proof.
  intros Hn Hc. rewrite sample_events. assert (pushed_ok (klasses ready_sys) main_event) as Hok by (split; reflexivity).
  split; try done.
  - repeat constructor.
  - by repeat (first [left; reflexivity|right]).
  - eexists. split; reflexivity.
  - apply core_table_ok.
  - by repeat constructor.
  - assert (main_event.(pklass) ∈ core_table) as Hin by (apply (list_elem_of_lookup_2 _ 6); reflexivity). do 3 (apply Forall_cons; split; [split; [exact Hin|split; [done|exact Hc]]|]). apply Forall_nil; exact I.
Qed.

Lemma file_traceable : @traceable _ big_endian map_order all_bytes ready_sys [1; 2; 3; 4; 5; 6; 7; 8; 9] core_table (events_in sample_batches).
Proof.
  apply (@sample_traceable all_bytes); [|by repeat constructor]. unfold describable_to_parser, c_name, text. cbn [text_byte all_bytes].
  apply (bool_decide_unpack _). vm_compute. exact I.
Qed.

Lemma ascii_traceable : @traceable _ big_endian map_order (@char_bytes x86_char) ready_sys [1; 2; 3; 4; 5; 6; 7; 8; 9] core_table (events_in sample_batches).
Proof.
  apply (@sample_traceable (@char_bytes x86_char)); [|by repeat constructor]. unfold describable_to_parser, c_name, text. cbn [text_byte char_bytes].
  apply (bool_decide_unpack _). vm_compute. exact I.
Qed.

Lemma file_end_to_end_witness :
  wp (file_dump_lifetime [102] 64 (FdBatch <$> batches_of sample_batches)) (fun r w' =>
    match r with
    | inl err => err = HT_ERR_OUT_OF_MEMORY \/ err = HT_ERR_CANT_OPEN_FILE
    | inr _ => exists meta file ch, metadata_events (io_sys sample_io) [1; 2; 3; 4; 5; 6; 7; 8; 9] meta /\
        disk w' !! [102] = Some ch /\ concat ch = Byte <$> file /\
        reads_back little_endian core_table (meta ++ events_in sample_batches) (open_stream file) ([] : list parser_Event)
    end) sample_io.
Proof.
  apply (file_end_to_end little_endian big_endian [102] 64 sample_batches sample_io (registered HT_EndiannessInfoEvent 0)
           (registered HT_EventKlassInfoEvent 2) (registered HT_EventKlassFieldInfoEvent 3) (registered HT_SystemInfoEvent 8)).
  - exact sample_io_wf.
  - exact ready_sys_metadata.
  - intros k len. apply le_n.
  - reflexivity.
  - apply (sample_batches_ok 64). discriminate.
  - exact file_traceable.
Defined.

Lemma connection_end_to_end_witness : exists w, tl_rep w [] [] /\
  wp (tcp_listener_accept;; pushes (batches_of sample_batches)) (fun _ w' => exists meta k bytes,
    metadata_events (net_sys (tw_net w)) [1; 2; 3; 4; 5; 6; 7; 8; 9] meta /\ sent_to 5 (tw_net w') = Byte <$> bytes /\
    (exists fds', tl_rep w' fds' (wire_cells (events_in (drop k sample_batches)))) /\
    forall datas, queue_ok datas -> unread datas = bytes ->
      @reads_back _ _ (@tcp_stream x86_char) _ _ little_endian core_table (meta ++ events_in (take k sample_batches)) datas ([] : list parser_Event)) w.
Proof.
  destruct (wp_inv _ _ _ (listener_create_spec 8765 64 before_listener always_generous
    ltac:(by intros n fd port) ltac:(lia) ready_sys_wf)) as (?&w0&_&_&[R Hsz _ [Ek _ Er _ _] Hlive Hmx Hd Hidle]).
  set (w := TcpWorld (tw_net w0) (tl_set_callback (NULL, NULL) (tw_listener w0)) (tw_log w0) (tw_joining w0)).
  assert (tl_rep w [] []) as Rw by (by destruct R; split). exists w. split; [exact Rw|].
  assert (klasses (net_sys (tw_net w)) = klasses ready_sys) as Ekw by exact Ek.
  apply (@connection_end_to_end _ _ _ _ _ _ _ _ x86_char little_endian big_endian w [] 5 sample_batches (registered HT_EndiannessInfoEvent 0)
           (registered HT_EventKlassInfoEvent 2) (registered HT_EventKlassFieldInfoEvent 3) (registered HT_SystemInfoEvent 8)).
  - exact Rw.
  - split; try done; [exact always_generous|apply not_elem_of_nil|intros n len Hlen; simpl; lia].
  - unfold sent_to. change (delivered (tw_net w)) with (delivered (tw_net w0)). by rewrite Hd.
  - eapply (metadata_ready_mono ready_sys); [exact ready_sys_metadata|done..].
  - rewrite Ekw. change (buffer_size w) with (buffer_size w0). rewrite Hsz. apply (sample_batches_ok 64). discriminate.
  - destruct ascii_traceable as [A1 A2 A3 A4 A5 A6 A7 A8]. rewrite <- Ekw in A1, A4, A7. by split.
Defined.

End samples.
