(* ===== verification/Convertible.v ===== *)
(** When the converters of the client do not throw: every event of a trace
    can be converted if the fields with the names that the client looks for
    have the types it expects. *)
From S2P Require Import Prelude Alloc BaseTypes Memory Bag Events ListenerBuffer Listeners Registry Endian Parser Reader Decode RoundTrip EndToEnd Client CallGraph Callgrind.

#[local] Open Scope Z_scope.
#[local] Arguments string_bytes : simpl never.

(** ** What the client expects *)

(** Absent, or a number of at least [n] bytes; absent, or a string. *)
Definition wide (n : nat) (v : option FieldType) : Prop :=
  match v with Some (FNum m _) => (n <= m)%nat | Some _ => False | None => True end.

Definition textual (v : option FieldType) : Prop :=
  match v with Some (FString _) | None => True | Some _ => False end.

(** The values that the parser reports for an event. *)
Definition event_values (e : pushed) : gmap bytes FieldType :=
  match event_header (pv e) with
  | Some (_, ts, id) => list_to_map (flat_value [] (ktype (pklass e)) (pv e) ++ header_values (klass_id (pklass e)) ts id)
  | None => ∅
  end.

Definition mapping_name : string := "HT_StringMappingEvent".

(** The fields the client looks for have the types it expects. *)
Record usual (e : pushed) : Prop := {
  us_duration : wide 8 (event_values e !! string_bytes "duration");
  us_thread : wide 4 (event_values e !! string_bytes "thread_id");
  us_name : event_values e !! string_bytes "label" = None -> textual (event_values e !! string_bytes "name");
  us_mapping : c_type_name (ktype (pklass e)) = mapping_name ->
    (exists m z, event_values e !! string_bytes "identifier" = Some (FNum m z) /\ (8 <= m)%nat) /\
    exists s, event_values e !! string_bytes "label" = Some (FString s)
}.

(** The descriptions of klasses in [es] name the klasses of the events. *)
Definition announced (es : list pushed) : Prop :=
  Forall (fun e => klass_id (pklass e) = EventKlassInfoEventKlass -> exists name z,
    event_values e !! string_bytes "event_klass_name" = Some (FString name) /\
    event_values e !! string_bytes "info_klass_id" = Some (FNum 4 z) /\
    (name = _mapping_klass_name -> Forall (fun e' => klass_id (pklass e') = z mod 2 ^ 32 -> c_type_name (ktype (pklass e')) = mapping_name) es)) es.

Section conversions.
  Context `{Platform} `{UnorderedMap}.

Lemma decodes_values e ev : decodes e ev -> fst <$> get_values ev = event_values e.
Proof. intros (p&ts&id&Eh&[_ Ev _ _]). unfold event_values. by rewrite Eh, Ev. Qed.

Lemma decodes_klass e ev : decodes e ev -> get_klass_of ev = Some (klass_id (pklass e)).
Proof. by intros (p&ts&id&Eh&[Ek _ _ _]). Qed.

Lemma decodes_typed e ev key v : decodes e ev -> get_values ev !! key = Some v -> field_typed v.2 v.1.
Proof. intros (p&ts&id&Eh&[_ _ Hw _]) Hk. apply (Hw _ _ Hk). Qed.

Lemma decodes_lookup e ev key : decodes e ev -> event_values e !! key = fst <$> get_values ev !! key.
Proof. intros Hd. by rewrite <- (decodes_values e ev Hd), lookup_fmap. Qed.

Lemma read_num_wide n m z : (n <= m)%nat -> is_Some (read_num n (FNum m z)).
Proof. intros Hn. simpl. rewrite decide_True by done. by eexists. Qed.

Lemma get_wide n key dflt e ev : decodes e ev -> wide n (event_values e !! key) -> is_Some (get_value_or_default n key dflt ev).
Proof.
  intros Hd. rewrite (decodes_lookup e ev key Hd). unfold get_value_or_default, has_value, get_value.
  destruct (get_values ev !! key) as [[v f]|] eqn:E; cbn [fmap option_fmap option_map fst wide].
  - rewrite bool_decide_eq_true_2 by done. cbn [mbind option_bind fst]. destruct v; [done|apply read_num_wide|done|done].
  - intros _. rewrite bool_decide_eq_false_2 by (by intros []). by eexists.
Qed.

Lemma typed_num f v n : field_typed f v -> get_sizeof f = Some n -> is_numeric f = true -> is_Some (read_num n v).
Proof.
  intros [_ Ht] Hs Hn. unfold is_numeric in Hn. destruct (get_field_type_id f) eqn:E; try done;
    destruct Ht as (n'&z&Hn'&->); assert (n' = n) as -> by congruence; by apply read_num_wide.
Qed.

Lemma json_value_total v : field_typed v.2 v.1 -> is_Some (_get_json_value v).
Proof.
  destruct v as [v f]. cbn [fst snd]. intros Ht. pose proof (typed_num f v) as Hr. pose proof Ht as [_ Hm]. unfold _get_json_value, print_int.
  unfold get_sizeof, is_numeric in Hr. cbn [fst snd]. destruct (get_field_type_id f); cbn [fst];
    first [destruct (Hr _ Ht eq_refl eq_refl) as [z ->]; by eexists|by eexists|destruct Hm as [s ->]; by eexists].
Qed.

Lemma args_total l is_first ret : Forall (fun kv : bytes * Value => field_typed kv.2.2 kv.2.1) l -> is_Some (args_loop l is_first ret).
Proof.
  intros HF. revert is_first ret. induction HF as [|[name v] l Hv HF IH]; intros is_first ret; [by eexists|]. cbn [args_loop].
  case_decide; [apply IH|]. destruct (json_value_total v Hv) as [x ->]. cbn [mbind option_bind]. apply IH.
Qed.

Lemma get_args_total e ev : decodes e ev -> is_Some (_get_args ev).
Proof.
  intros Hd. apply args_total. rewrite elements_of_perm. apply Forall_forall. intros [key v] Hin.
  apply elem_of_map_to_list in Hin. exact (decodes_typed e ev key v Hd Hin).
Qed.

(** One object, or one call, for every label. *)
Lemma json_of_total e ev l : decodes e ev -> usual e -> is_Some (json_of (ev, l)).
Proof.
  intros Hd [U1 U2 _ _]. unfold json_of. cbn [fst].
  destruct (get_wide 8 _ 0 e ev Hd U1) as [dur ->], (get_wide 4 _ 0 e ev Hd U2) as [tid ->], (get_args_total e ev Hd) as [args ->]. by eexists.
Qed.

Lemma call_of_total e ev l : decodes e ev -> usual e -> is_Some (call_of (ev, l)).
Proof.
  intros Hd [U1 U2 _ _]. unfold call_of. cbn [fst].
  destruct (get_wide 8 _ 0 e ev Hd U1) as [dur ->], (get_wide 4 _ 0 e ev Hd U2) as [tid ->]. by eexists.
Qed.

(** ** Labels *)

(** What has been announced as the klass of the names is that klass. *)
Definition names_known (es : list pushed) (s : label_state) : Prop :=
  names_klass s = 0 \/ Forall (fun e => klass_id (pklass e) = names_klass s -> c_type_name (ktype (pklass e)) = mapping_name) es.

Lemma get_str key e ev st : decodes e ev -> event_values e !! key = Some (FString st) -> get_value_str key ev = Some st.
Proof. intros Hd Hk. apply get_value_string. by rewrite (decodes_values e ev Hd). Qed.

Lemma get_num n key e ev m z : decodes e ev -> event_values e !! key = Some (FNum m z) -> (n <= m)%nat -> is_Some (get_value n key ev).
Proof.
  intros Hd Hk Hn. rewrite (decodes_lookup e ev key Hd) in Hk. unfold get_value. destruct (get_values ev !! key) as [[v f]|]; [|done].
  injection Hk as ->. by apply read_num_wide.
Qed.

Lemma ref_value_total v s : field_typed v.2 v.1 -> is_Some (ref_value v s).
Proof.
  destruct v as [v f]. cbn [fst snd]. intros Ht. pose proof (typed_num f v) as Hr. pose proof Ht as [_ Hm]. unfold ref_value.
  unfold get_sizeof, is_numeric in Hr. cbn [fst snd]. destruct (get_field_type_id f); cbn [fst];
    first [by eexists|destruct (Hr _ Ht eq_refl eq_refl) as [z ->]; by eexists|destruct Hm as [st ->]; by eexists].
Qed.

Lemma ref_label_total es e ev s : announced es -> e ∈ es -> decodes e ev -> usual e -> names_known es s ->
  exists l s', ref_label ev s = Some (l, s') /\ names_known es s'.
Proof.
  intros Ha Hin Hd U K. pose proof (proj1 (Forall_forall _ _) Ha e Hin) as A. simpl in A. unfold ref_label. rewrite (decodes_klass e ev Hd).
  cbn [mbind option_bind]. case_decide as Hk0.
  - case_decide as Hinfo; [|by eexists _, _]. destruct (A Hinfo) as (name&z&Hname&Hz&Hm). rewrite (get_str _ _ _ _ Hd Hname).
    cbn [mbind option_bind]. case_decide as Hmap; [|by eexists _, _].
    rewrite (get_value_num 4 (string_bytes "info_klass_id") z) by (by rewrite (decodes_values e ev Hd)). eexists _, _. split; [done|].
    right. exact (Hm Hmap).
  - destruct K as [?|K]; [done|]. case_decide as Hid.
    + pose proof (proj1 (Forall_forall _ _) K e Hin Hid) as Hty. destruct (us_mapping e U Hty) as ((m&z&Hi&Hm)&st&Hl).
      destruct (get_num 8 _ _ _ _ _ Hd Hi Hm) as [i ->]. rewrite (get_str _ _ _ _ Hd Hl). eexists _, _. split; [done|]. by right.
    + pose proof (us_name e U) as Hn. rewrite !(decodes_lookup e ev) in Hn by done.
      destruct (get_values ev !! string_bytes "label") as [v|] eqn:El.
      * destruct (ref_value_total v s) as [l ->]; [by eapply decodes_typed|]. eexists _, _. split; [done|]. by right.
      * specialize (Hn eq_refl). destruct (get_values ev !! string_bytes "name") as [[v f]|]; [|eexists _, _; split; [done|by right]].
        destruct v; try done. eexists _, _. split; [done|]. by right.
Qed.

Lemma run_labels_total es0 es evs s : announced es0 -> es ⊆ es0 -> Forall2 decodes es evs -> Forall usual es -> names_known es0 s ->
  exists ls s', run_labels ref_label evs s = Some (ls, s').
Proof.
  intros Ha Hsub HF HU. revert s. induction HF as [|e ev es evs Hd HF IH]; intros s K; [by eexists _, _|].
  apply Forall_cons in HU as [U HU]. destruct (ref_label_total es0 e ev s) as (l&s1&E&K1); try done; [apply Hsub; set_solver|].
  cbn [run_labels]. rewrite E. cbn [mbind option_bind]. destruct (IH ltac:(set_solver) HU s1 K1) as (ls&s2&->). by eexists _, _.
Qed.

(** What holds of every event of a trace holds of its labelled events. *)
Lemma labelled_total {A} (f : parser_Event * bytes -> option A) es evs ls :
  (forall e ev l, decodes e ev -> usual e -> is_Some (f (ev, l))) -> Forall2 decodes es evs -> Forall usual es ->
  is_Some (mapM f (labelled evs ls)).
Proof.
  intros Hf HF HU. apply mapM_is_Some. unfold labelled. apply Forall_forall. intros [ev l] Hin. apply list_elem_of_filter in Hin as [_ Hin].
  apply elem_of_zip_l, list_elem_of_lookup in Hin as [i Hi]. destruct (Forall2_lookup_r _ _ _ _ _ HF Hi) as (e&He&Hd).
  apply (Hf e); [done|]. by eapply Forall_lookup_1.
Qed.

(** The whole trace can be converted. *)
Lemma conversion_total {A} (f : parser_Event * bytes -> option A) es evs k m :
  (forall e ev l, decodes e ev -> usual e -> is_Some (f (ev, l))) -> Forall2 decodes es evs -> Forall usual es -> announced es ->
  is_Some ('(ls, _) ← run_labels ref_label (take k evs) (MkLabels m 0); mapM f (labelled (take k evs) ls)).
Proof.
  intros Hf HF HU Ha. pose proof (Forall2_take _ _ _ k HF) as HF'. pose proof (Forall_take _ k _ HU) as HU'.
  destruct (run_labels_total es (take k es) (take k evs) (MkLabels m 0)) as (ls&s'&->); try done; [|by left|].
  - intros x Hx. by eapply elem_of_take in Hx as (i&Hx&_); eapply list_elem_of_lookup_2.
  - by eapply labelled_total.
Qed.

End conversions.

(** ** The metadata *)

Section metadata.
  Context {E : Type} `{UnorderedMap} `{Alphabet} (producer : Platform).
  #[local] Existing Instance producer.
  Context (d : nat) (s : sys E) (ps : list ptr) (kl : list HT_EventKlass) (meta es : list pushed).
  Context (T : traced producer d s ps kl meta es).

(** The klass of an event that points to [p]. *)
Lemma pushed_klass e p k : pushed_ok (klasses s) e -> HT_EVENT_GET_KLASS (pv e) = Some p -> klasses s !! p = Some k -> pklass e = k.
Proof. intros [Ek _ _ _ _ _] Hp Hk. unfold event_klass in Ek. rewrite Hp in Ek. simpl in Ek. congruence. Qed.

(** An event that does not disturb the client; if it describes a klass, the
    klass is one of the table. *)
Record harmless (e : pushed) : Prop := {
  hl_usual : usual e;
  hl_klass : pklass e ∈ kl;
  hl_info : klass_id (pklass e) = EventKlassInfoEventKlass -> exists k, k ∈ kl /\
    event_values e !! string_bytes "event_klass_name" = Some (FString (string_bytes (c_type_name (ktype k)))) /\
    event_values e !! string_bytes "info_klass_id" = Some (FNum 4 (klass_id k mod 2 ^ 32))
}.

Lemma harmless_endianness b : pushed_ok (klasses s) b -> pv b = endianness_event -> harmless b.
Proof.
  intros Hok Hv. destruct (core_klass_at _ _ _ _ _ _ _ T 0 at_HT_EndiannessInfoEvent) as (B&HB&Hin&HBid&HBt&_); [lia|done|].
  assert (pklass b = B) as EB by (eapply pushed_klass; [done|by rewrite Hv|done]). injection HBt as HBt.
  split; [|rewrite EB; by eapply list_elem_of_lookup_2|by rewrite EB, HBid].
  split; unfold event_values; rewrite EB, Hv, ?HBt; try (vm_compute; exact I); done.
Qed.

Lemma harmless_info k e ts id : pushed_ok (klasses s) e -> k ∈ kl -> pv e = klass_info_event k (get_type_info (ktype k)) ts id -> harmless e.
Proof.
  intros Hok Hk Hv. destruct (core_klass_at _ _ _ _ _ _ _ T 2 at_HT_EventKlassInfoEvent) as (B&HB&Hin&HBid&HBt&_); [lia|done|].
  assert (pklass e = B) as EB by (eapply pushed_klass; [done|by rewrite Hv|done]). injection HBt as HBt.
  split; [|rewrite EB; by eapply list_elem_of_lookup_2|intros _; exists k; split; [done|]].
  - split; unfold event_values; rewrite EB, Hv, ?HBt; try (vm_compute; exact I); done.
  - unfold event_values. rewrite EB, Hv, HBt. split; [|reflexivity]. by destruct (ktype k).
Qed.

Lemma harmless_field k info e ts id : pushed_ok (klasses s) e -> pv e = field_info_event k info ts id -> harmless e.
Proof.
  intros Hok Hv. destruct (core_klass_at _ _ _ _ _ _ _ T 3 at_HT_EventKlassFieldInfoEvent) as (B&HB&Hin&HBid&HBt&_); [lia|done|].
  assert (pklass e = B) as EB by (eapply pushed_klass; [done|by rewrite Hv|done]). injection HBt as HBt.
  split; [|rewrite EB; by eapply list_elem_of_lookup_2|by rewrite EB, HBid].
  split; unfold event_values; rewrite EB, Hv, ?HBt; try (vm_compute; exact I); done.
Qed.

Lemma harmless_system y : pushed_ok (klasses s) y -> pv y = system_info_event -> harmless y.
Proof.
  intros Hok Hv. destruct (traced_system _ _ _ _ _ _ _ T y Hok Hv) as (Hin&(_&Hpl&_)&_).
  destruct (tr_system_type _ _ _ _ _ _ _ T) as (Y&HY&Yt). assert (pklass y = Y) as EY by (eapply pushed_klass; [done|by rewrite Hv|done]).
  split; [|done|done]. split; unfold event_values; rewrite EY, Hv, ?Yt; try (vm_compute; exact I); done.
Qed.

Lemma harmless_describes k l : k ∈ kl -> describes k l -> Forall (pushed_ok (klasses s)) l -> Forall harmless l.
Proof.
  intros Hk (ti&e&fs&Eti&->&(ts&id&Hv)&HF) Hok. apply Forall_cons in Hok as [Hoke Hok]. apply list_elem_of_lookup_1 in Hk as [j Hj].
  rewrite (kt_info _ (tr_table _ _ _ _ _ _ _ T) _ _ Hj) in Eti. injection Eti as <-. constructor.
  - eapply harmless_info; [done|by eapply list_elem_of_lookup_2|done].
  - revert HF. generalize (tfields (get_type_info (ktype k))). intros infos HF.
    induction HF as [|info f infos fs (ts'&id'&Hf) HF IH]; [done|]. apply Forall_cons in Hok as [Hokf Hok].
    constructor; [by eapply harmless_field|by apply IH].
Qed.

Lemma harmless_klasses ks ess : Forall (fun k => k ∈ kl) ks -> Forall2 describes ks ess -> Forall (pushed_ok (klasses s)) (concat ess) ->
  Forall harmless (concat ess).
Proof.
  intros Hin HD. revert Hin. induction HD as [|k l ks ess Hk HD IH]; intros Hin Hok; [done|]. simpl in *.
  apply Forall_cons in Hin as [Hk' Hin]. apply Forall_app in Hok as [Hok Hoks]. apply Forall_app.
  split; [by eapply harmless_describes|by apply IH].
Qed.

Lemma harmless_metadata : Forall harmless meta.
Proof.
  destruct (tr_meta _ _ _ _ _ _ _ T) as (b&ess&y&Em&Hb&Hy&HF). pose proof (tr_ok _ _ _ _ _ _ _ T) as Hok. apply Forall_app in Hok as [Hok _].
  pose proof (metadata_klasses _ _ _ _ _ _ _ T ess HF) as HD.
  rewrite Em in Hok |- *. apply Forall_cons in Hok as [Hokb Hok]. apply Forall_app in Hok as [Hok Hoky]. apply Forall_cons in Hoky as [Hoky _].
  constructor; [by apply harmless_endianness|]. apply Forall_app. split; [|constructor; [by apply harmless_system|done]].
  apply (harmless_klasses kl); [by apply Forall_forall|done|done].
Qed.

(** The conditions of [conversion_total] hold of the trace. *)
Lemma trace_harmless : Forall usual es -> Forall harmless (meta ++ es).
Proof.
  intros HU. apply Forall_app. split; [exact harmless_metadata|]. pose proof (tr_known _ _ _ _ _ _ _ T) as HK.
  apply Forall_forall. intros e He. destruct (proj1 (Forall_forall _ _) HK e He) as (Hin&(_&Hpl&_)&_).
  split; [by eapply (proj1 (Forall_forall _ _) HU)|done|done].
Qed.

Lemma trace_usual : Forall usual es -> Forall usual (meta ++ es).
Proof. intros HU. eapply Forall_impl; [by apply trace_harmless|]. by intros e []. Qed.

Lemma trace_announced : Forall usual es -> announced (meta ++ es).
Proof.
  intros HU. pose proof (trace_harmless HU) as HH. unfold announced. eapply Forall_impl; [exact HH|]. intros e [_ _ Hinfo] Hid.
  destruct (Hinfo Hid) as (k&Hk&Hn&Hz). exists (string_bytes (c_type_name (ktype k))), (klass_id k mod 2 ^ 32). split; [done|]. split; [done|].
  intros Hm. apply (string_bytes_inj _ mapping_name) in Hm. eapply Forall_impl; [exact HH|]. intros e' [_ Hin' _] Hid'.
  pose proof (tr_table _ _ _ _ _ _ _ T) as Tab. pose proof (tr_names _ _ _ _ _ _ _ T) as HN.
  destruct (proj1 (Forall_forall _ _) HN k Hk) as ([? ?]&_). rewrite Zmod_mod, Z.mod_small in Hid' by done.
  apply list_elem_of_lookup_1 in Hin' as [i Hi], Hk as [j Hj].
  rewrite (kt_ids _ Tab _ _ Hi), (kt_ids _ Tab _ _ Hj) in Hid'. assert (i = j) as -> by lia. congruence.
Qed.

End metadata.
