(* ===== verification/ClientMain.v ===== *)
(** The client program (client/main.cpp): the command line, the source of the
    trace, the reader with the converter as its listener, and the files that
    are left; and how the main thread waits for the reader
    (ProtocolReader::wait_for_complete).

    The files are a map from names to contents.  A file is truncated when it
    is opened for writing, and holds what was written to it once it is
    closed.  What is printed is not modelled. *)
From stdpp Require Import pretty.
From S2P Require Import TcpClient Prelude Alloc BaseTypes Memory Bag Events ListenerBuffer Listeners Registry Timeline FileDump Endian Parser Reader Decode RoundTrip EndToEnd Client CallGraph Callgrind CommandLine Convertible TcpServer TcpListener.

#[local] Open Scope Z_scope.
#[local] Arguments string_bytes : simpl never.

Abbreviation files := (gmap bytes bytes).

Definition files_on (d : files) : Files := {| file_contents name := d !! name |}.

(** What becomes of a connection: the chunks that arrive on it until the
    client ends, whether a reader that has read them all learns that the
    connection has ended (it does not while the connection stays open, nor when
    the end is missed, see [end_can_be_missed]), and whether the recv of the
    receiving thread returns once the client wants to stop (because more is sent
    or the connection ends). *)
Record connection := MkConnection { arrives : TcpClient.chunks; end_seen : bool; recv_ends : bool }.

(** What the program finds: which files can be written, strftime with the
    local time, the descriptor that socket() gives, what connect() answers to
    each attempt and what becomes of the connection, and the number of events
    the reader has read when it sees that Enter was hit.  A format without
    conversions is copied. *)
Class Desktop := {
  can_write : bytes -> bool;
  strftime_now : bytes -> bytes;
  strftime_plain : forall path, 37 ∉ path -> strftime_now path = path;
  socket_fd : Z;
  connect_answer : bytes -> Z -> nat -> Z;
  connection_to : bytes -> Z -> connection;
  enter_after : nat
}.

(** ** The formats *)

Inductive AnyConverter := Chrome (c : ChromeTraceConverter) | Callgrind (c : CallgrindConverter).

(** std::string::compare. *)
Fixpoint compare_strings (a b : bytes) : comparison :=
  match a, b with
  | [], [] => Eq
  | [], _ => Lt
  | _, [] => Gt
  | x :: a, y :: b => match x ?= y with Eq => compare_strings a b | o => o end
  end.

(** The std::map from names to converters, in the order of the names. *)
Abbreviation formats_map := (list (bytes * AnyConverter)).

(** formats[name] = converter. *)
Fixpoint set_format (name : bytes) (c : AnyConverter) (formats : formats_map) : formats_map :=
  match formats with
  | [] => [(name, c)]
  | (other, c') :: rest =>
      match compare_strings name other with
      | Lt => (name, c) :: formats
      | Eq => (name, c) :: rest
      | Gt => (other, c') :: set_format name c rest
      end
  end.

Fixpoint find_format (name : bytes) (formats : formats_map) : option AnyConverter :=
  match formats with
  | [] => None
  | (other, c) :: rest => if decide (other = name) then Some c else find_format name rest
  end.

Fixpoint supported_formats (formats : formats_map) : bytes :=
  match formats with
  | [] => []
  | (name, _) :: rest => name ++ string_bytes " " ++ supported_formats rest
  end.

Definition init_supported_formats (formats : formats_map) : formats_map :=
  set_format (string_bytes "callgrind") (Callgrind (MkCallgrind new_converter [] ∅))
    (set_format (string_bytes "chrome-tracing") (Chrome (MkChrome new_converter None false)) formats).

(** A buffer of 128 bytes: of a longer name strftime leaves nothing that is
    known. *)
Definition create_output_path `{Desktop} (path : bytes) : option bytes :=
  let name := strftime_now path in if decide (length name < 128)%nat then Some name else None.

(** ** The converters behind the interface *)

Section interface.
  Context `{Platform} `{UnorderedMap} `{Sort} `{Desktop}.

(** init(file_name): whether it succeeded, the converter and the files. *)
Definition converter_init (file_name : bytes) (c : AnyConverter) (d : files) : bool * AnyConverter * files :=
  match c with
  | Chrome c =>
      let '(ok, c) := chrome_init (can_write file_name) c in
      (ok, Chrome c, if ok then <[file_name := []]> d else d)
  | Callgrind c => let '(ok, c) := callgrind_init file_name c in (ok, Callgrind c, d)
  end.

Definition converter_process_event (event : parser_Event) (c : AnyConverter) : option AnyConverter :=
  match c with
  | Chrome c => Chrome <$> chrome_process_event event c
  | Callgrind c => Callgrind <$> callgrind_process_event event c
  end.

(** The map that a converter has from its construction on is never null. *)
Definition set_tracepoint_map (depth : nat) (map_files : bytes) (c : AnyConverter) (d : files) : outcome (bool * AnyConverter) :=
  let load b :=
    match @load_maps (files_on d) depth (S (length map_files)) map_files (_tracepoint_map b) with
    | Done m => Done (MkConverter m (_mapping_klass_id b))
    | Undef => Undef
    | NoFuel => NoFuel
    end in
  match c with
  | Chrome c => match load (chrome_base c) with
                | Done b => Done (true, Chrome (MkChrome b (_file c) (_first_event_saved c)))
                | Undef => Undef
                | NoFuel => NoFuel
                end
  | Callgrind c => match load (cg_base c) with
                   | Done b => Done (true, Callgrind (MkCallgrind b (_file_name c) (_events c)))
                   | Undef => Undef
                   | NoFuel => NoFuel
                   end
  end.

Definition write_files (new : list (bytes * bytes)) (d : files) : files :=
  foldl (fun d nf => <[nf.1 := nf.2]> d) d new.

(** stop() of a converter that was given [file_name] by init. *)
Definition converter_stop (fuel : nat) (file_name : bytes) (c : AnyConverter) (d : files) : outcome (AnyConverter * files) :=
  match c with
  | Chrome c =>
      let '(text, c) := chrome_stop c in
      Done (Chrome c, match text with Some text => <[file_name := text]> d | None => d end)
  | Callgrind c =>
      match callgrind_stop can_write fuel c with
      | Done new => Done (Callgrind c, write_files new d)
      | Undef => Undef
      | NoFuel => NoFuel
      end
  end.

(** The destructor: only the Chrome converter stops. *)
Definition converter_delete (file_name : bytes) (c : AnyConverter) (d : files) : files :=
  match c with
  | Chrome c => match (chrome_stop c).1 with Some text => <[file_name := text]> d | None => d end
  | Callgrind _ => d
  end.

(** The listener of the reader; [None] once the converter threw, which ends
    the program. *)
#[export] Instance converting : EventListener (option AnyConverter) :=
  {| on_new_event event c := c ≫= converter_process_event event |}.

(** ** The reader *)

Context `{CharType}.

(** Everything between reader.start() and the end of the reader's thread:
    what the converter has become; [None] if the stream did not start.  A file
    is read to its end, and main then comes back from wait_for_complete (the
    threads and what can go wrong there are in [wait_step] below).  The stream
    of a connection waits for its server: start() tries to connect until it is
    answered, here [fuel] times at most; stop() is called when Enter is hit. *)
Definition run_reader (depth fuel : nat) (src : source) (c : AnyConverter) (d : files) : outcome (option (option AnyConverter)) :=
  match src with
  | FileSource name =>
      match d !! name with
      | None => Done None
      | Some content =>
          match start_and_wait depth fuel (new_reader KlassRegister (open_stream content) true (Some c)) with
          | Done (_, r) => Done (Some (_listeners r))
          | Undef => Undef
          | NoFuel => NoFuel
          end
      end
  | TcpSource ip port =>
      match TcpClient.start true socket_fd (connect_answer ip port <$> seq 0 fuel) TcpClient.new_stream with
      | None => NoFuel
      | Some (false, _) => Done None
      | Some (true, _) =>
          let con := connection_to ip port in
          match start_and_stop (fun a => starved a && negb (end_seen con)) (fun _ => recv_ends con) depth enter_after
                  (new_reader KlassRegister (Arriving (arrives con) false) true (Some c)) with
          | Done (_, r) => Done (Some (_listeners r))
          | Undef => Undef
          | NoFuel => NoFuel
          end
      end
  end.

(** ** main *)

Definition option_info (flag mandatory : bool) (help : bytes) : OptionInfo := MkOptionInfo help flag mandatory.

Definition register_options (formats : formats_map) (p : CommandLineParser) : CommandLineParser :=
  register_option (string_bytes "help") (option_info true false (string_bytes "Print this help"))
    (register_option (string_bytes "map") (option_info false false (string_bytes "Comma-separated list of map files"))
    (register_option (string_bytes "source") (option_info false true
       (string_bytes "Data source description (either filename, or server address)"))
    (register_option (string_bytes "output") (option_info false false (string_bytes "Output file"))
    (register_option (string_bytes "format") (option_info false false
       (string_bytes "Output format. Supported formats: " ++ supported_formats formats)) p)))).

(** What follows once the converter and its output file are chosen; [NoFuel]
    also if the program never ends. *)
Definition convert (depth fuel : nat) (src : source) (map_files out_file : bytes) (c : AnyConverter) (d : files) : outcome (Z * files) :=
  let '(opened, c, d) := converter_init out_file c d in
  if (opened : bool) then
    match (match map_files with [] => Done (true, c) | _ => set_tracepoint_map depth map_files c d end) with
    | Done (_, c) =>
        match run_reader depth fuel src c d with
        | Done None => Done (1, converter_delete out_file c d)
        | Done (Some None) => Undef
        | Done (Some (Some c)) =>
            match converter_stop fuel out_file c d with
            | Done (c, d) => Done (0, converter_delete out_file c d)
            | Undef => Undef
            | NoFuel => NoFuel
            end
        | Undef => Undef
        | NoFuel => NoFuel
        end
    | Undef => Undef
    | NoFuel => NoFuel
    end
  else Done (1, d).

(** main for the arguments after the name of the program: the exit code and
    the files.  [depth] bounds the nesting of events and the length of the
    map files, [fuel] the number of events. *)
Definition main (depth fuel : nat) (args : list bytes) (d : files) : outcome (Z * files) :=
  let formats := init_supported_formats [] in
  let '(ok, p) := parse args (register_options formats (new_parser (string_bytes "--"))) in
  if negb ok || has_option_value (string_bytes "help") p then Done (1, d)
  else
    let format := get_option_value (string_bytes "format") (string_bytes "chrome-tracing") p in
    let output_path := get_option_value (string_bytes "output") (string_bytes "hawktracer-trace-%d-%m-%Y-%H_%M_%S.httrace") p in
    let src := get_option_value (string_bytes "source") [] p in
    let map_files := get_option_value (string_bytes "map") [] p in
    match @make_stream_from_string (files_on d) src with
    | None => Done (1, d)
    | Some stream =>
        match create_output_path output_path with
        | None => Undef
        | Some out_file =>
            match find_format format formats with
            | None => Done (1, d)
            | Some c => convert depth fuel stream map_files out_file c d
            end
        end
    end.

End interface.

(** ** What a command line asks for *)

Section request.
  Context `{UnorderedMap}.

Definition client_options : gmap bytes OptionInfo :=
  _registered_options (register_options (init_supported_formats []) (new_parser (string_bytes "--"))).

(** The options that were given are [items]. *)
Record asks_with (items : list item) (format src output map_files : bytes) : Prop := {
  ask_items : Forall (item_ok client_options) items;
  ask_no_help : values_of items ∅ !! string_bytes "help" = None;
  ask_source : values_of items ∅ !! string_bytes "source" = Some src;
  ask_format : default (string_bytes "chrome-tracing") (values_of items ∅ !! string_bytes "format") = format;
  ask_output : default (string_bytes "hawktracer-trace-%d-%m-%Y-%H_%M_%S.httrace") (values_of items ∅ !! string_bytes "output") = output;
  ask_maps : default [] (values_of items ∅ !! string_bytes "map") = map_files
}.

Definition asks (args : list bytes) (format src output map_files : bytes) : Prop :=
  exists items, args = items ≫= spell (string_bytes "--") /\ asks_with items format src output map_files.

Lemma mandatory_source m : mandatory_given client_options m <-> is_Some (m !! string_bytes "source").
Proof.
  unfold mandatory_given. split.
  - intros Hm. by apply (Hm _ _ (eq_refl (client_options !! string_bytes "source"))).
  - intros Hs. assert (map_Forall (fun o info => is_mandatory info = true -> o = string_bytes "source") client_options) as Ho.
    { apply (bool_decide_unpack _). vm_compute. exact I. }
    intros o info Hi Hm. by rewrite (Ho o info Hi Hm).
Qed.

Lemma parse_spelled items : Forall (item_ok client_options) items ->
  parse (items ≫= spell (string_bytes "--")) (register_options (init_supported_formats []) (new_parser (string_bytes "--"))) =
  (_validate_user_options (MkParser client_options (values_of items ∅) (string_bytes "--")),
   MkParser client_options (values_of items ∅) (string_bytes "--")).
Proof.
  intros HF. unfold parse. set (p0 := register_options _ _). pose proof (parse_loop_spell items p0 HF) as E.
  change (_prefix p0) with (string_bytes "--") in E. by rewrite E.
Qed.

Lemma asks_dec args : (exists f s o m, asks args f s o m) \/
  (forall f s o m, ~ asks args f s o m) /\
  (let '(ok, p) := parse args (register_options (init_supported_formats []) (new_parser (string_bytes "--"))) in
   negb ok || has_option_value (string_bytes "help") p = true).
Proof.
  unfold parse. set (p0 := register_options _ _). destruct (parse_loop args p0) as [[|] p1] eqn:E.
  - destruct (parse_loop_true _ _ _ E) as (items&->&HF). change (_prefix p0) with (string_bytes "--") in *.
    change (_registered_options p0) with client_options in HF. pose proof (parse_loop_spell items p0 HF) as E1.
    change (_prefix p0) with (string_bytes "--") in E1. rewrite E in E1. injection E1 as ->.
    assert (Hu : forall f s o m, asks (items ≫= spell (string_bytes "--")) f s o m -> asks_with items f s o m).
    { intros f s o m (items'&Ei&[HF' A1 A2 A3 A4 A5]). pose proof (parse_loop_spell items' p0 HF') as E2. change (_prefix p0) with (string_bytes "--") in E2.
      rewrite <- Ei, E in E2. injection E2 as E2. change (_actual_options p0) with (∅ : gmap bytes bytes) in E2. by rewrite <- E2 in *. }
    change (_actual_options p0) with (∅ : gmap bytes bytes). change (_registered_options p0) with client_options.
    destruct (_validate_user_options _) eqn:Ev; [apply validate_spec, mandatory_source in Ev as [s Es]|].
    + cbn [_actual_options] in Es. destruct (values_of items ∅ !! string_bytes "help") as [h|] eqn:Eh.
      * right. split; [intros f s' o m A; apply Hu in A as []; congruence|]. unfold has_option_value. cbn [_actual_options]. by rewrite Eh.
      * left. eexists _, s, _, _, items. split; [done|]. by split.
    + right. split; [|done]. intros f s o m A. apply Hu in A as [_ _ Es _ _ _]. apply not_true_iff_false in Ev. apply Ev, validate_spec, mandatory_source.
      cbn [_actual_options]. by eexists.
  - right. split; [|done]. intros f s o m (items&->&[HF _ _ _ _ _]). pose proof (parse_loop_spell items p0 HF) as E2.
    change (_prefix p0) with (string_bytes "--") in E2. by rewrite E in E2.
Qed.

End request.

Section spec.
  Context `{Platform} `{UnorderedMap} `{Sort} `{Desktop} `{CharType}.

(** main for a command line that asks for a conversion, and for any other. *)
Lemma main_asks depth fuel args d f s o m : asks args f s o m ->
  main depth fuel args d =
    match @make_stream_from_string (files_on d) s with
    | None => Done (1, d)
    | Some stream =>
        match create_output_path o with
        | None => Undef
        | Some out_file =>
            match find_format f (init_supported_formats []) with
            | None => Done (1, d)
            | Some c => convert depth fuel stream m out_file c d
            end
        end
    end.
Proof.
  intros (items&->&[HF Eh Es Ef Eo Em]). unfold main. rewrite parse_spelled by done.
  assert (_validate_user_options (MkParser client_options (values_of items ∅) (string_bytes "--")) = true) as ->.
  { apply validate_spec, mandatory_source. by eexists. }
  assert (forall k v, get_option_value k v (MkParser client_options (values_of items ∅) (string_bytes "--")) = default v (values_of items ∅ !! k)) as G.
  { intros k v. unfold get_option_value. cbn [_actual_options]. by destruct (values_of items ∅ !! k). }
  unfold has_option_value. cbn [_actual_options]. rewrite !G, Eh, Es, Ef, Eo, Em. done.
Qed.

Lemma main_unasked depth fuel args d : (forall f s o m, ~ asks args f s o m) -> main depth fuel args d = Done (1, d).
Proof.
  intros Hno. destruct (asks_dec args) as [(f&s&o&m&A)|[_ Hp]]; [by destruct (Hno f s o m)|].
  unfold main. destruct (parse args _) as [ok p]. by rewrite Hp.
Qed.

(** ** The map files *)

(** The names that the map files give, read from [d]. *)
Definition maps_loaded (depth : nat) (map_files : bytes) (d : files) (m : TracepointMap) : Prop :=
  match map_files with [] => m = ∅ | _ => @load_all (files_on d) depth (split_commas map_files) ∅ = Done m end.

(** A bound on the recursion that is enough for the files of [d]. *)
Definition deep_enough (depth : nat) (d : files) : Prop := map_Forall (fun _ content => (length content < depth)%nat) d.

Lemma deep_enough_truncated depth name d : (0 < depth)%nat -> deep_enough depth d -> deep_enough depth (<[name := []]> d).
Proof. intros Hp Hd. apply map_Forall_insert_2; [done|]. exact Hd. Qed.

Definition with_map (m : TracepointMap) (c : AnyConverter) : AnyConverter :=
  match c with
  | Chrome c => Chrome (MkChrome (MkConverter m 0) (_file c) (_first_event_saved c))
  | Callgrind c => Callgrind (MkCallgrind (MkConverter m 0) (_file_name c) (_events c))
  end.

Definition base_of (c : AnyConverter) : Converter := match c with Chrome c => chrome_base c | Callgrind c => cg_base c end.

Lemma set_maps depth map_files c d : base_of c = new_converter -> deep_enough depth d ->
  exists m, maps_loaded depth map_files d m /\
    match map_files with [] => Done (true, c) | _ => set_tracepoint_map depth map_files c d end = Done (true, with_map m c).
Proof.
  intros Hb Hd. destruct map_files as [|x map_files].
  { exists ∅. split; [done|]. by destruct c as [[b ? ?]|[b ? ?]]; simpl in *; subst. }
  destruct (@load_maps_loads_each (files_on d) depth (S (length (x :: map_files))) (x :: map_files) ∅) as (m&E&El);
    [lia|intros f l Hf; exact (Hd f l Hf)|]. exists m. split; [done|].
  unfold set_tracepoint_map. destruct c as [[b ? ?]|[b ? ?]]; cbn [base_of chrome_base cg_base] in *; subst; cbn [_tracepoint_map new_converter]; by rewrite E.
Qed.

(** ** When the program fails *)

Definition empty_document : bytes := document [].

(** Exit code 1, and what is then left of the files [d]. *)
Inductive refuses (args : list bytes) (d : files) : files -> Prop :=
| refuse_usage : (forall f s o m, ~ asks args f s o m) -> refuses args d d
| refuse_source f s o m : asks args f s o m -> @make_stream_from_string (files_on d) s = None -> refuses args d d
| refuse_format f s o m out : asks args f s o m -> is_Some (@make_stream_from_string (files_on d) s) -> create_output_path o = Some out ->
    f <> string_bytes "chrome-tracing" -> f <> string_bytes "callgrind" -> refuses args d d
| refuse_output s o m out : asks args (string_bytes "chrome-tracing") s o m -> is_Some (@make_stream_from_string (files_on d) s) ->
    create_output_path o = Some out -> can_write out = false -> refuses args d d
| refuse_socket_chrome s o m out ip port : asks args (string_bytes "chrome-tracing") s o m ->
    @make_stream_from_string (files_on d) s = Some (TcpSource ip port) -> create_output_path o = Some out -> can_write out = true ->
    socket_fd < 0 -> refuses args d (<[out := empty_document]> d)
| refuse_socket_callgrind s o m out ip port : asks args (string_bytes "callgrind") s o m ->
    @make_stream_from_string (files_on d) s = Some (TcpSource ip port) -> create_output_path o = Some out ->
    socket_fd < 0 -> refuses args d d.

Lemma find_format_cases f : find_format f (init_supported_formats []) =
  if decide (f = string_bytes "callgrind") then Some (Callgrind (MkCallgrind new_converter [] ∅))
  else if decide (f = string_bytes "chrome-tracing") then Some (Chrome (MkChrome new_converter None false)) else None.
Proof.
  change (init_supported_formats []) with [(string_bytes "callgrind", Callgrind (MkCallgrind new_converter [] ∅));
    (string_bytes "chrome-tracing", Chrome (MkChrome new_converter None false))]. cbn [find_format].
  repeat (case_decide; try congruence).
Qed.

Lemma file_source_exists d s name : @make_stream_from_string (files_on d) s = Some (FileSource name) -> is_Some (d !! name).
Proof.
  unfold make_stream_from_string. cbn [file_contents files_on]. destruct (d !! s) eqn:E; [intros [= <-]; by eexists|].
  by destruct (scan_ip_address s 8765) as [[ip port]|].
Qed.

(** The Chrome converter with the names of [m] and its file open. *)
Definition chrome_opened (m : TracepointMap) : ChromeTraceConverter := (chrome_init true (MkChrome (MkConverter m 0) None false)).2.

Lemma convert_chrome depth fuel src map_files out d : can_write out = true -> (0 < depth)%nat -> deep_enough depth d ->
  exists m, maps_loaded depth map_files (<[out := []]> d) m /\
    convert depth fuel src map_files out (Chrome (MkChrome new_converter None false)) d =
      match run_reader depth fuel src (Chrome (chrome_opened m)) (<[out := []]> d) with
      | Done None => Done (1, <[out := empty_document]> d)
      | Done (Some None) => Undef
      | Done (Some (Some c)) =>
          match converter_stop fuel out c (<[out := []]> d) with
          | Done (c, d) => Done (0, converter_delete out c d)
          | Undef => Undef
          | NoFuel => NoFuel
          end
      | Undef => Undef
      | NoFuel => NoFuel
      end.
Proof.
  intros Hw Hp Hd. set (c := Chrome (chrome_init true (MkChrome new_converter None false)).2).
  destruct (set_maps depth map_files c (<[out := []]> d)) as (m&Hm&E); [done|by apply deep_enough_truncated|]. exists m. split; [done|].
  unfold convert, converter_init. rewrite Hw. change (chrome_init true (MkChrome new_converter None false)) with
    (true, (chrome_init true (MkChrome new_converter None false)).2). cbn beta iota zeta. fold c. rewrite E.
  change (with_map m c) with (Chrome (chrome_opened m)).
  assert (converter_delete out (Chrome (chrome_opened m)) (<[out := []]> d) = <[out := empty_document]> d) as ->; [|done].
  unfold converter_delete. change (chrome_stop (chrome_opened m)).1 with (Some empty_document). cbn iota beta. by rewrite insert_insert_eq.
Qed.

Lemma convert_callgrind depth fuel src map_files out d : deep_enough depth d ->
  exists m, maps_loaded depth map_files d m /\
    convert depth fuel src map_files out (Callgrind (MkCallgrind new_converter [] ∅)) d =
      match run_reader depth fuel src (Callgrind (MkCallgrind (MkConverter m 0) out ∅)) d with
      | Done None => Done (1, d)
      | Done (Some None) => Undef
      | Done (Some (Some c)) =>
          match converter_stop fuel out c d with
          | Done (c, d) => Done (0, converter_delete out c d)
          | Undef => Undef
          | NoFuel => NoFuel
          end
      | Undef => Undef
      | NoFuel => NoFuel
      end.
Proof.
  intros Hd. set (c := Callgrind (MkCallgrind new_converter out ∅)).
  destruct (set_maps depth map_files c d) as (m&Hm&E); [done|done|]. exists m. split; [done|].
  unfold convert, converter_init, callgrind_init. cbn beta iota zeta. cbn [cg_base _events]. fold c. rewrite E. done.
Qed.

(** start() of the client's stream: an attempt is answered, or not. *)
Definition connects (fuel : nat) (ip : bytes) (port : Z) : Prop := exists n, (n < fuel)%nat /\ 0 <= connect_answer ip port n.

Lemma connect_wait_answered l : connect_wait l = if decide (Exists (fun r => 0 <= r) l) then Some tt else None.
Proof.
  induction l as [|r l IH]; [by rewrite decide_False by inversion 1|]. cbn [connect_wait]. destruct (Z.ltb_spec r 0).
  - rewrite IH. destruct (decide (Exists _ l)) as [E|E]; [by rewrite decide_True by (by right)|].
    rewrite decide_False; [done|]. intros E'. apply Exists_cons in E' as [?|?]; [lia|done].
  - by rewrite decide_True by (by left).
Qed.

Lemma start_connects fuel ip port : 0 <= socket_fd -> connects fuel ip port ->
  TcpClient.start true socket_fd (connect_answer ip port <$> seq 0 fuel) TcpClient.new_stream = Some (true, TcpClient.started socket_fd).
Proof.
  intros Hfd (n&Hn&Ha). unfold TcpClient.start. destruct (Z.ltb_spec socket_fd 0); [lia|]. rewrite connect_wait_answered, decide_True; [done|].
  apply Exists_fmap, Exists_exists. exists n. split; [apply elem_of_seq; lia|exact Ha].
Qed.

Lemma start_waits fuel ip port : 0 <= socket_fd -> ~ connects fuel ip port ->
  TcpClient.start true socket_fd (connect_answer ip port <$> seq 0 fuel) TcpClient.new_stream = None.
Proof.
  intros Hfd Hno. unfold TcpClient.start. destruct (Z.ltb_spec socket_fd 0); [lia|]. rewrite connect_wait_answered, decide_False; [done|].
  intros (r&(n&->&Hn)%list_elem_of_fmap&Ha)%Exists_exists. apply Hno. exists n. split; [apply elem_of_seq in Hn; lia|exact Ha].
Qed.

(** Once the source is found, only a socket that cannot be made keeps the
    reader from starting. *)
Lemma run_reader_not_started depth fuel d s src c d' : @make_stream_from_string (files_on d) s = Some src -> dom d ⊆ dom d' ->
  run_reader depth fuel src c d' = Done None <-> exists ip port, src = TcpSource ip port /\ socket_fd < 0.
Proof.
  intros Hs Hdom. split.
  - destruct src as [name|ip port]; cbn [run_reader].
    + apply file_source_exists, elem_of_dom, Hdom, elem_of_dom in Hs as [content ->]. by destruct (start_and_wait _ _ _) as [[[] r]| |].
    + unfold TcpClient.start. destruct (Z.ltb_spec socket_fd 0); [by exists ip, port|].
      destruct (connect_wait _); cbn [mbind option_bind]; [|done]. by destruct (start_and_stop _ _ _ _ _) as [[[] r]| |].
  - intros (ip&port&->&Hfd). cbn [run_reader]. unfold TcpClient.start. by destruct (Z.ltb_spec socket_fd 0); [|lia].
Qed.

Lemma run_reader_waits depth fuel ip port c d : 0 <= socket_fd -> ~ connects fuel ip port -> run_reader depth fuel (TcpSource ip port) c d = NoFuel.
Proof. intros Hfd Hno. cbn [run_reader]. by rewrite start_waits. Qed.

(** The exit code of a conversion that started is 0. *)
Lemma convert_fails depth fuel src s map_files out d d' : @make_stream_from_string (files_on d) s = Some src ->
  (0 < depth)%nat -> deep_enough depth d ->
  convert depth fuel src map_files out (Chrome (MkChrome new_converter None false)) d = Done (1, d') <->
    (can_write out = false /\ d' = d) \/
    (can_write out = true /\ d' = <[out := empty_document]> d /\ exists ip port, src = TcpSource ip port /\ socket_fd < 0).
Proof.
  intros Hs Hp Hd. destruct (can_write out) eqn:Hw.
  - destruct (convert_chrome depth fuel src map_files out d Hw Hp Hd) as (m&_&->).
    assert (dom d ⊆ dom (<[out := []]> d)) as Hdom by set_solver.
    pose proof (run_reader_not_started depth fuel d s src (Chrome (chrome_opened m)) (<[out := []]> d) Hs Hdom) as R.
    split.
    + destruct (run_reader _ _ _ _ _) as [[[c1|]|]| |]; try done; [by destruct (converter_stop _ _ _ _) as [[? ?]| |]|].
      intros [= <-]. right. split_and!; try done. by apply R.
    + intros [[[=] _]|(_&->&Hno)]. apply R in Hno. by rewrite Hno.
  - unfold convert, converter_init. rewrite Hw. cbn. split; [intros [= <-]; by left|]. by intros [[_ ->]|[[=] _]].
Qed.

Lemma convert_callgrind_fails depth fuel src s map_files out d d' : @make_stream_from_string (files_on d) s = Some src -> deep_enough depth d ->
  convert depth fuel src map_files out (Callgrind (MkCallgrind new_converter [] ∅)) d = Done (1, d') <->
    d' = d /\ exists ip port, src = TcpSource ip port /\ socket_fd < 0.
Proof.
  intros Hs Hd. destruct (convert_callgrind depth fuel src map_files out d Hd) as (m&_&->).
  pose proof (run_reader_not_started depth fuel d s src (Callgrind (MkCallgrind (MkConverter m 0) out ∅)) d Hs (reflexivity _)) as R. split.
  - destruct (run_reader _ _ _ _ _) as [[[c1|]|]| |]; try done; [by destruct (converter_stop _ _ _ _) as [[? ?]| |]|].
    intros [= <-]. split; [done|]. by apply R.
  - intros [-> Hno]. apply R in Hno. by rewrite Hno.
Qed.

End spec.

(** C10: when the client fails.  The exit code is 1 exactly when the command
    line is refused (an unknown option, a value or the source missing, or
    help asked for), the source is neither a file nor an address, the format
    is unknown, the output cannot be opened, or the source is an address and
    no socket can be made; in all these cases the files stay as they were, but for
    the last one, in which a Chrome document without events is written.  A server
    that does not answer is not among them: as long as it does not, the client
    does not end. *)
Theorem client_fails_exactly `{Platform} `{UnorderedMap} `{Sort} `{Desktop} `{CharType} depth fuel args d :
  (0 < depth)%nat -> deep_enough depth d ->
  (forall d', main depth fuel args d = Done (1, d') <-> refuses args d d') /\
  (forall f s o m out ip port, asks args f s o m -> @make_stream_from_string (files_on d) s = Some (TcpSource ip port) ->
     create_output_path o = Some out -> f = string_bytes "callgrind" \/ f = string_bytes "chrome-tracing" /\ can_write out = true ->
     0 <= socket_fd -> ~ connects fuel ip port -> main depth fuel args d = NoFuel).
Proof.
  intros Hp Hd. split; [intros d'; split|].
  - intros E. destruct (asks_dec args) as [(f&s&o&m&A)|[Hno _]]; [|rewrite main_unasked in E by done; injection E as <-; by constructor].
    rewrite (main_asks _ _ _ _ _ _ _ _ A) in E. destruct (make_stream_from_string s) as [src|] eqn:Es; [|injection E as <-; by eapply refuse_source].
    destruct (create_output_path o) as [out|] eqn:Eo; [|done]. rewrite find_format_cases in E. case_decide as Hcg; [|case_decide as Hch].
    + subst f. apply (convert_callgrind_fails _ _ _ s) in E as [-> (ip&port&->&Hno)]; [|done|done]. by eapply refuse_socket_callgrind.
    + subst f. apply (convert_fails _ _ _ s) in E as [[Hw ->]|(Hw&->&ip&port&->&Hno)]; [..|done|done|done].
      * eapply refuse_output; [exact A|by rewrite Es|done|done].
      * by eapply refuse_socket_chrome.
    + injection E as <-. eapply refuse_format; [exact A|by rewrite Es|done|done|done].
  - intros R. destruct R as [Hno|f s o m A Es|f s o m out A [src Es] Eo Hch Hcg|s o m out A [src Es] Eo Hw|s o m out ip port A Es Eo Hw Hno|s o m out ip port A Es Eo Hno];
      [by apply main_unasked|..]; rewrite (main_asks _ _ _ _ _ _ _ _ A), Es; [done|..]; rewrite Eo, find_format_cases.
    + by rewrite !decide_False.
    + apply (convert_fails _ _ _ s); try done. by left.
    + apply (convert_fails _ _ _ s); try done. right. split_and!; try done. by exists ip, port.
    + apply (convert_callgrind_fails _ _ _ s); try done. split; [done|]. by exists ip, port.
  - intros f s o m out ip port A Es Eo Hf Hfd Hno. rewrite (main_asks _ _ _ _ _ _ _ _ A), Es, Eo, find_format_cases. destruct Hf as [->|[-> Hw]].
    + rewrite decide_True by done. destruct (convert_callgrind depth fuel (TcpSource ip port) m out d Hd) as (m'&_&->). by rewrite run_reader_waits.
    + rewrite decide_False, decide_True by done. destruct (convert_chrome depth fuel (TcpSource ip port) m out d Hw Hp Hd) as (m'&_&->).
      by rewrite run_reader_waits.
Qed.

(** ** The documents that are written *)

Section documents.
  Context `{Platform} `{UnorderedMap} `{Sort} `{Desktop} `{CharType}.

(** The document for the events [evs] with the names of [m]; [None] if a
    value that is needed is missing or of another type. *)
Definition chrome_text (evs : list parser_Event) (m : TracepointMap) : option bytes :=
  '(ls, _) ← run_labels ref_label evs (MkLabels (map_label <$> m) 0);
  entries ← mapM json_of (labelled evs ls); Some (document entries).

Lemma converting_none evs : foldl (fun c ev => on_new_event ev c) (None : option AnyConverter) evs = None.
Proof. by induction evs as [|e evs IH]. Qed.

Lemma converting_chrome evs c :
  foldl (fun c ev => on_new_event ev c) (Some (Chrome c)) evs = Chrome <$> chrome_run evs c.
Proof.
  revert c. induction evs as [|e evs IH]; intros c; [done|]. cbn [foldl chrome_run on_new_event converting mbind option_bind converter_process_event].
  destruct (chrome_process_event e c) as [c'|]; cbn [fmap option_fmap option_map mbind option_bind]; [apply IH|apply converting_none].
Qed.

Lemma chrome_run_open evs c c' : is_Some (_file c) -> chrome_run evs c = Some c' -> is_Some (_file c').
Proof.
  revert c. induction evs as [|e evs IH]; intros c Ho E; [by injection E as <-|]. cbn [chrome_run] in E.
  destruct (chrome_process_event e c) as [c1|] eqn:E1; [|done]. apply (IH c1); [|done]. unfold chrome_process_event in E1. destruct Ho as [text Ht].
  destruct (_get_label e (chrome_base c)) as [[[|b l] base]|]; [by simplify_eq/=|cbn [mbind option_bind] in E1|done].
  cbn [_first_event_saved _file chrome_base] in E1.
  destruct (get_value_or_default 8 _ _ e); [|done]. destruct (get_value_or_default 4 _ _ e); [|done]. destruct (_get_args e); [|done].
  cbn [mbind option_bind] in E1. injection E1 as <-. unfold write. cbn [_file]. destruct (_first_event_saved c); cbn [_file]; rewrite Ht; by eexists.
Qed.

(** The end of main, once the reader has handed [evs] to the converter. *)
Lemma chrome_ends fuel out d evs m :
  match foldl (fun c ev => on_new_event ev c) (Some (Chrome (chrome_opened m))) evs with
  | None => Undef
  | Some c =>
      match converter_stop fuel out c d with
      | Done (c, d) => Done (0, converter_delete out c d)
      | Undef => Undef
      | NoFuel => NoFuel
      end
  end = match chrome_text evs m with Some text => Done (0, <[out := text]> d) | None => Undef end.
Proof.
  rewrite converting_chrome. pose proof (chrome_document evs m) as E. fold (chrome_opened m) in E. fold (chrome_text evs m) in E.
  destruct (chrome_run evs (chrome_opened m)) as [c|] eqn:Er; cbn [mbind option_bind] in E; [|by rewrite <- E].
  apply chrome_run_open in Er as [text Et]; [|by eexists]. cbn [fmap option_fmap option_map converter_stop].
  unfold chrome_stop in *. rewrite Et in *. cbn [fst] in E. by rewrite <- E.
Qed.

Lemma chrome_text_total es evs k m : Forall2 decodes es evs -> Forall usual es -> announced es -> is_Some (chrome_text (take k evs) m).
Proof.
  intros HF HU Ha. destruct (conversion_total json_of es evs k (map_label <$> m) json_of_total HF HU Ha) as [entries E]. unfold chrome_text.
  destruct (run_labels ref_label _ _) as [[ls s]|]; [|done]. cbn [mbind option_bind] in *. rewrite E. by eexists.
Qed.

End documents.

(** ** From the program that is traced to the document *)

Section reading.
  Context `{Platform} `{UnorderedMap} `{Sort} `{Desktop} `{CharType}.

(** The client on a file that is read as the events [es]. *)
Lemma main_reads_file depth fuel args d src o out map_files file kl es :
  asks args (string_bytes "chrome-tracing") src o map_files -> d !! src = Some file -> create_output_path o = Some out ->
  can_write out = true -> out <> src -> deep_enough depth d -> (enough_depth es <= depth)%nat -> (length es < fuel)%nat ->
  (forall c : option AnyConverter, reads_back _ kl es (open_stream file) c) ->
  exists evs m, Forall2 decodes es evs /\ maps_loaded depth map_files (<[out := []]> d) m /\
    main depth fuel args d = match chrome_text evs m with Some text => Done (0, <[out := text]> d) | None => Undef end.
Proof.
  intros A Hf Ho Hw Hne Hd Hdep Hfu Hr. assert (0 < depth)%nat as Hp by (unfold enough_depth in Hdep; lia).
  rewrite (main_asks depth fuel _ d _ _ _ _ A).
  unfold make_stream_from_string. cbn [file_contents files_on]. rewrite Hf, Ho, find_format_cases. rewrite decide_False by done. rewrite decide_True by done.
  destruct (convert_chrome depth fuel (FileSource src) map_files out d Hw Hp Hd) as (m&Hm&->).
  unfold run_reader. rewrite lookup_insert_ne, Hf by done.
  pose proof (Hr (Some (Chrome (chrome_opened m))) depth fuel Hdep Hfu) as W. unfold wp in W.
  destruct (start_and_wait _ _ _) as [[[] r]| |]; [|done|done]. destruct W as (_&(evs&HF&El)&_). exists evs, m. split; [done|]. split; [done|].
  rewrite El. pose proof (chrome_ends fuel out (<[out := []]> d) evs m) as En.
  destruct (foldl _ _ evs) as [c|]; rewrite En; destruct (chrome_text evs m); try done; by rewrite insert_insert_eq.
Qed.

(** Whether the client ends on a connection with [n] events: stop() returns. *)
Definition client_ends (con : connection) (n : nat) : bool := recv_ends con && (end_seen con || bool_decide (enter_after <= n)%nat).

(** The client on a connection that is read as the events [es], until Enter
    is hit. *)
Lemma main_reads_connection depth fuel args d src o out map_files ip port es :
  let con := connection_to ip port in
  asks args (string_bytes "chrome-tracing") src o map_files -> @make_stream_from_string (files_on d) src = Some (TcpSource ip port) ->
  0 <= socket_fd -> connects fuel ip port -> create_output_path o = Some out -> can_write out = true -> deep_enough depth d ->
  (enough_depth es <= depth)%nat ->
  (forall c : option AnyConverter, reads_until _ es (end_seen con) (recv_ends con) enter_after (arrives con) c) ->
  exists evs m, Forall2 decodes es evs /\ maps_loaded depth map_files (<[out := []]> d) m /\
    main depth fuel args d =
      if client_ends con (length es)
      then match chrome_text (take enter_after evs) m with Some text => Done (0, <[out := text]> d) | None => Undef end
      else NoFuel.
Proof.
  intros con A Hs Hfd Hcon Ho Hw Hd Hdep Hr. assert (0 < depth)%nat as Hp by (unfold enough_depth in Hdep; lia).
  rewrite (main_asks depth fuel _ d _ _ _ _ A), Hs, Ho, find_format_cases. rewrite decide_False by done. rewrite decide_True by done.
  destruct (convert_chrome depth fuel (TcpSource ip port) map_files out d Hw Hp Hd) as (m&Hm&->).
  unfold run_reader. rewrite start_connects by done. fold con.
  destruct (Hr (Some (Chrome (chrome_opened m))) depth Hdep) as (evs&HF&W). exists evs, m. split; [done|]. split; [done|].
  unfold client_ends. cbn zeta in W. destruct (recv_ends con && _); [|by rewrite W].
  destruct W as (r&->&_&El). rewrite El. pose proof (chrome_ends fuel out (<[out := []]> d) (take enter_after evs) m) as En.
  destruct (foldl _ _ (take enter_after evs)) as [c|]; rewrite En; destruct (chrome_text (take enter_after evs) m); try done; by rewrite insert_insert_eq.
Qed.

End reading.

Section file_to_document.
  Context `{Malloc} `{Stdio} {E : Type} `{Host E} `{UnorderedMap} `{Sort} `{Desktop} `{CharType}.
  Context (consumer producer : Platform).
  #[local] Existing Instance producer.
  #[local] Existing Instance all_bytes.

(** C7: from the program that is traced to the document.  A program hands
    batches of events, of any klasses the parser can read, to a file
    listener, from its creation to its destruction; the fields that the
    client knows by name have the types it expects.  Unless the listener could
    not be created, the client, started with this file as its source on a
    machine of either byte order, exits with code 0 and leaves in its output
    file the document of these events, as the reference gives it (the
    metadata and every event in order, with the klasses and values with which they
    were pushed, and with the names of the map files); no other file is changed.
    (That is, where wait_for_complete does not miss the end of the reader, which
    [wait_step] below is about.) *)
Theorem file_to_document filename n (ess : list (bool * list pushed)) (w : io_state E) B K F Y ps kl :
  io_wf w -> metadata_ready (io_sys w) B K F Y ps -> FileDump.reliable -> 0 < n ->
  Forall (batch_ok (klasses (io_sys w)) n) (batches_of ess) -> traceable producer (io_sys w) ps kl (events_in ess) -> Forall usual (events_in ess) ->
  wp (file_dump_lifetime filename n (FdBatch <$> batches_of ess)) (fun r w' =>
    match r with
    | inl err => err = HT_ERR_OUT_OF_MEMORY \/ err = HT_ERR_CANT_OPEN_FILE
    | inr _ => exists meta file ch, metadata_events (io_sys w) ps meta /\ disk w' !! filename = Some ch /\ concat ch = Byte <$> file /\
        forall d args src o out map_files depth fuel,
          d !! src = Some file -> asks args (string_bytes "chrome-tracing") src o map_files -> create_output_path o = Some out ->
          can_write out = true -> out <> src -> deep_enough depth d ->
          (enough_depth (meta ++ events_in ess) <= depth)%nat -> (length (meta ++ events_in ess) < fuel)%nat ->
          exists evs m text, Forall2 decodes (meta ++ events_in ess) evs /\ maps_loaded depth map_files (<[out := []]> d) m /\
            @chrome_text consumer _ evs m = Some text /\ @main consumer _ _ _ _ depth fuel args d = Done (0, <[out := text]> d)
    end) w.
Proof.
  intros Wf MR Hrel Hn HF T HU. eapply wp_mono; [by eapply file_spec|].
  intros [err|[]] w'; [done|]. intros (meta&ch&Hev&Hok&Hd&Hc). exists meta, (stream_bytes (meta ++ events_in ess)), ch. split_and!; [done..|].
  intros d args src o out map_files depth fuel Hf A Ho Hw Hne Hdeep Hdep Hfu.
  destruct (@main_reads_file consumer _ _ _ _ depth fuel args d src o out map_files _ kl (meta ++ events_in ess) A Hf Ho Hw Hne Hdeep Hdep Hfu) as (evs&m&HD&Hm&Em).
  { intros c. eapply (traced_reads_back consumer producer (io_sys w) ps); [exact T|exact Hev|exact Hok|by split]. }
  pose proof (traceable_traced _ _ _ _ _ _ depth T Hev Hok Hdep) as Tr.
  destruct (@chrome_text_total consumer _ _ evs (length evs) m HD (trace_usual _ _ _ _ _ _ _ Tr HU) (trace_announced _ _ _ _ _ _ _ Tr HU)) as [text Et].
  rewrite take_ge in Et by done. exists evs, m, text. rewrite Em, Et. done.
Qed.

End file_to_document.

Section connection_to_document.
  Context `{Malloc} `{Sockets} {E : Type} `{Host E} `{ClientHost E} `{UnorderedMap} `{Sort} `{CharType}.
  Context (consumer producer : Platform).
  #[local] Existing Instance producer.

(** C8: the client on a live program.  A client connects to a running
    listener whose buffer is empty, and batches of events are pushed; the bytes
    it was sent, and nothing else, reach it in whatever chunks, and Enter is hit at
    any moment.  The client has then read a prefix of the metadata and of the events
    of whole batches.  If the receiving thread comes back from recv, and if the
    reader has not gone on to wait for an event that was not sent, or learns
    that the connection has ended, the client exits with code 0 and leaves the
    document of the events it had read, and no other file is changed; otherwise,
    as on a connection that stays open and idle, stop() waits for these threads and
    the client never ends. *)
Theorem connection_to_document (w : tcp_world E) fds fd (ess : list (bool * list pushed)) B K F Y ps kl :
  tl_rep w fds [] -> accepts w fds fd -> sent_to fd (tw_net w) = [] -> metadata_ready (net_sys (tw_net w)) B K F Y ps ->
  Forall (batch_ok (klasses (net_sys (tw_net w))) (buffer_size w)) (batches_of ess) ->
  traceable producer (net_sys (tw_net w)) ps kl (events_in ess) -> Forall usual (events_in ess) ->
  wp (tcp_listener_accept;; pushes (batches_of ess)) (fun _ w' => exists meta k bytes,
    metadata_events (net_sys (tw_net w)) ps meta /\ sent_to fd (tw_net w') = Byte <$> bytes /\
    forall (desk : Desktop) ip port d args src o out map_files depth fuel,
      let con := connection_to ip port in let es := meta ++ events_in (take k ess) in
      queue_ok (arrives con) -> unread (arrives con) = bytes -> 0 <= socket_fd -> connects fuel ip port ->
      asks args (string_bytes "chrome-tracing") src o map_files -> @make_stream_from_string (files_on d) src = Some (TcpSource ip port) ->
      create_output_path o = Some out -> can_write out = true -> deep_enough depth d -> (enough_depth es <= depth)%nat ->
      if recv_ends con && (end_seen con || bool_decide (enter_after <= length es)%nat)
      then exists evs m text, Forall2 decodes es evs /\ maps_loaded depth map_files (<[out := []]> d) m /\
        @chrome_text consumer _ (take enter_after evs) m = Some text /\
        @main consumer _ _ desk _ depth fuel args d = Done (0, <[out := text]> d)
      else @main consumer _ _ desk _ depth fuel args d = NoFuel) w.
Proof.
  intros R A Hs MR HF T HU. eapply wp_mono; [by eapply connection_spec|]. intros _ w' (meta&k&Hev&Hok&Hsent&_&T').
  exists meta, k, (stream_bytes (meta ++ events_in (take k ess))). split_and!; [done..|].
  intros desk ip port d args src o out map_files depth fuel con es Hq Hu Hfd Hcon Ha Hsrc Ho Hw Hdeep Hdep.
  destruct (@main_reads_connection consumer _ _ desk _ depth fuel args d src o out map_files ip port es Ha Hsrc Hfd Hcon Ho Hw Hdeep Hdep)
    as (evs&m&HD&Hm&Em).
  { intros c. eapply (traced_reads_until consumer producer (net_sys (tw_net w)) ps); [exact T'|exact Hev|exact Hok|by split]. }
  fold con in Em. unfold client_ends in Em. destruct (recv_ends con && _); [|exact Em].
  pose proof (traceable_traced _ _ _ _ _ _ depth T' Hev Hok Hdep) as Tr.
  assert (Forall usual (events_in (take k ess))) as HU'.
  { rewrite <- (take_drop k ess), events_in_app in HU. by apply Forall_app in HU as [? _]. }
  destruct (@chrome_text_total consumer _ _ evs enter_after m HD (trace_usual _ _ _ _ _ _ _ Tr HU') (trace_announced _ _ _ _ _ _ _ Tr HU')) as [text Et].
  exists evs, m, text. rewrite Em, Et. done.
Qed.

End connection_to_document.

(** ** The profiles of the threads *)

Section profiles.
  Context `{Platform} `{UnorderedMap} `{Sort} `{Desktop} `{CharType}.

(** The labelled events with their threads; [None] if a value that is needed
    is missing or of another type. *)
Definition client_calls (evs : list parser_Event) (m : TracepointMap) : option (list (Z * NodeData)) :=
  '(ls, _) ← run_labels ref_label evs (MkLabels (map_label <$> m) 0); mapM call_of (labelled evs ls).

(** The file of a thread with the calls [events]: its head and the graph. *)
Definition profile_text (fuel : nat) (thread : Z) (events : list NodeData) : outcome bytes :=
  match make fuel events new_call_graph with
  | Done (roots, g) => match print_roots (S fuel) g roots with Done text => Done (thread_head thread ++ text) | o => o end
  | Undef => Undef
  | NoFuel => NoFuel
  end.

Definition thread_file (out : bytes) (thread : Z) : bytes := out ++ string_bytes "." ++ to_string thread.

#[export] Instance to_string_inj : Inj (=) (=) to_string.
Proof. intros a b E. by apply string_bytes_inj, (inj pretty) in E. Qed.

#[export] Instance thread_file_inj out : Inj (=) (=) (thread_file out).
Proof. intros a b E. unfold thread_file in E. apply (inj (app _)), (inj (app _)) in E. by apply (inj to_string) in E. Qed.

Lemma converting_callgrind evs c :
  foldl (fun c ev => on_new_event ev c) (Some (Callgrind c)) evs = Callgrind <$> callgrind_run evs c.
Proof.
  revert c. induction evs as [|e evs IH]; intros c; [done|]. cbn [foldl callgrind_run on_new_event converting mbind option_bind converter_process_event].
  destruct (callgrind_process_event e c) as [c'|]; cbn [fmap option_fmap option_map mbind option_bind]; [apply IH|apply converting_none].
Qed.

(** One thread, and all of them. *)
Lemma write_thread_text fuel c thread events : small_thread fuel events ->
  if can_write (thread_file_name c thread) then
    exists text, profile_text fuel thread events = Done text /\ write_thread can_write fuel c thread events = Done [(thread_file_name c thread, text)]
  else write_thread can_write fuel c thread events = Done [].
Proof.
  intros Hs. destruct (write_thread_done can_write fuel c thread events Hs) as (files&E&Ef). unfold file_of in Ef. unfold write_thread, profile_text in *.
  destruct (make fuel events new_call_graph) as [[roots g]| |]; [|done|done]. destruct (can_write _); [|done].
  destruct (print_roots (S fuel) g roots) as [text| |]; [|done|done]. by eexists.
Qed.

Lemma write_threads_files fuel c l d : Forall (fun te => small_thread fuel te.2) l -> NoDup l.*1 ->
  exists files, write_threads can_write fuel c l = Done files /\
    (forall thread events, (thread, events) ∈ l -> can_write (thread_file_name c thread) = true ->
       exists text, profile_text fuel thread events = Done text /\ write_files files d !! thread_file_name c thread = Some text) /\
    forall name, (forall thread, thread ∈ l.*1 -> name <> thread_file_name c thread) -> write_files files d !! name = d !! name.
Proof.
  intros HF. revert d. induction HF as [|[thread events] l Hs HF IH]; intros d HN.
  { exists []. split_and!; [done|intros ? ? Hin; by apply not_elem_of_nil in Hin|done]. }
  cbn [fmap list_fmap fst] in HN. apply NoDup_cons in HN as [Hni HN]. pose proof (write_thread_text fuel c thread events Hs) as W. cbn [write_threads snd] in *.
  destruct (can_write (thread_file_name c thread)) eqn:Hw; [destruct W as (text&Et&->)|rewrite W].
  - destruct (IH (<[thread_file_name c thread := text]> d) HN) as (files&->&H1'&H2'). eexists. split; [done|].
    change (write_files ([(thread_file_name c thread, text)] ++ files) d) with (write_files files (<[thread_file_name c thread := text]> d)).
    assert (Ht : write_files files (<[thread_file_name c thread := text]> d) !! thread_file_name c thread = Some text).
    { rewrite H2'; [apply lookup_insert_eq|]. intros t Hin E. apply (inj (thread_file (_file_name c))) in E. by subst. }
    split.
    + intros t ev [E|Hin]%elem_of_cons Hc; [injection E as -> ->; by exists text|by apply H1'].
    + intros name Hn. rewrite H2' by (intros t Hin; apply Hn; by right). apply lookup_insert_ne. intros E. by apply (Hn thread); [left|].
  - destruct (IH d HN) as (files&->&H1'&H2'). eexists. split; [done|]. simpl app. split.
    + intros t ev [E|Hin]%elem_of_cons Hc; [|by apply H1']. injection E as -> ->. by rewrite Hw in Hc.
    + intros name Hn. apply H2'. intros t Hin. apply Hn. by right.
Qed.

(** Threads are kept once they have a call. *)
Lemma callgrind_run_calls evs c c' : map_Forall (fun _ l => l <> []) (_events c) -> callgrind_run evs c = Some c' ->
  map_Forall (fun _ l => l <> []) (_events c').
Proof.
  revert c. induction evs as [|e evs IH]; intros c Hc E; [by injection E as <-|]. cbn [callgrind_run] in E.
  destruct (callgrind_process_event e c) as [c1|] eqn:E1; [|done]. apply (IH c1); [|done]. unfold callgrind_process_event in E1.
  destruct (_get_label e (cg_base c)) as [[[|b l] base]|]; [by simplify_eq/=|cbn [mbind option_bind] in E1|done].
  destruct (get_value_or_default 4 _ _ e); [|done]. destruct (get_value_or_default 8 _ _ e); [|done]. cbn [mbind option_bind] in E1.
  injection E1 as <-. cbn [_events]. apply map_Forall_insert_2; [|done]. by destruct (default [] _).
Qed.

Lemma client_calls_length evs m l : client_calls evs m = Some l -> (length l <= length evs)%nat.
Proof.
  unfold client_calls. destruct (run_labels ref_label evs _) as [[ls s]|] eqn:E; [|done]. cbn [mbind option_bind]. intros Hl%length_mapM.
  apply run_labels_length in E. rewrite <- Hl. unfold labelled. etrans; [apply length_filter|]. rewrite length_zip_with. lia.
Qed.

Lemma of_thread_length thread l : (length (of_thread thread l) <= length l)%nat.
Proof. unfold of_thread. rewrite length_fmap. apply length_filter. Qed.

(** What main leaves in the files, when the calls are [l]. *)
Definition profiles_written (fuel : nat) (out : bytes) (l : list (Z * NodeData)) (d d' : files) : Prop :=
  (forall thread, of_thread thread l <> [] -> can_write (thread_file out thread) = true ->
     exists text, profile_text fuel thread (of_thread thread l) = Done text /\ d' !! thread_file out thread = Some text) /\
  forall name, (forall thread, of_thread thread l <> [] -> name <> thread_file out thread) -> d' !! name = d !! name.

Lemma callgrind_ends fuel out d evs m : (length evs <= fuel)%nat -> Z.of_nat (length evs) <= HT_INT32_MAX ->
  match client_calls evs m with
  | Some l => exists d', profiles_written fuel out l d d' /\
      match foldl (fun c ev => on_new_event ev c) (Some (Callgrind (MkCallgrind (MkConverter m 0) out ∅))) evs with
      | None => Undef
      | Some c =>
          match converter_stop fuel out c d with
          | Done (c, d) => Done (0, converter_delete out c d)
          | Undef => Undef
          | NoFuel => NoFuel
          end
      end = Done (0, d')
  | None => foldl (fun c ev => on_new_event ev c) (Some (Callgrind (MkCallgrind (MkConverter m 0) out ∅))) evs = None
  end.
Proof.
  intros Hf Hn. rewrite converting_callgrind. pose proof (callgrind_keeps_threads evs m out) as K. fold (client_calls evs m) in K.
  destruct (client_calls evs m) as [l|] eqn:El; [|by rewrite K]. destruct K as (c&Ec&En&Ev). rewrite Ec. cbn [fmap option_fmap option_map converter_stop].
  pose proof (callgrind_run_calls evs (MkCallgrind (MkConverter m 0) out ∅) c (map_Forall_empty _) Ec) as Hne.
  assert (Hev : forall thread events, _events c !! thread = Some events -> events = of_thread thread l).
  { intros thread events Ht. by rewrite <- Ev, Ht. }
  destruct (write_threads_files fuel c (elements_of (_events c)) d) as (new&Ew&W1&W2).
  - rewrite elements_of_perm. apply Forall_forall. intros [thread events] Hin. apply elem_of_map_to_list in Hin. rewrite (Hev _ _ Hin).
    pose proof (of_thread_length thread l). pose proof (client_calls_length _ _ _ El). split; cbn [snd]; lia.
  - rewrite elements_of_perm. apply NoDup_fst_map_to_list.
  - exists (write_files new d). unfold callgrind_stop. rewrite Ew. split; [|done]. split.
    + intros thread Hth Hw. specialize (Ev thread). destruct (_events c !! thread) as [events|] eqn:Et; [|by simpl in Ev; rewrite <- Ev in Hth].
      simpl in Ev. subst events. change (thread_file out thread) with (out ++ string_bytes "." ++ to_string thread). rewrite <- En.
      apply W1; [rewrite elements_of_perm; by apply elem_of_map_to_list|]. unfold thread_file_name. by rewrite En.
    + intros name Hname. apply W2. intros thread Hin. rewrite elements_of_perm in Hin. apply list_elem_of_fmap in Hin as ([t events]&->&Hin).
      apply elem_of_map_to_list in Hin. cbn [fst]. unfold thread_file_name. rewrite En. apply Hname. rewrite <- (Hev _ _ Hin). by apply (Hne t).
Qed.

Lemma main_profiles_file depth fuel args d src o out map_files file kl es :
  asks args (string_bytes "callgrind") src o map_files -> d !! src = Some file -> create_output_path o = Some out ->
  deep_enough depth d -> (enough_depth es <= depth)%nat -> (length es < fuel)%nat -> Z.of_nat (length es) <= HT_INT32_MAX ->
  (forall c : option AnyConverter, reads_back _ kl es (open_stream file) c) -> Forall usual es -> announced es ->
  exists evs m l d', Forall2 decodes es evs /\ maps_loaded depth map_files d m /\ client_calls evs m = Some l /\
    main depth fuel args d = Done (0, d') /\ profiles_written fuel out l d d'.
Proof.
  intros A Hf Ho Hd Hdep Hfu Hmax Hr HU Ha. rewrite (main_asks depth fuel _ d _ _ _ _ A).
  unfold make_stream_from_string. cbn [file_contents files_on]. rewrite Hf, Ho, find_format_cases. rewrite decide_True by done.
  destruct (convert_callgrind depth fuel (FileSource src) map_files out d Hd) as (m&Hm&->). unfold run_reader. rewrite Hf.
  pose proof (Hr (Some (Callgrind (MkCallgrind (MkConverter m 0) out ∅))) depth fuel Hdep Hfu) as W. unfold wp in W.
  destruct (start_and_wait _ _ _) as [[[] r]| |]; [|done|done]. destruct W as (_&(evs&HF&El)&_).
  pose proof (Forall2_length _ _ _ HF) as Hlen.
  destruct (conversion_total call_of es evs (length evs) (map_label <$> m) call_of_total HF HU Ha) as [l Hl].
  rewrite take_ge in Hl by done. fold (client_calls evs m) in Hl.
  pose proof (callgrind_ends fuel out d evs m) as En. rewrite Hl in En. destruct En as (d'&Hp&En); [lia|lia|].
  exists evs, m, l, d'. rewrite El. by split_and!.
Qed.

End profiles.

Section file_to_profiles.
  Context `{Malloc} `{Stdio} {E : Type} `{Host E} `{UnorderedMap} `{Sort} `{Desktop} `{CharType}.
  Context (consumer producer : Platform).
  #[local] Existing Instance producer.
  #[local] Existing Instance all_bytes.

(** C9: from the program that is traced to its profiles.  As for the
    document, with the format callgrind: the client exits with code 0, and for
    every thread that has a labelled event, unless it cannot be opened, there
    is a file with the call graph of its calls; building and printing the graphs ends,
    and no other file is changed.  (As there, where wait_for_complete does not miss
    the end of the reader.) *)
Theorem file_to_profiles filename n (ess : list (bool * list pushed)) (w : io_state E) B K F Y ps kl :
  io_wf w -> metadata_ready (io_sys w) B K F Y ps -> FileDump.reliable -> 0 < n ->
  Forall (batch_ok (klasses (io_sys w)) n) (batches_of ess) -> traceable producer (io_sys w) ps kl (events_in ess) -> Forall usual (events_in ess) ->
  wp (file_dump_lifetime filename n (FdBatch <$> batches_of ess)) (fun r w' =>
    match r with
    | inl err => err = HT_ERR_OUT_OF_MEMORY \/ err = HT_ERR_CANT_OPEN_FILE
    | inr _ => exists meta file ch, metadata_events (io_sys w) ps meta /\ disk w' !! filename = Some ch /\ concat ch = Byte <$> file /\
        forall d args src o out map_files depth fuel,
          d !! src = Some file -> asks args (string_bytes "callgrind") src o map_files -> create_output_path o = Some out -> deep_enough depth d ->
          (enough_depth (meta ++ events_in ess) <= depth)%nat -> (length (meta ++ events_in ess) < fuel)%nat ->
          Z.of_nat (length (meta ++ events_in ess)) <= HT_INT32_MAX ->
          exists evs m l d', Forall2 decodes (meta ++ events_in ess) evs /\ maps_loaded depth map_files d m /\
            @client_calls consumer evs m = Some l /\ @main consumer _ _ _ _ depth fuel args d = Done (0, d') /\ profiles_written fuel out l d d'
    end) w.
Proof.
  intros Wf MR Hrel Hn HF T HU. eapply wp_mono; [by eapply file_spec|].
  intros [err|[]] w'; [done|]. intros (meta&ch&Hev&Hok&Hd&Hc). exists meta, (stream_bytes (meta ++ events_in ess)), ch. split_and!; [done..|].
  intros d args src o out map_files depth fuel Hf A Ho Hdeep Hdep Hfu Hmax.
  pose proof (traceable_traced _ _ _ _ _ _ depth T Hev Hok Hdep) as Tr.
  apply (@main_profiles_file consumer _ _ _ _ depth fuel args d src o out map_files (stream_bytes (meta ++ events_in ess)) kl (meta ++ events_in ess)); try done.
  - intros c. eapply (traced_reads_back consumer producer (io_sys w) ps); [exact T|exact Hev|exact Hok|by split].
  - exact (trace_usual _ _ _ _ _ _ _ Tr HU).
  - exact (trace_announced _ _ _ _ _ _ _ Tr HU).
Qed.

End file_to_profiles.

(** ** Writing the output over the source *)

Section overwriting.
  Context `{Platform} `{UnorderedMap} `{Sort} `{Desktop} `{CharType}.
  #[local] Existing Instance all_bytes.

(** The output file is truncated before the source is opened: when they are
    the same file, the trace is lost, and the exit code is 0. *)
Theorem output_over_source depth fuel args d src o file map_files :
  asks args (string_bytes "chrome-tracing") src o map_files -> d !! src = Some file -> create_output_path o = Some src ->
  can_write src = true -> (0 < depth)%nat -> (0 < fuel)%nat -> deep_enough depth d ->
  main depth fuel args d = Done (0, <[src := empty_document]> d).
Proof.
  intros A Hf Ho Hw Hp Hfu Hd. rewrite (main_asks depth fuel _ d _ _ _ _ A).
  unfold make_stream_from_string. cbn [file_contents files_on]. rewrite Hf, Ho, find_format_cases. rewrite decide_False by done. rewrite decide_True by done.
  destruct (convert_chrome depth fuel (FileSource src) map_files src d Hw Hp Hd) as (m&Hm&->). unfold run_reader. rewrite lookup_insert_eq.
  set (r0 := new_reader KlassRegister (open_stream []) true (Some (Chrome (chrome_opened m)))).
  pose proof (read_one_end depth (set_running true r0) ltac:(reflexivity) Hp ltac:(by split)) as W. unfold wp in W.
  destruct fuel as [|fuel]; [lia|]. unfold start_and_wait, _read_events. cbn [read_events_loop].
  unfold mbind, st_bind, modify, running_of, gets. cbn [_is_running set_running]. fold (set_running true r0).
  destruct (read_one depth (set_running true r0)) as [[more r1]| |]; [|done|done]. destruct W as [-> ->].
  cbn. by rewrite insert_insert_eq.
Qed.

(** A name of 128 bytes or more does not fit the buffer for it, whose contents
    are then unknown. *)
Theorem long_output_undefined depth fuel args d f s o m :
  asks args f s o m -> is_Some (@make_stream_from_string (files_on d) s) -> 37 ∉ o -> (128 <= length o)%nat ->
  main depth fuel args d = Undef.
Proof.
  intros A [src Hs] Ho Hl. rewrite (main_asks depth fuel _ d _ _ _ _ A), Hs. unfold create_output_path.
  by rewrite strftime_plain, decide_False by (done || lia).
Qed.

End overwriting.

(** ** Waiting for the reader *)










(** ** Runs of the client *)

Section samples.

#[local] Existing Instance always_granted.
#[local] Existing Instance log_host.
#[local] Existing Instance log_logged.
#[local] Existing Instance big_endian.
#[local] Existing Instance map_order.
#[local] Existing Instance good_disk.
#[local] Existing Instance one_client.
#[local] Existing Instance silent_client.
#[local] Existing Instance all_bytes.

#[local] Instance x86_char : CharType := {| char_is_signed := true |}.

(** A desktop on which every file can be written; the time formats expand to
    nothing, servers answer the third attempt, send [datas] and then do nothing
    more until the client stops, and Enter is hit after two events. *)
#[local, refine] Instance desktop_with (datas : TcpClient.chunks) : Desktop := {|
  can_write _ := true;
  strftime_now path := if decide (37 ∈ path) then [] else path;
  socket_fd := 3;
  connect_answer _ _ n := if decide (n < 2)%nat then -1 else 0;
  connection_to _ _ := MkConnection datas false true;
  enter_after := 2
|}.
Proof. intros path Hp. by rewrite decide_False. Defined.

#[local] Instance sample_desktop : Desktop := desktop_with [].

Definition sample_args : list bytes := string_bytes <$> ["--source"; "trace"; "--output"; "out.json"]%string.

Definition client_sample_bytes : list memval :=
  match ht_timeline_listener_push_metadata 100 1 true ready_sys with
  | Done (_, s) => concat (received 1 (senv s)).*1 ++ (Byte <$> pbytes main_event)
  | _ => []
  end.

Definition byte_of (v : memval) : Z := match v with Byte b => b | _ => 0 end.

(** The trace of a big-endian machine with one call, converted on a
    little-endian one. *)
Definition sample_disk : files := {[ string_bytes "trace" := byte_of <$> client_sample_bytes ]}.

Lemma client_sample :
  @main little_endian _ _ _ _ 3000 100 sample_args sample_disk =
    Done (0, <[string_bytes "out.json" := document [json_event (string_bytes "main") 1 0 3 []]]> sample_disk).
Proof. vm_compute. reflexivity. Qed.

Definition sample_items : list item :=
  [Setting (string_bytes "source") (string_bytes "trace"); Setting (string_bytes "output") (string_bytes "out.json")].

Lemma sample_items_ok : Forall (item_ok client_options) sample_items.
Proof. repeat constructor; try done; eexists; split; reflexivity. Qed.

Lemma sample_asks : asks sample_args (string_bytes "chrome-tracing") (string_bytes "trace") (string_bytes "out.json") [].
Proof. exists sample_items. split; [reflexivity|]. split; [apply sample_items_ok|reflexivity..]. Qed.

Definition tcp_args : list bytes := string_bytes <$> ["--source"; "127.0.0.1"; "--output"; "out.json"]%string.

Lemma tcp_asks : asks tcp_args (string_bytes "chrome-tracing") (string_bytes "127.0.0.1") (string_bytes "out.json") [].
Proof.
  exists [Setting (string_bytes "source") (string_bytes "127.0.0.1"); Setting (string_bytes "output") (string_bytes "out.json")].
  split; [reflexivity|]. split; [|reflexivity..]. repeat constructor; try done; eexists; split; reflexivity.
Qed.

(** A misspelt option; and a server that has not answered two attempts. *)
Lemma client_fails_exactly_witness :
  (@main little_endian _ _ _ _ 1 2 [string_bytes "--sorce"] ∅ = Done (1, ∅) /\ refuses [string_bytes "--sorce"] ∅ ∅) /\
  @main little_endian _ _ _ _ 1 2 tcp_args ∅ = NoFuel.
Proof.
  split.
  - assert (@main little_endian _ _ _ _ 1 2 [string_bytes "--sorce"] ∅ = Done (1, ∅)) as Em by (vm_compute; reflexivity).
    split; [exact Em|]. apply (@client_fails_exactly little_endian _ _ _ _ 1 2 [string_bytes "--sorce"] ∅); [lia| |exact Em].
    apply map_Forall_empty.
  - apply (proj2 (@client_fails_exactly little_endian _ _ _ _ 1 2 tcp_args ∅ ltac:(lia) (map_Forall_empty _)) (string_bytes "chrome-tracing")
      (string_bytes "127.0.0.1") (string_bytes "out.json") [] (string_bytes "out.json") (string_bytes "127.0.0.1") 8765).
    + apply tcp_asks.
    + reflexivity.
    + reflexivity.
    + by right.
    + by vm_compute.
    + intros (n&Hn&Ha). cbn in Ha. by rewrite decide_True in Ha by lia.
Defined.

Lemma main_event_usual : usual main_event.
Proof. split; try (vm_compute; exact I); vm_compute; discriminate || lia. Qed.

Lemma sample_usual : Forall usual (events_in sample_batches).
Proof. rewrite sample_events. pose proof main_event_usual. by repeat constructor. Qed.

(** The trace in a file of the client's, and recursion deep enough for it. *)
Definition traced_disk (file : bytes) : files := {[ string_bytes "trace" := file ]}.

Definition sample_depth (file : bytes) (es : list pushed) : nat := S (Nat.max (length file) (enough_depth es)).

Lemma traced_disk_deep file es : deep_enough (sample_depth file es) (traced_disk file).
Proof. apply map_Forall_singleton. unfold sample_depth. lia. Qed.

Lemma file_to_document_witness :
  wp (file_dump_lifetime [102] 64 (FdBatch <$> batches_of sample_batches)) (fun r w' =>
    match r with
    | inl err => err = HT_ERR_OUT_OF_MEMORY \/ err = HT_ERR_CANT_OPEN_FILE
    | inr _ => exists meta file ch evs m text, let es := meta ++ events_in sample_batches in
        disk w' !! [102] = Some ch /\ concat ch = Byte <$> file /\ Forall2 decodes es evs /\
        @chrome_text little_endian _ evs m = Some text /\
        @main little_endian _ _ _ _ (sample_depth file es) (S (length es)) sample_args (traced_disk file) =
          Done (0, <[string_bytes "out.json" := text]> (traced_disk file))
    end) sample_io.
Proof.
  eapply wp_mono; [apply (file_to_document little_endian big_endian [102] 64 sample_batches sample_io (registered HT_EndiannessInfoEvent 0)
           (registered HT_EventKlassInfoEvent 2) (registered HT_EventKlassFieldInfoEvent 3) (registered HT_SystemInfoEvent 8)
           [1; 2; 3; 4; 5; 6; 7; 8; 9] core_table)|].
  - exact sample_io_wf.
  - exact ready_sys_metadata.
  - intros k len. apply le_n.
  - reflexivity.
  - apply (sample_batches_ok 64). discriminate.
  - exact file_traceable.
  - exact sample_usual.
  - intros [err|[]] w'; [done|]. intros (meta&file&ch&_&Hd&Hc&Hmain). set (es := meta ++ events_in sample_batches) in *.
    destruct (Hmain (traced_disk file) sample_args (string_bytes "trace") (string_bytes "out.json") (string_bytes "out.json") []
      (sample_depth file es) (S (length es))) as (evs&m&text&HF&_&Ht&Em);
      [apply lookup_singleton_eq|apply sample_asks|reflexivity|reflexivity|discriminate|apply traced_disk_deep|unfold sample_depth; lia|lia|].
    exists meta, file, ch, evs, m, text. split_and!; assumption.
Defined.

Definition callgrind_args : list bytes := string_bytes <$> ["--source"; "trace"; "--output"; "out"; "--format"; "callgrind"]%string.

Definition callgrind_items : list item :=
  [Setting (string_bytes "source") (string_bytes "trace"); Setting (string_bytes "output") (string_bytes "out");
   Setting (string_bytes "format") (string_bytes "callgrind")].

Lemma callgrind_asks : asks callgrind_args (string_bytes "callgrind") (string_bytes "trace") (string_bytes "out") [].
Proof.
  exists callgrind_items. split; [reflexivity|]. split; [|reflexivity..]. repeat constructor; try done; eexists; split; reflexivity.
Qed.

(** The profile of the one thread of the sample. *)
Lemma callgrind_sample :
  match @main little_endian _ _ _ _ 3000 100 callgrind_args sample_disk with
  | Done (code, d) => code = 0 /\ d !! string_bytes "out.3" = Some (thread_head 3 ++
      string_bytes "fn=main()" ++ newline ++ string_bytes "1 250" ++ newline)
  | _ => False
  end.
Proof. vm_compute. split; reflexivity. Qed.

Lemma file_to_profiles_witness :
  wp (file_dump_lifetime [102] 64 (FdBatch <$> batches_of sample_batches)) (fun r w' =>
    match r with
    | inl err => err = HT_ERR_OUT_OF_MEMORY \/ err = HT_ERR_CANT_OPEN_FILE
    | inr _ => exists meta file ch, let es := meta ++ events_in sample_batches in
        disk w' !! [102] = Some ch /\ concat ch = Byte <$> file /\ (Z.of_nat (length es) <= HT_INT32_MAX -> exists evs m l d',
          Forall2 decodes es evs /\ @client_calls little_endian evs m = Some l /\
          @main little_endian _ _ _ _ (sample_depth file es) (S (length es)) callgrind_args (traced_disk file) = Done (0, d') /\
          profiles_written (S (length es)) (string_bytes "out") l (traced_disk file) d')
    end) sample_io.
Proof.
  eapply wp_mono; [apply (file_to_profiles little_endian big_endian [102] 64 sample_batches sample_io (registered HT_EndiannessInfoEvent 0)
           (registered HT_EventKlassInfoEvent 2) (registered HT_EventKlassFieldInfoEvent 3) (registered HT_SystemInfoEvent 8)
           [1; 2; 3; 4; 5; 6; 7; 8; 9] core_table)|].
  - exact sample_io_wf.
  - exact ready_sys_metadata.
  - intros k len. apply le_n.
  - reflexivity.
  - apply (sample_batches_ok 64). discriminate.
  - exact file_traceable.
  - exact sample_usual.
  - intros [err|[]] w'; [done|]. intros (meta&file&ch&_&Hd&Hc&Hmain). set (es := meta ++ events_in sample_batches) in *.
    exists meta, file, ch. split; [done|]. split; [done|]. intros Hmax.
    destruct (Hmain (traced_disk file) callgrind_args (string_bytes "trace") (string_bytes "out") (string_bytes "out") []
      (sample_depth file es) (S (length es))) as (evs&m&l&d'&HF&_&Hl&Em&Hp);
      [apply lookup_singleton_eq|apply callgrind_asks|reflexivity|apply traced_disk_deep|unfold sample_depth; lia|lia|exact Hmax|].
    exists evs, m, l, d'. split_and!; assumption.
Defined.

(** All bytes in one chunk. *)
Definition one_chunk (l : bytes) : TcpClient.chunks := match l with [] => [] | _ => [(0%nat, l)] end.

Lemma one_chunk_ok l : queue_ok (one_chunk l) /\ unread (one_chunk l) = l.
Proof.
  destruct l as [|b l]; [split; [by apply Forall_nil|done]|]. split; [apply Forall_singleton; simpl; lia|]. unfold unread, one_chunk. simpl.
  by rewrite app_nil_r.
Qed.

Lemma metadata_two `{Platform} {E} (s : sys E) ps meta : metadata_events s ps meta -> (2 <= length meta)%nat.
Proof. intros (b&ess&y&->&_). cbn [length]. rewrite length_app. simpl. lia. Qed.

Lemma connection_to_document_witness : exists w, tl_rep w [] [] /\
  wp (tcp_listener_accept;; pushes (batches_of sample_batches)) (fun _ w' => exists meta k bytes evs m text,
    let es := meta ++ events_in (take k sample_batches) in
    sent_to 5 (tw_net w') = Byte <$> bytes /\ Forall2 decodes es evs /\ @chrome_text little_endian _ (take 2 evs) m = Some text /\
    @main little_endian _ _ (desktop_with (one_chunk bytes)) _ (enough_depth es) 3 tcp_args ∅ =
      Done (0, <[string_bytes "out.json" := text]> ∅)) w.
Proof.
  destruct (wp_inv _ _ _ (listener_create_spec 8765 64 before_listener always_generous
    ltac:(by intros n fd port) ltac:(lia) ready_sys_wf)) as (?&w0&_&_&[R Hsz _ [Ek _ Er _ _] Hlive Hmx Hd Hidle]).
  set (w := TcpWorld (tw_net w0) (tl_set_callback (NULL, NULL) (tw_listener w0)) (tw_log w0) (tw_joining w0)).
  assert (tl_rep w [] []) as Rw by (by destruct R; split). exists w. split; [exact Rw|].
  assert (klasses (net_sys (tw_net w)) = klasses ready_sys) as Ekw by exact Ek.
  eapply wp_mono; [apply (@connection_to_document _ _ _ _ _ _ _ x86_char little_endian big_endian w [] 5 sample_batches (registered HT_EndiannessInfoEvent 0)
           (registered HT_EventKlassInfoEvent 2) (registered HT_EventKlassFieldInfoEvent 3) (registered HT_SystemInfoEvent 8)
           [1; 2; 3; 4; 5; 6; 7; 8; 9] core_table)|].
  - exact Rw.
  - split; try done; [exact always_generous|apply not_elem_of_nil|intros n len Hlen; simpl; lia].
  - unfold sent_to. change (delivered (tw_net w)) with (delivered (tw_net w0)). by rewrite Hd.
  - eapply (metadata_ready_mono ready_sys); [exact ready_sys_metadata|done..].
  - rewrite Ekw. change (buffer_size w) with (buffer_size w0). rewrite Hsz. apply (sample_batches_ok 64). discriminate.
  - destruct ascii_traceable as [A1 A2 A3 A4 A5 A6 A7 A8]. rewrite <- Ekw in A1, A4, A7. by split.
  - exact sample_usual.
  - intros _ w' (meta&k&bytes&Hev&Hsent&Hmain). exists meta, k, bytes. destruct (one_chunk_ok bytes) as [Hq Hu].
    set (es := meta ++ events_in (take k sample_batches)) in *.
    pose proof (Hmain (desktop_with (one_chunk bytes)) (string_bytes "127.0.0.1") 8765 ∅ tcp_args (string_bytes "127.0.0.1")
      (string_bytes "out.json") (string_bytes "out.json") [] (enough_depth es) 3%nat) as Hm. cbv zeta in Hm. fold es in Hm.
    assert (2 <= length es)%nat as Hlen by (pose proof (metadata_two _ _ _ Hev); unfold es; rewrite length_app; lia).
    change (recv_ends (connection_to _ _)) with true in Hm. change (end_seen (connection_to _ _)) with false in Hm.
    change (@enter_after (desktop_with (one_chunk bytes))) with 2%nat in Hm. rewrite bool_decide_eq_true_2 in Hm by exact Hlen.
    destruct Hm as (evs&m&text&HF&_&Ht&Em); [exact Hq|exact Hu|by vm_compute|exists 2%nat; by split; [lia|]|apply tcp_asks|reflexivity|reflexivity|reflexivity|
      apply map_Forall_empty|lia|].
    exists evs, m, text. split_and!; assumption.
Defined.

End samples.
